(* ===== verification/_CoqProject ===== *)
-Q . S2P
Prelude.v
GoStd.v
Decimal.v
GoJson.v
JsonProps.v
GoTime.v
Demo.v
WalletModels.v
WalletStore.v
WalletLedger.v
WalletProps.v
Xcash.v
XcashProps.v
Rates.v
RateProviders.v
WalletService.v
WalletServer.v
WalletSafetyProps.v
OddsModels.v
OddsStore.v
Normalizer.v
OddsService.v
OddsProps.v
OddsSteps.v
OddsIntegrity.v
OddsSyncProps.v
OddsServer.v
Azuro.v
AzuroProps.v
MockProvider.v
LiveWorker.v
LiveWorkerProps.v
BetStore.v
BetStoreProps.v
BetService.v
BetLifecycle.v
BetServiceProps.v
SettlementProps.v
BetServer.v
SystemProps.v
OddsClient.v
SettleSystem.v
RateLimit.v
RatesProps.v
Middleware.v
MiddlewareProps.v
Gateway.v
GatewayProps.v
GatewayHttpProps.v
Config.v
Sql.v
TxProg.v
WalletPg.v
WalletPgLedger.v
WalletPgOps.v
WalletPgProps.v
WalletPgRefine.v
WalletTx.v
TxConc.v
WalletConc.v
WalletConcOps.v
WalletConcReviews.v
WalletConcProps.v
BetPg.v
BetPgProps.v
OddsPg.v
OddsPgProps.v
FeedProg.v
FeedConc.v
FeedConcSafe.v
FeedConcProps.v
Auth.v
AuthProps.v
Startup.v
StartupProps.v
BetProg.v
BetConc.v
BetConcSafe.v
BetConcProps.v
Privacy.v
