(* ===== verification/Prelude.v ===== *)
(** * BetMonster: a verification development

    BetMonster is a betting platform of four Go programs.  The _gateway_ (HTTP) checks
    tokens, limits and rates and calls the three others over gRPC; the _wallet_ keeps
    balances and their ledger, takes deposits from the payment provider xcash by webhook
    and quotes exchange rates; the _odds feed_ copies sports, events, markets and odds
    from providers (Azuro, a mock) into its store and emits change events; the
    _sportsbook_ takes stakes out of the wallet, keeps bets and settles them by the odds
    feed.  Each service has an in-memory store and a Postgres store behind one interface.

    ** How the code is modelled

    A Go function over mutable state [S] is a value of [M S A] (this file): from a world,
    the state and a tick, to a result and a world.  A result is a value, an error
    ([goerr], with wrapping and identity as [errors.Is] sees them) or a panic; on an error
    the state reached so far stays.  Time, fresh UUIDs and the order of [range] over a map
    are functions of the tick ([GoEnv]), so nothing is assumed about them but what
    [GoEnvLaws] says.  [int], [int32] and [int64] are [Z] with the wrap-around written out
    where the code computes with them.  Components sit in a larger state by a [Lens];
    [outside] is the promise of a call not to touch a component.

    ** The files, and what they model under src/

    - Language and libraries: Prelude (errors, the monad, loops), GoStd (strings,
      strconv, slices), GoTime (RFC 3339), GoJson and JsonProps (encoding/json), Decimal
      (shopspring/decimal: laws, and a fixed-point instance), Sql (transactions of
      database/sql over PostgreSQL, one after the other), TxProg (transactions as programs of
      statements, handlers as programs of calls), TxConc (transactions side by side), Demo (a
      concrete [GoEnv] for witnesses).
    - Wallet, internal/wallet: WalletModels (models.go, decimal.go, store.go), WalletStore
      (memory_store.go), WalletPg (pgstore.go and its migrations), WalletTx and WalletConc
      (its transactions as programs, and what they lock), Xcash (xcash/), Rates and
      RateProviders (rates/), WalletService (service.go), WalletServer (server.go).
    - Odds feed, internal/oddsfeed: OddsModels (models.go, provider.go, store.go),
      OddsStore (memory_store.go), OddsPg (pgstore.go and its migration), Normalizer
      (normalizer.go), OddsService (service.go, cache.go, events.go, scheduler.go),
      OddsServer (server.go), Azuro and MockProvider (providers/), LiveWorker
      (websocket.go and the providers' SubscribeLive, as interleaved steps), FeedProg and
      FeedConc (synchronisations and updates as programs, side by side, with their mutex).
    - Sportsbook, internal/sportsbook: BetStore (models.go, decimal.go, memory_store.go),
      BetPg (pgstore.go), BetService (service.go, scheduler.go), BetServer (server.go,
      clients.go), BetProg and BetConc (its requests as programs, side by side), OddsClient
      (the odds feed's server behind clients.go).
    - Gateway, internal/gateway: RateLimit (limits.go, ratelimit.go), Gateway
      (server.go and the clients); internal/shared/server: Middleware; internal/auth: Auth
      (jwks.go); internal/shared/config: Config; cmd/: Config (what the programs are built
      from) and Startup (the calls they make, in order).

    Definitions carry the Go names; a method [T.m] is [T_m].

    ** What the theorems show

    - Money: WalletLedger, WalletProps (in-memory) and WalletPgLedger, WalletPgOps,
      WalletPgProps (Postgres): a balance is the sum of the wallet's ledger entries, is
      never overdrawn, a reference is booked once, withdrawals are reviewed once and
      refunded exactly.  For Postgres this holds whatever statements fail and whichever
      confirmations of commits get lost, and retries are safe.  Its columns round to eight
      decimals: the class [Slack] (WalletPgLedger) states the ledger with nothing to spare,
      for runs whose amounts have at most eight decimals, and with one unit of the last place
      for each entry, for all others.  WalletPgRefine: on such amounts, and currencies without
      a colon, opening, crediting and debiting are those of the in-memory store.  WalletTx,
      WalletConcOps,
      WalletConcReviews, WalletConcProps: the same for any number of sessions side by side,
      every call takes effect once and in one step or not at all, and no deadlock.
      WalletSafetyProps, XcashProps: balances, webhooks, who may move money, replays.
    - Bets: BetStoreProps (references, pages), BetPgProps (the table refines the in-memory
      store), BetLifecycle and BetServiceProps (the functional behaviour of placing and
      settling, the life cycle), SettlementProps (the settlement loop ends, and what one
      run settles), SystemProps (a stake is a ledger entry, across the gRPC boundary),
      SettleSystem (sportsbook, wallet and odds feed together: bets are struck at stored
      odds; the scheduler settles them by stored outcomes, each payment one ledger entry,
      and leaves no decided bet pending when it has ticks enough).  Those theorems run one request at a time;
      BetConcProps interleaves any number of them, with failing calls and lost answers:
      what the history of bets can be, that stakes are taken once, what is paid, and two
      races that pay wrongly.  That the programs run there and in WalletConcProps are, run
      alone, the operations of the service and of the store is a lemma of BetProg and WalletTx.
    - Odds: OddsProps (normalized snapshots refer only to themselves), OddsSteps (the
      service over any store that keeps its references, the class [IntegralStore], and what a
      store holds, the class [Contents]: a snapshot is stored with all fields and nothing else
      changes), OddsIntegrity and OddsPgProps (the two stores are instances), OddsSyncProps (what a
      synchronisation asks for, what an update changes), AzuroProps, LiveWorkerProps.
      FeedConcSafe and FeedConcProps: any interleaving of synchronisations and updates, with
      failing calls and lost answers, over either store, keeps the feed's integrity and loses
      no record, and the mutex lets one synchronisation in at a time; and two runs in which
      odds go wrong all the same.
    - Gateway: GatewayProps (access control for every request, the rate bound, the
      configuration), MiddlewareProps and GatewayHttpProps (what a client receives, and that
      its request is counted and logged once), Privacy (whose data a reply shows, through the
      wallet and the sportsbook), AuthProps (whose requests are believed),
      RatesProps (rounding, outages, limits).
    - Programs: StartupProps (no service serves before its schema is up to date).

    ** Parameters, and what they assume

    Code that is not in the repository is a class or a variable: [Decimal] and its laws,
    [Hmac], [RedisLink], [RedisHash], [NatsConn], [HttpTransport], [GrpcText], [Limiter]
    (x/time/rate), [UuidSHA1], [JwtLib] (jwx), [WsConn] (gorilla/websocket), [FloatText],
    [Prometheus], [Os] (what the calls of a starting program answer), [SqlFaults] (what
    fails, and when), [PgTypes] and [OddsPgTypes] (how columns read parameters).
    [uuid_laws] idealises name-based UUIDs as free of collisions.  [honest] (FeedConcSafe)
    says of a provider that it leaves the store alone, puts its name on what it fetches and,
    asked for conditions, answers markets of events of its hierarchy; the repository's two
    providers are instances, Azuro's when its endpoint answers for no other games.  Every theorem that uses such a law has a witness over a concrete
    instance.

    ** Bounds and fuel

    The settlement loops take fuel; one page for each hundred pending bets and one more is
    enough (SettlementProps), and running out is a panic of its own, so no theorem holds
    for want of fuel.  The JSON parser takes the length of its input.  The back-off of the
    live worker is bounded below 2^62 nanoseconds, so that doubling does not wrap.

    ** PostgreSQL

    A statement is a function on the tables with the CHECK, UNIQUE and FOREIGN KEY
    constraints of the migrations.  In Sql transactions run one after the other; a statement
    can fail, and a commit can be lost or unconfirmed, at any tick.  In TxConc they are
    interleaved at READ COMMITTED: a statement sees what is committed at its moment under
    its own transaction's writes and waits for the row locks and index entries of others.
    What the server refuses because of a text's bytes (a NUL, invalid UTF-8) counts as such a
    failure; a query that breaks off after some rows counts as failed.

    ** Not modelled

    Data races.  Concurrent requests, but for the wallet's transactions, the sportsbook's
    requests, the odds feed's synchronisations and updates and the live worker: the other
    handlers run alone.  When a ticker fires: a scheduler is given the list of the ticks that
    it takes.  Dialing and closing connections beyond the calls in Startup; histogram buckets
    and the text of logs; texts that are not valid UTF-8, which encoding/json and protobuf
    replace or refuse; the generated protobuf code, whose messages are records; the
    redirects of [http.ServeMux]; the web application in app/, which is not Go.

    ** What could be added

    The scheduler of SettleSystem over the Postgres stores, and next to new requests; the
    in-memory stores' mutexes call by call. *)

From Stdlib Require Export ZArith QArith Lqa Lia Ascii Sorted.
From stdpp Require Export base strings gmap list numbers.

#[global] Set Default Goal Selector "!".
Open Scope string_scope.
Open Scope list_scope.
Open Scope stdpp_scope.
Open Scope Z_scope.

(** ** Go errors *)

(** The gRPC status codes the repository uses. *)
Inductive Code : Type :=
| InvalidArgument
| NotFound
| AlreadyExists
| PermissionDenied
| FailedPrecondition
| Internal
| Unauthenticated
| Unavailable
| Unknown.

#[export] Instance Code_eq_dec : EqDecision Code.
Proof. solve_decision. Defined.

(** A Go [error] value.  [ErrVar] is a package-level variable ([errors.New] in a
    [var] block): its identity is its qualified name.  [ErrNew] is an error made at
    the call site, which is identical to no variable.  [ErrWrap] is
    [fmt.Errorf("prefix: %w", err)].  [ErrStatus] is [status.Error(code, msg)]. *)
Inductive goerr : Type :=
| ErrNew (msg : string)
| ErrVar (name msg : string)
| ErrWrap (prefix : string) (err : goerr)
| ErrStatus (c : Code) (msg : string).

#[export] Instance goerr_eq_dec : EqDecision goerr.
Proof. solve_decision. Defined.

(** [errors.Is(err, target)] for a package-level [target]: walk the [%w] chain. *)
Fixpoint errors_Is (err target : goerr) : bool :=
  bool_decide (err = target) ||
  match err with
  | ErrWrap _ e => errors_Is e target
  | _ => false
  end.

(** A Go call either returns a value, returns an error, or panics. *)
Inductive res (A : Type) : Type :=
| Ok (a : A)
| Err (e : goerr)
| Panic (msg : string).
Arguments Ok {A} a.
Arguments Err {A} e.
Arguments Panic {A} msg.

#[export] Instance res_ret : MRet res := fun A a => Ok a.
#[export] Instance res_bind : MBind res := fun A B f r =>
  match r with Ok a => f a | Err e => Err e | Panic m => Panic m end.
#[export] Instance res_fmap : FMap res := fun A B f r => r ≫= fun a => mret (f a).
#[export] Instance res_throw : MThrow goerr res := fun A e => Err e.

(** [fmt.Errorf("prefix: %w", err)] on the error path, the value unchanged. *)
Definition wrap_res {A} (prefix : string) (r : res A) : res A :=
  match r with Ok a => Ok a | Err e => Err (ErrWrap prefix e) | Panic m => Panic m end.

(** ** The run-time environment

    What the operating system and the Go runtime decide: the UUIDs handed out by
    [uuid.NewString()], the readings of [time.Now()] and the order in which [range]
    visits a map, all three indexed by a tick that every draw increments, so that
    two draws are never forced to agree; the environment variables; the text of a
    time in its location, and back; and the order [sort.Slice], which is not stable,
    gives to elements that compare equal. *)
Class GoEnv : Type := {
  uuid_at : nat -> string;
  time_at : nat -> Z;
  range_at : forall {V : Type}, nat -> gmap string V -> list (string * V);
  Getenv : string -> string;
  FormatRFC3339 : Z -> string;
  ParseRFC3339 : string -> res Z;
  sort_Slice : forall {A : Type}, (A -> A -> bool) -> list A -> list A;
}.

(** What the code relies on: [range] visits every entry exactly once, version-4 UUIDs
    are pairwise distinct and not empty, and [sort.Slice] sorts by a strict weak order:
    no element is less than an earlier one. *)
Class GoEnvLaws (E : GoEnv) : Prop := {
  range_perm : forall V t (m : gmap string V), range_at t m ≡ₚ map_to_list m;
  uuid_inj : forall i j, uuid_at i = uuid_at j -> i = j;
  uuid_nonempty : forall i, uuid_at i <> "";
  sort_perm : forall A (less : A -> A -> bool) l, sort_Slice less l ≡ₚ l;
  sort_sorted : forall A (less : A -> A -> bool) l,
    (forall x y, less x y = true -> less y x = false) ->
    (forall x y z, less y x = false -> less z y = false -> less z x = false) ->
    Sorted (fun x y => less y x = false) (sort_Slice less l);
}.

(** The zero value of [time.Time]; a [time.Time] is a number of nanoseconds. *)
Definition time_zero : Z := 0.
Definition IsZero (t : Z) : bool := bool_decide (t = time_zero).

(** ** The state-and-error monad

    [M S A] runs a Go function over the mutable state [S].  On the error path the
    state reached so far is kept, as in Go: nothing is rolled back. *)
Record World (S : Type) : Type := mkWorld { w_tick : nat; w_st : S }.
Arguments mkWorld {S} w_tick w_st.
Arguments w_tick {S} _.
Arguments w_st {S} _.

Definition M (S A : Type) : Type := World S -> res A * World S.

#[export] Instance M_ret S : MRet (M S) := fun A a w => (Ok a, w).
#[export] Instance M_bind S : MBind (M S) := fun A B f m w =>
  match m w with
  | (Ok a, w') => f a w'
  | (Err e, w') => (Err e, w')
  | (Panic p, w') => (Panic p, w')
  end.
#[export] Instance M_throw S : MThrow goerr (M S) := fun A e w => (Err e, w).

Section Operations.
Context {S : Type}.

Definition get : M S S := fun w => (Ok (w_st w), w).
Definition put (s : S) : M S unit := fun w => (Ok tt, mkWorld (w_tick w) s).
Definition modify (f : S -> S) : M S unit :=
  fun w => (Ok tt, mkWorld (w_tick w) (f (w_st w))).
Definition panic {A} (msg : string) : M S A := fun w => (Panic msg, w).

(** The pair [(v, err)] of a call as a value, for code that inspects [err]. *)
Definition attempt {A} (m : M S A) : M S (res A) := fun w =>
  match m w with
  | (Panic p, w') => (Panic p, w')
  | (r, w') => (Ok r, w')
  end.

Definition of_res {A} (r : res A) : M S A := fun w => (r, w).

(** [if err != nil { return fmt.Errorf("prefix: %w", err) }] *)
Definition wrapped {A} (prefix : string) (m : M S A) : M S A := fun w =>
  let (r, w') := m w in (wrap_res prefix r, w').

(** [_ = call()]: the error is dropped. *)
Definition ignore {A} (m : M S A) : M S unit :=
  attempt m ≫= fun _ => mret tt.

Definition tick : M S nat := fun w =>
  (Ok (w_tick w), mkWorld (Datatypes.S (w_tick w)) (w_st w)).

Context `{E : GoEnv}.
Definition new_uuid : M S string := t ← tick; mret (uuid_at t).
Definition time_now : M S Z := t ← tick; mret (time_at t).
Definition range {V} (m : gmap string V) : M S (list (string * V)) :=
  t ← tick; mret (range_at t m).
End Operations.

Lemma ignore_snd {S A} (m : M S A) (w : World S) : (ignore m w).2 = (m w).2.
Proof.
  unfold ignore, attempt, mbind, M_bind, mret, M_ret. by destruct (m w) as [[?|?|?] ?].
Qed.

Lemma attempt_snd {S A} (m : M S A) (w : World S) : (attempt m w).2 = (m w).2.
Proof. unfold attempt. by destruct (m w) as [[?|?|?] ?]. Qed.
Lemma wrapped_snd {S A} p (m : M S A) (w : World S) : (wrapped p m w).2 = (m w).2.
Proof. unfold wrapped. by destruct (m w). Qed.

Lemma then_snd {S A B} (m : M S A) (f : A -> M S B) (w : World S) :
  (forall a w, (f a w).2 = w) -> ((m ≫= f) w).2 = (m w).2.
Proof. intros Hf. unfold mbind, M_bind. destruct (m w) as [[a|e|p] w']; [apply Hf|done..]. Qed.

Lemma bind_assoc {S A B C} (m : M S A) (f : A -> M S B) (g : B -> M S C) (w : World S) :
  ((m ≫= f) ≫= g) w = (m ≫= fun x => f x ≫= g) w.
Proof. unfold mbind, M_bind. by destruct (m w) as [[a|e|p] w']. Qed.

(** [for _, x := range xs { body(x) }] whose body may return an error. *)
Fixpoint for_each {S A} (xs : list A) (body : A -> M S unit) : M S unit :=
  match xs with
  | [] => mret tt
  | x :: xs => body x ;; for_each xs body
  end.

(** Time passes, measured in readings of the clock. *)
Definition sleep {S} (d : nat) : M S unit := fun w => (Ok tt, mkWorld (d + w_tick w) (w_st w)).

(** ** Components of a larger state *)

(** A [Lens S T] says where a component with state [T] lives in the state [S]. *)
Class Lens (S T : Type) : Type := { lget : S -> T; lset : T -> S -> S }.
Class LensLaws {S T} (L : Lens S T) : Prop := {
  lget_lset : forall t s, lget (lset t s) = t;
  lset_lget : forall s, lset (lget s) s = s;
  lset_lset : forall t t' s, lset t (lset t' s) = lset t s;
}.

Definition zoom {S T A} `{Lens S T} (m : M T A) : M S A := fun w =>
  let (r, w') := m (mkWorld (w_tick w) (lget (w_st w))) in
  (r, mkWorld (w_tick w') (lset (w_st w') (w_st w))).

(** ** Maps built in a loop, and [range] over them *)

Lemma NoDup_fmap_eq {A B} (f : A -> B) l x y :
  NoDup (f <$> l) -> x ∈ l -> y ∈ l -> f x = f y -> x = y.
Proof.
  intros Hnd [i Hi]%list_elem_of_lookup [j Hj]%list_elem_of_lookup Hf.
  assert (i = j) as <-; [|congruence].
  eapply NoDup_lookup; [exact Hnd| |]; rewrite list_lookup_fmap; [by rewrite Hi|].
  rewrite Hj. cbn. by rewrite Hf.
Qed.

Lemma NoDup_fmap_snoc {A B} (f : A -> B) l x :
  NoDup (f <$> l) -> (f x ∉ f <$> l) -> NoDup (f <$> (l ++ [x])).
Proof.
  intros H Hx. rewrite fmap_app. apply list.NoDup_app. split_and!; [done| |apply list.NoDup_singleton].
  intros y Hy ->%list_elem_of_singleton. done.
Qed.

Lemma foldl_insert_is_Some {A V} (key : A -> string) (val : A -> V) (k : string) xs (m : gmap string V) :
  is_Some (foldl (fun m x => <[key x := val x]> m) m xs !! k) <->
  is_Some (m !! k) \/ k ∈ key <$> xs.
Proof.
  revert m. induction xs as [|x xs IH]; intros m; cbn.
  - split; [by left|]. intros [H|H%elem_of_nil]; done.
  - rewrite IH, lookup_insert_is_Some', elem_of_cons. naive_solver.
Qed.

Lemma Forall2_impl_l {A B} (P Q : A -> B -> Prop) l k :
  Forall2 P l k -> (forall x y, x ∈ l -> P x y -> Q x y) -> Forall2 Q l k.
Proof.
  intros H. induction H as [|x y l k Hxy _ IH]; intros HQ; constructor.
  - apply HQ; [by left|done].
  - apply IH. intros a b Ha. apply HQ. by right.
Qed.

Section Range.
Context `{E : GoEnv, EL : !GoEnvLaws E}.

Lemma range_lookup {V} t (m : gmap string V) k v : (k, v) ∈ range_at t m <-> m !! k = Some v.
Proof. rewrite (range_perm V t m). apply elem_of_map_to_list. Qed.

Lemma range_keys {V} t (m : gmap string V) :
  NoDup (range_at t m).*1 /\ forall k, k ∈ (range_at t m).*1 <-> is_Some (m !! k).
Proof.
  split; [rewrite (range_perm V t m); apply NoDup_fst_map_to_list|].
  intros k. rewrite list_elem_of_fmap. split.
  - intros ([k' v] & -> & H%range_lookup). by exists v.
  - intros [v H]. exists (k, v). split; [done|by apply range_lookup].
Qed.
End Range.

(** ** Automation *)

(** Expose the monad's definitions. *)
Ltac unmonad :=
  unfold new_uuid, time_now, range, ignore, attempt, wrapped, of_res, wrap_res,
    get, put, modify, panic, tick, mbind, mret, mthrow, res_bind, res_ret, res_throw,
    M_bind, M_ret, M_throw in *;
  cbn [w_tick w_st] in *.

(** One step of case analysis on the scrutinee that blocks a hypothesis [H]. *)
Ltac case_in H :=
  match type of H with
  | context [match ?x with _ => _ end] =>
      lazymatch x with
      | context [match _ with _ => _ end] => fail
      | _ => let E := fresh "E" in destruct x eqn:E
      end
  end.

(** Invert an equation [H : m w = (r, w')] about a monadic computation. *)
Ltac run_inv H := unmonad; repeat (case_in H; simplify_eq/=); simplify_eq/=.

(** One goal for each element of a [Forall] over a list that is written out. *)
Ltac each := lazymatch goal with
  | |- Forall _ [] => constructor
  | |- Forall _ (_ :: _) => apply list.Forall_cons; split; [|each]
  end.

(** ** Calls that leave a component alone

    A component of the state is a [Lens]; [outside L m] says that the call [m] returns
    and does not touch that component.  It is what one component promises to another:
    clients prove their theorems against it and implementations discharge it. *)

(** Two components that do not overlap. *)
Class Disjoint {S T U} (L : Lens S T) (K : Lens S U) : Prop := {
  disjoint_l : forall u s, lget (Lens := L) (lset u s) = lget s;
  disjoint_r : forall t s, lget (Lens := K) (lset (Lens := L) t s) = lget s;
}.

Section Frame.
Context {S T : Type} {L : Lens S T}.

(** The component inside a world. *)
Definition part (w : World S) : T := lget (w_st w).

Record outside {A} (m : M S A) : Prop := {
  outside_part : forall w, part (m w).2 = part w;
  outside_tick : forall w, (w_tick w <= w_tick (m w).2)%nat;
  outside_runs : forall w p, (m w).1 <> Panic p;
}.

Lemma outside_ret {A} (a : A) : outside (mret a : M S A).
Proof. by constructor. Qed.
Lemma outside_throw {A} (e : goerr) : outside (mthrow e : M S A).
Proof. by constructor. Qed.
Lemma outside_of_res {A} (r : res A) : (forall p, r <> Panic p) -> outside (of_res r).
Proof. intros H. by constructor. Qed.

Lemma outside_bind {A B} (m : M S A) (f : A -> M S B) :
  outside m -> (forall a, outside (f a)) -> outside (m ≫= f).
Proof.
  intros [Hb Ht Hr] Hf.
  assert (forall w, (m ≫= f) w = match m w with
    | (Ok a, w') => f a w' | (Err e, w') => (Err e, w') | (Panic p, w') => (Panic p, w') end)
    as Heq by done.
  constructor; intros w; rewrite Heq; specialize (Hb w); specialize (Ht w);
    specialize (Hr w); destruct (m w) as [[a|e|p] w']; cbn [fst snd] in *;
    try done; try (by destruct (Hr p)); destruct (Hf a) as [Hb' Ht' Hr'].
  - by rewrite Hb'.
  - etrans; [exact Ht|apply Ht'].
  - apply Hr'.
Qed.

Lemma outside_wrapped {A} p (m : M S A) : outside m -> outside (wrapped p m).
Proof.
  intros [Hb Ht Hr]. constructor; intros w; unfold wrapped; specialize (Hb w);
    specialize (Ht w); specialize (Hr w); by destruct (m w) as [[a|e|q] w'].
Qed.

Lemma outside_tick_op {A} (f : nat -> A) : outside (t ← tick; mret (f t) : M S A).
Proof. constructor; intros w; unmonad; cbn; [done|lia|done]. Qed.

(** Work inside another component. *)
Lemma outside_zoom {U A} (K : Lens S U) `{!Disjoint L K} (m : M U A) :
  (forall w, (w_tick w <= w_tick (m w).2)%nat) -> (forall w p, (m w).1 <> Panic p) ->
  outside (zoom m).
Proof.
  intros Ht Hr. constructor; intros w; unfold zoom;
    specialize (Ht (mkWorld (w_tick w) (lget (w_st w))));
    specialize (Hr (mkWorld (w_tick w) (lget (w_st w))));
    destruct (m _) as [r w']; cbn [fst snd w_tick] in *; [|done|done].
  unfold part. cbn. apply disjoint_l.
Qed.
End Frame.

Create HintDb frame.
#[export] Hint Resolve outside_ret outside_throw outside_bind outside_wrapped : frame.
