(* ===== verification/GoStd.v ===== *)
(** * GoStd: what the repository uses of the Go language and standard library

    [strings] (TrimSpace, Split, SplitN, Index, HasPrefix, ToUpper, ToLower,
    ReplaceAll), [strconv] (ParseInt, Atoi), [fmt] quoting, fixed-width integers and
    slice expressions.  Go strings are byte strings: here [string], a list of 8-bit
    characters.  Case mapping is the ASCII one: the repository maps currency codes
    and game states, which are ASCII. *)

From S2P Require Import Prelude.

(** ** Errors as text *)

(** The gRPC library: the text of a status error, the code [status.FromError] finds in
    an error (if any), and what an error of a handler becomes at the caller. *)
Class GrpcText : Type := {
  status_Error : Code -> string -> string;
  status_FromError : goerr -> option Code;
  wire_error : goerr -> goerr;
}.

(** A status error keeps its code across a call; any other error arrives as Unknown. *)
Class GrpcLaws (G : GrpcText) : Prop := {
  FromError_status : forall c m, status_FromError (ErrStatus c m) = Some c;
  wire_code : forall e, status_FromError (wire_error e) =
    Some (default Unknown (status_FromError e));
}.

(** [err.Error()] *)
Fixpoint Error `{GrpcText} (e : goerr) : string :=
  match e with
  | ErrNew m => m
  | ErrVar _ m => m
  | ErrWrap p e => p +:+ ": " +:+ Error e
  | ErrStatus c m => status_Error c m
  end.

(** [%q] of a string without characters that need escaping. *)
Definition quote (s : string) : string :=
  let q := String (Ascii.ascii_of_nat 34) "" in q +:+ s +:+ q.

(** ** Fixed-width integers *)

Definition wrap (bits : Z) (z : Z) : Z :=
  (z + 2 ^ (bits - 1)) mod 2 ^ bits - 2 ^ (bits - 1).
Definition int32 : Z -> Z := wrap 32.
(** Arithmetic on Go's [int], 64 bits wide on the servers' platforms. *)
Definition int64 : Z -> Z := wrap 64.

Definition in_int32 (z : Z) : Prop := - 2 ^ 31 <= z < 2 ^ 31.
Definition in_int64 (z : Z) : Prop := - 2 ^ 63 <= z < 2 ^ 63.

#[export] Instance in_int32_dec z : Decision (in_int32 z).
Proof. unfold in_int32. apply _. Defined.
#[export] Instance in_int64_dec z : Decision (in_int64 z).
Proof. unfold in_int64. apply _. Defined.

Lemma int64_id z : in_int64 z -> int64 z = z.
Proof.
  unfold in_int64, int64, wrap. change (2 ^ (64 - 1)) with (2 ^ 63). intros H.
  rewrite Z.mod_small; lia.
Qed.

Lemma int32_range z : in_int32 (int32 z).
Proof.
  unfold in_int32, int32, wrap. change (2 ^ (32 - 1)) with (2 ^ 31).
  pose proof (Z.mod_pos_bound (z + 2 ^ 31) (2 ^ 32)). lia.
Qed.

Lemma int32_id z : in_int32 z -> int32 z = z.
Proof.
  unfold in_int32, int32, wrap. change (2 ^ (32 - 1)) with (2 ^ 31). intros H.
  rewrite Z.mod_small; lia.
Qed.

(** [if n <= 0 { n = def }] *)
Definition default_int (def n : Z) : Z := if n <=? 0 then def else n.

(** The slice expression [xs[lo:hi]]: it panics outside [0 <= lo <= hi <= len]. *)
Definition slice {A} (xs : list A) (lo hi : Z) : res (list A) :=
  if decide (0 <= lo <= hi /\ hi <= Z.of_nat (length xs))
  then Ok (take (Z.to_nat (hi - lo)) (drop (Z.to_nat lo) xs))
  else Panic "slice bounds out of range".

(** ** strings *)

Fixpoint HasPrefix (s prefix : string) : bool :=
  match prefix, s with
  | "", _ => true
  | String p prefix, String c s => bool_decide (c = p) && HasPrefix s prefix
  | _, "" => false
  end.

Fixpoint string_drop (n : nat) (s : string) : string :=
  match n, s with
  | S n, String _ s => string_drop n s
  | _, _ => s
  end.

(** UTF-8 encodings of the characters with Unicode's White_Space property. *)
Definition bytes_string (l : list nat) : string :=
  foldr (fun b s => String (Ascii.ascii_of_nat b) s) "" l.
Definition white_space : list string :=
  bytes_string <$>
  ([ [9]; [10]; [11]; [12]; [13]; [32]; [194; 133]; [194; 160]; [225; 154; 128];
     [226; 128; 168]; [226; 128; 169]; [226; 128; 175]; [226; 129; 159];
     [227; 128; 128] ]%nat ++
   ((fun b => [226; 128; b]%nat) <$> seq 128 11)).

(** Drop leading members of [seps], at most [fuel] of them. *)
Fixpoint trim_left (fuel : nat) (seps : list string) (s : string) : string :=
  match fuel with
  | O => s
  | S fuel =>
      match list_find (fun sep => HasPrefix s sep = true) seps with
      | Some (_, sep) => trim_left fuel seps (string_drop (String.length sep) s)
      | None => s
      end
  end.

Definition string_rev (s : string) : string := String.rev s.

Definition TrimSpace (s : string) : string :=
  let l := trim_left (String.length s) white_space s in
  string_rev (trim_left (String.length l) (string_rev <$> white_space) (string_rev l)).

(** [strings.Cut] at a one-byte separator. *)
Fixpoint Cut (s : string) (sep : Ascii.ascii) : option (string * string) :=
  match s with
  | "" => None
  | String c s =>
      if decide (c = sep) then Some ("", s)
      else match Cut s sep with
           | Some (a, b) => Some (String c a, b)
           | None => None
           end
  end.

(** [strings.SplitN(s, sep, 2)] *)
Definition SplitN2 (s : string) (sep : Ascii.ascii) : list string :=
  match Cut s sep with Some (a, b) => [a; b] | None => [s] end.

(** [strings.Split(s, sep)] for a one-byte separator; never empty. *)
Fixpoint Split (s : string) (sep : Ascii.ascii) : list string :=
  match s with
  | "" => [""]
  | String c s =>
      if decide (c = sep) then "" :: Split s sep
      else match Split s sep with
           | x :: xs => String c x :: xs
           | [] => [String c ""]
           end
  end.

(** [strings.IndexByte(s, c)], [-1] when absent. *)
Fixpoint IndexByte (s : string) (c : Ascii.ascii) : Z :=
  match s with
  | "" => -1
  | String d s =>
      if decide (d = c) then 0
      else let i := IndexByte s c in if decide (i = -1) then -1 else i + 1
  end.

Definition ascii_between (lo hi : nat) (c : Ascii.ascii) : bool :=
  (lo <=? Ascii.nat_of_ascii c)%nat && (Ascii.nat_of_ascii c <=? hi)%nat.

Fixpoint string_map (f : Ascii.ascii -> Ascii.ascii) (s : string) : string :=
  match s with "" => "" | String c s => String (f c) (string_map f s) end.

Definition ToUpper : string -> string := string_map (fun c =>
  if ascii_between 97 122 c then Ascii.ascii_of_nat (Ascii.nat_of_ascii c - 32) else c).
Definition ToLower : string -> string := string_map (fun c =>
  if ascii_between 65 90 c then Ascii.ascii_of_nat (Ascii.nat_of_ascii c + 32) else c).

(** [strings.ReplaceAll(s, " ", r)] *)
Fixpoint ReplaceByte (s : string) (c : Ascii.ascii) (r : string) : string :=
  match s with
  | "" => ""
  | String d s => if decide (d = c) then r +:+ ReplaceByte s c r
                  else String d (ReplaceByte s c r)
  end.

(** Go's [<] on strings compares bytes. *)
Definition string_ltb (s t : string) : bool :=
  match String.compare s t with Lt => true | _ => false end.

(** ** strconv *)

Definition digit_val (c : Ascii.ascii) : option Z :=
  if ascii_between 48 57 c then Some (Z.of_nat (Ascii.nat_of_ascii c) - 48) else None.

Fixpoint digits_val (acc : Z) (s : string) : option Z :=
  match s with
  | "" => Some acc
  | String c s => d ← digit_val c; digits_val (acc * 10 + d) s
  end.

Definition unsigned_val (s : string) : option Z :=
  match s with "" => None | _ => digits_val 0 s end.

Definition signed_val (s : string) : option Z :=
  match s with
  | String c s' =>
      if decide (c = "-"%char) then Z.opp <$> unsigned_val s'
      else if decide (c = "+"%char) then unsigned_val s'
      else unsigned_val s
  | "" => None
  end.

Definition num_error (func s : string) (reason : goerr) : goerr :=
  ErrWrap ("strconv." +:+ func +:+ ": parsing " +:+ quote s) reason.

(** [strconv.ParseInt(s, 10, 64)]; [strconv.Atoi] differs in the error's text only. *)
Definition parse_int (func s : string) : res Z :=
  match signed_val s with
  | None => Err (num_error func s (ErrVar "strconv.ErrSyntax" "invalid syntax"))
  | Some z =>
      if decide (in_int64 z) then Ok z
      else Err (num_error func s (ErrVar "strconv.ErrRange" "value out of range"))
  end.
Definition ParseInt : string -> res Z := parse_int "ParseInt".
Definition Atoi : string -> res Z := parse_int "Atoi".

(** ** Lemmas *)

Lemma Cut_spec s sep a b :
  Cut s sep = Some (a, b) -> s = a +:+ String sep b /\ Cut a sep = None.
Proof.
  revert a b. induction s as [|c s IH]; simpl; intros a b H; [done|].
  case_decide as Hc; [by simplify_eq|].
  destruct (Cut s sep) as [[a' b']|] eqn:E; [|done]. simplify_eq.
  destruct (IH a' b eq_refl) as [-> Ha]. simpl. rewrite Ha.
  by rewrite decide_False.
Qed.

Lemma Cut_app a sep b : Cut a sep = None -> Cut (a +:+ String sep b) sep = Some (a, b).
Proof.
  induction a as [|c a IH]; simpl; intros H.
  - by rewrite decide_True.
  - case_decide; [done|]. destruct (Cut a sep) as [[? ?]|] eqn:E; [done|].
    by rewrite IH.
Qed.

Lemma Cut_None_app_l a b sep : Cut (a +:+ b) sep = None -> Cut a sep = None.
Proof.
  induction a as [|c a IH]; simpl; [done|]. intros H. case_decide; [done|].
  destruct (Cut (a +:+ b) sep) as [[? ?]|]; [done|]. by rewrite IH.
Qed.

Lemma Split_nonempty s sep : Split s sep <> [].
Proof.
  destruct s as [|c s]; simpl; [done|]. case_decide; [done|]. by destruct (Split s sep).
Qed.

Lemma string_app_assoc (a b c : string) : (a +:+ b) +:+ c = a +:+ (b +:+ c).
Proof. induction a as [|x a IH]; [done|]. exact (f_equal (String x) IH). Qed.

Lemma string_app_nil_r (a : string) : a +:+ "" = a.
Proof. induction a as [|x a IH]; [done|]. exact (f_equal (String x) IH). Qed.

Lemma string_app_length (a b : string) :
  String.length (a +:+ b) = (String.length a + String.length b)%nat.
Proof. induction a as [|x a IH]; [done|]. exact (f_equal Datatypes.S IH). Qed.

Lemma HasPrefix_app p s : HasPrefix (p +:+ s) p = true.
Proof. induction p as [|c p IH]; simpl; [by destruct s|]. by rewrite bool_decide_true. Qed.

Lemma HasPrefix_spec s p : HasPrefix s p = true <-> exists t, s = p +:+ t.
Proof.
  split; [|by intros [t ->]; apply HasPrefix_app].
  revert s. induction p as [|c p IH]; simpl; intros s H; [by exists s|].
  destruct s as [|d s]; [done|]. apply andb_prop in H as [Hc H].
  apply bool_decide_eq_true in Hc as ->. destruct (IH s H) as [t ->]. by exists t.
Qed.

(** *** Reversal *)
Lemma rev_app_spec s t : String.rev_app s t = String.rev s +:+ t.
Proof.
  unfold String.rev. revert t. induction s as [|c s IH]; intros t; [done|]. cbn.
  rewrite IH, (IH (String c "")), string_app_assoc. done.
Qed.

Lemma string_rev_cons c s : string_rev (String c s) = string_rev s +:+ String c "".
Proof. unfold string_rev, String.rev. cbn. by rewrite rev_app_spec. Qed.

Lemma string_rev_app s t : string_rev (s +:+ t) = string_rev t +:+ string_rev s.
Proof.
  induction s as [|c s IH].
  - change ("" +:+ t) with t. change (string_rev "") with "". by rewrite string_app_nil_r.
  - change (String c s +:+ t) with (String c (s +:+ t)).
    by rewrite !string_rev_cons, IH, string_app_assoc.
Qed.

Lemma string_rev_involutive s : string_rev (string_rev s) = s.
Proof.
  induction s as [|c s IH]; [done|]. by rewrite string_rev_cons, string_rev_app, IH.
Qed.

(** *** Trimming *)
Lemma string_drop_app a b : string_drop (String.length a) (a +:+ b) = b.
Proof. induction a as [|c a IH]; [by destruct b|]. exact IH. Qed.

(** No member of [seps] starts [s]. *)
Definition no_prefix (seps : list string) (s : string) : Prop :=
  list_find (fun sep => HasPrefix s sep = true) seps = None.

Lemma no_prefix_spec seps s :
  no_prefix seps s <-> forall sep t, sep ∈ seps -> s <> sep +:+ t.
Proof.
  unfold no_prefix. rewrite list_find_None, list.Forall_forall. split.
  - intros H sep t Hin ->. apply (H sep Hin), HasPrefix_app.
  - intros H sep Hin [t ->]%HasPrefix_spec. by eapply H.
Qed.

Lemma trim_left_id fuel seps s : no_prefix seps s -> trim_left fuel seps s = s.
Proof. unfold no_prefix. destruct fuel; cbn; [done|]. by intros ->. Qed.

Lemma trim_left_suffix fuel seps : forall s, exists p, s = p +:+ trim_left fuel seps s.
Proof.
  induction fuel as [|fuel IH]; intros s; cbn; [by exists ""|].
  destruct (list_find _ seps) as [[i sep]|] eqn:E; [|by exists ""].
  apply list_find_Some in E as (_ & [t ->]%HasPrefix_spec & _).
  rewrite string_drop_app. destruct (IH t) as [p Hp].
  exists (sep +:+ p). rewrite string_app_assoc. by rewrite <- Hp.
Qed.

Lemma trim_left_no_prefix seps : Forall (fun sep => sep <> "") seps ->
  forall fuel s, (String.length s <= fuel)%nat -> no_prefix seps (trim_left fuel seps s).
Proof.
  intros Hne. induction fuel as [|fuel IH]; intros s Hs.
  - destruct s; [|cbn in Hs; lia]. cbn. apply no_prefix_spec. intros sep t Hin E.
    rewrite list.Forall_forall in Hne. apply (Hne sep Hin). by destruct sep.
  - cbn. destruct (list_find _ seps) as [[i sep]|] eqn:E; [|exact E].
    apply list_find_Some in E as (Hi & [t ->]%HasPrefix_spec & _).
    rewrite string_drop_app. apply IH. rewrite string_app_length in Hs.
    rewrite list.Forall_forall in Hne. pose proof (Hne sep) as Hsep.
    destruct sep; [|cbn in Hs; lia]. exfalso. apply Hsep; [|done].
    by eapply list_elem_of_lookup_2.
Qed.

Lemma white_space_ne : Forall (fun sep => sep <> "") white_space.
Proof. by apply (bool_decide_unpack _). Qed.
Lemma white_space_rev_ne : Forall (fun sep => sep <> "") (string_rev <$> white_space).
Proof. by apply (bool_decide_unpack _). Qed.

(** [TrimSpace s] is a part of [s] that neither starts nor ends with white space. *)
Lemma TrimSpace_infix s : exists a b, s = a +:+ TrimSpace s +:+ b.
Proof.
  unfold TrimSpace.
  destruct (trim_left_suffix (String.length s) white_space s) as [a Ha].
  set (l := trim_left _ _ s) in *.
  destruct (trim_left_suffix (String.length l) (string_rev <$> white_space) (string_rev l))
    as [b Hb].
  exists a, (string_rev b). rewrite <- string_rev_app, <- Hb, string_rev_involutive. done.
Qed.

Lemma TrimSpace_trimmed s :
  no_prefix white_space (TrimSpace s) /\
  no_prefix (string_rev <$> white_space) (string_rev (TrimSpace s)).
Proof.
  unfold TrimSpace. set (l := trim_left _ _ s).
  assert (no_prefix white_space l) as Hl.
  { apply trim_left_no_prefix; [exact white_space_ne | done]. }
  destruct (trim_left_suffix (String.length l) (string_rev <$> white_space) (string_rev l))
    as [b Hb].
  split.
  - apply no_prefix_spec. intros sep t Hin E. rewrite no_prefix_spec in Hl.
    apply (Hl sep (t +:+ string_rev b) Hin). rewrite <- string_app_assoc, <- E.
    by rewrite <- string_rev_app, <- Hb, string_rev_involutive.
  - rewrite string_rev_involutive. apply trim_left_no_prefix; [exact white_space_rev_ne|].
    clear. induction l as [|c l IH]; [done|]. rewrite string_rev_cons, string_app_length.
    cbn in *. lia.
Qed.

Lemma TrimSpace_idemp s : TrimSpace (TrimSpace s) = TrimSpace s.
Proof.
  destruct (TrimSpace_trimmed s) as [H1 H2]. set (t := TrimSpace s) in *.
  unfold TrimSpace. by rewrite !trim_left_id, string_rev_involutive by (rewrite ?trim_left_id; done).
Qed.

Lemma Cut_None_app_r a b sep : Cut (a +:+ b) sep = None -> Cut b sep = None.
Proof.
  induction a as [|c a IH]; [done|]. intros H.
  change (Cut (String c (a +:+ b)) sep = None) in H. cbn [Cut] in H.
  case_decide; [done|]. destruct (Cut (a +:+ b) sep) as [[? ?]|]; [done|]. by apply IH.
Qed.

Lemma Cut_None_TrimSpace s sep : Cut s sep = None -> Cut (TrimSpace s) sep = None.
Proof.
  destruct (TrimSpace_infix s) as (a & b & Hs). intros H. rewrite Hs in H.
  apply Cut_None_app_r in H. by apply Cut_None_app_l in H.
Qed.

Lemma parse_int_range f s z : parse_int f s = Ok z -> in_int64 z.
Proof. unfold parse_int. destruct (signed_val s); [|done]. by case_decide; intros [= <-]. Qed.

Lemma slice_Ok {A} (xs : list A) lo hi :
  0 <= lo <= hi -> hi <= Z.of_nat (length xs) ->
  slice xs lo hi = Ok (take (Z.to_nat (hi - lo)) (drop (Z.to_nat lo) xs)).
Proof. intros. unfold slice. by rewrite decide_True. Qed.

Example TrimSpace_ex : TrimSpace "  USDT : tron	 " = "USDT : tron".
Proof. reflexivity. Qed.
Example Split_ex : Split "a,,b" ","%char = ["a"; ""; "b"].
Proof. reflexivity. Qed.
Example SplitN_ex : SplitN2 "USDT:a:b" ":"%char = ["USDT"; "a:b"].
Proof. reflexivity. Qed.
Example Atoi_ex : Atoi "-42" = Ok (-42).
Proof. reflexivity. Qed.
