(* ===== verification/Decimal.v ===== *)
(** * Decimal: the interface to [github.com/shopspring/decimal]

    The arbitrary-precision decimal library is third-party code: the class [Decimal]
    has the functions of it the repository calls and [DecimalLaws] what its
    documentation promises, namely that addition, subtraction and multiplication are
    exact, that comparisons compare values, that [String] prints a text that parses to
    the same value, and that [StringFixedBank] prints the value rounded to the places
    asked for, to the nearest number and halfway to the even one.  The module [FixedPoint] is a concrete library with
    these laws, which the witnesses of the development run on. *)

From Stdlib Require Import Qabs.
From S2P Require Import Prelude GoStd.

Class Decimal : Type := {
  dec : Type;
  ParseDecimal : string -> dec + goerr;
  dec_Zero : dec;
  dec_Add : dec -> dec -> dec;
  dec_Sub : dec -> dec -> dec;
  dec_Mul : dec -> dec -> dec;
  dec_LessThan : dec -> dec -> bool;
  dec_GreaterThan : dec -> dec -> bool;
  dec_IsPositive : dec -> bool;
  dec_String : dec -> string;
  dec_StringFixedBank : dec -> Z -> string;
}.

(** [decimal.NewFromString(s)] *)
Definition NewFromString `{Decimal} (s : string) : res dec :=
  match ParseDecimal s with inl d => Ok d | inr e => Err e end.

(** [z] units of the [p]-th place are [q] rounded to [p] places: the nearest, and halfway
    the even one. *)
Definition rounds_to (q : Q) (p z : Z) : Prop :=
  (Qabs (q * inject_Z (10 ^ p) - inject_Z z) <= 1 # 2)%Q /\
  ((Qabs (q * inject_Z (10 ^ p) - inject_Z z) == 1 # 2)%Q -> Z.Even z).

Class DecimalLaws (D : Decimal) : Type := {
  dval : dec -> Q;
  dval_Zero : (dval dec_Zero == 0)%Q;
  dval_Add : forall a b, (dval (dec_Add a b) == dval a + dval b)%Q;
  dval_Sub : forall a b, (dval (dec_Sub a b) == dval a - dval b)%Q;
  dval_Mul : forall a b, (dval (dec_Mul a b) == dval a * dval b)%Q;
  LessThan_spec : forall a b, dec_LessThan a b = true <-> (dval a < dval b)%Q;
  GreaterThan_spec : forall a b, dec_GreaterThan a b = true <-> (dval b < dval a)%Q;
  IsPositive_spec : forall a, dec_IsPositive a = true <-> (0 < dval a)%Q;
  String_parse : forall a,
    exists b, ParseDecimal (dec_String a) = inl b /\ (dval b == dval a)%Q;
  FixedBank_parse : forall a p, 0 <= p ->
    exists b z, ParseDecimal (dec_StringFixedBank a p) = inl b /\
      (dval b * inject_Z (10 ^ p) == inject_Z z)%Q /\ rounds_to (dval a) p z;
  parse_zero : exists b, ParseDecimal "0" = inl b /\ (dval b == 0)%Q;
  parse_empty : exists e, ParseDecimal "" = inr e;
}.

(** The value of a decimal text: what a balance or an amount field means. *)
Definition amt `{DecimalLaws} (s : string) : Q :=
  match ParseDecimal s with inl d => dval d | inr _ => 0%Q end.

(** [is_amount s q]: the text [s] is a number equal to [q]. *)
Definition is_amount `{DecimalLaws} (s : string) (q : Q) : Prop :=
  exists d, ParseDecimal s = inl d /\ (dval d == q)%Q.

Section Facts.
Context `{L : DecimalLaws}.

#[export] Instance is_amount_proper s : Proper (Qeq ==> iff) (is_amount s).
Proof.
  intros p q Hpq; unfold is_amount; split; intros (d & H & Hd); exists d; split; auto;
  [by rewrite <- Hpq | by rewrite Hpq].
Qed.

Lemma is_amount_fun s p q : is_amount s p -> is_amount s q -> (p == q)%Q.
Proof. intros (d & H & Hd) (d' & H' & Hd'). rewrite H in H'. simplify_eq. by rewrite <- Hd. Qed.

Lemma is_amount_parse s d : ParseDecimal s = inl d -> is_amount s (dval d).
Proof. intros H. exists d. split; [done|reflexivity]. Qed.

Lemma is_amount_String d : is_amount (dec_String d) (dval d).
Proof. destruct (String_parse d) as (b & Hb & Hv). by exists b. Qed.

Lemma is_amount_amt s q : is_amount s q -> (amt s == q)%Q.
Proof. intros (d & H & Hd). unfold amt. by rewrite H. Qed.

Lemma is_amount_self s q : is_amount s q -> is_amount s (amt s).
Proof. intros H. by rewrite (is_amount_amt _ _ H). Qed.

Lemma amt_parse s d : ParseDecimal s = inl d -> amt s = dval d.
Proof. unfold amt. by intros ->. Qed.

Lemma is_amount_0 : is_amount "0" 0.
Proof. exact parse_zero. Qed.

Lemma NewFromString_Ok s d : NewFromString s = Ok d <-> ParseDecimal s = inl d.
Proof. unfold NewFromString. destruct (ParseDecimal s); split; congruence. Qed.

Lemma not_LessThan a b : dec_LessThan a b = false <-> (dval b <= dval a)%Q.
Proof.
  rewrite <- not_true_iff_false, LessThan_spec.
  split; [apply Qnot_lt_le | apply Qle_not_lt].
Qed.

Lemma not_GreaterThan a b : dec_GreaterThan a b = false <-> (dval a <= dval b)%Q.
Proof.
  rewrite <- not_true_iff_false, GreaterThan_spec.
  split; [apply Qnot_lt_le | apply Qle_not_lt].
Qed.

Lemma not_IsPositive a : dec_IsPositive a = false <-> (dval a <= 0)%Q.
Proof.
  rewrite <- not_true_iff_false, IsPositive_spec.
  split; [apply Qnot_lt_le | apply Qle_not_lt].
Qed.
End Facts.

Create HintDb amounts.
#[export] Hint Resolve is_amount_parse is_amount_String is_amount_0 : amounts.

(** ** A concrete library *)
Module FixedPoint.

(** [(c, p)] is the number [c / 10 ^ p]. *)
Definition num : Type := Z * nat.
Definition scale (p : nat) : Z := 10 ^ Z.of_nat p.
Definition fval (n : num) : Q := n.1 # Z.to_pos (scale n.2).

Lemma scale_pos p : 0 < scale p.
Proof. unfold scale. apply Z.pow_pos_nonneg; lia. Qed.
Lemma scale_S p : scale (S p) = 10 * scale p.
Proof. unfold scale. rewrite Nat2Z.inj_succ, Z.pow_succ_r; lia. Qed.
Lemma scale_add p q : scale (p + q) = scale p * scale q.
Proof. unfold scale. rewrite Nat2Z.inj_add, Z.pow_add_r; lia. Qed.
Lemma scale_to_pos p : Z.pos (Z.to_pos (scale p)) = scale p.
Proof. apply Z2Pos.id, scale_pos. Qed.

Definition raise (n : num) (p : nat) : Z := n.1 * scale (p - n.2).
Definition add (a b : num) : num :=
  let p := Nat.max a.2 b.2 in (raise a p + raise b p, p).
Definition sub (a b : num) : num :=
  let p := Nat.max a.2 b.2 in (raise a p - raise b p, p).
Definition mul (a b : num) : num := (a.1 * b.1, (a.2 + b.2)%nat).
Definition ltb (a b : num) : bool :=
  let p := Nat.max a.2 b.2 in (raise a p <? raise b p).

Fixpoint trim (c : Z) (p : nat) : num :=
  match p with
  | O => (c, O)
  | S p' => if decide (c mod 10 = 0) then trim (c / 10) p' else (c, p)
  end.

Definition digit_char (d : Z) : ascii := Ascii.ascii_of_nat (48 + Z.to_nat d).
Fixpoint digits (n : nat) (a : Z) (rest : string) : string :=
  match n with
  | O => rest
  | S n => digits n (a / 10) (String (digit_char (a mod 10)) rest)
  end.
Fixpoint ndigits (fuel : nat) (a : Z) : nat :=
  match fuel with
  | O => 1
  | S f => if decide (a < 10) then 1 else S (ndigits f (a / 10))
  end.
Definition print_nat (a : Z) : string := digits (ndigits (Z.to_nat (Z.log2 a)) a) a "".
Definition print_body (a : Z) (p : nat) : string :=
  match p with
  | O => print_nat a
  | _ => print_nat (a / scale p) +:+ "." +:+ digits p (a mod scale p) ""
  end.
Definition print (n : num) : string :=
  if decide (n.1 < 0) then "-" +:+ print_body (Z.abs n.1) n.2
  else print_body (Z.abs n.1) n.2.

Definition parse_body (s : string) : option num :=
  match Cut s "."%char with
  | Some (ip, fp) => (fun c => (c, String.length fp)) <$> unsigned_val (ip +:+ fp)
  | None => (fun c => (c, O)) <$> unsigned_val s
  end.
Definition parse (s : string) : option num :=
  match s with
  | String c s' =>
      if decide (c = "-"%char) then (fun n => (- n.1, n.2)) <$> parse_body s'
      else parse_body s
  | "" => None
  end.

(** Banker's rounding to [p] places. *)
Definition round_bank (n : num) (p : nat) : Z :=
  if decide (n.2 <= p)%nat then raise n p
  else let m := scale (n.2 - p) in
       let q := n.1 / m in
       let r := n.1 mod m in
       match Z.compare (2 * r) m with
       | Lt => q
       | Gt => q + 1
       | Eq => q + q mod 2
       end.

#[export] Instance decimal : Decimal := {
  dec := num;
  ParseDecimal s := match parse s with
                    | Some n => inl n
                    | None => inr (ErrNew ("can't convert " +:+ s +:+ " to decimal"))
                    end;
  dec_Zero := (0, O);
  dec_Add := add;
  dec_Sub := sub;
  dec_Mul := mul;
  dec_LessThan := ltb;
  dec_GreaterThan a b := ltb b a;
  dec_IsPositive a := (0 <? a.1);
  dec_String n := print (trim n.1 n.2);
  dec_StringFixedBank n p := print (round_bank n (Z.to_nat p), Z.to_nat p);
}.

Example string_ex : dec_String (mul (250, 2%nat) (21, 1%nat)) = "5.25".
Proof. reflexivity. Qed.
Example parse_ex : parse "-0.10" = Some (-10, 2%nat).
Proof. reflexivity. Qed.
Example bank_ex : dec_StringFixedBank (25, 1%nat) 0 = "2".
Proof. reflexivity. Qed.

(** *** Printing and parsing *)

Lemma digit_val_char d : 0 <= d < 10 -> digit_val (digit_char d) = Some d.
Proof.
  intros H. assert (d = 0 \/ d = 1 \/ d = 2 \/ d = 3 \/ d = 4 \/ d = 5 \/ d = 6 \/
    d = 7 \/ d = 8 \/ d = 9) as Hd by lia.
  by destruct_or! Hd; subst.
Qed.

Lemma digits_val_digits n : forall a acc rest, 0 <= a < scale n ->
  digits_val acc (digits n a rest) = digits_val (acc * scale n + a) rest.
Proof.
  induction n as [|n IH]; intros a acc rest Ha.
  - change (scale 0) with 1 in *. cbn [digits]. f_equal. lia.
  - rewrite scale_S in *. cbn [digits]. pose proof (scale_pos n).
    rewrite IH by (split; [apply Z.div_pos; lia | apply Z.div_lt_upper_bound; lia]).
    cbn [digits_val]. rewrite digit_val_char by (apply Z.mod_pos_bound; lia).
    cbn. f_equal. pose proof (Z.div_mod a 10). lia.
Qed.

Lemma digits_app n : forall a rest, digits n a rest = digits n a "" +:+ rest.
Proof.
  induction n as [|n IH]; intros a rest; [done|]. cbn [digits].
  rewrite IH, (IH _ (String _ "")), string_app_assoc. done.
Qed.

Lemma length_digits n : forall a rest,
  String.length (digits n a rest) = (n + String.length rest)%nat.
Proof. induction n as [|n IH]; intros a rest; [done|]. cbn [digits]. rewrite IH. cbn. lia. Qed.

Lemma digits_val_nodot acc s v : digits_val acc s = Some v -> Cut s "."%char = None.
Proof.
  revert acc. induction s as [|c s IH]; intros acc H; [done|]. cbn [digits_val] in H.
  destruct (digit_val c) as [d|] eqn:Hd; [|done]. cbn in H. cbn [Cut].
  rewrite decide_False by (by intros ->). by rewrite (IH _ H).
Qed.

Lemma ndigits_bound f : forall a, 0 <= a < scale (S f) -> a < scale (ndigits f a).
Proof.
  induction f as [|f IH]; intros a Ha; [exact (proj2 Ha)|].
  cbn [ndigits]. case_decide as Hlt; [exact Hlt|]. rewrite scale_S.
  rewrite !scale_S in Ha.
  pose proof (scale_pos f).
  assert (a / 10 < scale (ndigits f (a / 10))).
  { apply IH. rewrite scale_S. split; [apply Z.div_pos; lia|].
    apply Z.div_lt_upper_bound; lia. }
  pose proof (Z.div_mod a 10). pose proof (Z.mod_pos_bound a 10). lia.
Qed.

Lemma ndigits_log a : 0 <= a -> a < scale (ndigits (Z.to_nat (Z.log2 a)) a).
Proof.
  intros Ha. apply ndigits_bound. split; [done|].
  unfold scale. rewrite Nat2Z.inj_succ, Z2Nat.id by apply Z.log2_nonneg.
  destruct (decide (a = 0)) as [->|]; [done|].
  pose proof (Z.log2_spec a) as [_ H]; [lia|].
  eapply Z.lt_le_trans; [exact H|]. apply Z.pow_le_mono_l. lia.
Qed.

Lemma ndigits_pos f a : exists n, ndigits f a = S n.
Proof. destruct f; cbn; [by eexists|]. case_decide; by eexists. Qed.

Lemma digits_S n a rest : exists s, exists d, 0 <= d < 10 /\
  digits (S n) a rest = String (digit_char d) s.
Proof.
  revert a rest. induction n as [|n IH]; intros a rest.
  - exists rest, (a mod 10). split; [apply Z.mod_pos_bound; lia | done].
  - cbn [digits]. apply IH.
Qed.

Lemma print_nat_head a rest : exists s d, 0 <= d < 10 /\
  print_nat a +:+ rest = String (digit_char d) s.
Proof.
  unfold print_nat. rewrite <- digits_app.
  destruct (ndigits_pos (Z.to_nat (Z.log2 a)) a) as [n ->]. apply digits_S.
Qed.

Lemma unsigned_print_nat a rest v : 0 <= a ->
  digits_val a rest = Some v -> unsigned_val (print_nat a +:+ rest) = Some v.
Proof.
  intros Ha Hv. assert (digits_val 0 (print_nat a +:+ rest) = Some v) as H.
  { unfold print_nat. rewrite <- digits_app, digits_val_digits.
    - by rewrite Z.mul_0_l, Z.add_0_l.
    - split; [done|]. by apply ndigits_log. }
  unfold unsigned_val. destruct (print_nat_head a rest) as (s & d & _ & Hs).
  by rewrite Hs in *.
Qed.

Lemma print_nat_nodot a : 0 <= a -> Cut (print_nat a) "."%char = None.
Proof.
  intros Ha. eapply (digits_val_nodot 0 _ a). unfold print_nat.
  rewrite digits_val_digits; [cbn; f_equal; lia|]. split; [done|]. by apply ndigits_log.
Qed.

Lemma parse_body_print a p : 0 <= a ->
  parse_body (print_body a p) = Some (a, p).
Proof.
  intros Ha. pose proof (scale_pos p). unfold parse_body, print_body. destruct p as [|p].
  - rewrite print_nat_nodot by done.
    rewrite <- (string_app_nil_r (print_nat a)).
    by rewrite (unsigned_print_nat a "" a).
  - assert (0 <= a / scale (S p)) by (apply Z.div_pos; lia).
    pose proof (Z.mod_pos_bound a (scale (S p))).
    match goal with |- context [ "." +:+ ?x ] =>
      change ("." +:+ x) with (String "."%char x) end.
    rewrite Cut_app by (by apply print_nat_nodot).
    rewrite (unsigned_print_nat _ _ a); [|done|].
    + cbn -[digits]. rewrite length_digits. cbn. do 2 f_equal. lia.
    + rewrite digits_val_digits by lia. cbn [digits_val]. f_equal.
      pose proof (Z.div_mod a (scale (S p))). lia.
Qed.

Lemma print_body_head a p : exists s d, 0 <= d < 10 /\
  print_body a p = String (digit_char d) s.
Proof.
  destruct p; cbn [print_body]; [rewrite <- (string_app_nil_r (print_nat _))|];
    apply print_nat_head.
Qed.

Lemma parse_print n : parse (print n) = Some n.
Proof.
  destruct n as [c p]. unfold print. cbn [fst snd].
  pose proof (parse_body_print (Z.abs c) p (Z.abs_nonneg c)) as H.
  case_decide as Hc.
  - change (parse ("-" +:+ print_body (Z.abs c) p))
      with ((fun n : num => (- n.1, n.2)) <$> parse_body (print_body (Z.abs c) p)).
    rewrite H. cbn. do 2 f_equal. lia.
  - destruct (print_body_head (Z.abs c) p) as (s & d & Hd & Hs).
    rewrite Hs in *. cbn [parse]. rewrite decide_False.
    + rewrite H. do 2 f_equal. lia.
    + intros E. pose proof (digit_val_char d Hd) as Hv. by rewrite E in Hv.
Qed.

(** *** Values *)

Lemma fval_raise n p : (n.2 <= p)%nat -> (fval (raise n p, p) == fval n)%Q.
Proof.
  destruct n as [c q]. unfold fval, raise, Qeq. cbn [Qnum Qden fst snd]. intros H.
  rewrite !scale_to_pos, <- Z.mul_assoc, <- scale_add. do 2 f_equal. lia.
Qed.

Lemma fval_add_same (a b : Z) (p : nat) : (fval ((a + b)%Z, p) == fval (a, p) + fval (b, p))%Q.
Proof.
  unfold fval, Qeq, Qplus. cbn [Qnum Qden fst snd].
  rewrite !Pos2Z.inj_mul, !scale_to_pos. ring.
Qed.

Lemma fval_opp (a : Z) (p : nat) : (fval ((- a)%Z, p) == - fval (a, p))%Q.
Proof. reflexivity. Qed.

Lemma fval_add a b : (fval (add a b) == fval a + fval b)%Q.
Proof. unfold add. rewrite fval_add_same, !fval_raise by lia. reflexivity. Qed.

Lemma fval_sub a b : (fval (sub a b) == fval a - fval b)%Q.
Proof.
  unfold sub, Z.sub. rewrite fval_add_same, fval_opp, !fval_raise by lia. reflexivity.
Qed.

Lemma fval_mul a b : (fval (mul a b) == fval a * fval b)%Q.
Proof.
  destruct a as [c p], b as [c' p']. unfold fval, mul, Qeq, Qmult. cbn [Qnum Qden fst snd].
  by rewrite Pos2Z.inj_mul, !scale_to_pos, scale_add.
Qed.

Lemma fval_lt_same (a b : Z) (p : nat) : (fval (a, p) < fval (b, p))%Q <-> a < b.
Proof.
  unfold fval, Qlt. cbn [Qnum Qden fst snd]. rewrite scale_to_pos.
  pose proof (scale_pos p). split; intros; nia.
Qed.

Lemma fval_ltb a b : ltb a b = true <-> (fval a < fval b)%Q.
Proof.
  unfold ltb. rewrite Z.ltb_lt.
  rewrite <- (fval_raise a (Nat.max a.2 b.2)), <- (fval_raise b (Nat.max a.2 b.2)) by lia.
  by rewrite fval_lt_same.
Qed.

Lemma fval_trim p : forall c, (fval (trim c p) == fval (c, p))%Q.
Proof.
  induction p as [|p IH]; intros c; cbn [trim]; [reflexivity|].
  case_decide as H; [|reflexivity]. rewrite IH.
  unfold fval, Qeq. cbn [Qnum Qden fst snd]. rewrite !scale_to_pos, scale_S.
  pose proof (Z.div_mod c 10). nia.
Qed.

Lemma round_bank_scaled n p : (p < n.2)%nat ->
  let m := scale (n.2 - p) in
  2 * n.1 - m <= 2 * (round_bank n p * m) <= 2 * n.1 + m.
Proof.
  intros H m. unfold round_bank. rewrite decide_False by lia. fold m.
  assert (0 < m) by apply scale_pos.
  pose proof (Z.div_mod n.1 m). pose proof (Z.mod_pos_bound n.1 m).
  pose proof (Z.mod_pos_bound (n.1 / m) 2).
  destruct (Z.compare_spec (2 * (n.1 mod m)) m); nia.
Qed.

Lemma round_bank_even n p : (p < n.2)%nat ->
  let m := scale (n.2 - p) in
  2 * Z.abs (n.1 - round_bank n p * m) = m -> Z.Even (round_bank n p).
Proof.
  intros H m. unfold round_bank. rewrite decide_False by lia. fold m.
  assert (0 < m) by apply scale_pos.
  pose proof (Z.div_mod n.1 m). pose proof (Z.mod_pos_bound n.1 m).
  set (q := n.1 / m) in *. set (r := n.1 mod m) in *.
  destruct (Z.compare_spec (2 * r) m); intros Heq; [|exfalso; nia..].
  apply Z.even_spec. rewrite Z.even_add, Zmod_even. by destruct (Z.even q) eqn:Hq; rewrite ?Hq.
Qed.

Lemma fval_scaled c p : (fval (c, p) * inject_Z (scale p) == inject_Z c)%Q.
Proof. unfold fval, Qeq, Qmult, inject_Z. cbn. rewrite Pos.mul_1_r, scale_to_pos. ring. Qed.

Lemma fval_units c p q : (p <= q)%nat ->
  (fval (c, q) * inject_Z (scale p) == c # Z.to_pos (scale (q - p)))%Q.
Proof.
  intros H. unfold fval, Qeq, Qmult, inject_Z. cbn. rewrite Pos.mul_1_r, !scale_to_pos.
  rewrite <- Z.mul_assoc, <- scale_add. do 2 f_equal. lia.
Qed.

Lemma Qabs_units (c z : Z) (m : positive) :
  (Qabs ((c # m) - inject_Z z) == Z.abs (c - z * Zpos m) # m)%Q.
Proof.
  assert (((c # m) - inject_Z z) == (c - z * Zpos m) # m)%Q as ->; [|reflexivity].
  unfold Qeq, Qminus, Qplus, Qopp, inject_Z. cbn. rewrite Pos.mul_1_r. ring.
Qed.

Lemma round_bank_rounds n p : rounds_to (fval n) (Z.of_nat p) (round_bank n p).
Proof.
  unfold rounds_to. fold (scale p). destruct n as [c q]. destruct (decide (q <= p)%nat) as [Hp|Hp].
  { assert (fval (c, q) * inject_Z (scale p) - inject_Z (round_bank (c, q) p) == 0)%Q as ->; [|done].
    unfold round_bank. rewrite decide_True by done.
    rewrite <- (fval_raise (c, q) p) by done. rewrite fval_scaled. ring. }
  pose proof (round_bank_scaled (c, q) p ltac:(cbn; lia)) as H.
  pose proof (round_bank_even (c, q) p ltac:(cbn; lia)) as He. cbn [fst snd] in *.
  rewrite (fval_units c p q) by lia. rewrite Qabs_units, scale_to_pos.
  set (z := round_bank (c, q) p) in *. clearbody z. pose proof (scale_pos (q - p)).
  unfold Qle, Qeq. cbn [Qnum Qden]. rewrite scale_to_pos. split; [lia|].
  intros Heq. apply He. lia.
Qed.

#[export] Instance laws : DecimalLaws decimal.
Proof.
  refine {| dval := (fval : @dec decimal -> Q) |}; cbn.
  - reflexivity.
  - exact fval_add.
  - exact fval_sub.
  - exact fval_mul.
  - exact fval_ltb.
  - intros a b. apply fval_ltb.
  - intros [c p]. cbn. rewrite Z.ltb_lt. unfold fval, Qlt. cbn [Qnum Qden fst snd].
    rewrite scale_to_pos. lia.
  - intros n. eexists. rewrite parse_print. split; [done|]. destruct n. apply fval_trim.
  - intros n p Hp. eexists _, _. rewrite parse_print. split; [done|].
    pose proof (round_bank_rounds n (Z.to_nat p)) as H. rewrite Z2Nat.id in H by done.
    split; [|exact H]. pose proof (fval_scaled (round_bank n (Z.to_nat p)) (Z.to_nat p)) as K.
    unfold scale in K. by rewrite Z2Nat.id in K.
  - eexists. split; [reflexivity|]. reflexivity.
  - eexists. reflexivity.
Defined.
End FixedPoint.
