(* ===== verification/GoJson.v ===== *)
(** * GoJson: the part of [encoding/json] that the repository uses

    Values of type [any], [json.Marshal] of a map (keys sorted, HTML-safe escaping),
    the JSON grammar ([parse_json]) and the rules by which [json.Unmarshal] fills a
    struct's fields.  A number is kept as its literal text, where Go's [any] holds a
    [float64].  Bytes outside ASCII are copied unchanged, as for valid UTF-8 input; Go also escapes
    U+2028 and U+2029, which are read back as they were.
    The texts of the library's errors are not modelled: every failure is [ErrJSON]. *)

From stdpp Require Import pretty.
From S2P Require Import Prelude GoStd.

Inductive any : Type :=
| JNull
| JBool (b : bool)
| JNum (lit : string)
| JStr (s : string)
| JArr (xs : list any)
| JObj (kvs : list (string * any)).

Definition chr (n : nat) : ascii := Ascii.ascii_of_nat n.
Definition chr_quote : ascii := chr 34.
Definition chr_backslash : ascii := chr 92.

Definition hex_digit (n : nat) : ascii :=
  if (n <? 10)%nat then chr (48 + n) else chr (87 + n).

(** The escape of one character inside a JSON string. *)
Definition escape (c : ascii) : string :=
  let n := Ascii.nat_of_ascii c in
  let esc d := String chr_backslash (String d "") in
  if decide (c = chr_quote) then esc chr_quote
  else if decide (c = chr_backslash) then esc chr_backslash
  else if decide (n = 8%nat) then esc "b"%char
  else if decide (n = 12%nat) then esc "f"%char
  else if decide (n = 10%nat) then esc "n"%char
  else if decide (n = 13%nat) then esc "r"%char
  else if decide (n = 9%nat) then esc "t"%char
  else if (n <? 32)%nat || bool_decide (n = 60%nat) || bool_decide (n = 62%nat) ||
          bool_decide (n = 38%nat)
  then esc "u"%char +:+ "00" +:+
       String (hex_digit (n / 16)) (String (hex_digit (n mod 16)) "")
  else String c "".

Fixpoint escape_all (s : string) : string :=
  match s with "" => "" | String c s => escape c +:+ escape_all s end.

Definition json_string (s : string) : string :=
  String chr_quote (escape_all s +:+ String chr_quote "").

Fixpoint sep_by (sep : string) (xs : list string) : string :=
  match xs with
  | [] => ""
  | [x] => x
  | x :: xs => x +:+ sep +:+ sep_by sep xs
  end.

(** Keys in increasing byte order, as [encoding/json] prints a map. *)
Fixpoint insert_key {A} (kv : string * A) (l : list (string * A)) : list (string * A) :=
  match l with
  | [] => [kv]
  | kv' :: l' => if string_ltb kv.1 kv'.1 then kv :: l else kv' :: insert_key kv l'
  end.
Definition sort_keys {A} (l : list (string * A)) : list (string * A) :=
  foldr insert_key [] l.

Fixpoint marshal (v : any) : string :=
  match v with
  | JNull => "null"
  | JBool b => if b then "true" else "false"
  | JNum lit => lit
  | JStr s => json_string s
  | JArr xs => "[" +:+ sep_by "," (map marshal xs) +:+ "]"
  | JObj kvs =>
      "{" +:+ sep_by ","
        (map (fun kv => json_string kv.1 +:+ ":" +:+ kv.2)
             (sort_keys (map (fun '(k, v) => (k, marshal v)) kvs))) +:+ "}"
  end.

(** [map[string]any], the type of the ledger's metadata. *)
Definition Metadata : Type := gmap string any.

(** [json.Marshal(m)] of a metadata map; it cannot fail on these values. *)
Definition Marshal (m : Metadata) : string := marshal (JObj (map_to_list m)).

(** ** Reading JSON *)

Definition ErrJSON : goerr := ErrNew "json".

Definition is_space (c : ascii) : bool :=
  bool_decide (Ascii.nat_of_ascii c ∈ [32; 9; 10; 13]%nat).

Fixpoint skip_ws (s : string) : string :=
  match s with
  | String c s' => if is_space c then skip_ws s' else s
  | "" => ""
  end.

Definition hex_val (c : ascii) : option Z :=
  let n := Z.of_nat (Ascii.nat_of_ascii c) in
  if ascii_between 48 57 c then Some (n - 48)
  else if ascii_between 97 102 c then Some (n - 87)
  else if ascii_between 65 70 c then Some (n - 55)
  else None.

Definition hex4 (a b c d : ascii) : option Z :=
  a ← hex_val a; b ← hex_val b; c ← hex_val c; d ← hex_val d;
  Some (a * 4096 + b * 256 + c * 16 + d).

(** The UTF-8 encoding of a code point. *)
Definition utf8 (n : Z) : string :=
  bytes_string (Z.to_nat <$>
    (if n <? 128 then [n]
     else if n <? 2048 then [192 + n / 64; 128 + n mod 64]
     else if n <? 65536 then [224 + n / 4096; 128 + n / 64 mod 64; 128 + n mod 64]
     else [240 + n / 262144; 128 + n / 4096 mod 64; 128 + n / 64 mod 64; 128 + n mod 64])).

Definition high_surrogate (n : Z) : bool := (55296 <=? n) && (n <? 56320).
Definition low_surrogate (n : Z) : bool := (56320 <=? n) && (n <? 57344).
(** U+FFFD, what an unpaired surrogate decodes to. *)
Definition replacement : string := utf8 65533.

(** The rest of a string literal after its opening quote. *)
Fixpoint parse_chars (fuel : nat) (s : string) : option (string * string) :=
  match fuel with
  | O => None
  | S fuel =>
      let cons p (r : option (string * string)) :=
        match r with Some (t, rest) => Some (p +:+ t, rest) | None => None end in
      match s with
      | "" => None
      | String c s =>
          if decide (c = chr_quote) then Some ("", s)
          else if decide (c = chr_backslash) then
            match s with
            | String e s' =>
                if decide (e = "u"%char) then
                  match s' with
                  | String a (String b (String c (String d s''))) =>
                      match hex4 a b c d with
                      | None => None
                      | Some n =>
                          if high_surrogate n then
                            match s'' with
                            | String bs (String u (String a (String b (String c
                                (String d s3))))) =>
                                match hex4 a b c d with
                                | Some m =>
                                    if bool_decide (bs = chr_backslash) &&
                                       bool_decide (u = "u"%char) && low_surrogate m
                                    then cons (utf8 (65536 + (n - 55296) * 1024 + (m - 56320)))
                                           (parse_chars fuel s3)
                                    else cons replacement (parse_chars fuel s'')
                                | None => cons replacement (parse_chars fuel s'')
                                end
                            | _ => cons replacement (parse_chars fuel s'')
                            end
                          else if low_surrogate n then cons replacement (parse_chars fuel s'')
                          else cons (utf8 n) (parse_chars fuel s'')
                      end
                  | _ => None
                  end
                else
                  let one n := cons (String (chr n) "") (parse_chars fuel s') in
                  if bool_decide (e = chr_quote) || bool_decide (e = chr_backslash) ||
                     bool_decide (e = "/"%char) then cons (String e "") (parse_chars fuel s')
                  else if decide (e = "b"%char) then one 8%nat
                  else if decide (e = "f"%char) then one 12%nat
                  else if decide (e = "n"%char) then one 10%nat
                  else if decide (e = "r"%char) then one 13%nat
                  else if decide (e = "t"%char) then one 9%nat
                  else None
            | "" => None
            end
          else if (Ascii.nat_of_ascii c <? 32)%nat then None
          else cons (String c "") (parse_chars fuel s)
      end
  end.

Definition is_digit (c : ascii) : bool := ascii_between 48 57 c.

(** Split off the longest prefix of digits. *)
Fixpoint span_digits (s : string) : string * string :=
  match s with
  | String c s' =>
      if is_digit c then let (a, b) := span_digits s' in (String c a, b) else ("", s)
  | "" => ("", "")
  end.

(** A number: an optional minus, an integer part without superfluous zeros, an
    optional fraction and an optional exponent. *)
Definition parse_number (s : string) : option (string * string) :=
  let '(sign, s) := match s with
                    | String c s' => if decide (c = "-"%char) then ("-", s') else ("", s)
                    | "" => ("", s)
                    end in
  let '(ip, s) := match s with
                  | String c s' => if decide (c = "0"%char) then ("0", s') else span_digits s
                  | "" => ("", s)
                  end in
  if decide (ip = "") then None else
  '(fp, s) ← match s with
             | String c s' =>
                 if decide (c = "."%char) then
                   let '(f, r) := span_digits s' in
                   if decide (f = "") then None else Some ("." +:+ f, r)
                 else Some ("", s)
             | "" => Some ("", s)
             end;
  '(ep, s) ← match s with
             | String e s' =>
                 if bool_decide (e = "e"%char) || bool_decide (e = "E"%char) then
                   let '(sg, s'') :=
                     match s' with
                     | String c r =>
                         if bool_decide (c = "+"%char) || bool_decide (c = "-"%char)
                         then (String c "", r) else ("", s')
                     | "" => ("", s')
                     end in
                   let '(x, r) := span_digits s'' in
                   if decide (x = "") then None else Some (String e (sg +:+ x), r)
                 else Some ("", s)
             | "" => Some ("", s)
             end;
  Some (sign +:+ ip +:+ fp +:+ ep, s).

Definition parse_string (s : string) : option (string * string) :=
  match s with
  | String c s' => if decide (c = chr_quote) then parse_chars (String.length s) s' else None
  | "" => None
  end.

(** One value, one element list, one member list; each nested call has less fuel. *)
Fixpoint parse_value (fuel : nat) (s : string) : option (any * string) :=
  match fuel with
  | O => None
  | S fuel =>
      match skip_ws s with
      | "" => None
      | String c rest as s =>
          if decide (c = chr_quote) then '(t, r) ← parse_string s; Some (JStr t, r)
          else if decide (c = "{"%char) then
            match skip_ws rest with
            | String c' r => if decide (c' = "}"%char) then Some (JObj [], r)
                             else '(kvs, r) ← parse_members fuel rest; Some (JObj kvs, r)
            | "" => None
            end
          else if decide (c = "["%char) then
            match skip_ws rest with
            | String c' r => if decide (c' = "]"%char) then Some (JArr [], r)
                             else '(xs, r) ← parse_elements fuel rest; Some (JArr xs, r)
            | "" => None
            end
          else if HasPrefix s "null" then Some (JNull, string_drop 4 s)
          else if HasPrefix s "true" then Some (JBool true, string_drop 4 s)
          else if HasPrefix s "false" then Some (JBool false, string_drop 5 s)
          else '(lit, r) ← parse_number s; Some (JNum lit, r)
      end
  end
with parse_elements (fuel : nat) (s : string) : option (list any * string) :=
  match fuel with
  | O => None
  | S fuel =>
      '(v, r) ← parse_value fuel s;
      match skip_ws r with
      | String c r =>
          if decide (c = ","%char) then '(vs, r) ← parse_elements fuel r; Some (v :: vs, r)
          else if decide (c = "]"%char) then Some ([v], r) else None
      | "" => None
      end
  end
with parse_members (fuel : nat) (s : string) : option (list (string * any) * string) :=
  match fuel with
  | O => None
  | S fuel =>
      '(k, r) ← parse_string (skip_ws s);
      match skip_ws r with
      | String c r =>
          if decide (c = ":"%char) then
            '(v, r) ← parse_value fuel r;
            match skip_ws r with
            | String c r =>
                if decide (c = ","%char)
                then '(kvs, r) ← parse_members fuel r; Some ((k, v) :: kvs, r)
                else if decide (c = "}"%char) then Some ([(k, v)], r) else None
            | "" => None
            end
          else None
      | "" => None
      end
  end.

(** A whole document: one value and nothing but space after it.  Every nested value
    consumes a character and every level takes at most two units of fuel. *)
Definition parse_json (s : string) : option any :=
  '(v, r) ← parse_value (2 + 2 * String.length s) s;
  if decide (skip_ws r = "") then Some v else None.

(** ** Filling Go values

    A struct field takes every object member whose name equals its JSON name up to
    case, in the order of the document; [null] leaves it alone. *)
Definition member (name k : string) : bool := bool_decide (ToLower k = ToLower name).

Definition fill {A} (conv : any -> res A) (name : string) (kvs : list (string * any))
    (zero : A) : res A :=
  foldl (fun acc kv =>
    match acc with
    | Ok a => if member name kv.1
              then match kv.2 with JNull => Ok a | v => conv v end
              else Ok a
    | r => r
    end) (Ok zero) kvs.

Definition conv_string (v : any) : res string :=
  match v with JStr s => Ok s | _ => Err ErrJSON end.
Definition conv_bool (v : any) : res bool :=
  match v with JBool b => Ok b | _ => Err ErrJSON end.
(** An [int64] field accepts an integer literal in range. *)
Definition conv_int64 (v : any) : res Z :=
  match v with
  | JNum lit => match parse_int "ParseInt" lit with Ok z => Ok z | _ => Err ErrJSON end
  | _ => Err ErrJSON
  end.
Definition conv_object (v : any) : res (list (string * any)) :=
  match v with JObj kvs => Ok kvs | _ => Err ErrJSON end.

Definition field_string name kvs : res string := fill conv_string name kvs "".
Definition field_bool name kvs : res bool := fill conv_bool name kvs false.
Definition field_int64 name kvs : res Z := fill conv_int64 name kvs 0.

(** A nested struct: the members of every object of that name fill it, one object after
    the other. *)
Definition nested (name : string) (kvs : list (string * any)) :
    res (list (string * any)) :=
  foldl (fun acc kv =>
    ms ← acc;
    if member name kv.1 then
      match kv.2 with JNull => Ok ms | v => ms' ← conv_object v; Ok (ms ++ ms') end
    else Ok ms) (Ok []) kvs.

(** The members of a document that must be an object ([null] leaves the struct zero). *)
Definition document (body : string) : res (list (string * any)) :=
  match parse_json body with
  | Some (JObj kvs) => Ok kvs
  | Some JNull => Ok []
  | _ => Err ErrJSON
  end.

(** [json.NewDecoder(r).Decode]: the first value of the stream, the rest unread. *)
Definition first_document (body : string) : res (list (string * any)) :=
  match parse_value (2 + 2 * String.length body) body with
  | Some (JObj kvs, _) => Ok kvs
  | Some (JNull, _) => Ok []
  | _ => Err ErrJSON
  end.

(** A map takes the last member of each name, names compared exactly. *)
Definition map_of {A} (kvs : list (string * A)) : gmap string A :=
  foldl (fun m kv => <[kv.1 := kv.2]> m) ∅ kvs.

(** [json.Unmarshal] into a [map[string]any]. *)
Definition Unmarshal_map (body : string) : res (gmap string any) :=
  map_of <$> document body.

(** [json.Unmarshal] into a [map[string]string]: [null] gives the empty string. *)
Definition Unmarshal_strings (body : string) : res (gmap string string) :=
  kvs ← document body;
  map_of <$> mapM (fun kv => match kv.2 with
                             | JStr s => Ok (kv.1, s)
                             | JNull => Ok (kv.1, "")
                             | _ => Err ErrJSON
                             end) kvs.

(** A field of type [map[string]string]. *)
Definition field_strings (name : string) (kvs : list (string * any)) :
    res (gmap string string) :=
  ms ← nested name kvs;
  map_of <$> mapM (fun kv => match kv.2 with
                             | JStr s => Ok (kv.1, s)
                             | JNull => Ok (kv.1, "")
                             | _ => Err ErrJSON
                             end) ms.

(** A field that is a slice of structs: each element an object ([null] is a zero one). *)
Definition conv_list {A} (conv : list (string * any) -> res A) (v : any) : res (list A) :=
  match v with
  | JArr xs => mapM (fun x => match x with
                              | JObj kvs => conv kvs
                              | JNull => conv []
                              | _ => Err ErrJSON
                              end) xs
  | _ => Err ErrJSON
  end.
Definition field_list {A} (conv : list (string * any) -> res A) (name : string)
    (kvs : list (string * any)) : res (list A) := fill (conv_list conv) name kvs [].

(** [strconv.FormatInt(z, 10)], and [%d]. *)
Definition Itoa (z : Z) : string := pretty z.

Example Marshal_ex :
  Marshal (<["type" := JStr "bet"]> {["n" := JNum "1"]}) =
  let q := String chr_quote "" in
  "{" +:+ q +:+ "n" +:+ q +:+ ":1," +:+ q +:+ "type" +:+ q +:+ ":" +:+ q +:+ "bet" +:+ q +:+ "}".
Proof. reflexivity. Qed.

Example parse_ex_json :
  let q := String chr_quote "" in
  parse_json ("{ " +:+ q +:+ "a" +:+ q +:+ ": [1, -2.50e3 ,true],"
              +:+ q +:+ "b" +:+ q +:+ ":{}}") =
  Some (JObj [("a", JArr [JNum "1"; JNum "-2.50e3"; JBool true]); ("b", JObj [])]).
Proof. vm_compute. reflexivity. Qed.
