(* ===== verification/JsonProps.v ===== *)
(** * JsonProps: metadata survives the trip over the wire

    The sportsbook sends the ledger's metadata as JSON text and the wallet parses it:
    a map of strings is read back exactly as it was written. *)

From S2P Require Import Prelude GoStd GoJson.

(** ** Decoding fails, but it never panics *)

Definition runs {A} (r : res A) : Prop := forall p, r <> Panic p.

Lemma runs_Ok {A} (a : A) : runs (Ok a).
Proof. by intros p. Qed.
Lemma runs_bind {A B} (r : res A) (f : A -> res B) :
  runs r -> (forall a, runs (f a)) -> runs (r ≫= f).
Proof. intros Hr Hf p. destruct r as [a|e|q]; [apply Hf|done|]. by destruct (Hr q). Qed.

Lemma runs_fill {A} (conv : any -> res A) name kvs zero :
  (forall v, runs (conv v)) -> runs (fill conv name kvs zero).
Proof.
  intros Hc. unfold fill. assert (runs (Ok zero)) as H by apply runs_Ok. revert H.
  generalize (Ok zero : res A). induction kvs as [|[k v] kvs IH]; intros r Hr; [done|].
  apply IH. destruct r as [a|e|q]; [|done|by destruct (Hr q)].
  destruct (member name _); [|done]. cbn. destruct v; auto.
Qed.

Lemma runs_nested name kvs : runs (nested name kvs).
Proof.
  unfold nested. assert (runs (Ok ([] : list (string * any)))) as H by apply runs_Ok. revert H.
  generalize (Ok [] : res (list (string * any))).
  induction kvs as [|[k v] kvs IH]; intros r Hr; [done|].
  apply IH. apply runs_bind; [done|]. intros ms. destruct (member name _); [|done].
  by destruct v.
Qed.

Lemma runs_document body : runs (document body).
Proof. unfold document. intros p. by destruct (parse_json body) as [[]|]. Qed.
Lemma runs_string name kvs : runs (field_string name kvs).
Proof. apply runs_fill. by intros [] p. Qed.
Lemma runs_bool name kvs : runs (field_bool name kvs).
Proof. apply runs_fill. by intros [] p. Qed.
Lemma runs_int64 name kvs : runs (field_int64 name kvs).
Proof. apply runs_fill. intros [] p; cbn; try done. by destruct (parse_int _ _). Qed.

Create HintDb runs.
#[export] Hint Resolve runs_Ok runs_document runs_nested runs_string runs_bool runs_int64 : runs.

(** ** Strings *)

Lemma parse_chars_escape c fuel t :
  parse_chars (S fuel) (escape c +:+ t) =
  match parse_chars fuel t with
  | Some (u, rest) => Some (String c u, rest)
  | None => None
  end.
Proof.
  destruct c as [[] [] [] [] [] [] [] []]; cbv [escape]; cbn -[parse_chars];
    cbn [parse_chars]; reflexivity.
Qed.

Lemma escape_length c : (1 <= String.length (escape c))%nat.
Proof. unfold escape. repeat case_match; rewrite ?string_app_length; cbn; lia. Qed.

Lemma parse_chars_all s : forall fuel r, (String.length (escape_all s) < fuel)%nat ->
  parse_chars fuel (escape_all s +:+ String chr_quote r) = Some (s, r).
Proof.
  induction s as [|c s IH]; intros [|fuel] r H; cbn [escape_all] in *; try lia; [done|].
  rewrite string_app_length in H. pose proof (escape_length c).
  rewrite string_app_assoc, parse_chars_escape, IH by lia. done.
Qed.

Lemma json_string_app s r :
  json_string s +:+ r = String chr_quote (escape_all s +:+ String chr_quote r).
Proof.
  unfold json_string.
  change (String chr_quote ((escape_all s +:+ String chr_quote "") +:+ r) =
    String chr_quote (escape_all s +:+ String chr_quote r)).
  by rewrite string_app_assoc.
Qed.

Lemma skip_ws_quote t : skip_ws (String chr_quote t) = String chr_quote t.
Proof. reflexivity. Qed.

Lemma parse_string_text s r : parse_string (json_string s +:+ r) = Some (s, r).
Proof.
  rewrite json_string_app. cbn [parse_string]. rewrite decide_True by done.
  apply parse_chars_all. cbn. rewrite string_app_length. lia.
Qed.

Lemma parse_value_string fuel s r :
  parse_value (S fuel) (json_string s +:+ r) = Some (JStr s, r).
Proof.
  pose proof (parse_string_text s r) as H. rewrite json_string_app in *.
  cbn [parse_value]. rewrite skip_ws_quote, decide_True by done. by rewrite H.
Qed.

(** ** Objects of strings *)

Definition member_text (kv : string * string) : string :=
  json_string kv.1 +:+ ":" +:+ json_string kv.2.
Definition members_text (kvs : list (string * string)) : string :=
  sep_by "," (member_text <$> kvs).
Definition as_any (kv : string * string) : string * any := (kv.1, JStr kv.2).

Lemma members_text_cons kv kvs : kvs <> [] ->
  members_text (kv :: kvs) = member_text kv +:+ "," +:+ members_text kvs.
Proof. by destruct kvs. Qed.

Lemma parse_members_text kvs : forall fuel r, kvs <> [] -> (length kvs < fuel)%nat ->
  parse_members fuel (members_text kvs +:+ String "}"%char r) = Some (as_any <$> kvs, r).
Proof.
  induction kvs as [|kv kvs IH]; intros [|fuel] r Hne Hf; cbn [length] in *; try lia; try done.
  destruct fuel as [|fuel]; [lia|].
  assert (forall t, skip_ws (member_text kv +:+ t) = member_text kv +:+ t) as Hws.
  { intros t. unfold member_text. by rewrite string_app_assoc, json_string_app, skip_ws_quote. }
  assert (forall t, parse_string (member_text kv +:+ t) =
    Some (kv.1, ":" +:+ json_string kv.2 +:+ t)) as Hk.
  { intros t. unfold member_text. by rewrite !string_app_assoc, parse_string_text. }
  destruct (decide (kvs = [])) as [->|Hkvs].
  - change (members_text [kv]) with (member_text kv). remember (S fuel) as f eqn:Hfu.
    cbn [parse_members]. rewrite Hws, Hk. cbn [mbind option_bind].
    change (skip_ws (":" +:+ ?t)) with (":" +:+ t).
    change (":" +:+ json_string kv.2 +:+ String "}"%char r) with
      (String ":" (json_string kv.2 +:+ String "}"%char r)).
    cbn [skip_ws]. rewrite Hfu, parse_value_string. done.
  - rewrite members_text_cons by done. rewrite string_app_assoc.
    remember (S fuel) as f eqn:Hfu.
    cbn [parse_members]. rewrite Hws, Hk. cbn [mbind option_bind].
    rewrite string_app_assoc.
    change (skip_ws (":" +:+ ?t)) with (String ":" t).
    rewrite Hfu, parse_value_string, <- Hfu.
    change ("," +:+ members_text kvs +:+ String "}"%char r) with
      (String "," (members_text kvs +:+ String "}"%char r)).
    rewrite decide_True by done. cbn [mbind option_bind].
    change (skip_ws (String "," ?t)) with (String "," t).
    cbv beta iota. rewrite decide_True by done. rewrite IH by (try done; lia). done.
Qed.

Lemma members_text_length kvs : (length kvs <= String.length (members_text kvs))%nat.
Proof.
  induction kvs as [|kv kvs IH]; [done|].
  assert (1 <= String.length (member_text kv))%nat as H.
  { unfold member_text. rewrite json_string_app. cbn. lia. }
  destruct (decide (kvs = [])) as [->|Hne]; [exact H|].
  rewrite members_text_cons, !string_app_length by done. cbn [length]. cbn. lia.
Qed.

Lemma members_text_quote kvs : kvs <> [] ->
  exists t, members_text kvs = String chr_quote t.
Proof.
  destruct kvs as [|kv kvs]; [done|]. intros _. destruct (decide (kvs = [])) as [->|H].
  - unfold members_text, member_text. cbn. rewrite json_string_app. by eexists.
  - rewrite members_text_cons by done. unfold member_text.
    rewrite !string_app_assoc, json_string_app. by eexists.
Qed.

Lemma parse_value_members fuel kvs r : kvs <> [] -> (length kvs < fuel)%nat ->
  parse_value (S fuel) (String "{" (members_text kvs +:+ String "}"%char r)) =
  Some (JObj (as_any <$> kvs), r).
Proof.
  intros Hne Hf. destruct (members_text_quote kvs Hne) as [t Ht].
  assert (skip_ws (members_text kvs +:+ String "}"%char r) =
    String chr_quote (t +:+ String "}"%char r)) as Hs by (by rewrite Ht).
  cbn [parse_value].
  change (skip_ws (String "{" ?x)) with (String "{"%char x). cbv beta iota.
  rewrite decide_False, decide_True by done. rewrite Hs. rewrite decide_False by done.
  by rewrite parse_members_text.
Qed.

Lemma document_members kvs : document ("{" +:+ members_text kvs +:+ "}") = Ok (as_any <$> kvs).
Proof.
  destruct (decide (kvs = [])) as [->|Hne]; [reflexivity|].
  unfold document, parse_json.
  pose proof (members_text_length kvs) as Hl.
  change ("{" +:+ members_text kvs +:+ "}") with (String "{" (members_text kvs +:+ "}")).
  change (2 + 2 * ?n)%nat with (S (1 + 2 * n)). rewrite parse_value_members; [done|done|].
  cbn [String.length]. rewrite string_app_length. lia.
Qed.

(** ** Maps of strings *)

Lemma insert_key_fmap {A B} (f : A -> B) kv l :
  insert_key (kv.1, f kv.2) ((fun p => (p.1, f p.2)) <$> l) =
  (fun p => (p.1, f p.2)) <$> insert_key kv l.
Proof. 
  induction l as [|kv' l IH]; [done|].
  cbn [insert_key fmap list_fmap List.map fst snd]. destruct (string_ltb _ _); [done|].
  cbn [fmap list_fmap List.map fst snd]. f_equal. exact IH.
Qed.

Lemma sort_keys_fmap {A B} (f : A -> B) l :
  sort_keys ((fun p => (p.1, f p.2)) <$> l) = (fun p => (p.1, f p.2)) <$> sort_keys l.
Proof.
  induction l as [|kv l IH]; [done|]. cbn in *. fold (sort_keys ((fun p => (p.1, f p.2)) <$> l)).
  fold (sort_keys l). rewrite IH. apply insert_key_fmap.
Qed.

Lemma sort_keys_perm {A} (l : list (string * A)) : sort_keys l ≡ₚ l.
Proof.
  assert (forall kv (l' : list (string * A)), insert_key kv l' ≡ₚ kv :: l') as Hi.
  { intros kv l0. induction l0 as [|kv' l' IH]; cbn [insert_key]; [reflexivity|].
    destruct (string_ltb _ _); [reflexivity|].
    rewrite IH. apply Permutation_swap. }
  induction l as [|kv l IH]; [reflexivity|].
  change (sort_keys (kv :: l)) with (insert_key kv (sort_keys l)).
  by rewrite Hi, IH.
Qed.

Lemma map_of_lookup {A} (kvs : list (string * A)) : NoDup kvs.*1 ->
  forall k v, map_of kvs !! k = Some v <-> (k, v) ∈ kvs.
Proof.
  unfold map_of.
  assert (forall acc : gmap string A, NoDup kvs.*1 -> forall k v,
    foldl (fun m kv => <[kv.1 := kv.2]> m) acc kvs !! k = Some v <->
    (k, v) ∈ kvs \/ ((k ∉ kvs.*1) /\ acc !! k = Some v)) as H.
  { induction kvs as [|[k0 v0] kvs IH]; intros acc Hnd k v; cbn.
    - rewrite elem_of_nil. set_solver.
    - apply list.NoDup_cons in Hnd as [Hn Hnd]. rewrite IH by done.
      rewrite !elem_of_cons. destruct (decide (k = k0)) as [->|Hne].
      + rewrite lookup_insert_eq. split.
        * intros [Hin|[_ [= ->]]]; [left; by right|left; by left].
        * intros [[[= ->]|Hin]|[[] _]]; [by right|by left|by left].
      + rewrite lookup_insert_ne by done. cbn. naive_solver. }
  intros Hnd k v. rewrite H by done. rewrite lookup_empty. naive_solver.
Qed.

Lemma Marshal_strings (m : gmap string string) (l : list (string * string)) :
  map_to_list (JStr <$> m) = (fun p => (p.1, JStr p.2)) <$> l ->
  Marshal (JStr <$> m) = "{" +:+ members_text (sort_keys l) +:+ "}".
Proof.
  intros Hl. unfold Marshal, Metadata. rewrite Hl. cbn [marshal]. unfold members_text.
  assert (map (fun '(k, v) => (k, marshal v)) ((fun p => (p.1, JStr p.2)) <$> l) =
    (fun p => (p.1, json_string p.2)) <$> l) as ->.
  { clear. induction l as [|[k v] l IH]; [done|]. cbn in *. by rewrite IH. }
  rewrite sort_keys_fmap. do 3 f_equal. clear.
  induction (sort_keys l) as [|[k v] l' IH]; [done|]. cbn in *. by rewrite IH.
Qed.

Lemma fmap_entries (m : gmap string string) :
  map_to_list (JStr <$> m) = (fun p => (p.1, JStr p.2)) <$> map_to_list m.
Proof. rewrite map_to_list_fmap. apply list_fmap_ext. by intros _ [k v] _. Qed.

(** Metadata round trip: a map of strings that is marshalled to JSON, whatever
    characters its keys and values have, is unmarshalled to the same map. *)
Lemma Unmarshal_Marshal (m : gmap string string) :
  Unmarshal_map (Marshal (JStr <$> m)) = Ok (JStr <$> m).
Proof.
  rewrite (Marshal_strings m _ (fmap_entries m)). set (l := map_to_list m).
  unfold Unmarshal_map. rewrite document_members.
  change (Ok (map_of (as_any <$> sort_keys l)) = Ok (JStr <$> m)). f_equal.
  assert (NoDup (as_any <$> sort_keys l).*1) as Hnd.
  { rewrite <- list_fmap_compose. change (fst ∘ as_any) with (fst : string * string -> string).
    rewrite sort_keys_perm. apply NoDup_fst_map_to_list. }
  apply map_eq. intros k. apply option_eq. intros v. rewrite map_of_lookup by done.
  rewrite list_elem_of_fmap, lookup_fmap, fmap_Some. split.
  - intros ([k' s] & Heq & Hin). unfold as_any in Heq. cbn in Heq. injection Heq as -> ->.
    rewrite sort_keys_perm in Hin. exists s. by apply elem_of_map_to_list in Hin.
  - intros (s & Hs & ->). exists (k, s). split; [done|]. rewrite sort_keys_perm.
    by apply elem_of_map_to_list.
Qed.
