(* ===== verification/GoTime.v ===== *)
(** * GoTime: the part of [time] that the repository uses

    A time is a number of nanoseconds since the zero time of Go, the first of January of
    the year 1; calendar dates are proleptic Gregorian. *)

From S2P Require Import Prelude GoStd GoJson.

Definition second : Z := 1000000000.
Definition minute : Z := 60 * second.
Definition unixToInternal : Z := 62135596800.

(** [time.Unix(ts, 0)], on 64-bit seconds. *)
Definition time_Unix (ts : Z) : Z := int64 (ts + unixToInternal) * second.
(** [t.Unix()] *)
Definition Unix (t : Z) : Z := t / second - unixToInternal.

(** Year, month and day of a number of days since 1970-01-01. *)
Definition civil_of_days (days : Z) : Z * Z * Z :=
  let z := days + 719468 in
  let era := z / 146097 in
  let doe := z mod 146097 in
  let yoe := (doe - doe / 1460 + doe / 36524 - doe / 146096) / 365 in
  let doy := doe - (365 * yoe + yoe / 4 - yoe / 100) in
  let mp := (5 * doy + 2) / 153 in
  let d := doy - (153 * mp + 2) / 5 + 1 in
  let m := if mp <? 10 then mp + 3 else mp - 9 in
  let y := yoe + era * 400 in
  (if m <=? 2 then y + 1 else y, m, d).

(** A number with leading zeros, at least [width] digits. *)
Definition pad (width : nat) (z : Z) : string :=
  let s := Itoa (Z.abs z) in
  (if z <? 0 then "-" else "") +:+
  Nat.iter (width - String.length s) (String "0"%char) s.

(** [t.UTC().Format(time.RFC3339)] *)
Definition FormatRFC3339_UTC (t : Z) : string :=
  let secs := Unix t in
  let '(y, m, d) := civil_of_days (secs / 86400) in
  let s := secs mod 86400 in
  pad 4 y +:+ "-" +:+ pad 2 m +:+ "-" +:+ pad 2 d +:+ "T" +:+
  pad 2 (s / 3600) +:+ ":" +:+ pad 2 (s / 60 mod 60) +:+ ":" +:+ pad 2 (s mod 60) +:+ "Z".

Example Format_epoch : FormatRFC3339_UTC (time_Unix 0) = "1970-01-01T00:00:00Z".
Proof. vm_compute. reflexivity. Qed.
Example Format_leap : FormatRFC3339_UTC (time_Unix 1709251199) = "2024-02-29T23:59:59Z".
Proof. vm_compute. reflexivity. Qed.
Example Format_zero : FormatRFC3339_UTC time_zero = "0001-01-01T00:00:00Z".
Proof. vm_compute. reflexivity. Qed.
