(* ===== verification/Demo.v ===== *)
(** * Demo: a concrete run-time environment, for the witnesses

    Identifiers are tallies, the clock advances by a second per draw, [range] visits
    maps in the order of their representation and [sort.Slice] is an insertion sort. *)

From S2P Require Import Prelude GoStd Decimal.

Fixpoint tally (n : nat) : string :=
  match n with O => "id" | S n => String "+"%char (tally n) end.

Lemma tally_inj n m : tally n = tally m -> n = m.
Proof. revert m. induction n as [|n IH]; intros [|m]; cbn; intros; simplify_eq; auto. Qed.

Section Insertion.
Context {A : Type} (less : A -> A -> bool).

Fixpoint insert_less (x : A) (l : list A) : list A :=
  match l with
  | [] => [x]
  | y :: l' => if less y x then y :: insert_less x l' else x :: l
  end.
Definition sort_less (l : list A) : list A := foldr insert_less [] l.

Lemma insert_less_perm x l : insert_less x l ≡ₚ x :: l.
Proof.
  induction l as [|y l IH]; cbn; [done|]. destruct (less y x); [|done].
  rewrite IH. apply Permutation_swap.
Qed.
Lemma sort_less_perm l : sort_less l ≡ₚ l.
Proof. induction l as [|x l IH]; cbn; [done|]. by rewrite insert_less_perm, IH. Qed.

Lemma insert_less_sorted x l : (forall x y, less x y = true -> less y x = false) ->
  Sorted (fun x y => less y x = false) l ->
  Sorted (fun x y => less y x = false) (insert_less x l).
Proof.
  intros Has. induction 1 as [|y l Hl IH Hy]; cbn; [by repeat constructor|].
  destruct (less y x) eqn:E; [|repeat constructor; auto].
  constructor; [exact IH|]. destruct l as [|z l]; cbn in *; [by constructor; auto|].
  destruct (less z x); constructor; auto. by inversion Hy.
Qed.
Lemma sort_less_sorted l : (forall x y, less x y = true -> less y x = false) ->
  Sorted (fun x y => less y x = false) (sort_less l).
Proof.
  intros Has. induction l as [|x l IH]; cbn; [constructor|]. by apply insert_less_sorted.
Qed.
End Insertion.

Module Demo.
#[export] Instance env : GoEnv := {
  uuid_at := tally;
  time_at n := Z.of_nat n * 1000000000;
  range_at V t m := map_to_list m;
  Getenv _ := "";
  FormatRFC3339 t := "1970-01-01T00:00:00Z";
  ParseRFC3339 s := Ok 0;
  sort_Slice A less l := sort_less less l;
}.
#[export] Instance env_laws : GoEnvLaws env.
Proof.
  constructor.
  - done.
  - exact tally_inj.
  - by intros [].
  - intros. apply sort_less_perm.
  - intros. by apply sort_less_sorted.
Qed.
#[export] Instance grpc : GrpcText := {
  status_Error c m := "rpc error: " +:+ m;
  status_FromError e := match e with ErrStatus c _ => Some c | _ => None end;
  wire_error e := match e with ErrStatus c m => e | _ => ErrStatus Unknown "unknown" end;
}.
#[export] Instance grpc_laws : GrpcLaws grpc.
Proof. constructor; [done|]. by intros []. Qed.
#[export] Existing Instances FixedPoint.decimal FixedPoint.laws.
End Demo.
