(* ===== verification/WalletModels.v ===== *)
(** * WalletModels: the wallet service's data, errors and decimal helpers

    [internal/wallet/models.go], [decimal.go], and the sentinel errors and the
    [Store] interface of [store.go] and [pgstore.go]. *)

From S2P Require Import Prelude GoStd GoJson Decimal.

Record Wallet : Type := mkWallet {
  wallet_ID : string;
  wallet_UserID : string;
  wallet_Currency : string;
  wallet_Balance : string;
  wallet_Version : Z;
  wallet_CreatedAt : Z;
  wallet_UpdatedAt : Z;
}.

Record Transaction : Type := mkTransaction {
  tx_ID : string;
  tx_UserID : string;
  tx_WalletID : string;
  tx_Currency : string;
  tx_Type : string;
  tx_Amount : string;
  tx_BalanceBefore : string;
  tx_BalanceAfter : string;
  tx_Status : string;
  tx_ReferenceID : string;
  tx_Metadata : string;
  tx_CreatedAt : Z;
}.

Record DepositAddress : Type := mkDepositAddress {
  da_ID : string;
  da_UserID : string;
  da_Currency : string;
  da_Chain : string;
  da_Address : string;
  da_XCashDepositID : string;
  da_Status : string;
  da_CreatedAt : Z;
}.

Record WithdrawalRequest : Type := mkWithdrawalRequest {
  wr_ID : string;
  wr_UserID : string;
  wr_WalletID : string;
  wr_Amount : string;
  wr_Currency : string;
  wr_DestinationAddress : string;
  wr_Chain : string;
  wr_Status : string;
  wr_TxHash : string;
  wr_ReviewedBy : string;
  wr_CreatedAt : Z;
}.

(** Assignments to a few fields of a record, as the Go code writes them. *)
Definition wallet_set_balance (balance : string) (now : Z) (w : Wallet) : Wallet :=
  mkWallet (wallet_ID w) (wallet_UserID w) (wallet_Currency w) balance
    (int64 (wallet_Version w + 1)) (wallet_CreatedAt w) now.
Definition tx_set_status (status : string) (t : Transaction) : Transaction :=
  mkTransaction (tx_ID t) (tx_UserID t) (tx_WalletID t) (tx_Currency t) (tx_Type t)
    (tx_Amount t) (tx_BalanceBefore t) (tx_BalanceAfter t) status (tx_ReferenceID t)
    (tx_Metadata t) (tx_CreatedAt t).
Definition wr_review (status txHash reviewedBy : string) (r : WithdrawalRequest) :
    WithdrawalRequest :=
  mkWithdrawalRequest (wr_ID r) (wr_UserID r) (wr_WalletID r) (wr_Amount r)
    (wr_Currency r) (wr_DestinationAddress r) (wr_Chain r) status txHash reviewedBy
    (wr_CreatedAt r).

Definition ErrWalletNotFound : goerr := ErrVar "wallet.ErrWalletNotFound" "wallet not found".
Definition ErrNotImplemented : goerr := ErrVar "wallet.ErrNotImplemented" "not implemented".
Definition ErrInsufficientBalance : goerr :=
  ErrVar "wallet.ErrInsufficientBalance" "insufficient balance".
Definition ErrWalletConflict : goerr :=
  ErrVar "wallet.ErrWalletConflict" "wallet update conflict".

(** ** decimal.go *)

Definition addDecimal `{Decimal} (a b : string) : res string :=
  da ← wrap_res ("parse amount " +:+ quote a) (NewFromString a);
  db ← wrap_res ("parse amount " +:+ quote b) (NewFromString b);
  mret (dec_String (dec_Add da db)).

Definition subDecimal `{Decimal} (a b : string) : res string :=
  da ← wrap_res ("parse amount " +:+ quote a) (NewFromString a);
  db ← wrap_res ("parse amount " +:+ quote b) (NewFromString b);
  mret (dec_String (dec_Sub da db)).

(** ** The [Store] interface of store.go *)
Class Store (S : Type) : Type := {
  store_GetWallet : string -> string -> M S Wallet;
  store_CreateWallet : string -> string -> M S Wallet;
  store_CreditWallet : string -> string -> string -> string -> Metadata -> M S Transaction;
  store_DebitWallet : string -> string -> string -> string -> Metadata -> M S Transaction;
  store_ReverseDebit : string -> M S Transaction;
  store_GetDepositAddress : string -> string -> string -> M S DepositAddress;
  store_CreateDepositAddress : DepositAddress -> M S DepositAddress;
  store_RequestWithdrawal :
    string -> string -> string -> string -> string -> M S WithdrawalRequest;
  store_ApproveWithdrawal : string -> string -> string -> M S WithdrawalRequest;
  store_RejectWithdrawal : string -> string -> M S WithdrawalRequest;
  store_ListPendingWithdrawals : Z -> Z -> M S (list WithdrawalRequest);
  store_ListTransactions : string -> Z -> Z -> M S (list Transaction);
}.

(** ** Facts about the decimal helpers *)
Section Facts.
Context `{L : DecimalLaws}.

Lemma addDecimal_value a b p q : is_amount a p -> is_amount b q ->
  exists c, addDecimal a b = Ok c /\ is_amount c (p + q).
Proof.
  intros (da & Ha & Hp) (db & Hb & Hq). unfold addDecimal, NewFromString.
  rewrite Ha, Hb. cbn. eexists. split; [done|].
  rewrite <- Hp, <- Hq, <- dval_Add. apply is_amount_String.
Qed.

Lemma subDecimal_value a b p q : is_amount a p -> is_amount b q ->
  exists c, subDecimal a b = Ok c /\ is_amount c (p - q).
Proof.
  intros (da & Ha & Hp) (db & Hb & Hq). unfold subDecimal, NewFromString.
  rewrite Ha, Hb. cbn. eexists. split; [done|].
  rewrite <- Hp, <- Hq, <- dval_Sub. apply is_amount_String.
Qed.

Lemma addDecimal_inv a b c : addDecimal a b = Ok c ->
  exists p q, is_amount a p /\ is_amount b q /\ is_amount c (p + q).
Proof.
  unfold addDecimal, NewFromString. intros H.
  destruct (ParseDecimal a) as [da|] eqn:Ha; [|done].
  destruct (ParseDecimal b) as [db|] eqn:Hb; [|done]. injection H as <-.
  exists (dval da), (dval db). rewrite <- dval_Add. auto with amounts.
Qed.

Lemma subDecimal_inv a b c : subDecimal a b = Ok c ->
  exists p q, is_amount a p /\ is_amount b q /\ is_amount c (p - q).
Proof.
  unfold subDecimal, NewFromString. intros H.
  destruct (ParseDecimal a) as [da|] eqn:Ha; [|done].
  destruct (ParseDecimal b) as [db|] eqn:Hb; [|done]. injection H as <-.
  exists (dval da), (dval db). rewrite <- dval_Sub. auto with amounts.
Qed.
End Facts.
