(* ===== verification/WalletStore.v ===== *)
(** * WalletStore: the wallet's in-memory store

    [internal/wallet/memory_store.go].  [txns] and [txnByRef] hold pointers to the
    same [Transaction]s, and approving or rejecting a withdrawal mutates one through
    [txnByRef]: transactions live in a heap [ms_heap] and the two maps hold their
    addresses.  Wallets, addresses and withdrawals are each reachable through one map
    only, so that map holds the values. *)

From S2P Require Import Prelude GoStd GoJson Decimal WalletModels.

Record memoryStore : Type := mkMemoryStore {
  ms_wallets : gmap string Wallet;
  ms_heap : list Transaction;
  ms_txns : gmap string nat;
  ms_txnByRef : gmap string nat;
  ms_addresses : gmap string DepositAddress;
  ms_withdrawals : gmap string WithdrawalRequest;
}.

Definition NewInMemoryStore : memoryStore := mkMemoryStore ∅ [] ∅ ∅ ∅ ∅.

(** Assignments to one field of the store. *)
Definition ms_set_wallet (k : string) (w : Wallet) (s : memoryStore) : memoryStore :=
  mkMemoryStore (<[k := w]> (ms_wallets s)) (ms_heap s) (ms_txns s) (ms_txnByRef s)
    (ms_addresses s) (ms_withdrawals s).
Definition ms_set_heap (h : list Transaction) (s : memoryStore) : memoryStore :=
  mkMemoryStore (ms_wallets s) h (ms_txns s) (ms_txnByRef s) (ms_addresses s)
    (ms_withdrawals s).
Definition ms_set_txn (id : string) (l : nat) (s : memoryStore) : memoryStore :=
  mkMemoryStore (ms_wallets s) (ms_heap s) (<[id := l]> (ms_txns s)) (ms_txnByRef s)
    (ms_addresses s) (ms_withdrawals s).
Definition ms_set_ref (ref : string) (l : nat) (s : memoryStore) : memoryStore :=
  mkMemoryStore (ms_wallets s) (ms_heap s) (ms_txns s) (<[ref := l]> (ms_txnByRef s))
    (ms_addresses s) (ms_withdrawals s).
Definition ms_set_address (id : string) (a : DepositAddress) (s : memoryStore) : memoryStore :=
  mkMemoryStore (ms_wallets s) (ms_heap s) (ms_txns s) (ms_txnByRef s)
    (<[id := a]> (ms_addresses s)) (ms_withdrawals s).
Definition ms_set_withdrawal (id : string) (r : WithdrawalRequest) (s : memoryStore) :
    memoryStore :=
  mkMemoryStore (ms_wallets s) (ms_heap s) (ms_txns s) (ms_txnByRef s)
    (ms_addresses s) (<[id := r]> (ms_withdrawals s)).

(** [txn := &Transaction{...}; s.txns[txn.ID] = txn]: the new pointer is the next
    heap address. *)
Definition alloc_txn (t : Transaction) (s : memoryStore) : memoryStore :=
  ms_set_txn (tx_ID t) (length (ms_heap s)) (ms_set_heap (ms_heap s ++ [t]) s).

(** [if tx, ok := s.txnByRef[ref]; ok { tx.Status = status }] *)
Definition set_ref_status (ref status : string) (s : memoryStore) : memoryStore :=
  match ms_txnByRef s !! ref with
  | Some l => ms_set_heap (alter (tx_set_status status) l (ms_heap s)) s
  | None => s
  end.

(** [s.txnByRef[ref]], followed to the transaction it points to. *)
Definition lookup_ref (ref : string) (s : memoryStore) : option Transaction :=
  l ← ms_txnByRef s !! ref; ms_heap s !! l.

Definition walletKey (userID currency : string) : string :=
  userID +:+ ":" +:+ currency.

Definition metadataString (m : Metadata) : string :=
  if decide (size m = 0%nat) then "" else Marshal m.

Section MemoryStore.
Context `{GoEnv, Decimal}.

Definition memoryStore_createWallet (userID currency : string) : M memoryStore Wallet :=
  s ← get;
  let key := walletKey userID currency in
  match ms_wallets s !! key with
  | Some w => mret w
  | None =>
      id ← new_uuid;
      created ← time_now;
      updated ← time_now;
      let w := mkWallet id userID currency "0" 0 created updated in
      modify (ms_set_wallet key w);;
      mret w
  end.

Definition memoryStore_GetWallet (userID currency : string) : M memoryStore Wallet :=
  s ← get;
  match ms_wallets s !! walletKey userID currency with
  | Some w => mret w
  | None => mthrow ErrWalletNotFound
  end.

Definition memoryStore_CreateWallet (userID currency : string) : M memoryStore Wallet :=
  memoryStore_createWallet userID currency.

(** The transaction already recorded under a non-empty reference, if any. *)
Definition existing_by_ref (referenceID : string) (s : memoryStore) : option Transaction :=
  if decide (referenceID = "") then None else lookup_ref referenceID s.

(** The common tail of CreditWallet and DebitWallet: record the transaction and
    write the new balance. *)
Definition record_txn (typ key userID currency amount newBalance referenceID : string)
    (metadata : Metadata) (w : Wallet) : M memoryStore Transaction :=
  id ← new_uuid;
  created ← time_now;
  let txn := mkTransaction id userID (wallet_ID w) currency typ amount
               (wallet_Balance w) newBalance "completed" referenceID
               (metadataString metadata) created in
  s ← get;
  let l := length (ms_heap s) in
  modify (alloc_txn txn);;
  (if decide (referenceID = "") then mret tt else modify (ms_set_ref referenceID l));;
  updated ← time_now;
  modify (ms_set_wallet key (wallet_set_balance newBalance updated w));;
  mret txn.

Definition memoryStore_CreditWallet (userID currency amount referenceID : string)
    (metadata : Metadata) : M memoryStore Transaction :=
  s ← get;
  match existing_by_ref referenceID s with
  | Some existing => mret existing
  | None =>
      w ← memoryStore_createWallet userID currency;
      newBalance ← wrapped "credit wallet" (of_res (addDecimal (wallet_Balance w) amount));
      record_txn "deposit" (walletKey userID currency) userID currency amount newBalance
        referenceID metadata w
  end.

Definition memoryStore_DebitWallet (userID currency amount referenceID : string)
    (metadata : Metadata) : M memoryStore Transaction :=
  s ← get;
  match existing_by_ref referenceID s with
  | Some existing => mret existing
  | None =>
      let key := walletKey userID currency in
      match ms_wallets s !! key with
      | None => mthrow (ErrNew "wallet not found")
      | Some w =>
          currentBalance ← of_res (NewFromString (wallet_Balance w));
          debitAmount ← of_res (NewFromString amount);
          if dec_LessThan currentBalance debitAmount
          then mthrow (ErrNew "insufficient balance")
          else
            newBalance ← wrapped "debit wallet" (of_res (subDecimal (wallet_Balance w) amount));
            record_txn "withdrawal" key userID currency amount newBalance
              referenceID metadata w
      end
  end.

Definition memoryStore_ReverseDebit (transactionID : string) : M memoryStore Transaction :=
  mthrow (ErrNew "not implemented in unit test stub").

Definition memoryStore_GetDepositAddress (userID currency chain : string) :
    M memoryStore DepositAddress :=
  s ← get;
  addresses ← range (ms_addresses s);
  match list_find (fun '(_, addr) =>
          da_UserID addr = userID /\ da_Currency addr = currency /\
          da_Chain addr = chain /\ da_Status addr = "active") addresses with
  | Some (_, (_, addr)) => mret addr
  | None => mthrow (ErrNew "not found")
  end.

Definition memoryStore_CreateDepositAddress (addr : DepositAddress) :
    M memoryStore DepositAddress :=
  id ← new_uuid;
  created ← time_now;
  let addr := mkDepositAddress id (da_UserID addr) (da_Currency addr) (da_Chain addr)
                (da_Address addr) (da_XCashDepositID addr) "active" created in
  modify (ms_set_address id addr);;
  mret addr.

Definition memoryStore_RequestWithdrawal
    (userID currency amount destinationAddress chain : string) :
    M memoryStore WithdrawalRequest :=
  s ← get;
  let key := walletKey userID currency in
  match ms_wallets s !! key with
  | None => mthrow ErrWalletNotFound
  | Some w =>
      currentBalance ← of_res (NewFromString (wallet_Balance w));
      withdrawalAmount ← of_res (NewFromString amount);
      if dec_LessThan currentBalance withdrawalAmount then mthrow ErrInsufficientBalance
      else
        newBalance ← wrapped "debit wallet for withdrawal"
                       (of_res (subDecimal (wallet_Balance w) amount));
        updated ← time_now;
        modify (ms_set_wallet key (wallet_set_balance newBalance updated w));;
        reqID ← new_uuid;
        now ← time_now;
        id ← new_uuid;
        let withdrawalTx :=
          mkTransaction id userID (wallet_ID w) currency "withdrawal" amount
            (dec_String currentBalance) newBalance "pending" reqID "" now in
        s ← get;
        let l := length (ms_heap s) in
        modify (alloc_txn withdrawalTx);;
        modify (ms_set_ref reqID l);;
        let req := mkWithdrawalRequest reqID userID (wallet_ID w) amount currency
                     destinationAddress chain "pending" "" "" now in
        modify (ms_set_withdrawal reqID req);;
        mret req
  end.

Definition memoryStore_ApproveWithdrawal (id txHash reviewedBy : string) :
    M memoryStore WithdrawalRequest :=
  s ← get;
  match ms_withdrawals s !! id with
  | None => mthrow (ErrNew "withdrawal request not found")
  | Some req =>
      if decide (wr_Status req = "pending") then
        let req := wr_review "approved" txHash reviewedBy req in
        modify (ms_set_withdrawal id req);;
        modify (set_ref_status id "completed");;
        mret req
      else mthrow (ErrNew "withdrawal request not pending")
  end.

Definition memoryStore_RejectWithdrawal (id reviewedBy : string) :
    M memoryStore WithdrawalRequest :=
  s ← get;
  match ms_withdrawals s !! id with
  | None => mthrow (ErrNew "withdrawal request not found")
  | Some req =>
      if decide (wr_Status req = "pending") then
        let key := walletKey (wr_UserID req) (wr_Currency req) in
        match ms_wallets s !! key with
        | None => mthrow ErrWalletNotFound
        | Some w =>
            reversedBalance ← wrapped "reverse withdrawal debit"
                                (of_res (addDecimal (wallet_Balance w) (wr_Amount req)));
            updated ← time_now;
            modify (ms_set_wallet key (wallet_set_balance reversedBalance updated w));;
            let req := wr_review "rejected" (wr_TxHash req) reviewedBy req in
            modify (ms_set_withdrawal id req);;
            modify (set_ref_status id "reversed");;
            txID ← new_uuid;
            now ← time_now;
            modify (alloc_txn
              (mkTransaction txID (wr_UserID req) (wallet_ID w) (wr_Currency req)
                 "adjustment" (wr_Amount req) (wallet_Balance w) reversedBalance
                 "completed" (id +:+ "-reversal") "" now));;
            mret req
        end
      else mthrow (ErrNew "withdrawal request not pending")
  end.

Definition memoryStore_ListPendingWithdrawals (page pageSize : Z) :
    M memoryStore (list WithdrawalRequest) :=
  s ← get;
  rs ← range (ms_withdrawals s);
  mret (filter (fun r => wr_Status r = "pending") rs.*2).

Definition memoryStore_ListTransactions (userID : string) (page pageSize : Z) :
    M memoryStore (list Transaction) :=
  s ← get;
  ls ← range (ms_txns s);
  mret (filter (fun t => tx_UserID t = userID) (omap (fun l => ms_heap s !! l) ls.*2)).

#[export] Instance memoryStore_Store : Store memoryStore := {
  store_GetWallet := memoryStore_GetWallet;
  store_CreateWallet := memoryStore_CreateWallet;
  store_CreditWallet := memoryStore_CreditWallet;
  store_DebitWallet := memoryStore_DebitWallet;
  store_ReverseDebit := memoryStore_ReverseDebit;
  store_GetDepositAddress := memoryStore_GetDepositAddress;
  store_CreateDepositAddress := memoryStore_CreateDepositAddress;
  store_RequestWithdrawal := memoryStore_RequestWithdrawal;
  store_ApproveWithdrawal := memoryStore_ApproveWithdrawal;
  store_RejectWithdrawal := memoryStore_RejectWithdrawal;
  store_ListPendingWithdrawals := memoryStore_ListPendingWithdrawals;
  store_ListTransactions := memoryStore_ListTransactions;
}.
End MemoryStore.

(** A store that is a component of a larger state. *)
Section LensStore.
Context {S T : Type} `{LT : Lens S T, ST : Store T}.

Definition lens_Store : Store S := {|
  store_GetWallet u c := zoom (store_GetWallet u c);
  store_CreateWallet u c := zoom (store_CreateWallet u c);
  store_CreditWallet u c a r md := zoom (store_CreditWallet u c a r md);
  store_DebitWallet u c a r md := zoom (store_DebitWallet u c a r md);
  store_ReverseDebit id := zoom (store_ReverseDebit id);
  store_GetDepositAddress u c ch := zoom (store_GetDepositAddress u c ch);
  store_CreateDepositAddress a := zoom (store_CreateDepositAddress a);
  store_RequestWithdrawal u c a d ch := zoom (store_RequestWithdrawal u c a d ch);
  store_ApproveWithdrawal i t b := zoom (store_ApproveWithdrawal i t b);
  store_RejectWithdrawal i b := zoom (store_RejectWithdrawal i b);
  store_ListPendingWithdrawals p n := zoom (store_ListPendingWithdrawals p n);
  store_ListTransactions u p n := zoom (store_ListTransactions u p n);
|}.
End LensStore.
