(* ===== verification/WalletLedger.v ===== *)
(** * WalletLedger: the ledger invariant of the in-memory wallet store

    Every balance is the sum of the signed amounts of the wallet's ledger entries, in
    every state that any sequence of store operations can reach; withdrawals and their
    ledger entries move through the same life cycle. *)

From S2P Require Import Prelude GoStd GoJson Decimal WalletModels WalletStore.

(** ** Executions *)

(** One call of a state-changing method of the store. *)
Inductive wallet_op : Type :=
| OpCreateWallet (userID currency : string)
| OpCredit (userID currency amount referenceID : string) (metadata : Metadata)
| OpDebit (userID currency amount referenceID : string) (metadata : Metadata)
| OpCreateDepositAddress (addr : DepositAddress)
| OpRequestWithdrawal (userID currency amount destinationAddress chain : string)
| OpApprove (id txHash reviewedBy : string)
| OpReject (id reviewedBy : string).

Section Ledger.
Context `{E : GoEnv, L : DecimalLaws}.

Definition run_op (op : wallet_op) : M memoryStore unit :=
  match op with
  | OpCreateWallet u c => ignore (memoryStore_CreateWallet u c)
  | OpCredit u c a r md => ignore (memoryStore_CreditWallet u c a r md)
  | OpDebit u c a r md => ignore (memoryStore_DebitWallet u c a r md)
  | OpCreateDepositAddress a => ignore (memoryStore_CreateDepositAddress a)
  | OpRequestWithdrawal u c a d ch => ignore (memoryStore_RequestWithdrawal u c a d ch)
  | OpApprove i t b => ignore (memoryStore_ApproveWithdrawal i t b)
  | OpReject i b => ignore (memoryStore_RejectWithdrawal i b)
  end.

(** The states a program can bring the store to; between two calls other components may
    draw from the environment. *)
Inductive wallet_reachable : World memoryStore -> Prop :=
| wallet_init n : wallet_reachable (mkWorld n NewInMemoryStore)
| wallet_step w op : wallet_reachable w -> wallet_reachable (run_op op w).2
| wallet_wait n m s : (n <= m)%nat -> wallet_reachable (mkWorld n s) ->
    wallet_reachable (mkWorld m s).

(** ** The invariant *)

(** What an entry does to its wallet's balance. *)
Definition tx_effect (t : Transaction) : Q :=
  if decide (tx_Type t = "withdrawal") then (- amt (tx_Amount t))%Q else amt (tx_Amount t).

Definition ledger_sum (walletID : string) (h : list Transaction) : Q :=
  foldr (fun t acc => if decide (tx_WalletID t = walletID) then (tx_effect t + acc)%Q else acc)
    0%Q h.
#[local] Arguments ledger_sum : simpl never.

Definition entry_ok (t : Transaction) : Prop :=
  is_amount (tx_Amount t) (amt (tx_Amount t)) /\
  is_amount (tx_BalanceAfter t) (amt (tx_BalanceBefore t) + tx_effect t).

(** The status of a withdrawal's ledger entry, by the status of the request. *)
Definition entry_status (requestStatus : string) : option string :=
  if decide (requestStatus = "pending") then Some "pending"
  else if decide (requestStatus = "approved") then Some "completed"
  else if decide (requestStatus = "rejected") then Some "reversed"
  else None.

Definition withdrawal_ok (s : memoryStore) (id : string) (r : WithdrawalRequest) : Prop :=
  wr_ID r = id /\
  (exists w, ms_wallets s !! walletKey (wr_UserID r) (wr_Currency r) = Some w /\
     wallet_ID w = wr_WalletID r) /\
  (exists t, lookup_ref id s = Some t /\ tx_Type t = "withdrawal" /\
     tx_WalletID t = wr_WalletID r /\ tx_Amount t = wr_Amount r /\
     entry_status (wr_Status r) = Some (tx_Status t)).

(** An identifier drawn before tick [n]. *)
Definition drawn (n : nat) (id : string) : Prop := exists i, (i < n)%nat /\ id = uuid_at i.

Record ledger_inv (w : World memoryStore) : Prop := {
  li_key : forall k x, ms_wallets (w_st w) !! k = Some x ->
    k = walletKey (wallet_UserID x) (wallet_Currency x);
  li_balance : forall k x, ms_wallets (w_st w) !! k = Some x ->
    is_amount (wallet_Balance x) (ledger_sum (wallet_ID x) (ms_heap (w_st w)));
  li_wallet_id : forall k x, ms_wallets (w_st w) !! k = Some x ->
    drawn (w_tick w) (wallet_ID x);
  li_wallet_inj : forall k k' x x', ms_wallets (w_st w) !! k = Some x ->
    ms_wallets (w_st w) !! k' = Some x' -> wallet_ID x = wallet_ID x' -> k = k';
  li_entry : forall l t, ms_heap (w_st w) !! l = Some t ->
    entry_ok t /\ drawn (w_tick w) (tx_WalletID t) /\ drawn (w_tick w) (tx_ID t) /\
    ms_txns (w_st w) !! tx_ID t = Some l;
  li_txn : forall id l, ms_txns (w_st w) !! id = Some l ->
    exists t, ms_heap (w_st w) !! l = Some t /\ tx_ID t = id;
  li_ref : forall ref l, ms_txnByRef (w_st w) !! ref = Some l ->
    exists t, ms_heap (w_st w) !! l = Some t /\ tx_ReferenceID t = ref;
  li_withdrawal : forall id r, ms_withdrawals (w_st w) !! id = Some r ->
    drawn (w_tick w) id /\ withdrawal_ok (w_st w) id r;
}.

(** ** Sums *)

Lemma tx_effect_withdrawal t : tx_Type t = "withdrawal" ->
  tx_effect t = (- amt (tx_Amount t))%Q.
Proof. intros H. unfold tx_effect. by rewrite decide_True. Qed.
Lemma tx_effect_credit t : tx_Type t <> "withdrawal" -> tx_effect t = amt (tx_Amount t).
Proof. intros H. unfold tx_effect. by rewrite decide_False. Qed.

Definition share (id : string) (t : Transaction) : Q :=
  if decide (tx_WalletID t = id) then tx_effect t else 0%Q.

Lemma ledger_sum_cons id t h : (ledger_sum id (t :: h) == share id t + ledger_sum id h)%Q.
Proof.
  unfold share, ledger_sum. cbn [foldr].
  case_decide; [reflexivity | ring].
Qed.

Lemma ledger_sum_app id h t : (ledger_sum id (h ++ [t]) == ledger_sum id h + share id t)%Q.
Proof.
  induction h as [|x h IH].
  - change ([] ++ [t]) with [t]. rewrite ledger_sum_cons. cbn. ring.
  - change ((x :: h) ++ [t]) with (x :: (h ++ [t])).
    rewrite !ledger_sum_cons, IH. ring.
Qed.

Lemma ledger_sum_other id h :
  (forall l t, h !! l = Some t -> tx_WalletID t <> id) -> (ledger_sum id h == 0)%Q.
Proof.
  induction h as [|x h IH]; intros H; [reflexivity|].
  rewrite ledger_sum_cons, IH by (intros l t Hl; exact (H (S l) t Hl)).
  unfold share. rewrite decide_False by exact (H 0%nat x eq_refl). reflexivity.
Qed.

Lemma ledger_sum_status id h status : forall l,
  (ledger_sum id (alter (tx_set_status status) l h) == ledger_sum id h)%Q.
Proof.
  induction h as [|x h IH]; intros [|l]; try reflexivity.
  change (alter (tx_set_status status) (S l) (x :: h))
    with (x :: alter (tx_set_status status) l h).
  by rewrite !ledger_sum_cons, IH.
Qed.

Lemma drawn_mono n m id : (n <= m)%nat -> drawn n id -> drawn m id.
Proof. intros Hle (i & Hi & ->). exists i. split; [lia|done]. Qed.

Lemma drawn_self n m : (n < m)%nat -> drawn m (uuid_at n).
Proof. intros H. by exists n. Qed.

Context {EL : GoEnvLaws E}.

Lemma not_drawn n i : (n <= i)%nat -> ~ drawn n (uuid_at i).
Proof. intros Hle (j & Hj & Heq). apply uuid_inj in Heq. lia. Qed.

(** ** The invariant is preserved by each kind of state change *)

Lemma inv_init n : ledger_inv (mkWorld n NewInMemoryStore).
Proof. constructor; cbn; intros *; by rewrite ?lookup_empty. Qed.

Lemma inv_tick n m s : (n <= m)%nat ->
  ledger_inv (mkWorld n s) -> ledger_inv (mkWorld m s).
Proof.
  intros Hle [K B I J En T R W]. constructor; cbn in *; auto.
  - intros k x Hx. eapply drawn_mono; eauto.
  - intros l t Hl. destruct (En l t Hl) as (?&?&?&?).
    split_and!; eauto using drawn_mono.
  - intros id r Hr. destruct (W id r Hr). eauto using drawn_mono.
Qed.

Lemma inv_create n m s u c d1 d2 : (n < m)%nat ->
  ms_wallets s !! walletKey u c = None ->
  ledger_inv (mkWorld n s) ->
  ledger_inv (mkWorld m (ms_set_wallet (walletKey u c)
    (mkWallet (uuid_at n) u c "0" 0 d1 d2) s)).
Proof.
  intros Hlt Hnone Hinv. pose proof (inv_tick n m s ltac:(lia) Hinv) as Hm.
  destruct Hinv as [_ _ I _ En _ _ _], Hm as [K B I' J En' T R W].
  constructor; cbn in *; auto.
  - intros k x [[<- <-]|[? ?]]%lookup_insert_Some; eauto.
  - intros k x [[<- <-]|[? ?]]%lookup_insert_Some; [|eauto].
    cbn. rewrite ledger_sum_other; [apply is_amount_0|].
    intros l t Hl Heq. destruct (En l t Hl) as (_&Hd&_).
    rewrite Heq in Hd. by apply not_drawn in Hd.
  - intros k x [[<- <-]|[? ?]]%lookup_insert_Some; [by apply drawn_self|eauto].
  - intros k k' x x' [[<- <-]|[? Hx]]%lookup_insert_Some
      [[<- <-]|[? Hx']]%lookup_insert_Some; cbn; intros Heq; try done; try by eauto.
    + apply I in Hx'. rewrite <- Heq in Hx'. by apply not_drawn in Hx'.
    + apply I in Hx. rewrite Heq in Hx. by apply not_drawn in Hx.
  - intros id r Hr. destruct (W id r Hr) as (?&?&(w&Hw&?)&?). split; [done|].
    split_and!; [done| |done]. exists w. split; [|done]. cbn.
    rewrite lookup_insert_ne; [done|]. intros Heq. congruence.
Qed.

Lemma lookup_snoc_Some {A} (h : list A) t l x :
  (h ++ [t]) !! l = Some x <-> h !! l = Some x \/ (l = length h /\ x = t).
Proof.
  rewrite lookup_app_Some. split.
  - intros [?|[? Hx]]; [by left|]. right.
    destruct (l - length h)%nat eqn:El; cbn in Hx; [|done]. simplify_eq.
    split; [lia|done].
  - intros [?|[-> ->]]; [by left|]. right. by rewrite Nat.sub_diag.
Qed.

Lemma inv_post n m i s k x t nb now refs' :
  (n <= i < m)%nat ->
  ms_wallets s !! k = Some x ->
  tx_WalletID t = wallet_ID x -> tx_ID t = uuid_at i -> entry_ok t ->
  is_amount nb (amt (wallet_Balance x) + tx_effect t) ->
  (refs' = ms_txnByRef s \/
   refs' = <[tx_ReferenceID t := length (ms_heap s)]> (ms_txnByRef s) /\
   ms_withdrawals s !! tx_ReferenceID t = None) ->
  ledger_inv (mkWorld n s) ->
  ledger_inv (mkWorld m (mkMemoryStore (<[k := wallet_set_balance nb now x]> (ms_wallets s))
    (ms_heap s ++ [t]) (<[tx_ID t := length (ms_heap s)]> (ms_txns s)) refs'
    (ms_addresses s) (ms_withdrawals s))).
Proof.
  intros Hi Hx Hwid Htid Hok Hnb Hrefs Hinv.
  pose proof (inv_tick n m s ltac:(lia) Hinv) as Hm.
  destruct Hinv as [_ _ _ _ En _ _ _], Hm as [K B I J En' T R W].
  assert (forall id l, ms_txns s !! id = Some l -> id <> tx_ID t) as Hfresh.
  { intros id l Hl ->. apply T in Hl as (t' & Hl & Heq).
    destruct (En l t' Hl) as (_&_&Hd&_). rewrite Heq, Htid in Hd.
    exact (not_drawn n i ltac:(lia) Hd). }
  constructor; cbn in *.
  - intros k' y [[<- <-]|[? ?]]%lookup_insert_Some; [exact (K k x Hx)|eauto].
  - intros k' y [[<- <-]|[Hk Hy]]%lookup_insert_Some; cbn; rewrite ledger_sum_app; unfold share.
    + rewrite decide_True by done. rewrite <- (is_amount_amt _ _ (B k x Hx)). done.
    + rewrite decide_False, Qplus_0_r; [by apply B with k'|].
      rewrite Hwid. intros Heq. by eapply Hk, J.
  - intros k' y [[<- <-]|[? ?]]%lookup_insert_Some; [exact (I k x Hx)|eauto].
  - intros k1 k2 y1 y2 [[<- <-]|[? ?]]%lookup_insert_Some
      [[<- <-]|[? ?]]%lookup_insert_Some; cbn; intros; eauto.
  - intros l y [Hy|[-> ->]]%lookup_snoc_Some.
    + destruct (En' l y Hy) as (?&?&?&Hl). split_and!; try done.
      rewrite lookup_insert_ne; [done|]. intros Heq. by apply (Hfresh _ _ Hl).
    + rewrite Hwid, lookup_insert_eq. split_and!; eauto.
      rewrite Htid. apply drawn_self. lia.
  - intros id l [[<- <-]|[? Hl]]%lookup_insert_Some.
    + exists t. split; [|done]. apply lookup_snoc_Some. auto.
    + destruct (T id l Hl) as (y & Hy & ?). exists y. split; [|done].
      apply lookup_snoc_Some. auto.
  - assert (forall ref l, ms_txnByRef s !! ref = Some l ->
      exists y, (ms_heap s ++ [t]) !! l = Some y /\ tx_ReferenceID y = ref) as HR.
    { intros ref l Hl. destruct (R ref l Hl) as (y & Hy & ?). exists y.
      split; [|done]. apply lookup_snoc_Some. auto. }
    destruct Hrefs as [->|[-> _]]; [done|].
    intros ref l [[<- <-]|[? Hl]]%lookup_insert_Some; [|eauto].
    exists t. split; [|done]. apply lookup_snoc_Some. auto.
  - intros id r Hr. destruct (W id r Hr) as (Hd&Hid&(w&Hw&Hwi)&(y&Hy&Hrest)).
    split; [done|]. split_and!; [done| |].
    + destruct (decide (k = walletKey (wr_UserID r) (wr_Currency r))) as [->|Hne].
      * exists (wallet_set_balance nb now x). cbn. rewrite lookup_insert_eq.
        split; [done|]. cbn. congruence.
      * exists w. cbn. by rewrite lookup_insert_ne.
    + exists y. split; [|done]. unfold lookup_ref in *. cbn.
      destruct (ms_txnByRef s !! id) as [l|] eqn:Hl; [|done]. cbn in Hy.
      assert (refs' !! id = Some l) as ->.
      { destruct Hrefs as [->|[-> Hn]]; [done|]. rewrite lookup_insert_ne; [done|].
        intros <-. congruence. }
      cbn. apply lookup_snoc_Some. auto.
Qed.

Lemma inv_withdrawal n s id r :
  drawn n id -> withdrawal_ok s id r ->
  ledger_inv (mkWorld n s) -> ledger_inv (mkWorld n (ms_set_withdrawal id r s)).
Proof.
  intros Hd Hr [K B I J En T R W]. constructor; cbn in *; auto.
  intros id' r' [[<- <-]|[? ?]]%lookup_insert_Some; [done|]. by apply W.
Qed.

Lemma inv_address n s id a :
  ledger_inv (mkWorld n s) -> ledger_inv (mkWorld n (ms_set_address id a s)).
Proof. intros [K B I J En T R W]. constructor; cbn in *; auto. Qed.

Lemma list_lookup_alter_Some {A} (f : A -> A) l l' (h : list A) y :
  alter f l h !! l' = Some y ->
  exists x, h !! l' = Some x /\ ((l = l' /\ y = f x) \/ (l <> l' /\ y = x)).
Proof.
  destruct (decide (l = l')) as [->|Hne].
  - rewrite list_lookup_alter_eq. intros (x&->&->)%fmap_Some. eauto.
  - rewrite list_lookup_alter_ne by done. eauto.
Qed.

Lemma inv_review n s id r status st txHash by_ :
  ms_withdrawals s !! id = Some r ->
  entry_status status = Some st ->
  ledger_inv (mkWorld n s) ->
  ledger_inv (mkWorld n
    (set_ref_status id st (ms_set_withdrawal id (wr_review status txHash by_ r) s))).
Proof.
  intros Hr Hst [K B I J En T R W]. cbn in *.
  destruct (W id r Hr) as (Hd&Hid&Hw&(t&Ht&Hty&Hwid&Ham&_)).
  unfold lookup_ref in Ht. destruct (ms_txnByRef s !! id) as [l|] eqn:Hl; [|done].
  cbn in Ht. unfold set_ref_status. cbn. rewrite Hl.
  constructor; cbn; auto.
  - intros k x Hx. rewrite ledger_sum_status. eauto.
  - intros l' y Hy. apply list_lookup_alter_Some in Hy as (x & Hx & Hy).
    destruct (En l' x Hx) as (?&?&?&?). by destruct Hy as [[-> ->]|[_ ->]].
  - intros i l' Hi. destruct (T i l' Hi) as (x & Hx & Hxi).
    destruct (decide (l = l')) as [->|Hne].
    + exists (tx_set_status st x). rewrite list_lookup_alter_eq, Hx. done.
    + exists x. by rewrite list_lookup_alter_ne.
  - intros ref l' Hi. destruct (R ref l' Hi) as (x & Hx & Hxi).
    destruct (decide (l = l')) as [->|Hne].
    + exists (tx_set_status st x). rewrite list_lookup_alter_eq, Hx. done.
    + exists x. by rewrite list_lookup_alter_ne.
  - intros id' r' [[<- <-]|[Hne Hr']]%lookup_insert_Some.
    + split; [done|]. split_and!; [done|done|].
      exists (tx_set_status st t). unfold lookup_ref. cbn. rewrite Hl. cbn.
      by rewrite list_lookup_alter_eq, Ht.
    + destruct (W id' r' Hr') as (?&?&?&(t'&Ht'&Hrest)).
      split; [done|]. split_and!; [done|done|]. exists t'. split; [|done].
      unfold lookup_ref in *. cbn.
      destruct (ms_txnByRef s !! id') as [l'|] eqn:Hl'; [|done]. cbn in *.
      rewrite list_lookup_alter_ne; [done|]. intros <-.
      destruct (R _ _ Hl) as (x1&Hx1&<-), (R _ _ Hl') as (x2&Hx2&<-). congruence.
Qed.

(** ** Every operation preserves the invariant *)

Definition preserves {A} (m : M memoryStore A) : Prop :=
  forall w, ledger_inv w -> ledger_inv (m w).2.

Lemma preserves_ignore {A} (m : M memoryStore A) : preserves m -> preserves (ignore m).
Proof.
  intros H w Hw. specialize (H w Hw). unmonad. destruct (m w) as [[?|?|?] ?]; exact H.
Qed.

(** The transaction and the state that [record_txn] produces. *)
Definition recorded_txn (n : nat) (typ u c a nb ref : string) (md : Metadata) (x : Wallet) :
    Transaction :=
  mkTransaction (uuid_at n) u (wallet_ID x) c typ a (wallet_Balance x) nb "completed" ref
    (metadataString md) (time_at (S n)).
Definition recorded (n : nat) (key nb ref : string) (x : Wallet) (t : Transaction)
    (s : memoryStore) : memoryStore :=
  mkMemoryStore (<[key := wallet_set_balance nb (time_at (S (S n))) x]> (ms_wallets s))
    (ms_heap s ++ [t]) (<[tx_ID t := length (ms_heap s)]> (ms_txns s))
    (if decide (ref = "") then ms_txnByRef s
     else <[ref := length (ms_heap s)]> (ms_txnByRef s))
    (ms_addresses s) (ms_withdrawals s).

Lemma record_txn_eq typ key u c a nb ref md x n s :
  record_txn typ key u c a nb ref md x (mkWorld n s) =
  (Ok (recorded_txn n typ u c a nb ref md x),
   mkWorld (S (S (S n))) (recorded n key nb ref x (recorded_txn n typ u c a nb ref md x) s)).
Proof. unfold record_txn, recorded. unmonad. by case_decide. Qed.

Lemma existing_None ref n s : ledger_inv (mkWorld n s) ->
  existing_by_ref ref s = None -> ref = "" \/ ms_txnByRef s !! ref = None.
Proof.
  intros Hi. unfold existing_by_ref, lookup_ref. case_decide; [by left|]. intros Hn. right.
  destruct (ms_txnByRef s !! ref) as [l|] eqn:Hl; [|done].
  destruct (li_ref _ Hi ref l Hl) as (t & Ht & _). cbn in *. congruence.
Qed.

Lemma withdrawal_ref n s id : ledger_inv (mkWorld n s) ->
  ms_txnByRef s !! id = None -> ms_withdrawals s !! id = None.
Proof.
  intros Hi Hn. destruct (ms_withdrawals s !! id) as [r|] eqn:Hr; [|done].
  destruct (li_withdrawal _ Hi id r Hr) as (_&_&_&t&Ht&_).
  unfold lookup_ref in Ht. cbn in Ht. by rewrite Hn in Ht.
Qed.

Lemma inv_recorded typ n key u c a nb ref md x s :
  ms_wallets s !! key = Some x ->
  existing_by_ref ref s = None ->
  let t := recorded_txn n typ u c a nb ref md x in
  is_amount a (amt a) ->
  is_amount nb (amt (wallet_Balance x) + tx_effect t) ->
  ledger_inv (mkWorld n s) ->
  ledger_inv (mkWorld (S (S (S n))) (recorded n key nb ref x t s)).
Proof.
  intros Hx Hex t Ha Hnb Hi. eapply (inv_post n _ n); try done; [lia|].
  cbn. case_decide as Href; [by left|right]. split; [done|].
  apply (existing_None ref n) in Hex; [|done]. destruct Hex; [done|].
  by eapply withdrawal_ref.
Qed.

Lemma createWallet_cases u c n s :
  (exists x, ms_wallets s !! walletKey u c = Some x /\
     memoryStore_createWallet u c (mkWorld n s) = (Ok x, mkWorld n s)) \/
  (ms_wallets s !! walletKey u c = None /\
   let x := mkWallet (uuid_at n) u c "0" 0 (time_at (S n)) (time_at (S (S n))) in
   memoryStore_createWallet u c (mkWorld n s) =
     (Ok x, mkWorld (S (S (S n))) (ms_set_wallet (walletKey u c) x s))).
Proof.
  unfold memoryStore_createWallet. unmonad.
  destruct (ms_wallets s !! walletKey u c) as [x|] eqn:Hx; [left; eauto | right; done].
Qed.

Lemma createWallet_spec u c w r w' : memoryStore_createWallet u c w = (r, w') ->
  exists x, r = Ok x /\ ms_wallets (w_st w') !! walletKey u c = Some x /\
    ms_txnByRef (w_st w') = ms_txnByRef (w_st w) /\ ms_heap (w_st w') = ms_heap (w_st w) /\
    (ledger_inv w -> ledger_inv w').
Proof.
  destruct w as [n s]. intros H.
  destruct (createWallet_cases u c n s) as [(x & Hx & Heq)|(Hx & Heq)];
    rewrite Heq in H; simplify_eq; eexists; split_and!; try done.
  - cbn. by rewrite lookup_insert_eq.
  - apply inv_create; [lia|done].
Qed.

Lemma preserves_create u c : preserves (memoryStore_CreateWallet u c).
Proof.
  intros w Hw. unfold memoryStore_CreateWallet.
  destruct (memoryStore_createWallet u c w) as [r w'] eqn:H.
  apply createWallet_spec in H as (?&_&_&_&_&Hi). by apply Hi.
Qed.

Lemma preserves_credit u c a ref md : preserves (memoryStore_CreditWallet u c a ref md).
Proof.
  intros [n s] Hi. unfold memoryStore_CreditWallet.
  unfold get at 1. unfold mbind at 1, M_bind at 1. cbn [w_st].
  destruct (existing_by_ref ref s) as [t|] eqn:Hex; [done|].
  unfold mbind at 1, M_bind at 1.
  destruct (memoryStore_createWallet u c (mkWorld n s)) as [r [n' s']] eqn:H.
  apply createWallet_spec in H as (x&->&Hx&Href&Hh&Hi'). specialize (Hi' Hi). cbn in *.
  unfold mbind, M_bind, wrapped, of_res, wrap_res.
  destruct (addDecimal (wallet_Balance x) a) as [nb|e|p] eqn:Hadd; cbn [snd]; try done.
  rewrite record_txn_eq. apply addDecimal_inv in Hadd as (p&q&Hp&Hq&Hnb).
  apply inv_recorded; try done.
  - unfold existing_by_ref, lookup_ref in *. by rewrite Href, Hh.
  - by eapply is_amount_self.
  - rewrite tx_effect_credit by done.
    change (tx_Amount _) with a. by rewrite (is_amount_amt _ _ Hp), (is_amount_amt _ _ Hq).
Qed.

(** The test that guards DebitWallet and RequestWithdrawal. *)
Lemma debit_guard bal a nb d e : ParseDecimal bal = inl d -> ParseDecimal a = inl e ->
  subDecimal bal a = Ok nb -> dec_LessThan d e = false ->
  is_amount nb (amt bal - amt a) /\ (amt a <= amt bal)%Q /\ is_amount a (amt a).
Proof.
  intros Hd He Hsub Hlt%not_LessThan. rewrite (amt_parse _ _ Hd), (amt_parse _ _ He).
  unfold subDecimal, NewFromString in Hsub. rewrite Hd, He in Hsub. cbn in Hsub.
  injection Hsub as <-. split_and!; [|done|by apply is_amount_parse].
  rewrite <- dval_Sub. apply is_amount_String.
Qed.

Lemma preserves_debit u c a ref md : preserves (memoryStore_DebitWallet u c a ref md).
Proof.
  intros [n s] Hi. unfold memoryStore_DebitWallet.
  unfold NewFromString. unmonad.
  destruct (existing_by_ref ref s) as [t|] eqn:Hex; [done|].
  destruct (ms_wallets s !! walletKey u c) as [x|] eqn:Hx; [|done].
  destruct (ParseDecimal (wallet_Balance x)) as [d|] eqn:Hd; [|done].
  destruct (ParseDecimal a) as [e|] eqn:He; [|done].
  destruct (dec_LessThan d e) eqn:Hlt; [done|].
  destruct (subDecimal (wallet_Balance x) a) as [nb|?|?] eqn:Hsub; [|done|done].
  rewrite record_txn_eq.
  destruct (debit_guard _ _ _ _ _ Hd He Hsub Hlt) as (Hnb & _ & Ha).
  apply inv_recorded; done.
Qed.

Lemma preserves_address a : preserves (memoryStore_CreateDepositAddress a).
Proof.
  intros [n s] Hi. unfold memoryStore_CreateDepositAddress. unmonad. cbn [snd].
  apply inv_address. apply (inv_tick n); [lia|done].
Qed.

(** The ledger entry and the request that [RequestWithdrawal] makes at tick [n]. *)
Definition requested_txn (n : nat) (u c a nb : string) (d : dec) (x : Wallet) : Transaction :=
  mkTransaction (uuid_at (S (S (S n)))) u (wallet_ID x) c "withdrawal" a (dec_String d) nb
    "pending" (uuid_at (S n)) "" (time_at (S (S n))).
Definition requested (n : nat) (u c a dst ch : string) (x : Wallet) : WithdrawalRequest :=
  mkWithdrawalRequest (uuid_at (S n)) u (wallet_ID x) a c dst ch "pending" "" ""
    (time_at (S (S n))).

Lemma inv_requested n u c a dst ch s x d e nb :
  ms_wallets s !! walletKey u c = Some x ->
  ParseDecimal (wallet_Balance x) = inl d -> ParseDecimal a = inl e ->
  dec_LessThan d e = false -> subDecimal (wallet_Balance x) a = Ok nb ->
  ledger_inv (mkWorld n s) ->
  let t := requested_txn n u c a nb d x in
  ledger_inv (mkWorld (S (S (S (S n))))
    (ms_set_withdrawal (uuid_at (S n)) (requested n u c a dst ch x)
      (mkMemoryStore (<[walletKey u c := wallet_set_balance nb (time_at n) x]> (ms_wallets s))
        (ms_heap s ++ [t]) (<[tx_ID t := length (ms_heap s)]> (ms_txns s))
        (<[uuid_at (S n) := length (ms_heap s)]> (ms_txnByRef s))
        (ms_addresses s) (ms_withdrawals s)))).
Proof.
  intros Hx Hd He Hlt Hsub Hi t.
  destruct (debit_guard _ _ _ _ _ Hd He Hsub Hlt) as (Hnb & _ & Ha).
  assert (tx_effect t = (- amt a)%Q) as Heff by (by apply tx_effect_withdrawal).
  apply inv_withdrawal; [apply drawn_self; lia | |].
  - split_and!; [done| |].
    + eexists. cbn. by rewrite lookup_insert_eq.
    + exists t. unfold lookup_ref. cbn. rewrite lookup_insert_eq. cbn.
      by rewrite lookup_app_r, Nat.sub_diag.
  - eapply (inv_post n _ (S (S (S n)))); try done; [lia|..].
    + split; [done|]. rewrite Heff. cbn [tx_BalanceAfter tx_BalanceBefore t requested_txn].
      by rewrite (is_amount_amt _ _ (is_amount_String d)), <- (amt_parse _ _ Hd).
    + right. split; [done|]. cbn.
      destruct (ms_withdrawals s !! uuid_at (S n)) as [r|] eqn:Hr; [|done].
      destruct (li_withdrawal _ Hi _ _ Hr) as [Hdr _]. cbn in Hdr. exfalso. exact (not_drawn n (S n) ltac:(lia) Hdr).
Qed.

Lemma preserves_request u c a dst ch :
  preserves (memoryStore_RequestWithdrawal u c a dst ch).
Proof.
  intros [n s] Hi. unfold memoryStore_RequestWithdrawal, NewFromString. unmonad.
  destruct (ms_wallets s !! walletKey u c) as [x|] eqn:Hx; [|done].
  destruct (ParseDecimal (wallet_Balance x)) as [d|] eqn:Hd; [|done].
  destruct (ParseDecimal a) as [e|] eqn:He; [|done].
  destruct (dec_LessThan d e) eqn:Hlt; [done|].
  destruct (subDecimal (wallet_Balance x) a) as [nb|?|?] eqn:Hsub; [|done|done].
  exact (inv_requested n u c a dst ch s x d e nb Hx Hd He Hlt Hsub Hi).
Qed.

Lemma preserves_approve id txHash by_ : preserves (memoryStore_ApproveWithdrawal id txHash by_).
Proof.
  intros [n s] Hi. unfold memoryStore_ApproveWithdrawal. unmonad.
  destruct (ms_withdrawals s !! id) as [r|] eqn:Hr; [|done].
  case_decide; [|done]. by apply inv_review.
Qed.

(** A withdrawal the store holds is refunded to a wallet the store holds. *)
Lemma withdrawal_wallet n s id r : ledger_inv (mkWorld n s) ->
  ms_withdrawals s !! id = Some r ->
  exists x nb, ms_wallets s !! walletKey (wr_UserID r) (wr_Currency r) = Some x /\
    wallet_ID x = wr_WalletID r /\
    addDecimal (wallet_Balance x) (wr_Amount r) = Ok nb /\
    is_amount (wr_Amount r) (amt (wr_Amount r)) /\
    is_amount nb (amt (wallet_Balance x) + amt (wr_Amount r)) /\
    is_Some (ms_txnByRef s !! id).
Proof.
  intros Hi Hr. destruct (li_withdrawal _ Hi id r Hr) as (_&_&(x&Hx&Hid)&t&Ht&_&_&Ham&_).
  unfold lookup_ref in Ht. destruct (ms_txnByRef s !! id) as [l|] eqn:Hl; cbn in Ht;
    rewrite Hl in Ht; [|done].
  destruct (li_entry _ Hi l t Ht) as ((Ha&_)&_). rewrite Ham in Ha.
  pose proof (is_amount_self _ _ (li_balance _ Hi _ x Hx)) as Hb.
  destruct (addDecimal_value _ _ _ _ Hb Ha) as (nb & Hadd & Hnb).
  exists x, nb. done.
Qed.

Lemma preserves_reject id by_ : preserves (memoryStore_RejectWithdrawal id by_).
Proof.
  intros [n s] Hi. unfold memoryStore_RejectWithdrawal. unmonad.
  destruct (ms_withdrawals s !! id) as [r|] eqn:Hr; [|done]. case_decide as Hp; [|done].
  destruct (withdrawal_wallet n s id r Hi Hr) as (x&nb&Hx&Hwid&Hadd&Ha&Hnb&[l Hl]).
  rewrite Hx, Hadd. cbn [snd].
  pose proof (inv_review n s id r "rejected" "reversed" (wr_TxHash r) by_ Hr eq_refl Hi) as H.
  unfold set_ref_status in *. cbn in *. rewrite Hl in *.
  set (t := mkTransaction (uuid_at (S n)) (wr_UserID r) (wallet_ID x) (wr_Currency r)
    "adjustment" (wr_Amount r) (wallet_Balance x) nb "completed" (id +:+ "-reversal") ""
    (time_at (S (S n)))).
  apply (inv_post n (S (S (S n))) (S n)
    (ms_set_heap (alter (tx_set_status "reversed") l (ms_heap s))
      (ms_set_withdrawal id (wr_review "rejected" (wr_TxHash r) by_ r) s))
    (walletKey (wr_UserID r) (wr_Currency r)) x t nb (time_at n) (ms_txnByRef s));
    try done; [lia|by left].
Qed.

Lemma run_op_preserves op : preserves (run_op op).
Proof.
  destruct op; apply preserves_ignore; auto using preserves_create, preserves_credit,
    preserves_debit, preserves_address, preserves_request, preserves_approve, preserves_reject.
Qed.

Lemma reachable_inv w : wallet_reachable w -> ledger_inv w.
Proof. induction 1; [apply inv_init | by apply run_op_preserves | by eapply inv_tick]. Qed.

(** ** Each operation as an equation *)

Lemma credit_existing u c a ref md n s t : existing_by_ref ref s = Some t ->
  memoryStore_CreditWallet u c a ref md (mkWorld n s) = (Ok t, mkWorld n s).
Proof. intros H. unfold memoryStore_CreditWallet. unmonad. by rewrite H. Qed.

Lemma debit_existing u c a ref md n s t : existing_by_ref ref s = Some t ->
  memoryStore_DebitWallet u c a ref md (mkWorld n s) = (Ok t, mkWorld n s).
Proof. intros H. unfold memoryStore_DebitWallet. unmonad. by rewrite H. Qed.

Lemma credit_new u c a ref md n s x n' s' : existing_by_ref ref s = None ->
  memoryStore_createWallet u c (mkWorld n s) = (Ok x, mkWorld n' s') ->
  memoryStore_CreditWallet u c a ref md (mkWorld n s) =
  match addDecimal (wallet_Balance x) a with
  | Ok nb => let t := recorded_txn n' "deposit" u c a nb ref md x in
             (Ok t, mkWorld (S (S (S n'))) (recorded n' (walletKey u c) nb ref x t s'))
  | Err e => (Err (ErrWrap "credit wallet" e), mkWorld n' s')
  | Panic p => (Panic p, mkWorld n' s')
  end.
Proof.
  intros H Hc. unfold memoryStore_CreditWallet.
  unfold get, of_res, wrapped, wrap_res, mret, M_ret, mbind, M_bind. cbn [w_st].
  rewrite H, Hc. by destruct (addDecimal (wallet_Balance x) a); [rewrite record_txn_eq|..].
Qed.

Lemma debit_new u c a ref md n s : existing_by_ref ref s = None ->
  memoryStore_DebitWallet u c a ref md (mkWorld n s) =
  match ms_wallets s !! walletKey u c with
  | None => (Err (ErrNew "wallet not found"), mkWorld n s)
  | Some x =>
      match ParseDecimal (wallet_Balance x), ParseDecimal a with
      | inr e, _ => (Err e, mkWorld n s)
      | inl _, inr e => (Err e, mkWorld n s)
      | inl d, inl e =>
          if dec_LessThan d e then (Err (ErrNew "insufficient balance"), mkWorld n s)
          else
            let nb := dec_String (dec_Sub d e) in
            let t := recorded_txn n "withdrawal" u c a nb ref md x in
            (Ok t, mkWorld (S (S (S n))) (recorded n (walletKey u c) nb ref x t s))
      end
  end.
Proof.
  intros H. unfold memoryStore_DebitWallet, subDecimal, NewFromString. unmonad. rewrite H.
  destruct (ms_wallets s !! walletKey u c) as [x|]; [|done].
  destruct (ParseDecimal (wallet_Balance x)) as [d|]; [|done].
  destruct (ParseDecimal a) as [e|]; [|done].
  destruct (dec_LessThan d e); [done|]. by rewrite record_txn_eq.
Qed.

Lemma request_eq u c a dst ch n s :
  memoryStore_RequestWithdrawal u c a dst ch (mkWorld n s) =
  match ms_wallets s !! walletKey u c with
  | None => (Err ErrWalletNotFound, mkWorld n s)
  | Some x =>
      match ParseDecimal (wallet_Balance x), ParseDecimal a with
      | inr e, _ => (Err e, mkWorld n s)
      | inl _, inr e => (Err e, mkWorld n s)
      | inl d, inl e =>
          if dec_LessThan d e then (Err ErrInsufficientBalance, mkWorld n s)
          else
            let nb := dec_String (dec_Sub d e) in
            let t := requested_txn n u c a nb d x in
            let r := requested n u c a dst ch x in
            (Ok r, mkWorld (S (S (S (S n))))
              (ms_set_withdrawal (uuid_at (S n)) r
                (ms_set_ref (uuid_at (S n)) (length (ms_heap s))
                  (alloc_txn t
                    (ms_set_wallet (walletKey u c) (wallet_set_balance nb (time_at n) x) s)))))
      end
  end.
Proof.
  unfold memoryStore_RequestWithdrawal, subDecimal, NewFromString. unmonad.
  destruct (ms_wallets s !! walletKey u c) as [x|]; [|done].
  destruct (ParseDecimal (wallet_Balance x)) as [d|]; [|done].
  destruct (ParseDecimal a) as [e|]; [|done].
  by destruct (dec_LessThan d e).
Qed.

Lemma approve_eq id txHash by_ n s :
  memoryStore_ApproveWithdrawal id txHash by_ (mkWorld n s) =
  match ms_withdrawals s !! id with
  | None => (Err (ErrNew "withdrawal request not found"), mkWorld n s)
  | Some r =>
      if decide (wr_Status r = "pending") then
        let r' := wr_review "approved" txHash by_ r in
        (Ok r', mkWorld n (set_ref_status id "completed" (ms_set_withdrawal id r' s)))
      else (Err (ErrNew "withdrawal request not pending"), mkWorld n s)
  end.
Proof.
  unfold memoryStore_ApproveWithdrawal. unmonad.
  destruct (ms_withdrawals s !! id) as [r|]; [|done]. by case_decide.
Qed.

(** Rejecting, in a state that satisfies the invariant. *)
Lemma reject_eq id by_ n s : ledger_inv (mkWorld n s) ->
  memoryStore_RejectWithdrawal id by_ (mkWorld n s) =
  match ms_withdrawals s !! id with
  | None => (Err (ErrNew "withdrawal request not found"), mkWorld n s)
  | Some r =>
      if decide (wr_Status r = "pending") then
        match ms_wallets s !! walletKey (wr_UserID r) (wr_Currency r) with
        | Some x =>
            let nb := match addDecimal (wallet_Balance x) (wr_Amount r) with
                      | Ok nb => nb | _ => "" end in
            let r' := wr_review "rejected" (wr_TxHash r) by_ r in
            let t := mkTransaction (uuid_at (S n)) (wr_UserID r) (wallet_ID x)
              (wr_Currency r) "adjustment" (wr_Amount r) (wallet_Balance x) nb "completed"
              (id +:+ "-reversal") "" (time_at (S (S n))) in
            (Ok r', mkWorld (S (S (S n)))
              (alloc_txn t (set_ref_status id "reversed" (ms_set_withdrawal id r'
                (ms_set_wallet (walletKey (wr_UserID r) (wr_Currency r))
                  (wallet_set_balance nb (time_at n) x) s)))))
        | None => (Err ErrWalletNotFound, mkWorld n s)
        end
      else (Err (ErrNew "withdrawal request not pending"), mkWorld n s)
  end.
Proof.
  intros Hi. unfold memoryStore_RejectWithdrawal. unmonad.
  destruct (ms_withdrawals s !! id) as [r|] eqn:Hr; [|done]. case_decide; [|done].
  destruct (withdrawal_wallet n s id r Hi Hr) as (x&nb&Hx&_&Hadd&_).
  by rewrite Hx, Hadd.
Qed.
End Ledger.

#[export] Hint Resolve drawn_self : amounts.
