(* ===== verification/WalletProps.v ===== *)
(** * WalletProps: what the in-memory wallet store guarantees

    The properties of the operations of [WalletStore], each with a witness on the
    concrete environment of [Demo]. *)

From S2P Require Import Prelude GoStd GoJson Decimal WalletModels WalletStore WalletLedger Demo.

Section Props.
Context `{E : GoEnv, L : DecimalLaws, EL : !GoEnvLaws E}.

(** C6.  Double entry: in every reachable state the balance of every wallet is the
    sum of the signed amounts of its ledger entries, and each entry's closing
    balance is its opening balance plus its signed amount. *)
Theorem wallet_balance_is_ledger_sum w k x :
  wallet_reachable w -> ms_wallets (w_st w) !! k = Some x ->
  (amt (wallet_Balance x) == ledger_sum (wallet_ID x) (ms_heap (w_st w)))%Q /\
  (forall l t, ms_heap (w_st w) !! l = Some t ->
     (amt (tx_BalanceAfter t) == amt (tx_BalanceBefore t) + tx_effect t)%Q).
Proof.
  intros Hr Hx. pose proof (reachable_inv w Hr) as Hi. split.
  - apply is_amount_amt. by eapply li_balance.
  - intros l t Hl. destruct (li_entry _ Hi l t Hl) as ((_&Ha)&_). by apply is_amount_amt.
Qed.

(** ** Nobody goes below zero *)

(** The amounts that callers of the store have checked to be non-negative. *)
Definition op_nonneg (op : wallet_op) : Prop :=
  match op with
  | OpCredit _ _ a _ _ | OpRequestWithdrawal _ _ a _ _ => (0 <= amt a)%Q
  | _ => True
  end.

Definition run_ops (ops : list wallet_op) (w : World memoryStore) : World memoryStore :=
  foldl (fun w op => (run_op op w).2) w ops.

Definition all_nonneg (s : memoryStore) : Prop :=
  (forall k x, ms_wallets s !! k = Some x -> (0 <= amt (wallet_Balance x))%Q) /\
  (forall id r, ms_withdrawals s !! id = Some r -> (0 <= amt (wr_Amount r))%Q).

Lemma nonneg_wallet s k x : all_nonneg s -> (0 <= amt (wallet_Balance x))%Q ->
  all_nonneg (ms_set_wallet k x s).
Proof.
  intros [HB HW] Hx. split; cbn; [|done].
  by intros k' y [[<- <-]|[? ?]]%lookup_insert_Some; eauto.
Qed.

Lemma nonneg_withdrawal s id r : all_nonneg s -> (0 <= amt (wr_Amount r))%Q ->
  all_nonneg (ms_set_withdrawal id r s).
Proof.
  intros [HB HW] Hx. split; cbn; [done|].
  by intros k' y [[<- <-]|[? ?]]%lookup_insert_Some; eauto.
Qed.

(** [all_nonneg] looks at two fields of the store only. *)
Lemma nonneg_ext s s' : ms_wallets s' = ms_wallets s ->
  ms_withdrawals s' = ms_withdrawals s -> all_nonneg s -> all_nonneg s'.
Proof. intros Hw Hr [HB HW]. split; by rewrite ?Hw, ?Hr. Qed.

Lemma nonneg_recorded n key nb ref x t s : all_nonneg s -> (0 <= amt nb)%Q ->
  all_nonneg (recorded n key nb ref x t s).
Proof.
  intros Hs Hnb.
  eapply (nonneg_ext (ms_set_wallet key (wallet_set_balance nb (time_at (S (S n))) x) s));
    [done|done|]. by apply nonneg_wallet.
Qed.

Lemma set_ref_status_fields id st s :
  ms_wallets (set_ref_status id st s) = ms_wallets s /\
  ms_withdrawals (set_ref_status id st s) = ms_withdrawals s /\
  ms_txnByRef (set_ref_status id st s) = ms_txnByRef s.
Proof. unfold set_ref_status. by destruct (ms_txnByRef s !! id). Qed.

Lemma amt_debit d e : dec_LessThan d e = false -> (0 <= amt (dec_String (dec_Sub d e)))%Q.
Proof.
  intros H%not_LessThan. rewrite (is_amount_amt _ _ (is_amount_String _)), dval_Sub. lra.
Qed.

Lemma run_op_nonneg op w : op_nonneg op -> ledger_inv w ->
  all_nonneg (w_st w) -> all_nonneg (w_st (run_op op w).2).
Proof.
  destruct w as [n s]. intros Hop Hi Hs.
  destruct op as [u c|u c a ref md|u c a ref md|ad|u c a dst ch|id th by_|id by_];
    cbn [run_op op_nonneg] in *; rewrite ignore_snd.
  - unfold memoryStore_CreateWallet.
    destruct (createWallet_cases u c n s) as [(x&_&->)|(_&->)]; [done|].
    cbn. apply nonneg_wallet; [done|]. cbn. by rewrite (is_amount_amt _ _ is_amount_0).
  - destruct (existing_by_ref ref s) as [t|] eqn:Hex;
      [by rewrite (credit_existing _ _ _ _ _ _ _ _ Hex)|].
    destruct (memoryStore_createWallet u c (mkWorld n s)) as [r [n' s']] eqn:Hc.
    assert (all_nonneg s') as Hs'.
    { destruct (createWallet_cases u c n s) as [(x&_&Heq)|(_&Heq)]; rewrite Hc in Heq;
        cbv zeta in Heq; simplify_eq; [done|]. apply nonneg_wallet; [done|]. cbn.
      by rewrite (is_amount_amt _ _ is_amount_0). }
    destruct (createWallet_spec _ _ _ _ _ Hc) as (x&->&Hx&_). cbn in Hx.
    rewrite (credit_new _ _ _ _ _ _ _ _ _ _ Hex Hc).
    destruct (addDecimal (wallet_Balance x) a) as [nb|e|p] eqn:Hadd; cbn; try done.
    apply nonneg_recorded; [done|].
    apply addDecimal_inv in Hadd as (p&q&Hp&Hq&Hnb).
    rewrite (is_amount_amt _ _ Hnb), <- (is_amount_amt _ _ Hp), <- (is_amount_amt _ _ Hq).
    pose proof (proj1 Hs' _ _ Hx). lra.
  - destruct (existing_by_ref ref s) as [t|] eqn:Hex;
      [by rewrite (debit_existing _ _ _ _ _ _ _ _ Hex)|].
    rewrite (debit_new _ _ _ _ _ _ _ Hex). repeat case_match; try done.
    apply nonneg_recorded; [done|]. by apply amt_debit.
  - unfold memoryStore_CreateDepositAddress. unmonad. cbn. by eapply nonneg_ext.
  - rewrite request_eq.
    destruct (ms_wallets s !! walletKey u c) as [x|] eqn:Hx; [|done].
    destruct (ParseDecimal (wallet_Balance x)) as [d|]; [|done].
    destruct (ParseDecimal a) as [e|]; [|done].
    destruct (dec_LessThan d e) eqn:Hlt; [done|]. cbn.
    apply nonneg_withdrawal; [|done].
    eapply (nonneg_ext (ms_set_wallet (walletKey u c)
      (wallet_set_balance (dec_String (dec_Sub d e)) (time_at n) x) s)); [done|done|].
    apply nonneg_wallet; [done|]. by apply amt_debit.
  - rewrite approve_eq. destruct (ms_withdrawals s !! id) as [r|] eqn:Hr; [|done].
    case_decide; [|done]. cbn.
    eapply nonneg_ext; [apply set_ref_status_fields | apply set_ref_status_fields |].
    apply nonneg_withdrawal; [done|]. cbn. by eapply (proj2 Hs).
  - rewrite reject_eq by done.
    destruct (ms_withdrawals s !! id) as [r|] eqn:Hr; [|done]. case_decide; [|done].
    destruct (withdrawal_wallet n s id r Hi Hr) as (x&nb&Hx&_&Hadd&_&Hnb&_).
    rewrite Hx, Hadd. cbn. eapply nonneg_ext; [apply set_ref_status_fields|
      apply set_ref_status_fields|].
    assert (0 <= amt (wr_Amount r))%Q by (by eapply (proj2 Hs)).
    apply nonneg_withdrawal; [|done]. apply nonneg_wallet; [done|]. cbn.
    rewrite (is_amount_amt _ _ Hnb). pose proof (proj1 Hs _ _ Hx). lra.
Qed.

Lemma run_ops_inv ops w : ledger_inv w -> ledger_inv (run_ops ops w).
Proof.
  revert w. induction ops as [|op ops IH]; intros w Hw; [done|].
  by apply IH, run_op_preserves.
Qed.

(** No overdraft: starting from an empty store, whatever the sequence of calls,
    and whatever is debited, no balance is ever negative, provided the amounts
    credited and the amounts requested for withdrawal are not negative. *)
Theorem wallet_no_overdraft ops n k x :
  Forall op_nonneg ops ->
  ms_wallets (w_st (run_ops ops (mkWorld n NewInMemoryStore))) !! k = Some x ->
  (0 <= amt (wallet_Balance x))%Q.
Proof.
  intros Hops. enough (all_nonneg (w_st (run_ops ops (mkWorld n NewInMemoryStore)))) as H
    by exact (proj1 H k x).
  assert (forall w, ledger_inv w -> all_nonneg (w_st w) ->
    all_nonneg (w_st (run_ops ops w))) as K.
  { induction Hops as [|op ops Hop Hops IH]; intros w Hi Hw; [done|].
    apply IH; [by apply run_op_preserves | by apply run_op_nonneg]. }
  apply K; [apply inv_init|]. split; cbn; intros *; by rewrite lookup_empty.
Qed.

(** ** Credits and debits *)

(** A user's balance in a currency, zero without a wallet. *)
Definition balance_of (s : memoryStore) (u c : string) : Q :=
  match ms_wallets s !! walletKey u c with
  | Some x => amt (wallet_Balance x)
  | None => 0%Q
  end.

(** Every wallet but the one under [key] is the same in both stores. *)
Definition others_same (key : string) (s s' : memoryStore) : Prop :=
  forall k, k <> key -> ms_wallets s' !! k = ms_wallets s !! k.

(** The entry [t] books [a] for the user and moves the balance from [s] to [s']. *)
Definition booked (typ u c a ref : string) (s s' : memoryStore) (t : Transaction) : Prop :=
  tx_Type t = typ /\ tx_UserID t = u /\ tx_Currency t = c /\ tx_Amount t = a /\
  tx_ReferenceID t = ref /\ tx_Status t = "completed" /\
  (amt (tx_BalanceBefore t) == balance_of s u c)%Q /\
  (amt (tx_BalanceAfter t) == balance_of s' u c)%Q /\
  ms_heap s' = ms_heap s ++ [t] /\
  (ref <> "" -> lookup_ref ref s' = Some t).

Lemma lookup_ref_recorded n key nb ref x t s : ref <> "" ->
  lookup_ref ref (recorded n key nb ref x t s) = Some t.
Proof.
  intros Hne. unfold lookup_ref, recorded. cbn. rewrite decide_False by done.
  rewrite lookup_insert_eq. cbn. by rewrite lookup_app_r, Nat.sub_diag.
Qed.

Lemma others_recorded n key nb ref x t s : others_same key s (recorded n key nb ref x t s).
Proof. intros k Hk. cbn. by rewrite lookup_insert_ne. Qed.

Lemma balance_recorded n u c nb ref x t s :
  balance_of (recorded n (walletKey u c) nb ref x t s) u c = amt nb.
Proof. unfold balance_of. cbn. by rewrite lookup_insert_eq. Qed.

Lemma booked_recorded typ u c a nb ref md x n s0 s :
  ms_heap s = ms_heap s0 -> (amt (wallet_Balance x) == balance_of s0 u c)%Q ->
  let t := recorded_txn n typ u c a nb ref md x in
  booked typ u c a ref s0 (recorded n (walletKey u c) nb ref x t s) t.
Proof.
  intros Hh Hb t. unfold booked. rewrite balance_recorded. split_and!; try done.
  - cbn. by rewrite Hh.
  - intros. by apply lookup_ref_recorded.
Qed.

(** What [createWallet] leaves alone: every balance, the ledger, the references. *)
Lemma createWallet_balances u c n s x n' s' :
  memoryStore_createWallet u c (mkWorld n s) = (Ok x, mkWorld n' s') ->
  ms_wallets s' !! walletKey u c = Some x /\
  (amt (wallet_Balance x) == balance_of s u c)%Q /\
  others_same (walletKey u c) s s' /\ ms_heap s' = ms_heap s /\
  ms_txnByRef s' = ms_txnByRef s.
Proof.
  intros H. unfold balance_of.
  destruct (createWallet_cases u c n s) as [(y&Hy&Heq)|(Hn&Heq)]; cbv zeta in Heq;
    rewrite H in Heq; simplify_eq; cbn.
  - rewrite Hy. done.
  - rewrite Hn, lookup_insert_eq. split_and!; try done.
    + by rewrite (is_amount_amt _ _ is_amount_0).
    + intros k Hk. cbn. by rewrite lookup_insert_ne.
Qed.

(** CreditWallet with a fresh reference: a valid amount is added to the balance
    (the wallet is opened if need be), booked as one "deposit" entry that the
    reference finds, and no other wallet changes; an amount that does not parse is
    an error that books nothing. *)
Theorem CreditWallet_spec u c a ref md w :
  wallet_reachable w -> existing_by_ref ref (w_st w) = None ->
  match ParseDecimal a with
  | inl d => exists t w', memoryStore_CreditWallet u c a ref md w = (Ok t, w') /\
      (balance_of (w_st w') u c == balance_of (w_st w) u c + dval d)%Q /\
      booked "deposit" u c a ref (w_st w) (w_st w') t /\
      others_same (walletKey u c) (w_st w) (w_st w')
  | inr e => exists w', memoryStore_CreditWallet u c a ref md w =
      (Err (ErrWrap "credit wallet" (ErrWrap ("parse amount " +:+ quote a) e)), w') /\
      ms_heap (w_st w') = ms_heap (w_st w) /\
      (balance_of (w_st w') u c == balance_of (w_st w) u c)%Q /\
      others_same (walletKey u c) (w_st w) (w_st w')
  end.
Proof.
  destruct w as [n s]. intros Hr Hex.
  destruct (memoryStore_createWallet u c (mkWorld n s)) as [r [n' s']] eqn:Hc.
  destruct (createWallet_spec _ _ _ _ _ Hc) as (x&->&_&_&_&Hi).
  destruct (createWallet_balances _ _ _ _ _ _ _ Hc) as (Hx&Hb&Ho&Hh&_).
  pose proof (li_balance _ (Hi (reachable_inv _ Hr)) _ x Hx) as (dx&Hdx&_).
  rewrite (credit_new _ _ _ _ _ _ _ _ _ _ Hex Hc).
  unfold addDecimal, NewFromString. rewrite Hdx. cbn [wrap_res mbind res_bind].
  destruct (ParseDecimal a) as [d|e] eqn:Hd; cbn.
  - do 2 eexists. split; [done|]. cbn [w_st]. rewrite balance_recorded.
    assert (amt (dec_String (dec_Add dx d)) == balance_of s u c + dval d)%Q as Hnb.
    { by rewrite (is_amount_amt _ _ (is_amount_String _)), dval_Add, <- Hb,
        (amt_parse _ _ Hdx). }
    split; [done|]. split; [by apply booked_recorded|].
    intros k Hk. rewrite (others_recorded _ _ _ _ _ _ _ k Hk). by apply Ho.
  - eexists. split; [done|]. split_and!; try done.
    unfold balance_of at 1. cbn. by rewrite Hx.
Qed.

(** DebitWallet with a fresh reference, on every branch: no wallet, an amount
    that does not parse and an amount above the balance are errors that change
    nothing; otherwise exactly the amount is taken and booked as one "withdrawal". *)
Theorem DebitWallet_spec u c a ref md w :
  wallet_reachable w -> existing_by_ref ref (w_st w) = None ->
  match ms_wallets (w_st w) !! walletKey u c, ParseDecimal a with
  | None, _ =>
      memoryStore_DebitWallet u c a ref md w = (Err (ErrNew "wallet not found"), w)
  | Some x, inr e => memoryStore_DebitWallet u c a ref md w = (Err e, w)
  | Some x, inl d =>
      ((balance_of (w_st w) u c < dval d)%Q /\
       memoryStore_DebitWallet u c a ref md w = (Err (ErrNew "insufficient balance"), w)) \/
      ((dval d <= balance_of (w_st w) u c)%Q /\
       exists t w', memoryStore_DebitWallet u c a ref md w = (Ok t, w') /\
         (balance_of (w_st w') u c == balance_of (w_st w) u c - dval d)%Q /\
         booked "withdrawal" u c a ref (w_st w) (w_st w') t /\
         others_same (walletKey u c) (w_st w) (w_st w'))
  end.
Proof.
  destruct w as [n s]. cbn. intros Hr Hex. rewrite (debit_new _ _ _ _ _ _ _ Hex).
  unfold balance_of at 1 2 4.
  destruct (ms_wallets s !! walletKey u c) as [x|] eqn:Hx; [|done].
  pose proof (li_balance _ (reachable_inv _ Hr) _ x Hx) as (dx&Hdx&_).
  rewrite Hdx, (amt_parse _ _ Hdx).
  destruct (ParseDecimal a) as [d|e] eqn:Hd; [|done].
  destruct (dec_LessThan dx d) eqn:Hlt; [left|right].
  - apply LessThan_spec in Hlt. done.
  - apply not_LessThan in Hlt. split; [done|]. do 2 eexists. split; [done|]. cbn [w_st].
    rewrite balance_recorded.
    assert (amt (dec_String (dec_Sub dx d)) == dval dx - dval d)%Q as Hnb.
    { by rewrite (is_amount_amt _ _ (is_amount_String _)), dval_Sub. }
    split; [done|]. split; [|apply others_recorded]. apply booked_recorded; [done|].
    unfold balance_of. rewrite Hx, (amt_parse _ _ Hdx). done.
Qed.

(** A debit under a fresh reference, by its result. *)
Lemma debit_result u c a ref md (w : World memoryStore) : ledger_inv w ->
  existing_by_ref ref (w_st w) = None ->
  let '(r, w') := memoryStore_DebitWallet u c a ref md w in
  match r with
  | Ok t => (amt a <= balance_of (w_st w) u c)%Q /\
      (balance_of (w_st w') u c == balance_of (w_st w) u c - amt a)%Q /\
      booked "withdrawal" u c a ref (w_st w) (w_st w') t /\
      others_same (walletKey u c) (w_st w) (w_st w')
  | Err _ => w' = w
  | Panic _ => False
  end.
Proof.
  destruct w as [n s]. cbn [w_st]. intros Hi Hex. rewrite (debit_new _ _ _ _ _ _ _ Hex).
  unfold balance_of at 1 3.
  destruct (ms_wallets s !! walletKey u c) as [x|] eqn:Hx; [|done].
  destruct (li_balance _ Hi _ x Hx) as (dx&Hdx&_). rewrite Hdx, (amt_parse _ _ Hdx).
  destruct (ParseDecimal a) as [d|e] eqn:Hd; [|done]. rewrite (amt_parse _ _ Hd).
  destruct (dec_LessThan dx d) eqn:Hlt; [done|]. apply not_LessThan in Hlt.
  split; [done|]. cbn [w_st]. rewrite balance_recorded.
  rewrite (is_amount_amt _ _ (is_amount_String _)), dval_Sub. split; [done|].
  split; [|apply others_recorded]. apply booked_recorded; [done|].
  unfold balance_of. by rewrite Hx.
Qed.

(** Nothing booked and no balance changed; a wallet may have been opened. *)
Definition same_money (s s' : memoryStore) : Prop :=
  ms_heap s' = ms_heap s /\ forall u c, (balance_of s' u c == balance_of s u c)%Q.

Lemma same_money_refl s : same_money s s.
Proof. done. Qed.

(** A credit under a fresh reference, by its result. *)
Lemma credit_result u c a ref md (w : World memoryStore) : ledger_inv w ->
  existing_by_ref ref (w_st w) = None ->
  let '(r, w') := memoryStore_CreditWallet u c a ref md w in
  match r with
  | Ok t => exists d, ParseDecimal a = inl d /\
      (balance_of (w_st w') u c == balance_of (w_st w) u c + dval d)%Q /\
      booked "deposit" u c a ref (w_st w) (w_st w') t /\
      others_same (walletKey u c) (w_st w) (w_st w')
  | Err _ => same_money (w_st w) (w_st w')
  | Panic _ => False
  end.
Proof.
  destruct w as [n s]. cbn [w_st]. intros Hi Hex.
  destruct (memoryStore_createWallet u c (mkWorld n s)) as [r [n' s']] eqn:Hc.
  destruct (createWallet_spec _ _ _ _ _ Hc) as (x&->&_&_&_&Hi').
  destruct (createWallet_balances _ _ _ _ _ _ _ Hc) as (Hx&Hb&Ho&Hh&_).
  destruct (li_balance _ (Hi' Hi) _ x Hx) as (dx&Hdx&_).
  rewrite (credit_new _ _ _ _ _ _ _ _ _ _ Hex Hc).
  unfold addDecimal, NewFromString. rewrite Hdx. cbn [wrap_res mbind res_bind].
  destruct (ParseDecimal a) as [d|e] eqn:Hd; cbn.
  - exists d. split; [done|]. rewrite balance_recorded.
    rewrite (is_amount_amt _ _ (is_amount_String _)), dval_Add, <- (amt_parse _ _ Hdx), Hb.
    split; [done|]. split; [by apply booked_recorded|].
    intros k Hk. rewrite (others_recorded _ _ _ _ _ _ _ k Hk). by apply Ho.
  - split; [done|]. intros u' c'. destruct (decide (walletKey u' c' = walletKey u c)) as [Hk|Hk].
    + unfold balance_of at 1. rewrite Hk, Hx, Hb. unfold balance_of. by rewrite Hk.
    + unfold balance_of. by rewrite (Ho _ Hk).
Qed.

(** ** References *)

(** Any store operation keeps the references it finds and the requests that were
    already reviewed. *)
Record kept (s s' : memoryStore) : Prop := {
  kept_ref : forall ref, is_Some (ms_txnByRef s !! ref) -> is_Some (ms_txnByRef s' !! ref);
  kept_reviewed : forall id r, ms_withdrawals s !! id = Some r -> wr_Status r <> "pending" ->
    ms_withdrawals s' !! id = Some r;
}.

Lemma kept_refl s : kept s s.
Proof. by constructor. Qed.

Lemma is_Some_insert {V} (m : gmap string V) k k' v :
  is_Some (m !! k') -> is_Some (<[k := v]> m !! k').
Proof. intros H. destruct (decide (k = k')) as [->|]; by simplify_map_eq. Qed.

Lemma kept_recorded n key nb ref x t s s0 :
  kept s0 s -> kept s0 (recorded n key nb ref x t s).
Proof.
  intros [Hr Hw]. constructor; cbn; [|done]. intros ref' H.
  case_decide; [by apply Hr|]. by apply is_Some_insert, Hr.
Qed.

Lemma kept_set_withdrawal id r s s' :
  (ms_withdrawals s !! id = None \/
   exists r0, ms_withdrawals s !! id = Some r0 /\ wr_Status r0 = "pending") ->
  (forall ref, is_Some (ms_txnByRef s !! ref) -> is_Some (ms_txnByRef s' !! ref)) ->
  ms_withdrawals s' = <[id := r]> (ms_withdrawals s) -> kept s s'.
Proof.
  intros Hid Hr Hw. constructor; [done|]. intros i r' Hi Hp. rewrite Hw.
  rewrite lookup_insert_ne; [done|]. intros <-.
  destruct Hid as [?|(r0&?&?)]; simplify_eq; congruence.
Qed.

Lemma createWallet_kept u c n s x n' s' :
  memoryStore_createWallet u c (mkWorld n s) = (Ok x, mkWorld n' s') -> kept s s'.
Proof.
  intros H. destruct (createWallet_cases u c n s) as [(y&_&Heq)|(_&Heq)];
    cbv zeta in Heq; rewrite H in Heq; simplify_eq; [apply kept_refl | by constructor].
Qed.

Lemma run_op_kept op w : ledger_inv w -> kept (w_st w) (w_st (run_op op w).2).
Proof.
  destruct w as [n s]. intros Hi. pose proof (kept_refl s) as Hs.
  destruct op as [u c|u c a ref md|u c a ref md|ad|u c a dst ch|id th by_|id by_];
    cbn [run_op]; rewrite ignore_snd.
  - unfold memoryStore_CreateWallet.
    destruct (memoryStore_createWallet u c (mkWorld n s)) as [r [n' s']] eqn:Hc.
    destruct (createWallet_spec _ _ _ _ _ Hc) as (x&->&_). by eapply createWallet_kept.
  - destruct (existing_by_ref ref s) as [t|] eqn:Hex;
      [by rewrite (credit_existing _ _ _ _ _ _ _ _ Hex)|].
    destruct (memoryStore_createWallet u c (mkWorld n s)) as [r [n' s']] eqn:Hc.
    destruct (createWallet_spec _ _ _ _ _ Hc) as (x&->&_).
    rewrite (credit_new _ _ _ _ _ _ _ _ _ _ Hex Hc). apply createWallet_kept in Hc.
    destruct (addDecimal (wallet_Balance x) a); cbn; try done. by apply kept_recorded.
  - destruct (existing_by_ref ref s) as [t|] eqn:Hex;
      [by rewrite (debit_existing _ _ _ _ _ _ _ _ Hex)|].
    rewrite (debit_new _ _ _ _ _ _ _ Hex). repeat case_match; try done.
    by apply kept_recorded.
  - unfold memoryStore_CreateDepositAddress. unmonad. by constructor.
  - rewrite request_eq. repeat case_match; try done. eapply kept_set_withdrawal; [|..|done].
    + left. destruct (ms_withdrawals s !! uuid_at (S n)) as [r|] eqn:Hr; [|done].
      destruct (li_withdrawal _ Hi _ _ Hr) as [Hd _]. cbn in Hd. exfalso.
      exact (not_drawn n (S n) ltac:(lia) Hd).
    + intros ref. apply is_Some_insert.
  - rewrite approve_eq. destruct (ms_withdrawals s !! id) as [r|] eqn:Hr; [|done].
    case_decide; [|done]. cbn. eapply kept_set_withdrawal; [right; by eexists| |].
    + intros ref. by rewrite (proj2 (proj2 (set_ref_status_fields _ _ _))).
    + by rewrite (proj1 (proj2 (set_ref_status_fields _ _ _))).
  - rewrite reject_eq by done.
    destruct (ms_withdrawals s !! id) as [r|] eqn:Hr; [|done]. case_decide; [|done].
    destruct (ms_wallets s !! _) as [x|]; [|done]. cbn.
    eapply kept_set_withdrawal; [right; by eexists| |].
    + intros ref. cbn. by rewrite (proj2 (proj2 (set_ref_status_fields _ _ _))).
    + cbn. by rewrite (proj1 (proj2 (set_ref_status_fields _ _ _))).
Qed.

Lemma run_ops_kept ops w : ledger_inv w -> kept (w_st w) (w_st (run_ops ops w)).
Proof.
  revert w. induction ops as [|op ops IH]; intros w Hi; [apply kept_refl|].
  destruct (run_op_kept op w Hi) as [A B].
  destruct (IH (run_op op w).2 (run_op_preserves op w Hi)) as [A' B'].
  constructor; [intros; by apply A', A | intros i r Hr Hp; apply B'; auto].
Qed.

Lemma ref_found ref w : ledger_inv w -> ref <> "" ->
  is_Some (ms_txnByRef (w_st w) !! ref) -> exists t, existing_by_ref ref (w_st w) = Some t.
Proof.
  intros Hi Hne [l Hl]. destruct (li_ref _ Hi ref l Hl) as (t&Ht&_). exists t.
  unfold existing_by_ref, lookup_ref. by rewrite decide_False, Hl.
Qed.

(** Credit or debit. *)
Definition post (deposit : bool) : string -> string -> string -> string -> Metadata ->
    M memoryStore Transaction :=
  if deposit then memoryStore_CreditWallet else memoryStore_DebitWallet.

(** The reference points to the entry [t] at [l], whose status alone may have changed. *)
Definition entry_at (ref : string) (l : nat) (t : Transaction) (s : memoryStore) : Prop :=
  ms_txnByRef s !! ref = Some l /\ exists status, ms_heap s !! l = Some (tx_set_status status t).

Lemma entry_at_lookup ref l t s : ref <> "" -> entry_at ref l t s ->
  exists status, ms_heap s !! l = Some (tx_set_status status t) /\
    existing_by_ref ref s = Some (tx_set_status status t).
Proof.
  intros Hne [Hr [st Ht]]. exists st. split; [done|].
  unfold existing_by_ref, lookup_ref. by rewrite decide_False, Hr.
Qed.

Lemma entry_at_recorded ref l t r n key nb x t' s : ref <> "" -> entry_at ref l t s ->
  existing_by_ref r s = None -> entry_at ref l t (recorded n key nb r x t' s).
Proof.
  intros Hne He Hex. destruct (entry_at_lookup ref l t s Hne He) as (st0 & _ & Hf).
  destruct He as [Hr [st Ht]]. split; cbn.
  - case_decide; [done|]. rewrite lookup_insert_ne; [done|]. intros ->. congruence.
  - exists st. apply lookup_app_l_Some, Ht.
Qed.

(** A change of a status, of this entry or of another. *)
Lemma entry_at_status ref l t id status s : entry_at ref l t s ->
  entry_at ref l t (set_ref_status id status s).
Proof.
  intros [Hr [st Ht]]. unfold set_ref_status.
  destruct (ms_txnByRef s !! id) as [l'|]; [|split; [done|by exists st]]. split; [done|]. cbn.
  destruct (decide (l' = l)) as [->|Hne].
  - exists status. by rewrite list_lookup_alter_eq, Ht.
  - exists st. by rewrite list_lookup_alter_ne.
Qed.

Lemma createWallet_entry u c n s x n' s' ref l t :
  memoryStore_createWallet u c (mkWorld n s) = (Ok x, mkWorld n' s') ->
  (n <= n')%nat /\ (entry_at ref l t s -> entry_at ref l t s').
Proof.
  intros H. destruct (createWallet_cases u c n s) as [(y&_&Heq)|(_&Heq)];
    cbv zeta in Heq; rewrite H in Heq; simplify_eq; [done|split; [lia|done]].
Qed.

(** Every operation keeps the entry that a reference points to, as long as no identifier is
    drawn that equals the reference. *)
Lemma run_op_entry op w ref l t : ledger_inv w -> ref <> "" ->
  (forall k, (w_tick w <= k)%nat -> uuid_at k <> ref) -> entry_at ref l t (w_st w) ->
  (w_tick w <= w_tick (run_op op w).2)%nat /\ entry_at ref l t (w_st (run_op op w).2).
Proof.
  destruct w as [n s]. cbn [w_tick w_st]. intros Hi Hne Hnew He.
  destruct op as [u c|u c a r md|u c a r md|ad|u c a dst ch|id th by_|id by_];
    cbn [run_op]; rewrite ignore_snd.
  - unfold memoryStore_CreateWallet.
    destruct (memoryStore_createWallet u c (mkWorld n s)) as [r [n' s']] eqn:Hc.
    destruct (createWallet_spec _ _ _ _ _ Hc) as (x&->&_).
    destruct (createWallet_entry _ _ _ _ _ _ _ ref l t Hc). auto.
  - destruct (existing_by_ref r s) as [t0|] eqn:Hex;
      [by rewrite (credit_existing _ _ _ _ _ _ _ _ Hex)|].
    destruct (memoryStore_createWallet u c (mkWorld n s)) as [r0 [n' s']] eqn:Hc.
    destruct (createWallet_spec _ _ _ _ _ Hc) as (x&->&_&Hrefs&Hheap&_).
    rewrite (credit_new _ _ _ _ _ _ _ _ _ _ Hex Hc).
    destruct (createWallet_entry _ _ _ _ _ _ _ ref l t Hc) as [Hle He'].
    cbv zeta. destruct (addDecimal (wallet_Balance x) a); cbn [snd w_tick w_st]; (split; [lia|]); auto.
    apply entry_at_recorded; auto. unfold existing_by_ref, lookup_ref in *. cbn in Hrefs, Hheap.
    by rewrite Hrefs, Hheap.
  - destruct (existing_by_ref r s) as [t0|] eqn:Hex;
      [by rewrite (debit_existing _ _ _ _ _ _ _ _ Hex)|].
    rewrite (debit_new _ _ _ _ _ _ _ Hex). cbv zeta. repeat case_match; cbn [snd w_tick w_st];
      (split; [lia|]); auto. by apply entry_at_recorded.
  - unfold memoryStore_CreateDepositAddress. unmonad. cbn. split; [lia|done].
  - rewrite request_eq. cbv zeta. repeat case_match; cbn [snd w_tick w_st]; (split; [lia|]); auto.
    destruct He as [Hr [st Ht]]. split; cbn.
    + rewrite lookup_insert_ne; [done|]. apply Hnew. lia.
    + exists st. by apply lookup_app_l_Some.
  - rewrite approve_eq. cbv zeta. repeat case_match; cbn [snd w_tick w_st]; (split; [lia|]); auto.
    by apply entry_at_status.
  - rewrite reject_eq by done. destruct (ms_withdrawals s !! id) as [q|]; [|done].
    case_decide; [|done]. destruct (ms_wallets s !! _) as [x|]; [|done].
    cbv zeta. cbn [snd w_tick w_st]. split; [lia|].
    assert (forall s' t', entry_at ref l t s' -> entry_at ref l t (alloc_txn t' s')) as Halloc.
    { intros s' t' [Hr [st Ht]]. split; [done|]. exists st. by apply lookup_app_l_Some. }
    apply Halloc. by apply entry_at_status.
Qed.

Lemma run_ops_entry ops w ref l t : ledger_inv w -> ref <> "" ->
  (forall k, (w_tick w <= k)%nat -> uuid_at k <> ref) -> entry_at ref l t (w_st w) ->
  entry_at ref l t (w_st (run_ops ops w)).
Proof.
  intros Hi Hne. revert w Hi. induction ops as [|op ops IH]; intros w Hi Hnew He; [done|].
  destruct (run_op_entry op w ref l t Hi Hne Hnew He) as [Hle He'].
  apply IH; [by apply run_op_preserves| |done]. intros k Hk. apply Hnew. lia.
Qed.

(** A credit or debit that succeeds under a reference finds the entry or books it. *)
Lemma post_cases deposit u c a ref md w t w1 : ledger_inv w ->
  post deposit u c a ref md w = (Ok t, w1) ->
  w1 = w /\ existing_by_ref ref (w_st w) = Some t \/
  existing_by_ref ref (w_st w) = None /\
    booked (if deposit then "deposit" else "withdrawal") u c a ref (w_st w) (w_st w1) t.
Proof.
  intros Hi H. destruct w as [n s]. destruct (existing_by_ref ref s) as [t0|] eqn:Hex.
  - left. destruct deposit; cbn [post] in H.
    + rewrite (credit_existing _ _ _ _ _ _ _ _ Hex) in H. by injection H as -> <-.
    + rewrite (debit_existing _ _ _ _ _ _ _ _ Hex) in H. by injection H as -> <-.
  - right. split; [done|]. destruct deposit; cbn [post] in H.
    + pose proof (credit_result u c a ref md (mkWorld n s) Hi Hex) as Hc. rewrite H in Hc.
      by destruct Hc as (d & _ & _ & Hb & _).
    + pose proof (debit_result u c a ref md (mkWorld n s) Hi Hex) as Hc. rewrite H in Hc.
      by destruct Hc as (_ & _ & Hb & _).
Qed.

(** C7.  A reference is applied once, for credits and debits alike.  A call that succeeds
    under a non-empty reference answers the entry that was booked under it before and does
    nothing, or books the one new entry that it answers.  From then on, whatever is done
    with the store, that entry stays where it is in the ledger, its status apart, and every
    further credit or debit under the reference succeeds, answers that entry and leaves the
    store as it is, whoever calls it and whatever user, currency and amount it names;
    provided that none of the identifiers drawn later happens to be the reference. *)
Theorem reference_applied_once deposit u c a ref md w t w1 ops :
  wallet_reachable w -> ref <> "" -> post deposit u c a ref md w = (Ok t, w1) ->
  (forall k, (w_tick w1 <= k)%nat -> uuid_at k <> ref) ->
  (w1 = w /\ existing_by_ref ref (w_st w) = Some t \/
   existing_by_ref ref (w_st w) = None /\
     booked (if deposit then "deposit" else "withdrawal") u c a ref (w_st w) (w_st w1) t) /\
  exists l t', ms_heap (w_st w1) !! l = Some t /\
    t' = tx_set_status (tx_Status t') t /\ ms_heap (w_st (run_ops ops w1)) !! l = Some t' /\
    forall deposit' u' c' a' md',
      post deposit' u' c' a' ref md' (run_ops ops w1) = (Ok t', run_ops ops w1).
Proof.
  intros Hr Hne H Hnew. pose proof (reachable_inv w Hr) as Hi.
  pose proof (post_cases _ _ _ _ _ _ _ _ _ Hi H) as Hc. split; [exact Hc|].
  assert (ledger_inv w1) as Hi1.
  { change w1 with (Ok t, w1).2. rewrite <- H.
    destruct deposit; [by apply preserves_credit|by apply preserves_debit]. }
  assert (lookup_ref ref (w_st w1) = Some t) as Hl.
  { destruct Hc as [[-> Hex]|[_ Hb]]; [|by apply Hb].
    unfold existing_by_ref in Hex. by rewrite decide_False in Hex. }
  unfold lookup_ref in Hl. destruct (ms_txnByRef (w_st w1) !! ref) as [l|] eqn:Href; [|done].
  cbn in Hl. exists l.
  assert (entry_at ref l t (w_st w1)) as He.
  { split; [done|]. exists (tx_Status t). rewrite Hl. by destruct t. }
  destruct (entry_at_lookup ref l t _ Hne (run_ops_entry ops w1 ref l t Hi1 Hne Hnew He))
    as (status & Ht & Hex).
  exists (tx_set_status status t). split; [done|]. split; [done|]. split; [done|].
  intros d' u' c' a' md'. destruct (run_ops ops w1) as [n' s'].
  destruct d'; [by apply credit_existing | by apply debit_existing].
Qed.

(** ** Withdrawals *)

(** RequestWithdrawal on every branch: without a wallet, with an amount that
    does not parse, or above the balance, nothing changes; otherwise the amount is
    taken at once and a pending request for it is on file. *)
Theorem RequestWithdrawal_spec u c a dst ch w :
  wallet_reachable w ->
  match ms_wallets (w_st w) !! walletKey u c, ParseDecimal a with
  | None, _ => memoryStore_RequestWithdrawal u c a dst ch w = (Err ErrWalletNotFound, w)
  | Some x, inr e => memoryStore_RequestWithdrawal u c a dst ch w = (Err e, w)
  | Some x, inl d =>
      ((balance_of (w_st w) u c < dval d)%Q /\
       memoryStore_RequestWithdrawal u c a dst ch w = (Err ErrInsufficientBalance, w)) \/
      ((dval d <= balance_of (w_st w) u c)%Q /\
       exists r w', memoryStore_RequestWithdrawal u c a dst ch w = (Ok r, w') /\
         (balance_of (w_st w') u c == balance_of (w_st w) u c - dval d)%Q /\
         others_same (walletKey u c) (w_st w) (w_st w') /\
         ms_withdrawals (w_st w) !! wr_ID r = None /\
         ms_withdrawals (w_st w') !! wr_ID r = Some r /\
         wr_Status r = "pending" /\ wr_Amount r = a /\ wr_UserID r = u /\
         wr_Currency r = c /\ wr_DestinationAddress r = dst /\ wr_Chain r = ch)
  end.
Proof.
  destruct w as [n s]. cbn [w_st]. intros Hr. rewrite request_eq.
  pose proof (reachable_inv _ Hr) as Hi. unfold balance_of at 1 2 4.
  destruct (ms_wallets s !! walletKey u c) as [x|] eqn:Hx; [|done].
  destruct (li_balance _ Hi _ x Hx) as (dx&Hdx&_). rewrite Hdx, (amt_parse _ _ Hdx).
  destruct (ParseDecimal a) as [d|e] eqn:Hd; [|done].
  destruct (dec_LessThan dx d) eqn:Hlt; [left|right].
  - by apply LessThan_spec in Hlt.
  - apply not_LessThan in Hlt. split; [done|]. do 2 eexists. split; [done|]. cbn.
    unfold balance_of. cbn. rewrite !lookup_insert_eq. cbn.
    rewrite (is_amount_amt _ _ (is_amount_String _)), dval_Sub.
    split_and!; try done.
    + intros k Hk. cbn. by rewrite lookup_insert_ne.
    + destruct (ms_withdrawals s !! uuid_at (S n)) as [r|] eqn:Hw; [|done].
      destruct (li_withdrawal _ Hi _ _ Hw) as [Hdr _]. cbn in Hdr. exfalso.
      exact (not_drawn n (S n) ltac:(lia) Hdr).
Qed.

(** C8.  A pending withdrawal can always be rejected, and rejecting it gives the
    whole amount back: the call succeeds, the user's balance grows by exactly the
    requested amount, no other wallet and no other request changes, the request is
    "rejected" and its ledger entry "reversed". *)
Theorem RejectWithdrawal_refunds id by_ w r :
  wallet_reachable w -> ms_withdrawals (w_st w) !! id = Some r -> wr_Status r = "pending" ->
  exists r' w', memoryStore_RejectWithdrawal id by_ w = (Ok r', w') /\
    (balance_of (w_st w') (wr_UserID r) (wr_Currency r) ==
     balance_of (w_st w) (wr_UserID r) (wr_Currency r) + amt (wr_Amount r))%Q /\
    others_same (walletKey (wr_UserID r) (wr_Currency r)) (w_st w) (w_st w') /\
    ms_withdrawals (w_st w') !! id = Some r' /\
    wr_Status r' = "rejected" /\ wr_ReviewedBy r' = by_ /\ wr_Amount r' = wr_Amount r /\
    (forall i, i <> id -> ms_withdrawals (w_st w') !! i = ms_withdrawals (w_st w) !! i) /\
    (exists t, lookup_ref id (w_st w') = Some t /\ tx_Status t = "reversed" /\
       tx_Amount t = wr_Amount r).
Proof.
  destruct w as [n s]. cbn [w_st]. intros Hr Hw Hp. pose proof (reachable_inv _ Hr) as Hi.
  pose proof (preserves_reject id by_ _ Hi) as Hi'. rewrite reject_eq in Hi' |- * by done.
  rewrite Hw, decide_True in Hi' |- * by done.
  destruct (withdrawal_wallet n s id r Hi Hw) as (x&nb&Hx&_&Hadd&_&Hnb&[l Hl]).
  rewrite Hx, Hadd in Hi' |- *. cbn [snd] in Hi'.
  destruct (li_withdrawal _ Hi' id (wr_review "rejected" (wr_TxHash r) by_ r))
    as (_&_&_&t&Ht&_&_&Ham&Hst).
  { unfold set_ref_status. cbn. rewrite Hl. cbn. by rewrite lookup_insert_eq. }
  do 2 eexists. split; [done|]. cbn [w_st] in *. injection Hst as Hst.
  unfold balance_of, set_ref_status in *. cbn in *. rewrite Hl in *. cbn in *.
  rewrite !lookup_insert_eq. cbn. rewrite Hx. split_and!; try done.
  - by apply is_amount_amt.
  - intros k Hk. cbn. by rewrite lookup_insert_ne.
  - intros i Hne. by rewrite lookup_insert_ne.
  - exists t. by split_and!.
Qed.

(** C9.  A review is final: once a withdrawal is approved or rejected, no sequence of
    operations of the store changes its record again, and after any of them a review of it,
    approving or rejecting, is an error that changes nothing. *)
Theorem review_is_final id r w ops :
  wallet_reachable w -> ms_withdrawals (w_st w) !! id = Some r -> wr_Status r <> "pending" ->
  let w' := run_ops ops w in
  ms_withdrawals (w_st w') !! id = Some r /\
  forall txHash by_,
    memoryStore_ApproveWithdrawal id txHash by_ w' =
      (Err (ErrNew "withdrawal request not pending"), w') /\
    memoryStore_RejectWithdrawal id by_ w' =
      (Err (ErrNew "withdrawal request not pending"), w').
Proof.
  intros Hr Hw Hp w'. pose proof (reachable_inv w Hr) as Hi.
  pose proof (kept_reviewed _ _ (run_ops_kept ops w Hi) id r Hw Hp) as Hw'.
  split; [done|]. intros th by_. pose proof (run_ops_inv ops w Hi) as Hi'.
  fold w' in Hw', Hi'. destruct w' as [n s]. rewrite approve_eq, reject_eq by done.
  cbn in Hw'. rewrite Hw'. by rewrite !decide_False by done.
Qed.
End Props.

(** ** Witnesses *)
Module WalletDemo.
Import Demo.

Definition ops : list wallet_op :=
  [ OpCredit "u" "USDT" "100" "dep-1" ∅;
    OpDebit "u" "USDT" "30.25" "bet-1" ∅;
    OpRequestWithdrawal "u" "USDT" "20.5" "0xabc" "tron" ].
Definition world : World memoryStore := run_ops ops (mkWorld 0 NewInMemoryStore).
(** The identifier of the request in [world]. *)
Definition request_id : string := tally 10.
Definition request : WithdrawalRequest :=
  mkWithdrawalRequest request_id "u" (tally 0) "20.5" "USDT" "0xabc" "tron" "pending" "" ""
    11000000000.

Lemma run_ops_reachable os w : wallet_reachable w -> wallet_reachable (run_ops os w).
Proof.
  revert w. induction os as [|o os IH]; intros w H; [done|]. by apply IH, wallet_step.
Qed.
Lemma world_reachable : wallet_reachable world.
Proof. apply run_ops_reachable, wallet_init. Qed.
Lemma request_pending : ms_withdrawals (w_st world) !! request_id = Some request.
Proof. vm_compute. reflexivity. Qed.

Lemma wallet_balance_is_ledger_sum_witness :
  exists x, ms_wallets (w_st world) !! "u:USDT" = Some x /\
    wallet_Balance x = "49.25" /\
    (amt (wallet_Balance x) == ledger_sum (wallet_ID x) (ms_heap (w_st world)))%Q.
Proof.
  eexists. split; [vm_compute; reflexivity|]. split; [reflexivity|].
  eapply (wallet_balance_is_ledger_sum world "u:USDT"); [apply world_reachable|].
  vm_compute. reflexivity.
Defined.

Lemma wallet_no_overdraft_witness :
  exists x, ms_wallets (w_st world) !! "u:USDT" = Some x /\ (0 <= amt (wallet_Balance x))%Q.
Proof.
  eexists. split; [vm_compute; reflexivity|].
  eapply (wallet_no_overdraft ops 0 "u:USDT"); [|vm_compute; reflexivity].
  repeat constructor; vm_compute; discriminate.
Defined.

Lemma CreditWallet_spec_witness :
  exists t w', memoryStore_CreditWallet "u" "USDT" "7.5" "dep-2" ∅ world = (Ok t, w') /\
    (balance_of (w_st w') "u" "USDT" == balance_of (w_st world) "u" "USDT" + (75 # 10))%Q.
Proof.
  destruct (CreditWallet_spec "u" "USDT" "7.5" "dep-2" ∅ world world_reachable eq_refl)
    as (t & w' & H & Hb & _).
  exists t, w'. split; [exact H | exact Hb].
Defined.

Lemma DebitWallet_spec_witness :
  memoryStore_DebitWallet "u" "USDT" "1000" "bet-2" ∅ world =
    (Err (ErrNew "insufficient balance"), world).
Proof.
  pose proof (DebitWallet_spec "u" "USDT" "1000" "bet-2" ∅ world world_reachable eq_refl) as H.
  replace (ms_wallets (w_st world) !! walletKey "u" "USDT") with
    (Some (mkWallet (tally 0) "u" "USDT" "49.25" 3 1000000000 9000000000)) in H
    by (vm_compute; reflexivity).
  destruct H as [[_ H]|[H _]]; [exact H|]. exfalso. revert H. vm_compute. intros H. by apply H.
Defined.

Definition credited : World memoryStore :=
  (run_op (OpCredit "u" "USDT" "100" "dep-1" ∅) (mkWorld 0 NewInMemoryStore)).2.
Definition later : list wallet_op :=
  [ OpDebit "u" "USDT" "30.25" "bet-1" ∅;
    OpRequestWithdrawal "u" "USDT" "20.5" "0xabc" "tron" ].

(** The ticks count the identifiers drawn, which are numbers in tallies. *)
Lemma not_tally k : tally k <> "dep-1".
Proof. by destruct k. Qed.

Lemma reference_applied_once_witness :
  exists t', tx_Amount t' = "100" /\ tx_UserID t' = "u" /\
    memoryStore_DebitWallet "mallory" "USDT" "1000000" "dep-1" ∅ (run_ops later credited) =
      (Ok t', run_ops later credited).
Proof.
  destruct (reference_applied_once true "u" "USDT" "100" "dep-1" ∅ (mkWorld 0 NewInMemoryStore)
    (mkTransaction (tally 3) "u" (tally 0) "USDT" "deposit" "100" "0" "100" "completed"
       "dep-1" "" 4000000000) credited later (wallet_init 0)) as (_ & l & t' & _ & Ht & _ & H);
    [discriminate | vm_compute; reflexivity | intros k _; apply not_tally |].
  exists t'. split; [rewrite Ht; reflexivity|]. split; [rewrite Ht; reflexivity|].
  pose proof (H false "mallory" "USDT" "1000000" ∅) as K. cbv beta iota delta [post] in K. exact K.
Defined.

Lemma RequestWithdrawal_spec_witness :
  memoryStore_RequestWithdrawal "v" "USDT" "5" "0xabc" "tron" world =
    (Err ErrWalletNotFound, world).
Proof.
  exact (RequestWithdrawal_spec "v" "USDT" "5" "0xabc" "tron" world world_reachable).
Defined.

Lemma RejectWithdrawal_refunds_witness :
  exists r' w', memoryStore_RejectWithdrawal request_id "admin" world = (Ok r', w') /\
    (balance_of (w_st w') "u" "USDT" == balance_of (w_st world) "u" "USDT" + (205 # 10))%Q.
Proof.
  destruct (RejectWithdrawal_refunds request_id "admin" world request world_reachable
    request_pending eq_refl) as (r' & w' & H & Hb & _).
  exists r', w'. split; [exact H | exact Hb].
Defined.

Definition reviewed : World memoryStore :=
  run_ops [OpApprove request_id "0xhash" "admin"] world.

Lemma review_is_final_witness :
  (memoryStore_RejectWithdrawal request_id "admin" (run_ops [] reviewed)).1 =
    Err (ErrNew "withdrawal request not pending").
Proof.
  assert (ms_withdrawals (w_st reviewed) !! request_id =
    Some (wr_review "approved" "0xhash" "admin" request)) as H by (vm_compute; reflexivity).
  pose proof (proj2 (proj2 (review_is_final request_id _ reviewed []
    (run_ops_reachable _ _ world_reachable) H ltac:(discriminate)) "" "admin")) as K.
  exact (f_equal fst K).
Defined.
End WalletDemo.
