(* ===== verification/Xcash.v ===== *)
(** * Xcash: the payment provider's webhook validator and client

    [internal/wallet/xcash].  HMAC-SHA256 ([hmac], in hexadecimal) and the HTTP
    transport are parameters; Redis is the class [Redis], whose laws say that SETNX
    with a time to live holds a key until it lapses. *)

From S2P Require Import Prelude GoStd GoJson GoTime.

(** ** The messages of types.go *)
Record DepositAddressRequest : Type := mkDepositAddressRequest {
  xreq_UID : string;
  xreq_Chain : string;
  xreq_Crypto : string;
}.

Record DepositWebhook : Type := mkDepositWebhook {
  wh_Type : string;
  wh_SysNo : string;
  wh_UID : string;
  wh_Chain : string;
  wh_Block : Z;
  wh_Hash : string;
  wh_Crypto : string;
  wh_Amount : string;
  wh_Confirmed : bool;
  wh_RiskLevel : string;
  wh_RiskScore : string;
}.

(** [json.Unmarshal(body, &webhook)] *)
Definition unmarshal_webhook (body : string) : res DepositWebhook :=
  top ← document body;
  typ ← field_string "type" top;
  data ← nested "data" top;
  sysNo ← field_string "sys_no" data;
  uid ← field_string "uid" data;
  chain ← field_string "chain" data;
  block ← field_int64 "block" data;
  hash ← field_string "hash" data;
  crypto ← field_string "crypto" data;
  amount ← field_string "amount" data;
  confirmed ← field_bool "confirmed" data;
  riskLevel ← field_string "risk_level" data;
  riskScore ← field_string "risk_score" data;
  Ok (mkDepositWebhook typ sysNo uid chain block hash crypto amount confirmed
        riskLevel riskScore).

(** ** Redis *)
Class Redis (S : Type) : Type := {
  redis_SetNX : string -> string -> Z -> M S bool;
  (** When the key lapses; the distant past when it is not set. *)
  redis_expiry : S -> string -> Z;
}.

(** SETNX reads a clock within the call; it answers true and holds the key for the
    time to live when the key was free, and false when it is held. *)
Class RedisLaws {S} (E : GoEnv) (R : Redis S) : Prop := {
  SetNX_law : forall k v ttl w r w', redis_SetNX k v ttl w = (r, w') ->
    (w_tick w <= w_tick w')%nat /\
    match r with
    | Ok b => exists i, (w_tick w <= i < w_tick w')%nat /\
        (b = true <-> redis_expiry (w_st w) k <= time_at i) /\
        (forall k', redis_expiry (w_st w') k' =
           if decide (b = true /\ k' = k) then time_at i + ttl
           else redis_expiry (w_st w) k')
    | Err _ => forall k', redis_expiry (w_st w') k' = redis_expiry (w_st w) k'
    | Panic _ => False
    end;
}.

(** ** webhook.go *)
Definition defaultWebhookWindow : Z := 5 * minute.
Definition webhookNoncePrefix : string := "xcash:webhook:nonce:".
Definition futureTolerance : Z := 30 * second.

(** [redis != nil] is [useRedis]. *)
Record WebhookValidator : Type := mkWebhookValidator {
  whv_hmacKey : string;
  whv_useRedis : bool;
  whv_window : Z;
}.

Definition NewWebhookValidator (hmacKey : string) : WebhookValidator :=
  mkWebhookValidator hmacKey false defaultWebhookWindow.
Definition WithRedis (v : WebhookValidator) : WebhookValidator :=
  mkWebhookValidator (whv_hmacKey v) true (whv_window v).

(** HMAC-SHA256 of the message under the key, in hexadecimal. *)
Class Hmac : Type := { Sign : string -> string -> string }.

(** [headers[name]], empty when absent. *)
Definition header (headers : gmap string string) (name : string) : string :=
  default "" (headers !! name).

Section Webhook.
Context {S : Type} `{E : GoEnv, Hmac, R : Redis S}.

Definition validateTimestamp (v : WebhookValidator) (timestamp : string) : M S unit :=
  ts ← wrapped "invalid webhook timestamp" (of_res (ParseInt timestamp));
  let webhookTime := time_Unix ts in
  now ← time_now;
  if webhookTime <? now - whv_window v
  then mthrow (ErrNew "webhook timestamp outside acceptable window")
  else if now + futureTolerance <? webhookTime
  then mthrow (ErrNew "webhook timestamp too far in the future")
  else mret tt.

Definition checkNonce (v : WebhookValidator) (nonce timestamp : string) : M S unit :=
  let key := webhookNoncePrefix +:+ nonce in
  ok ← wrapped "webhook nonce check failed" (redis_SetNX key timestamp (whv_window v));
  if negb ok then mthrow (ErrNew "webhook nonce already used") else mret tt.

Definition Validate (v : WebhookValidator) (body : string) (headers : gmap string string) :
    M S DepositWebhook :=
  let nonce := header headers "XC-Nonce" in
  let timestamp := header headers "XC-Timestamp" in
  let signature := header headers "XC-Signature" in
  let expected := Sign (nonce +:+ timestamp +:+ body) (whv_hmacKey v) in
  if negb (bool_decide (signature = expected))
  then mthrow (ErrNew "invalid webhook signature")
  else
    validateTimestamp v timestamp;;
    (if whv_useRedis v then checkNonce v nonce timestamp else mret tt);;
    wrapped "unmarshal webhook" (of_res (unmarshal_webhook body)).
End Webhook.

(** ** client.go *)

(** [url.QueryEscape] *)
Definition unreserved (c : ascii) : bool :=
  ascii_between 48 57 c || ascii_between 65 90 c || ascii_between 97 122 c ||
  bool_decide (c = "-"%char) || bool_decide (c = "_"%char) ||
  bool_decide (c = "."%char) || bool_decide (c = "~"%char).
Definition upper_hex (n : nat) : ascii :=
  if (n <? 10)%nat then chr (48 + n) else chr (55 + n).
Fixpoint QueryEscape (s : string) : string :=
  match s with
  | "" => ""
  | String c s =>
      if unreserved c then String c (QueryEscape s)
      else if decide (c = " "%char) then String "+" (QueryEscape s)
      else let n := Ascii.nat_of_ascii c in
           String "%" (String (upper_hex (n / 16)) (String (upper_hex (n mod 16))
             (QueryEscape s)))
  end.

(** [url.Values.Encode]: by key. *)
Definition query_Encode (kvs : list (string * string)) : string :=
  sep_by "&" ((fun kv => QueryEscape kv.1 +:+ "=" +:+ QueryEscape kv.2) <$> sort_keys kvs).

Record HttpRequest : Type := mkHttpRequest {
  hreq_Method : string;
  hreq_URL : string;
  hreq_Header : list (string * string);
  hreq_Body : string;
}.
Record HttpResponse : Type := mkHttpResponse {
  hresp_StatusCode : Z;
  hresp_Body : string;
}.
(** The network: [http.Client.Do]. *)
Class HttpTransport (S : Type) : Type := { http_Do : HttpRequest -> M S HttpResponse }.

Record Client : Type := mkClient {
  cl_baseURL : string;
  cl_appID : string;
  cl_hmacKey : string;
}.
Definition NewClient (baseURL appID hmacKey : string) : Client :=
  mkClient baseURL appID hmacKey.

Section XcashClient.
Context {S : Type} `{GoEnv, Hmac, HttpTransport S}.

(** The base address is the configured one, which parses and has no query. *)
Definition Client_GetDepositAddress (c : Client) (req : DepositAddressRequest) :
    M S string :=
  let q := [("uid", xreq_UID req); ("chain", xreq_Chain req); ("crypto", xreq_Crypto req)] in
  let u := cl_baseURL c +:+ "/v1/deposit/address" +:+ "?" +:+ query_Encode q in
  now ← time_now;
  let timestamp := Itoa (Unix now) in
  nonce ← new_uuid;
  let signature := Sign (nonce +:+ timestamp +:+ "") (cl_hmacKey c) in
  resp ← wrapped "do request" (http_Do (mkHttpRequest "GET" u
    [("XC-Appid", cl_appID c); ("XC-Timestamp", timestamp); ("XC-Nonce", nonce);
     ("XC-Signature", signature)] ""));
  if negb (hresp_StatusCode resp =? 200)
  then mthrow (ErrNew ("xcash " +:+ Itoa (hresp_StatusCode resp) +:+ ": " +:+ hresp_Body resp))
  else wrapped "decode response" (of_res (
         top ← first_document (hresp_Body resp);
         field_string "deposit_address" top)).
End XcashClient.
