(* ===== verification/XcashProps.v ===== *)
(** * XcashProps: what the webhook validator guarantees *)

From S2P Require Import Prelude GoStd GoJson GoTime Xcash Demo.

Section Replay.
Context {S : Type} `{E : GoEnv, Hm : Hmac, R : Redis S, RL : !RedisLaws E R}.

(** The clock never runs backwards. *)
Definition clock_monotone : Prop := forall i j, (i <= j)%nat -> time_at i <= time_at j.

(** [w'] comes after [w], and no Redis key lapses earlier than it did in [w]. *)
Definition redis_later (w w' : World S) : Prop :=
  (w_tick w <= w_tick w')%nat /\
  forall k, redis_expiry (w_st w) k <= redis_expiry (w_st w') k.

Definition nonce_of (h : gmap string string) : string := header h "XC-Nonce".
Definition timestamp_of (h : gmap string string) : string := header h "XC-Timestamp".

Lemma validateTimestamp_Ok v ts (w w' : World S) : validateTimestamp v ts w = (Ok tt, w') ->
  exists n, ParseInt ts = Ok n /\ w' = mkWorld (Datatypes.S (w_tick w)) (w_st w) /\
    time_at (w_tick w) - whv_window v <= time_Unix n <=
    time_at (w_tick w) + futureTolerance.
Proof.
  unfold validateTimestamp. intros H. run_inv H. eexists. split_and!; [done|done|lia|lia].
Qed.

Lemma checkNonce_Ok v n ts (w w' : World S) : checkNonce v n ts w = (Ok tt, w') ->
  exists i, (w_tick w <= i < w_tick w')%nat /\
    redis_expiry (w_st w) (webhookNoncePrefix +:+ n) <= time_at i /\
    redis_expiry (w_st w') (webhookNoncePrefix +:+ n) = time_at i + whv_window v.
Proof.
  unfold checkNonce. intros H. unmonad.
  destruct (redis_SetNX _ _ _ w) as [r w1] eqn:Hs.
  destruct (SetNX_law _ _ _ _ _ _ Hs) as [_ Hr].
  destruct r as [[]|e|p]; cbn in H; [|done|done|done]. simplify_eq.
  destruct Hr as (i & Hi & [Ht _] & Hx). exists i. split_and!; [lia|lia|by apply Ht|].
  rewrite Hx. by rewrite decide_True.
Qed.

(** What an accepted webhook has passed. *)
Lemma Validate_Ok v body h (w : World S) wh (w' : World S) : whv_useRedis v = true ->
  Validate v body h w = (Ok wh, w') ->
  header h "XC-Signature" = Sign (nonce_of h +:+ timestamp_of h +:+ body) (whv_hmacKey v) /\
  unmarshal_webhook body = Ok wh /\
  exists n i, ParseInt (timestamp_of h) = Ok n /\ (w_tick w < i < w_tick w')%nat /\
    time_at (w_tick w) - whv_window v <= time_Unix n <= time_at (w_tick w) + futureTolerance /\
    redis_expiry (w_st w) (webhookNoncePrefix +:+ nonce_of h) <= time_at i /\
    redis_expiry (w_st w') (webhookNoncePrefix +:+ nonce_of h) = time_at i + whv_window v.
Proof.
  intros Hu. unfold Validate. fold (nonce_of h) (timestamp_of h). rewrite Hu. unmonad.
  case_bool_decide as Hsig; cbn [negb]; [|done]. intros H.
  destruct (validateTimestamp v (timestamp_of h) w) as [[[]|e|p] w1] eqn:Ht; [|done|done].
  destruct (checkNonce v (nonce_of h) (timestamp_of h) w1) as [[[]|e|p] w2] eqn:Hc; [|done|done].
  destruct (unmarshal_webhook body) as [x|e|p] eqn:Hj; cbn in H; [|done|done]. simplify_eq.
  apply validateTimestamp_Ok in Ht as (n & Hn & -> & Hw).
  apply checkNonce_Ok in Hc as (i & Hi & He & He'). cbn in Hi, He.
  split_and!; [done|done|]. exists n, i. split_and!; try done; lia.
Qed.

(** No replay: once a webhook is accepted, no later delivery with the same nonce
    and timestamp is accepted, provided the webhook was not accepted early, that is,
    its timestamp was at least [delay] old at the time, and the later delivery is
    processed within [delay]. *)
Theorem webhook_no_replay v body h (w : World S) wh (w1 w2 : World S) body2 h2 delay :
  clock_monotone -> whv_useRedis v = true ->
  Validate v body h w = (Ok wh, w1) -> redis_later w1 w2 ->
  nonce_of h2 = nonce_of h -> timestamp_of h2 = timestamp_of h ->
  (forall ts, ParseInt (timestamp_of h) = Ok ts -> time_Unix ts + delay < time_at (w_tick w)) ->
  let '(r, w3) := Validate v body2 h2 w2 in
  time_at (w_tick w3) <= time_at (w_tick w2) + delay ->
  match r with Ok _ => False | _ => True end.
Proof.
  intros Hclock Hu Hv [Htick Hlater] Hn Ht Hage.
  destruct (Validate v body2 h2 w2) as [r w3] eqn:Hv2. intros Hprompt.
  destruct r as [wh2|e|p]; [|done|done].
  apply (Validate_Ok v body h) in Hv as (_ & _ & n & i & Hp & Hi & Hw & _ & He); [|done].
  apply (Validate_Ok v body2 h2) in Hv2 as (_ & _ & n2 & i2 & Hp2 & Hi2 & Hw2 & He2 & _);
    [|done].
  rewrite Hn in *. rewrite Ht, Hp in Hp2. simplify_eq.
  pose proof (Hage n2 Hp). pose proof (Hlater (webhookNoncePrefix +:+ nonce_of h)).
  assert (time_at (w_tick w) <= time_at i) by (apply Hclock; lia).
  assert (time_at i2 <= time_at (w_tick w3)) by (apply Hclock; lia). lia.
Qed.
End Replay.

(** ** Witnesses *)
Module XcashDemo.

(** A clock that shows the tick, in seconds of Unix time, so that a delivery can be
    placed at a chosen time. *)
#[export] Instance clock_env : GoEnv := {
  uuid_at := tally;
  time_at n := (Z.of_nat n + unixToInternal) * second;
  range_at V t m := map_to_list m;
  Getenv _ := "";
  FormatRFC3339 t := "";
  ParseRFC3339 s := Ok 0;
  sort_Slice A less l := sort_less less l;
}.

(** Redis as a map from keys to the times they lapse. *)
Definition map_SetNX (k v : string) (ttl : Z) : M (gmap string Z) bool :=
  now ← time_now;
  m ← get;
  if default 0 (m !! k) <=? now then modify (<[k := now + ttl]>);; mret true
  else mret false.
Definition map_expiry (m : gmap string Z) (k : string) : Z := default 0 (m !! k).
#[export] Instance redis : Redis (gmap string Z) := {
  redis_SetNX := map_SetNX;
  redis_expiry := map_expiry;
}.
#[export] Instance redis_laws : RedisLaws clock_env redis.
Proof.
  constructor. intros k v ttl [n m] r w' H.
  change (map_SetNX k v ttl (mkWorld n m) = (r, w')) in H. unfold map_SetNX in H. unmonad.
  change redis_expiry with map_expiry. unfold map_expiry.
  destruct (default 0 (m !! k) <=? time_at n) eqn:E; simplify_eq; cbn [w_tick w_st];
    (split; [lia|]); exists n; (split; [lia|]); split.
  - split; [intros _; lia|done].
  - intros k'. case_decide as Hk.
    + destruct Hk as [_ ->]. by rewrite lookup_insert_eq.
    + rewrite lookup_insert_ne; [done|]. intros ->. by destruct Hk.
  - split; [done|]. intros; lia.
  - intros k'. by rewrite decide_False by (by intros []).
Qed.

#[export] Instance hmac : Hmac := { Sign m k := k +:+ m }.

Definition body : string :=
  let q := String chr_quote "" in
  "{" +:+ q +:+ "data" +:+ q +:+ ":{" +:+ q +:+ "sys_no" +:+ q +:+ ":" +:+ q +:+ "d1" +:+ q +:+
  "," +:+ q +:+ "confirmed" +:+ q +:+ ":true}}".
Definition headers (ts : string) : gmap string string :=
  <["XC-Nonce" := "n1"]> (<["XC-Timestamp" := ts]>
    {["XC-Signature" := "key" +:+ "n1" +:+ ts +:+ body]}).
Definition validator : WebhookValidator := WithRedis (NewWebhookValidator "key").

Lemma clock_mono : clock_monotone.
Proof. intros i j H. unfold clock_monotone, time_at, clock_env, second. lia. Qed.

(** A webhook stamped 100 and accepted at 110 is refused at 390. *)
Lemma webhook_no_replay_witness :
  let '(r, w3) := Validate validator body (headers "100") (mkWorld 390
    (w_st (Validate validator body (headers "100") (mkWorld 110 (∅ : gmap string Z))).2)) in
  match r with Ok _ => False | _ => True end.
Proof.
  destruct (Validate validator body (headers "100") (mkWorld 110 (∅ : gmap string Z))) as [r w1'] eqn:E.
  assert (exists wh, r = Ok wh) as [wh ->]
    by (exists (mkDepositWebhook "" "d1" "" "" 0 "" "" "" true "" "");
        apply (f_equal fst) in E; cbn [fst] in E; rewrite <- E; vm_compute; reflexivity).
  pose proof (webhook_no_replay validator body (headers "100") (mkWorld 110 ∅) wh w1'
    (mkWorld 390 (w_st w1')) body (headers "100") (2 * second) clock_mono eq_refl E) as H.
  cbn [snd]. destruct (Validate validator body (headers "100") (mkWorld 390 (w_st w1')))
    as [r3 w3] eqn:E3.
  apply H.
  - apply (f_equal snd) in E. cbn [snd] in E. rewrite <- E. split; [vm_compute; lia|done].
  - reflexivity.
  - reflexivity.
  - intros ts Hts. vm_compute in Hts. injection Hts as <-. vm_compute. reflexivity.
  - apply (f_equal snd) in E, E3. cbn [snd] in E, E3. rewrite <- E3, <- E.
    vm_compute. discriminate.
Defined.

(** The nonce is held for the window only, while the timestamp is accepted from
    [futureTolerance] before it to the window after it: a webhook accepted early is
    accepted a second time.  Here one stamped 100 is accepted at 70 and again at 390. *)
Theorem webhook_early_replay :
  let '(r1, w1) := Validate validator body (headers "100") (mkWorld 70 (∅ : gmap string Z)) in
  let '(r2, _) := Validate validator body (headers "100") (mkWorld 390 (w_st w1)) in
  exists wh, r1 = Ok wh /\ r2 = Ok wh.
Proof. vm_compute. by eexists. Qed.

(** The signature covers the nonce and the timestamp without a separator between them, and
    a timestamp may have leading zeros: a delivery whose nonce ends in a zero is accepted
    again, under the same signature, when the zero is moved to the timestamp. *)
Theorem webhook_shifted_replay :
  let signature := "key" +:+ "n0" +:+ "100" +:+ body in
  let sent nonce ts : gmap string string :=
    <["XC-Nonce" := nonce]> (<["XC-Timestamp" := ts]> {["XC-Signature" := signature]}) in
  let '(r1, w1) := Validate validator body (sent "n0" "100") (mkWorld 110 (∅ : gmap string Z)) in
  let '(r2, _) := Validate validator body (sent "n" "0100") (mkWorld 120 (w_st w1)) in
  exists wh, r1 = Ok wh /\ r2 = Ok wh.
Proof. vm_compute. by eexists. Qed.
End XcashDemo.
