(* ===== verification/Rates.v ===== *)
(** * Rates: exchange rates

    [internal/wallet/rates]: the cache, the chain of USD-to-fiat sources and the
    aggregator.  The providers, which ask web services, are parameters; the cache is
    the mutable state. *)

From S2P Require Import Prelude GoStd GoJson GoTime Decimal Xcash.

(** ** util.go *)
Definition isStablecoin (crypto : string) : bool :=
  bool_decide (crypto ∈ ["USDT"; "USDC"; "BUSD"; "DAI"]).

Definition normalizeSymbol (crypto : string) : string :=
  if decide (crypto = "MATIC") then "POL"
  else if decide (crypto = "TON") then "GRAM"
  else if decide (crypto = "ARB-TOKEN") then "ARB"
  else if decide (crypto = "OP-TOKEN") then "OP"
  else crypto.

Definition supportedFiatCurrencies : list string :=
  [ "USD"; "EUR"; "JPY"; "INR"; "CAD"; "CNY"; "IDR"; "KRW"; "PHP"; "RUB";
    "MXN"; "PLN"; "TRY"; "VND"; "ARS"; "PEN"; "CLP"; "NGN"; "AED"; "BHD";
    "CRC"; "KWD"; "MAD"; "MYR"; "QAR"; "SAR"; "SGD"; "TND"; "TWD"; "GHS";
    "KES"; "BOB"; "XOF"; "PKR"; "NZD"; "ISK"; "BAM"; "TZS"; "EGP"; "LKR";
    "UGX"; "KZT"; "BDT"; "UAH"; "GEL"; "MNT"; "GTQ"; "KGS"; "ZAR"; "TMT";
    "ZMW"; "TJS"; "MRU"; "TTD"; "GMD"; "MGA"; "JMD"; "NIO"; "HNL"; "MZN";
    "XAF"; "RWF"; "GNF"; "BWP"; "KMF"; "LSL"; "ERN"; "BIF"; "MWK"; "PGK" ].

Definition IsSupportedFiat (fiat : string) : bool :=
  existsb (fun c => bool_decide (c = ToUpper fiat)) supportedFiatCurrencies.

(** ** decimal.go *)
Definition decimalPlaces (s : string) : Z :=
  let idx := IndexByte s "."%char in
  if decide (idx = -1) then 0 else int64 (Z.of_nat (String.length s) - idx - 1).

Definition MulDecimalStrings `{Decimal} (a b : string) : res string :=
  left ← NewFromString a;
  right ← NewFromString b;
  let scale := Z.max (decimalPlaces a) (decimalPlaces b) in
  mret (dec_StringFixedBank (dec_Mul left right) (int32 scale)).

(** ** cache.go *)
Record cachedRate : Type := mkCachedRate { cr_value : string; cr_cached : Z }.
Record Cache : Type := mkCache { cache_values : gmap string cachedRate; cache_ttl : Z }.

Definition NewCache (ttl : Z) : Cache := mkCache ∅ ttl.

Section CacheOps.
Context `{E : GoEnv}.

Definition Cache_Get (key : string) : M Cache (option string) :=
  c ← get;
  match cache_values c !! key with
  | None => mret None
  | Some v =>
      now ← time_now;
      if cache_ttl c <? now - cr_cached v then mret None else mret (Some (cr_value v))
  end.

Definition Cache_Set (key value : string) : M Cache unit :=
  now ← time_now;
  modify (fun c => mkCache (<[key := mkCachedRate value now]> (cache_values c)) (cache_ttl c)).

Definition Cache_StaleValue (key : string) : M Cache (option string) :=
  c ← get;
  match cache_values c !! key with
  | None => mret None
  | Some v =>
      now ← time_now;
      if 5 * minute <? now - cr_cached v then mret None else mret (Some (cr_value v))
  end.
End CacheOps.

(** ** Providers *)

(** A provider's [GetRate(fiat, crypto)] and a forex source's [GetRate(fiat)]. *)
Definition RateProvider (S : Type) : Type := string -> string -> M S string.
Definition ForexProvider (S : Type) : Type := string -> M S string.

Record ForexChain (S : Type) : Type := mkForexChain {
  fc_providers : list (ForexProvider S);
  fc_manual : gmap string string;
}.
Arguments mkForexChain {S} _ _.
Arguments fc_providers {S} _.
Arguments fc_manual {S} _.

Record Aggregator (S : Type) : Type := mkAggregator {
  ag_providers : list (RateProvider S);
  ag_forex : ForexChain S;
  ag_manual : gmap string string;
}.
Arguments mkAggregator {S} _ _ _.
Arguments ag_providers {S} _.
Arguments ag_forex {S} _.
Arguments ag_manual {S} _.

Section Aggregators.
Context {S : Type} `{E : GoEnv, D : Decimal, LC : Lens S Cache}.

(** [for k, v := range parsed { if v parses { out[f(k)] = v } }] *)
Definition valid_rates (f : string -> string) (kvs : list (string * string)) :
    gmap string string :=
  foldl (fun m kv => match NewFromString kv.2 with
                     | Ok _ => <[f kv.1 := kv.2]> m
                     | _ => m
                     end) ∅ kvs.

Definition loadManualUSDRates : M S (gmap string string) :=
  let raw := Getenv "MANUAL_USD_RATES" in
  if decide (raw = "") then mret ∅
  else match Unmarshal_strings raw with
       | Ok parsed => kvs ← range parsed; mret (valid_rates ToUpper kvs)
       | _ => mret ∅
       end.

Definition NewForexChain (providers : list (ForexProvider S)) : M S (ForexChain S) :=
  manual ← loadManualUSDRates; mret (mkForexChain providers manual).

(** [for _, p := range providers { value, err := p(...); if err != nil { continue };
    return value }]; [None] when all of them failed. *)
Fixpoint first_ok {A} (calls : list (M S A)) : M S (option A) :=
  match calls with
  | [] => mret None
  | call :: calls =>
      r ← attempt call;
      match r with
      | Ok v => mret (Some v)
      | _ => first_ok calls
      end
  end.

Definition ForexChain_GetRate (fc : ForexChain S) (fiat : string) : M S string :=
  let fiat := ToUpper fiat in
  if decide (fiat = "USD") then mret "1.00"
  else match fc_manual fc !! fiat with
       | Some manual => mret manual
       | None =>
           v ← first_ok ((fun p : ForexProvider S => p fiat) <$> fc_providers fc);
           match v with
           | Some value => mret value
           | None => mthrow (ErrNew ("all forex providers failed for " +:+ fiat))
           end
       end.

Definition loadManualRates : M S (gmap string string) :=
  let raw := Getenv "MANUAL_RATES" in
  if decide (raw = "") then mret ∅
  else match Unmarshal_strings raw with
       | Ok parsed => kvs ← range parsed; mret (valid_rates id kvs)
       | _ => mret ∅
       end.

Definition NewAggregator (forex : ForexChain S) (providers : list (RateProvider S)) :
    M S (Aggregator S) :=
  manual ← loadManualRates; mret (mkAggregator providers forex manual).

Definition convertUSDToFiat (a : Aggregator S) (fiat usdValue : string) : M S string :=
  rate ← ForexChain_GetRate (ag_forex a) fiat;
  of_res (MulDecimalStrings usdValue rate).

Definition cryptoToUSD (a : Aggregator S) (crypto : string) : M S string :=
  if isStablecoin crypto then mret "1.00"
  else
    let key := crypto +:+ ":USD" in
    cached ← zoom (Cache_Get key);
    match cached with
    | Some v => mret v
    | None =>
        v ← first_ok ((fun p : RateProvider S => p "USD" crypto) <$> ag_providers a);
        match v with
        | Some value => zoom (Cache_Set key value);; mret value
        | None => mthrow (ErrNew ("failed to get " +:+ crypto +:+ "/USD"))
        end
    end.

(** [if stale, ok := a.cache.StaleValue(key); ok { return stale, nil }; return err] *)
Definition stale_or (key : string) (e : goerr) : M S string :=
  stale ← zoom (Cache_StaleValue key);
  match stale with Some v => mret v | None => mthrow e end.

Definition Aggregator_GetRate (a : Aggregator S) (fiat crypto : string) : M S string :=
  let fiat := ToUpper fiat in
  let crypto := ToUpper crypto in
  if negb (IsSupportedFiat fiat) then mthrow (ErrNew ("unsupported fiat: " +:+ fiat))
  else if bool_decide (fiat = "USD") && isStablecoin crypto then mret "1.00"
  else
    let key := crypto +:+ ":" +:+ fiat in
    cached ← zoom (Cache_Get key);
    match cached with
    | Some v => mret v
    | None =>
        match ag_manual a !! crypto with
        | Some manual =>
            if decide (fiat = "USD") then zoom (Cache_Set key manual);; mret manual
            else
              converted ← convertUSDToFiat a fiat manual;
              zoom (Cache_Set key converted);;
              mret converted
        | None =>
            direct ← first_ok ((fun p : RateProvider S => p fiat crypto) <$> ag_providers a);
            match direct with
            | Some value => zoom (Cache_Set key value);; mret value
            | None =>
                r ← attempt (cryptoToUSD a crypto);
                match r with
                | Ok cryptoUSD =>
                    if decide (fiat = "USD")
                    then zoom (Cache_Set key cryptoUSD);; mret cryptoUSD
                    else
                      c ← attempt (convertUSDToFiat a fiat cryptoUSD);
                      match c with
                      | Ok converted => zoom (Cache_Set key converted);; mret converted
                      | Err e => stale_or key (ErrWrap ("failed to convert " +:+ crypto +:+
                                                 " to " +:+ fiat) e)
                      | Panic p => panic p
                      end
                | _ => stale_or key (ErrNew ("all providers failed for " +:+ crypto +:+
                                       "/" +:+ fiat))
                end
            end
        end
    end.

(** [v = "0"] for a currency without a rate. *)
Definition SupportedRates (a : Aggregator S) (fiat : string) (currencies : list string) :
    M S (gmap string string) :=
  (fix go (cs : list string) (out : gmap string string) : M S (gmap string string) :=
     match cs with
     | [] => mret out
     | c :: cs =>
         r ← attempt (Aggregator_GetRate a fiat c);
         go cs (<[c := match r with Ok v => v | _ => "0" end]> out)
     end) currencies ∅.
End Aggregators.
