(* ===== verification/RateProviders.v ===== *)
(** * RateProviders: the web services that quote exchange rates

    The [GetRate] methods of [internal/wallet/rates]: what is asked and how the answer
    is read; and the constructors.  The network is [HttpTransport]. *)

From S2P Require Import Prelude GoStd GoJson GoTime Xcash Rates.

Section Providers.
Context {S : Type} `{E : GoEnv, HT : HttpTransport S}.

(** GET a document; any status but 200 is an error that names the service. *)
Definition get_document (service url : string) : M S (list (string * any)) :=
  resp ← http_Do (mkHttpRequest "GET" url [] "");
  if negb (hresp_StatusCode resp =? 200)
  then mthrow (ErrNew (service +:+ " status " +:+ Itoa (hresp_StatusCode resp)))
  else of_res (first_document (hresp_Body resp)).

(** The symbols a crypto exchange is asked for: [fiat] and [crypto] after the stablecoin
    shortcut. *)
Definition exchange_fiat (fiat : string) : string :=
  if decide (fiat = "USD") then "USDT" else fiat.

Definition Binance_GetRate (base : string) : RateProvider S := fun fiat crypto =>
  let fiat := ToUpper fiat in
  let crypto := ToUpper crypto in
  if bool_decide (fiat = "USD") && isStablecoin crypto then mret "1.00"
  else
    let crypto := normalizeSymbol crypto in
    let fiat := exchange_fiat fiat in
    top ← get_document "binance" (base +:+ "/api/v3/ticker/price?symbol=" +:+ crypto +:+ fiat);
    price ← of_res (field_string "price" top);
    if decide (price = "") then mthrow (ErrNew "binance empty price")
    else mret (TrimSpace price).

Definition Coinbase_GetRate (base : string) : RateProvider S := fun fiat crypto =>
  let fiat := ToUpper fiat in
  let crypto := ToUpper crypto in
  if bool_decide (fiat = "USD") && isStablecoin crypto then mret "1.00"
  else
    let crypto := normalizeSymbol crypto in
    let fiat := exchange_fiat fiat in
    top ← get_document "coinbase" (base +:+ "/v2/exchange-rates?currency=" +:+ crypto);
    rates ← of_res (data ← nested "data" top; field_strings "rates" data);
    match rates !! fiat with
    | Some rate => mret (TrimSpace rate)
    | None => mthrow (ErrNew ("coinbase missing rate for " +:+ fiat))
    end.

(** The first ticker, in map order, whose member "c" starts with a string. *)
Definition kraken_price (v : any) : option string :=
  match v with
  | JObj kvs =>
      match map_of kvs !! "c" with
      | Some (JArr (JStr price :: _)) => Some price
      | _ => None
      end
  | _ => None
  end.

Definition conv_strings (v : any) : res (list string) :=
  match v with
  | JArr xs => mapM (fun x => match x with
                              | JStr s => Ok s | JNull => Ok "" | _ => Err ErrJSON end) xs
  | _ => Err ErrJSON
  end.

Definition Kraken_GetRate (base : string) : RateProvider S := fun fiat crypto =>
  let fiat := ToUpper fiat in
  let crypto := ToUpper crypto in
  if bool_decide (fiat = "USD") && isStablecoin crypto then mret "1.00"
  else
    let crypto := normalizeSymbol crypto in
    let fiat := exchange_fiat fiat in
    top ← get_document "kraken" (base +:+ "/0/public/Ticker?pair=" +:+ crypto +:+ fiat);
    errors ← of_res (fill conv_strings "error" top []);
    result ← of_res (nested "result" top);
    if negb (bool_decide (errors = []))
    then mthrow (ErrNew ("kraken error: [" +:+ sep_by " " errors +:+ "]"))
    else
      tickers ← range (map_of result);
      match omap (fun kv => kraken_price kv.2) tickers with
      | price :: _ => mret (TrimSpace price)
      | [] => mthrow (ErrNew "kraken missing ticker data")
      end.

Definition KuCoin_GetRate (base : string) : RateProvider S := fun fiat crypto =>
  let fiat := ToUpper fiat in
  let crypto := ToUpper crypto in
  if bool_decide (fiat = "USD") && isStablecoin crypto then mret "1.00"
  else
    let crypto := normalizeSymbol crypto in
    top ← get_document "kucoin" (base +:+ "/api/v1/prices?base=" +:+ fiat +:+
                                   "&currencies=" +:+ crypto);
    code ← of_res (field_string "code" top);
    data ← of_res (field_strings "data" top);
    if decide (code <> "200000") then mthrow (ErrNew ("kucoin code " +:+ code))
    else match data !! crypto with
         | Some price => mret (TrimSpace price)
         | None => mthrow (ErrNew ("kucoin missing rate for " +:+ crypto))
         end.

(** ** USD-to-fiat sources *)

(** OpenExchange and MoneyConvert answer with a member "rates". *)
Definition rates_member (service url : string) : ForexProvider S := fun fiat =>
  let fiat := ToUpper fiat in
  top ← get_document service url;
  rates ← of_res (field_strings "rates" top);
  match rates !! fiat with
  | Some rate => mret (TrimSpace rate)
  | None => mthrow (ErrNew (service +:+ " missing rate for " +:+ fiat))
  end.

Definition OpenExchange_GetRate (url : string) : ForexProvider S :=
  rates_member "open-er-api" url.
Definition MoneyConvert_GetRate (url : string) : ForexProvider S :=
  rates_member "moneyconvert" url.

Definition NewOpenExchange_url : string :=
  let url := Getenv "FOREX_API_URL" in
  if decide (url = "") then "https://open.er-api.com/v6/latest/USD" else url.

Definition CoinbaseForex_GetRate (url : string) : ForexProvider S := fun fiat =>
  let fiat := ToUpper fiat in
  top ← get_document "coinbase-forex" url;
  rates ← of_res (data ← nested "data" top; field_strings "rates" data);
  match rates !! fiat with
  | Some rate => mret (TrimSpace rate)
  | None => mthrow (ErrNew ("coinbase-forex missing rate for " +:+ fiat))
  end.

(** The members of "usd" are kept raw; only the one asked for is decoded. *)
Definition FawazAhmed0_GetRate (url : string) : ForexProvider S := fun fiat =>
  let fiat := ToLower fiat in
  top ← get_document "fawazahmed0" url;
  usd ← of_res (nested "usd" top);
  match map_of usd !! fiat with
  | None => mthrow (ErrNew ("fawazahmed0 missing rate for " +:+ fiat))
  | Some JNull => mret (TrimSpace "")
  | Some v => rate ← of_res (conv_string v); mret (TrimSpace rate)
  end.

(** ** The constructors: an option replaces the URL, options apply in order *)
Definition url_option : Type := string -> string.
Definition WithURL (u : string) : url_option := fun _ => u.
Definition apply_options (url : string) (opts : list url_option) : string :=
  foldl (fun u opt => opt u) url opts.

Definition NewBinance (opts : list url_option) : RateProvider S :=
  Binance_GetRate (apply_options "https://api.binance.com" opts).
Definition NewCoinbase (opts : list url_option) : RateProvider S :=
  Coinbase_GetRate (apply_options "https://api.coinbase.com" opts).
Definition NewKraken (opts : list url_option) : RateProvider S :=
  Kraken_GetRate (apply_options "https://api.kraken.com" opts).
Definition NewKuCoin (opts : list url_option) : RateProvider S :=
  KuCoin_GetRate (apply_options "https://api.kucoin.com" opts).
Definition NewOpenExchange (opts : list url_option) : ForexProvider S :=
  OpenExchange_GetRate (apply_options NewOpenExchange_url opts).
Definition NewCoinbaseForex (opts : list url_option) : ForexProvider S :=
  CoinbaseForex_GetRate
    (apply_options "https://api.coinbase.com/v2/exchange-rates?currency=USD" opts).
Definition NewFawazAhmed0 (opts : list url_option) : ForexProvider S :=
  FawazAhmed0_GetRate
    (apply_options "https://cdn.jsdelivr.net/npm/@fawazahmed0/currency-api@latest/v1/currencies/usd.json"
       opts).
Definition NewMoneyConvert (opts : list url_option) : ForexProvider S :=
  MoneyConvert_GetRate (apply_options "https://cdn.moneyconvert.net/api/latest.json" opts).
End Providers.
