(* ===== verification/WalletService.v ===== *)
(** * WalletService: the wallet's business rules

    [internal/wallet/service.go], over any implementation of the [Store] interface.
    [supportedPairs] is a set of "CURRENCY:chain" strings, a map to units as in the
    code, so that its iteration order is the runtime's. *)

From S2P Require Import Prelude GoStd GoJson Decimal WalletModels Xcash.

Record Service : Type := mkService {
  svc_xcash : Client;
  svc_xcashValidator : WebhookValidator;
  svc_supportedPairs : gmap string unit;
}.

Definition colon : ascii := ":"%char.

(** One iteration of NewService's loop: the pair a configuration entry stands for. *)
Definition parse_pair (p : string) : option (string * string) :=
  let p := TrimSpace p in
  if decide (p = "") then None
  else match SplitN2 p colon with
       | [a; b] =>
           let currency := TrimSpace a in
           let chain := TrimSpace b in
           if decide (currency = "" \/ chain = "") then None else Some (currency, chain)
       | _ => None
       end.

Definition pair_key (currency chain : string) : string := currency +:+ ":" +:+ chain.

Definition NewService (xcashClient : Client) (validator : WebhookValidator)
    (supportedPairs : list string) : Service :=
  let pairs := foldl (fun m p => match parse_pair p with
                                 | Some (currency, chain) => <[pair_key currency chain := tt]> m
                                 | None => m
                                 end) ∅ supportedPairs in
  mkService xcashClient validator pairs.

Definition isSupportedPair (s : Service) (currency chain : string) : bool :=
  bool_decide (is_Some (svc_supportedPairs s !! pair_key currency chain)).

Definition validatePair (s : Service) (currency chain : string) : res unit :=
  if negb (isSupportedPair s currency chain)
  then Err (ErrNew "unsupported currency-chain pair") else Ok tt.

(** [strings.SplitN(pair, ":", 2)[0]] *)
Definition pair_currency (pair : string) : string :=
  match SplitN2 pair colon with c :: _ => c | [] => "" end.

Section WalletService.
Context {S : Type} `{E : GoEnv, Hm : Hmac, ST : Store S, R : Redis S, HT : HttpTransport S}.

Definition supportedCurrencies (s : Service) : M S (list string) :=
  pairs ← range (svc_supportedPairs s);
  mret (foldl (fun out pair =>
    let c := pair_currency pair.1 in
    if decide (c ∈ out) then out else out ++ [c]) [] pairs).

Definition Service_CreditWallet (userID currency amount referenceID : string)
    (metadata : Metadata) : M S Transaction :=
  store_CreditWallet userID currency amount referenceID metadata.

Definition Service_DebitWallet (userID currency amount referenceID : string)
    (metadata : Metadata) : M S Transaction :=
  store_DebitWallet userID currency amount referenceID metadata.

Definition currencyInPairs (s : Service) (currency : string) : M S bool :=
  pairs ← range (svc_supportedPairs s);
  mret (existsb (fun pair => bool_decide (pair_currency pair.1 = currency)) pairs).

Definition Service_GetBalance (s : Service) (userID currency : string) : M S Wallet :=
  known ← currencyInPairs s currency;
  if negb known then mthrow (ErrNew "unsupported currency")
  else
    r ← attempt (store_GetWallet userID currency);
    match r with
    | Ok wallet => mret wallet
    | Err err =>
        if errors_Is err ErrWalletNotFound then store_CreateWallet userID currency
        else mthrow err
    | Panic p => panic p
    end.

Definition Service_GetDepositAddress (s : Service) (userID currency chain : string) :
    M S DepositAddress :=
  of_res (validatePair s currency chain);;
  r ← attempt (store_GetDepositAddress userID currency chain);
  match r with
  | Ok addr => mret addr
  | _ =>
      address ← Client_GetDepositAddress (svc_xcash s)
                  (mkDepositAddressRequest userID chain currency);
      store_CreateDepositAddress
        (mkDepositAddress "" userID currency chain address "" "active" time_zero)
  end.

Definition webhook_metadata (webhook : DepositWebhook) : Metadata :=
  <["chain" := JStr (wh_Chain webhook)]>
    (<["hash" := JStr (wh_Hash webhook)]>
      {["block" := JNum (Itoa (wh_Block webhook))]}).

Definition Service_ProcessDepositWebhook (s : Service) (body : string)
    (headers : gmap string string) : M S string :=
  webhook ← Validate (svc_xcashValidator s) body headers;
  if negb (wh_Confirmed webhook) then mret "ok"
  else
    of_res (validatePair s (wh_Crypto webhook) (wh_Chain webhook));;
    Service_CreditWallet (wh_UID webhook) (wh_Crypto webhook) (wh_Amount webhook)
      (wh_SysNo webhook) (webhook_metadata webhook);;
    mret "ok".

Definition Service_RequestWithdrawal (s : Service)
    (userID currency amount destinationAddress chain : string) : M S WithdrawalRequest :=
  of_res (validatePair s currency chain);;
  store_RequestWithdrawal userID currency amount destinationAddress chain.

Definition Service_ReviewWithdrawal (id action txHash reviewedBy : string) :
    M S WithdrawalRequest :=
  if decide (action = "approve") then store_ApproveWithdrawal id txHash reviewedBy
  else if decide (action = "reject") then store_RejectWithdrawal id reviewedBy
  else mthrow (ErrNew "invalid action").

Definition Service_ListTransactions (userID : string) (page pageSize : Z) :
    M S (list Transaction) := store_ListTransactions userID page pageSize.

Definition Service_ListPendingWithdrawals (page pageSize : Z) :
    M S (list WithdrawalRequest) := store_ListPendingWithdrawals page pageSize.
End WalletService.

(** ** The set of supported pairs *)

(** A currency is a code without a colon: [parse_pair] never yields another one. *)
Definition colon_free (s : string) : Prop := Cut s colon = None.

Lemma pair_key_app currency chain : pair_key currency chain = currency +:+ String colon chain.
Proof. reflexivity. Qed.

Lemma SplitN2_pair currency chain : colon_free currency ->
  SplitN2 (pair_key currency chain) colon = [currency; chain].
Proof. intros H. unfold SplitN2. by rewrite pair_key_app, Cut_app. Qed.

Lemma pair_key_inj c d c' d' : colon_free c -> colon_free c' ->
  pair_key c d = pair_key c' d' -> c = c' /\ d = d'.
Proof.
  intros H H' E. apply (f_equal (fun s => SplitN2 s colon)) in E.
  rewrite !SplitN2_pair in E by done. by simplify_eq.
Qed.

Lemma pair_currency_key c d : colon_free c -> pair_currency (pair_key c d) = c.
Proof. intros H. unfold pair_currency. by rewrite SplitN2_pair. Qed.

Lemma parse_pair_spec p c d : parse_pair p = Some (c, d) ->
  c <> "" /\ d <> "" /\ colon_free c /\ TrimSpace c = c /\ TrimSpace d = d.
Proof.
  unfold parse_pair, SplitN2. case_decide; [done|].
  destruct (Cut (TrimSpace p) colon) as [[a b]|] eqn:E; [|done].
  case_decide as Hne; [done|]. intros [= <- <-].
  apply Cut_spec in E as [_ Ha]. rewrite !TrimSpace_idemp.
  split_and!; try tauto. by apply Cut_None_TrimSpace.
Qed.

Lemma parse_pair_trim p : parse_pair (TrimSpace p) = parse_pair p.
Proof. unfold parse_pair. by rewrite TrimSpace_idemp. Qed.

(** The loop of NewService, from any starting set. *)
Definition add_pairs (m : gmap string unit) (cfg : list string) : gmap string unit :=
  foldl (fun m p => match parse_pair p with
                    | Some (currency, chain) => <[pair_key currency chain := tt]> m
                    | None => m
                    end) m cfg.

Lemma add_pairs_lookup cfg : forall m k, is_Some (add_pairs m cfg !! k) <->
  is_Some (m !! k) \/ exists c d, (c, d) ∈ omap parse_pair cfg /\ k = pair_key c d.
Proof.
  induction cfg as [|p cfg IH]; intros m k; cbn.
  - split; [by left|]. intros [H|(c & d & H & _)]; [done|]. by apply elem_of_nil in H.
  - fold (add_pairs (match parse_pair p with
      | Some (c, d) => <[pair_key c d := tt]> m | None => m end) cfg).
    rewrite IH. destruct (parse_pair p) as [[c d]|]; [|done].
    rewrite lookup_insert_is_Some'. setoid_rewrite elem_of_cons. naive_solver.
Qed.

Lemma supported_lookup cl v cfg currency chain : colon_free currency ->
  is_Some (svc_supportedPairs (NewService cl v cfg) !! pair_key currency chain) <->
  (currency, chain) ∈ omap parse_pair cfg.
Proof.
  intros Hc. cbn. fold (add_pairs ∅ cfg). rewrite add_pairs_lookup, lookup_empty.
  split; [|intros H; right; by exists currency, chain].
  intros [[? ?]|(c & d & H & E)]; [done|]. pose proof H as Hp.
  apply list_elem_of_omap in H as (p & _ & Hp'). apply parse_pair_spec in Hp' as (_&_&Hf&_).
  apply pair_key_inj in E as [-> ->]; done.
Qed.

(** Every key of the set is a currency without a colon, a colon and a chain. *)
Lemma supported_keys cl v cfg k : is_Some (svc_supportedPairs (NewService cl v cfg) !! k) ->
  exists c d, k = pair_key c d /\ colon_free c /\ (c, d) ∈ omap parse_pair cfg.
Proof.
  cbn. fold (add_pairs ∅ cfg). rewrite add_pairs_lookup, lookup_empty.
  intros [[? ?]|(c & d & H & E)]; [done|]. exists c, d. split_and!; [done| |done].
  apply list_elem_of_omap in H as (p & _ & Hp'). by apply parse_pair_spec in Hp' as (_&_&Hf&_).
Qed.
