(* ===== verification/WalletServer.v ===== *)
(** * WalletServer: the wallet's gRPC server

    [internal/wallet/server.go]: the interceptor that authenticates callers, the
    handlers and the translation of errors.  A request is its generated protobuf
    message, of which the fields are modelled. *)

From S2P Require Import Prelude GoStd GoJson Decimal WalletModels Xcash Rates WalletService.

(** ** Messages of wallet.proto *)
Record GetBalanceResponse : Type := mkGetBalanceResponse {
  gbr_Currency : string;
  gbr_Balance : string;
  gbr_FiatCurrency : string;
  gbr_FiatValue : string;
}.
Record pbTransaction : Type := mkPbTransaction {
  ptx_Id : string; ptx_UserId : string; ptx_WalletId : string; ptx_Type : string;
  ptx_Currency : string; ptx_Amount : string; ptx_BalanceBefore : string;
  ptx_BalanceAfter : string; ptx_Status : string; ptx_ReferenceId : string;
  ptx_Metadata : string; ptx_CreatedAt : string; ptx_FiatValue : string;
}.
Record pbWithdrawal : Type := mkPbWithdrawal {
  pwr_Id : string; pwr_UserId : string; pwr_Currency : string; pwr_Amount : string;
  pwr_DestinationAddress : string; pwr_Chain : string; pwr_Status : string;
  pwr_TxHash : string; pwr_CreatedAt : string;
}.
(** DebitWalletRequest and CreditWalletRequest have the same fields. *)
Record MoveRequest : Type := mkMoveRequest {
  mv_UserId : string;
  mv_Currency : string;
  mv_Amount : string;
  mv_ReferenceId : string;
  mv_Metadata : string;
}.

(** ** Caller identity *)

(** Incoming gRPC metadata: lower-case keys, each with its values. *)
Definition MD : Type := gmap string (list string).
Definition UserIDHeader : string := "x-user-id".
Definition IsAdminHeader : string := "x-caller-is-admin".
Definition serviceCallerID : string := "gateway".

Definition md_Get (md : MD) (k : string) : list string := default [] (md !! ToLower k).

Definition wallet_method (m : string) : string := "/wallet.WalletService/" +:+ m.

(** The interceptor's verdict: an error, or the request goes to the handler.
    [reqUser] is [GetUserId()] of a request that has a user id. *)
Definition AuthInterceptor (md : option MD) (fullMethod : string) (reqUser : option string) :
    res unit :=
  match md with
  | None => Err (ErrStatus Unauthenticated "missing caller metadata")
  | Some md =>
      match md_Get md UserIDHeader with
      | callerID :: _ =>
          if decide (callerID = "")
          then Err (ErrStatus Unauthenticated "missing caller user id")
          else
            let isAdmin := match md_Get md IsAdminHeader with
                           | v :: _ => bool_decide (v = "true")
                           | [] => false
                           end in
            if decide (fullMethod ∈ [wallet_method "ListPendingWithdrawals";
                                     wallet_method "ReviewWithdrawal"])
            then if negb isAdmin
                 then Err (ErrStatus PermissionDenied "admin metadata required") else Ok tt
            else if decide (fullMethod ∈ [wallet_method "DebitWallet";
                                          wallet_method "CreditWallet"])
            then if negb isAdmin
                 then Err (ErrStatus PermissionDenied "admin metadata required")
                 else if decide (callerID <> serviceCallerID)
                 then Err (ErrStatus PermissionDenied "service caller metadata required")
                 else Ok tt
            else if decide (fullMethod ∈ [wallet_method "GetRates";
                                          wallet_method "ProcessDepositWebhook"])
            then Ok tt
            else match reqUser with
                 | Some reqUserID =>
                     if decide (reqUserID <> "" /\ reqUserID <> callerID)
                     then Err (ErrStatus PermissionDenied
                            "caller user id does not match request user id")
                     else Ok tt
                 | None => Ok tt
                 end
      | [] => Err (ErrStatus Unauthenticated "missing caller user id")
      end
  end.

(** [json.Unmarshal] into [map[string]any]; a nil map is the empty one. *)
Definition parseMetadataJSON (s : string) : res Metadata :=
  if decide (s = "") then Ok ∅ else Unmarshal_map s.

(** The error of a failed wallet operation; never called without one. *)
Definition mapWalletError (err : goerr) : goerr :=
  if errors_Is err ErrInsufficientBalance
  then ErrStatus FailedPrecondition "insufficient balance"
  else if errors_Is err ErrWalletNotFound then ErrStatus NotFound "wallet not found"
  else ErrStatus Internal "wallet operation failed".

(** What a client's call of a gRPC method with outgoing metadata does. *)
Class WalletConn (S : Type) : Type := {
  conn_GetRates : MD -> string -> M S (string * gmap string string);
  conn_GetBalance : MD -> string -> string -> string -> M S GetBalanceResponse;
  conn_ListTransactions : MD -> string -> Z -> Z -> string -> M S (list pbTransaction);
  conn_GetDepositAddress : MD -> string -> string -> string -> M S (string * string * string);
  conn_RequestWithdrawal : MD -> string -> string -> string -> string -> string ->
    M S (string * string);
  conn_ProcessDepositWebhook : MD -> string -> gmap string string -> M S string;
  conn_ListPendingWithdrawals : MD -> Z -> Z -> M S (list pbWithdrawal);
  conn_ReviewWithdrawal : MD -> string -> string -> string -> string -> M S string;
  conn_DebitWallet : MD -> MoveRequest -> M S (string * string);
  conn_CreditWallet : MD -> MoveRequest -> M S (string * string);
}.

Section WalletServer.
Context {S : Type} `{E : GoEnv, Hm : Hmac, D : Decimal, ST : Store S, R : Redis S,
  HT : HttpTransport S, LC : Lens S Cache}.

Definition defaultFiat (reqFiat : string) : string :=
  let fiat := ToUpper (TrimSpace reqFiat) in
  let fiat := if decide (fiat = "") then Getenv "DEFAULT_FIAT_CURRENCY" else fiat in
  if bool_decide (fiat = "") || negb (IsSupportedFiat fiat) then "USD" else fiat.

(** [rates] may be nil. *)
Record GRPCServer : Type := mkGRPCServer {
  gs_service : Service;
  gs_rates : option (Aggregator S);
}.

Definition fiatValue (a : Aggregator S) (fiat currency amount : string) : M S string :=
  rate ← Aggregator_GetRate a fiat currency;
  of_res (MulDecimalStrings amount rate).

(** [fiatValue := "0"; if s.rates != nil { v, err := s.fiatValue(...); if err == nil
    { fiatValue = v } }] *)
Definition fiatValue_or_zero (s : GRPCServer) (fiat currency amount : string) : M S string :=
  match gs_rates s with
  | None => mret "0"
  | Some a =>
      r ← attempt (fiatValue a fiat currency amount);
      mret (match r with Ok v => v | _ => "0" end)
  end.

(** A nil [rates] is dereferenced here. *)
Definition GRPCServer_GetRates (s : GRPCServer) (fiatCurrency : string) :
    M S (string * gmap string string) :=
  let fiat := defaultFiat fiatCurrency in
  currencies ← supportedCurrencies (gs_service s);
  match gs_rates s with
  | None => panic "nil pointer dereference"
  | Some a => rs ← SupportedRates a fiat currencies; mret (fiat, rs)
  end.

Definition GRPCServer_GetBalance (s : GRPCServer) (userID currency fiatCurrency : string) :
    M S GetBalanceResponse :=
  wallet ← Service_GetBalance (gs_service s) userID currency;
  let fiat := defaultFiat fiatCurrency in
  v ← fiatValue_or_zero s fiat (wallet_Currency wallet) (wallet_Balance wallet);
  mret (mkGetBalanceResponse (wallet_Currency wallet) (wallet_Balance wallet) fiat v).

Definition tx_to_pb (fiatValue : string) (t : Transaction) : pbTransaction :=
  mkPbTransaction (tx_ID t) (tx_UserID t) (tx_WalletID t) (tx_Type t) (tx_Currency t)
    (tx_Amount t) (tx_BalanceBefore t) (tx_BalanceAfter t) (tx_Status t)
    (tx_ReferenceID t) (tx_Metadata t) (FormatRFC3339 (tx_CreatedAt t)) fiatValue.

(** [for i, x := range xs { out[i] = f(x) }] with effects. *)
Fixpoint for_map {A B} (f : A -> M S B) (xs : list A) : M S (list B) :=
  match xs with
  | [] => mret []
  | x :: xs => y ← f x; ys ← for_map f xs; mret (y :: ys)
  end.

Definition GRPCServer_ListTransactions (s : GRPCServer) (userID : string)
    (page pageSize : Z) (fiatCurrency : string) : M S (list pbTransaction) :=
  txns ← Service_ListTransactions userID page pageSize;
  let fiat := defaultFiat fiatCurrency in
  for_map (fun t => v ← fiatValue_or_zero s fiat (tx_Currency t) (tx_Amount t);
                    mret (tx_to_pb v t)) txns.

Definition GRPCServer_GetDepositAddress (s : GRPCServer) (userID currency chain : string) :
    M S (string * string * string) :=
  addr ← Service_GetDepositAddress (gs_service s) userID currency chain;
  mret (da_Address addr, da_Chain addr, da_Currency addr).

Definition GRPCServer_RequestWithdrawal (s : GRPCServer)
    (userID currency amount destinationAddress chain : string) : M S (string * string) :=
  out ← Service_RequestWithdrawal (gs_service s) userID currency amount destinationAddress chain;
  mret (wr_ID out, wr_Status out).

Definition GRPCServer_ProcessDepositWebhook (s : GRPCServer) (body : string)
    (headers : gmap string string) : M S string :=
  Service_ProcessDepositWebhook (gs_service s) body headers.

Definition wr_to_pb (w : WithdrawalRequest) : pbWithdrawal :=
  mkPbWithdrawal (wr_ID w) (wr_UserID w) (wr_Currency w) (wr_Amount w)
    (wr_DestinationAddress w) (wr_Chain w) (wr_Status w) (wr_TxHash w)
    (FormatRFC3339 (wr_CreatedAt w)).

Definition GRPCServer_ListPendingWithdrawals (page pageSize : Z) : M S (list pbWithdrawal) :=
  l ← Service_ListPendingWithdrawals page pageSize;
  mret (wr_to_pb <$> l).

Definition GRPCServer_ReviewWithdrawal (withdrawalID action txHash reviewedBy : string) :
    M S string :=
  w ← Service_ReviewWithdrawal withdrawalID action txHash reviewedBy;
  mret (wr_Status w).

(** [if err != nil { return nil, f(err) }] *)
Definition map_err {A} (f : goerr -> goerr) (m : M S A) : M S A := fun w =>
  match m w with
  | (Err e, w') => (Err (f e), w')
  | r => r
  end.

Definition GRPCServer_DebitWallet (req : MoveRequest) : M S (string * string) :=
  metadata ← map_err (fun _ => ErrStatus InvalidArgument "invalid metadata json")
               (of_res (parseMetadataJSON (mv_Metadata req)));
  tx ← map_err mapWalletError
         (Service_DebitWallet (mv_UserId req) (mv_Currency req) (mv_Amount req)
            (mv_ReferenceId req) metadata);
  mret (tx_ID tx, tx_Status tx).

Definition GRPCServer_CreditWallet (req : MoveRequest) : M S (string * string) :=
  metadata ← map_err (fun _ => ErrStatus InvalidArgument "invalid metadata json")
               (of_res (parseMetadataJSON (mv_Metadata req)));
  tx ← map_err mapWalletError
         (Service_CreditWallet (mv_UserId req) (mv_Currency req) (mv_Amount req)
            (mv_ReferenceId req) metadata);
  mret (tx_ID tx, tx_Status tx).

(** *** The server as its clients see it: the interceptor runs before every handler,
    and errors cross the wire as status errors. *)
Context `{GT : GrpcText}.

Definition served {A} (md : MD) (method : string) (reqUser : option string)
    (handler : M S A) : M S A :=
  map_err wire_error (of_res (AuthInterceptor (Some md) method reqUser);; handler).

Definition wallet_server_conn (s : GRPCServer) : WalletConn S := {|
  conn_GetRates md f := served md (wallet_method "GetRates") None (GRPCServer_GetRates s f);
  conn_GetBalance md u c f := served md (wallet_method "GetBalance") (Some u)
    (GRPCServer_GetBalance s u c f);
  conn_ListTransactions md u p n f := served md (wallet_method "ListTransactions") (Some u)
    (GRPCServer_ListTransactions s u p n f);
  conn_GetDepositAddress md u c ch := served md (wallet_method "GetDepositAddress") (Some u)
    (GRPCServer_GetDepositAddress s u c ch);
  conn_RequestWithdrawal md u c a d ch := served md (wallet_method "RequestWithdrawal") (Some u)
    (GRPCServer_RequestWithdrawal s u c a d ch);
  conn_ProcessDepositWebhook md b h := served md (wallet_method "ProcessDepositWebhook") None
    (GRPCServer_ProcessDepositWebhook s b h);
  conn_ListPendingWithdrawals md p n := served md (wallet_method "ListPendingWithdrawals") None
    (GRPCServer_ListPendingWithdrawals p n);
  conn_ReviewWithdrawal md i a t b := served md (wallet_method "ReviewWithdrawal") None
    (GRPCServer_ReviewWithdrawal i a t b);
  conn_DebitWallet md r := served md (wallet_method "DebitWallet") (Some (mv_UserId r))
    (GRPCServer_DebitWallet r);
  conn_CreditWallet md r := served md (wallet_method "CreditWallet") (Some (mv_UserId r))
    (GRPCServer_CreditWallet r);
|}.
End WalletServer.
