(* ===== verification/WalletSafetyProps.v ===== *)
(** * WalletSafetyProps: who can move money, and when

    The configured currencies and what the service makes of the store's balances; then the
    service over a state that holds the in-memory store as one component: deposits
    announced by webhooks, and the access rules of the gRPC server. *)

From S2P Require Import Prelude GoStd Decimal GoJson JsonProps Demo WalletModels.
From S2P Require Import WalletStore WalletLedger WalletProps Xcash XcashProps Rates WalletService.
From S2P Require Import WalletServer GoTime.

(** ** The configured pairs *)
Section Pairs.
Context {S : Type} `{E : GoEnv, EL : !GoEnvLaws E}.

(** A currency is configured when it occurs in a pair. *)
Definition configured (cfg : list string) (currency : string) : Prop :=
  exists chain, (currency, chain) ∈ omap parse_pair cfg.

(** The first components of the pairs, each once, in the order of their first pair. *)
Definition add_currency (out : list string) (pair : string * unit) : list string :=
  let c := pair_currency pair.1 in if decide (c ∈ out) then out else out ++ [c].

Lemma add_currency_spec pairs : forall out, NoDup out ->
  let l := foldl add_currency out pairs in
  NoDup l /\ forall c, c ∈ l <-> c ∈ out \/ exists p, p ∈ pairs /\ c = pair_currency p.1.
Proof.
  induction pairs as [|p pairs IH]; intros out Hout; cbn.
  - split; [done|]. intros c. split; [by left|]. intros [H|(p & H & _)]; [done|].
    by apply elem_of_nil in H.
  - assert (NoDup (add_currency out p)) as Hp.
    { unfold add_currency. case_decide; [done|]. apply list.NoDup_app. split_and!; [done| |].
      - intros x Hx ->%list_elem_of_singleton. done.
      - apply list.NoDup_singleton. }
    destruct (IH _ Hp) as [Hl Hc]. split; [exact Hl|]. intros c. rewrite Hc.
    setoid_rewrite elem_of_cons. unfold add_currency. case_decide.
    + naive_solver.
    + rewrite elem_of_app, list_elem_of_singleton. naive_solver.
Qed.

Lemma currencyInPairs_spec cl v cfg (w : World S) currency : colon_free currency ->
  let s := NewService cl v cfg in
  exists b, currencyInPairs s currency w = (Ok b, mkWorld (Datatypes.S (w_tick w)) (w_st w)) /\
    (b = true <-> configured cfg currency).
Proof.
  intros Hc s. unfold currencyInPairs. unmonad. eexists. split; [reflexivity|].
  rewrite existsb_exists. split.
  - intros ([k []] & Hin & Hk%bool_decide_eq_true).
    apply list_elem_of_In, range_lookup in Hin.
    destruct (supported_keys cl v cfg k) as (c & d & -> & Hf & Hin'); [by eexists|].
    cbn in Hk. rewrite pair_currency_key in Hk by done. subst. by exists d.
  - intros (d & Hd). exists (pair_key currency d, tt). split.
    + apply list_elem_of_In, range_lookup. by apply (supported_lookup cl v) in Hd as [[] ?].
    + apply bool_decide_eq_true. cbn. by apply pair_currency_key.
Qed.

(** The pairs of the configuration are exactly those accepted: a currency-chain pair
    is supported when the configuration lists it, up to surrounding blanks; a currency is
    known when it occurs in a pair; and the list of currencies has each known currency
    exactly once, whatever order the runtime visits the map in. *)
Theorem supported_pairs_configured cl v cfg (w : World S) currency chain :
  colon_free currency ->
  let s := NewService cl v cfg in
  (isSupportedPair s currency chain = true <-> (currency, chain) ∈ omap parse_pair cfg) /\
  ((currencyInPairs s currency w).1 = Ok true <-> configured cfg currency) /\
  exists l w', supportedCurrencies s w = (Ok l, w') /\ NoDup l /\
    forall c, c ∈ l <-> configured cfg c.
Proof.
  intros Hc s. split; [|split].
  - unfold isSupportedPair. rewrite bool_decide_eq_true. by apply supported_lookup.
  - destruct (currencyInPairs_spec cl v cfg w currency Hc) as (b & Hb & Hk). fold s in Hb.
    rewrite Hb. cbn [fst]. rewrite <- Hk. split; congruence.
  - unfold supportedCurrencies. unmonad. do 2 eexists. split; [reflexivity|].
    destruct (add_currency_spec (range_at (w_tick w) (svc_supportedPairs s)) [] ltac:(constructor))
      as [Hnd Hin].
    split; [exact Hnd|]. intros c. rewrite (Hin c). split.
    + intros [H|([k []] & Hk & ->)]; [by apply elem_of_nil in H|].
      apply range_lookup in Hk. destruct (supported_keys cl v cfg k) as (c & d & -> & Hf & Hin');
        [by eexists|]. cbn. rewrite pair_currency_key by done. by exists d.
    + intros (d & Hd). right. pose proof Hd as Hp.
      apply list_elem_of_omap in Hp as (p & _ & Hp). apply parse_pair_spec in Hp as (_&_&Hf&_).
      exists (pair_key c d, tt). split; [|cbn; by rewrite pair_currency_key].
      apply range_lookup. by apply (supported_lookup cl v) in Hd as [[] ?].
Qed.
End Pairs.

(** ** Balances *)
Section Balance.
Context `{E : GoEnv, L : DecimalLaws, EL : !GoEnvLaws E}.

(** GetBalance of a known currency never fails: it answers with the user's balance,
    opening an empty wallet on first use, and changes no balance and no ledger entry; of
    an unknown currency it fails and leaves the store alone. *)
Theorem GetBalance_spec cl v cfg u c (w : World memoryStore) :
  wallet_reachable w -> colon_free c ->
  let s := NewService cl v cfg in
  exists w',
    (forall u' c', (balance_of (w_st w') u' c' == balance_of (w_st w) u' c')%Q) /\
    ms_heap (w_st w') = ms_heap (w_st w) /\
    (configured cfg c -> exists x, Service_GetBalance s u c w = (Ok x, w') /\
       (amt (wallet_Balance x) == balance_of (w_st w) u c)%Q) /\
    (~ configured cfg c -> w_st w' = w_st w /\
       Service_GetBalance s u c w = (Err (ErrNew "unsupported currency"), w')).
Proof.
  destruct w as [n st]. intros Hr Hc s.
  destruct (currencyInPairs_spec (S:=memoryStore) cl v cfg (mkWorld n st) c Hc)
    as (b & Hin & Hk). fold s in Hin. cbn [w_tick w_st] in Hin. unfold Service_GetBalance.
  destruct b.
  2: { exists (mkWorld (S n) st). cbn. split_and!; try done.
    - intros Hcfg. apply Hk in Hcfg. congruence.
    - intros _. split; [done|]. unmonad. by rewrite Hin. }
  destruct (memoryStore_createWallet u c (mkWorld (S n) st)) as [r [m st']] eqn:Hcr.
  destruct (createWallet_spec _ _ _ _ _ Hcr) as (x & -> & Hx & _).
  destruct (createWallet_balances _ _ _ _ _ _ _ Hcr) as (_ & Hb & Ho & Hh & _).
  cbn in Hx.
  exists (mkWorld m st'). cbn. split; [|split; [done|split]].
  - intros u' c'. destruct (decide (walletKey u' c' = walletKey u c)) as [Heq|Hne].
    + unfold balance_of at 1. rewrite Heq, Hx. rewrite Hb. unfold balance_of. by rewrite Heq.
    + unfold balance_of. by rewrite Ho.
  - intros _. exists x. split; [|done].
    change (store_GetWallet u c) with (memoryStore_GetWallet u c).
    change (store_CreateWallet u c) with (memoryStore_createWallet u c).
    unmonad. rewrite Hin. cbn [negb]. unfold memoryStore_GetWallet. unmonad.
    destruct (ms_wallets st !! walletKey u c) as [y|] eqn:Hy; [|exact Hcr].
    unfold memoryStore_createWallet in Hcr. unmonad. rewrite Hy in Hcr. by simplify_eq.
  - intros Hn. exfalso. apply Hn. tauto.
Qed.
End Balance.

(** ** Witnesses *)
Module WalletServiceDemo.
Import Demo WalletDemo.

Definition cfg : list string := [" USDT : tron"; "USDT:eth"; "BTC:btc"; ""; "bad"].
Definition client : Client := NewClient "" "" "".
Definition validator : WebhookValidator := NewWebhookValidator "key".

Lemma supported_pairs_configured_witness :
  isSupportedPair (NewService client validator cfg) "USDT" "tron" = true <->
  ("USDT", "tron") ∈ omap parse_pair cfg.
Proof.
  exact (proj1 (supported_pairs_configured client validator cfg (mkWorld 0 tt) "USDT" "tron"
    eq_refl)).
Defined.

Lemma GetBalance_spec_witness :
  exists x w', Service_GetBalance (NewService client validator cfg) "u" "USDT" world = (Ok x, w') /\
    (amt (wallet_Balance x) == balance_of (w_st world) "u" "USDT")%Q.
Proof.
  destruct (GetBalance_spec client validator cfg "u" "USDT" world world_reachable eq_refl)
    as (w' & _ & _ & Hc & _).
  destruct Hc as (x & Hx & Hb); [|exists x, w'; split; [exact Hx|exact Hb]].
  exists "tron". vm_compute. left.
Defined.
End WalletServiceDemo.

(** ** Deposits by webhook *)
Section Deposits.
Context {S : Type} `{LW : Lens S memoryStore, LLW : !LensLaws LW}.
Context `{E : GoEnv, EL : !GoEnvLaws E, L : DecimalLaws}.
Context `{Hm : Hmac, R : Redis S, HT : HttpTransport S}.
Context (redis_outside : forall k v ttl, outside (L := LW) (redis_SetNX k v ttl)).
#[local] Existing Instance lens_Store.
Implicit Types w : World S.

Definition store_of (w : World S) : World memoryStore := mkWorld (w_tick w) (part (L := LW) w).

Lemma runs_webhook body : runs (unmarshal_webhook body).
Proof.
  unfold unmarshal_webhook.
  repeat (apply runs_bind; [auto with runs|intros ?]). auto with runs.
Qed.

Lemma runs_parse_int f s : runs (parse_int f s).
Proof. unfold parse_int. intros p. by repeat case_match. Qed.

Lemma Validate_outside v body h : outside (L := LW) (Validate v body h).
Proof.
  unfold Validate. case_match; [apply outside_throw|].
  apply outside_bind.
  - unfold validateTimestamp. apply outside_bind.
    + apply outside_wrapped, outside_of_res, runs_parse_int.
    + intros ts. apply outside_bind; [apply outside_tick_op|].
      intros now. repeat case_match; auto with frame.
  - intros []. apply outside_bind.
    + case_match; [|auto with frame]. unfold checkNonce.
      apply outside_bind; [by apply outside_wrapped|].
      intros b. case_match; auto with frame.
    + intros []. apply outside_wrapped, outside_of_res, runs_webhook.
Qed.

(** What a webhook that passed validation has shown. *)
Lemma Validate_signed v body h w wh w' : Validate v body h w = (Ok wh, w') ->
  header h "XC-Signature" =
    Sign (header h "XC-Nonce" +:+ header h "XC-Timestamp" +:+ body) (whv_hmacKey v) /\
  unmarshal_webhook body = Ok wh.
Proof.
  unfold Validate. case_bool_decide as Hs; cbn [negb]; [|done].
  unfold mbind, M_bind.
  destruct (validateTimestamp _ _ w) as [[[]|e|p] w1]; [|done|done].
  match goal with |- context [(if whv_useRedis v then ?a else ?b) w1] =>
    destruct ((if whv_useRedis v then a else b) w1) as [[[]|e|p] w2]; [|done|done] end.
  unfold wrapped, of_res. destruct (unmarshal_webhook body); cbn; intros; by simplify_eq.
Qed.

(** A credit that does not parse leaves the money alone. *)
Lemma credit_unparsed u c a ref md (w : World memoryStore) e : wallet_reachable w ->
  existing_by_ref ref (w_st w) = None -> ParseDecimal a = inr e ->
  exists e' (w' : World memoryStore), memoryStore_CreditWallet u c a ref md w = (Err e', w') /\
    same_money (w_st w) (w_st w').
Proof.
  intros Hr Hex Ha. pose proof (CreditWallet_spec u c a ref md w Hr Hex) as H. rewrite Ha in H.
  destruct H as (w' & H & Hh & Hb & Ho). eexists _, w'. split; [exact H|]. split; [exact Hh|].
  intros u' c'. unfold balance_of in *. destruct (decide (walletKey u' c' = walletKey u c)) as [->|Hk];
    [exact Hb|by rewrite (Ho _ Hk)].
Qed.

(** The credit of a validated webhook, from the state its validation left. *)
Lemma webhook_credit wh w w1 : wallet_reachable (store_of w) -> part w1 = part w ->
  (w_tick w <= w_tick w1)%nat ->
  let '(r, w') := Service_CreditWallet (wh_UID wh) (wh_Crypto wh) (wh_Amount wh) (wh_SysNo wh)
                    (webhook_metadata wh) w1 in
  match existing_by_ref (wh_SysNo wh) (part w), ParseDecimal (wh_Amount wh) with
  | Some t, _ => r = Ok t /\ part w' = part w
  | None, inr _ => (exists e, r = Err e) /\ same_money (part w) (part w')
  | None, inl d => exists t, r = Ok t /\
      (balance_of (part w') (wh_UID wh) (wh_Crypto wh) ==
       balance_of (part w) (wh_UID wh) (wh_Crypto wh) + dval d)%Q /\
      booked "deposit" (wh_UID wh) (wh_Crypto wh) (wh_Amount wh) (wh_SysNo wh) (part w) (part w') t /\
      others_same (walletKey (wh_UID wh) (wh_Crypto wh)) (part w) (part w')
  end.
Proof.
  intros Hr Hp Ht. unfold Service_CreditWallet.
  change (store_CreditWallet ?u ?c ?a ?r ?md) with
    (zoom (memoryStore_CreditWallet u c a r md) : M S Transaction).
  unfold zoom. change (mkWorld (w_tick w1) _) with (store_of w1).
  assert (wallet_reachable (store_of w1)) as Hr1.
  { unfold store_of. rewrite Hp. by apply (wallet_wait (w_tick w)). }
  assert (w_st (store_of w1) = part w) as Hs by exact Hp.
  assert (forall v : World memoryStore,
    part (mkWorld (w_tick v) (lset (w_st v) (w_st w1))) = w_st v) as Hpart by (intros; apply lget_lset).
  destruct (existing_by_ref (wh_SysNo wh) (part w)) as [t|] eqn:Hex.
  - unfold store_of. rewrite Hp. rewrite (credit_existing _ _ _ _ _ _ _ t Hex).
    split; [done|]. exact (Hpart (mkWorld (w_tick w1) (part w))).
  - rewrite <- Hs in *. destruct (ParseDecimal (wh_Amount wh)) as [d|e] eqn:Hd.
    + pose proof (CreditWallet_spec (wh_UID wh) (wh_Crypto wh) (wh_Amount wh) (wh_SysNo wh)
        (webhook_metadata wh) (store_of w1) Hr1 Hex) as H. rewrite Hd in H.
      destruct H as (t & w' & -> & H). exists t. split; [done|]. by rewrite Hpart.
    + destruct (credit_unparsed (wh_UID wh) (wh_Crypto wh) (wh_Amount wh) (wh_SysNo wh)
        (webhook_metadata wh) (store_of w1) e Hr1 Hex Hd) as (e' & w' & -> & H).
      split; [by eexists|]. by rewrite Hpart.
Qed.

(** C10.  What a deposit webhook does, on every path.  Validation moves no money; a delivery
    that it refuses - forged, stale, replayed within the window or malformed - is answered
    with that error.  One that it accepts carries the provider's signature over the nonce,
    the timestamp and the body.  If it is not confirmed, it is acknowledged without effect;
    if its currency and chain are not configured, or its amount is not a number, it is an
    error and no balance or entry changes.  If its number is in the ledger already, it is
    acknowledged and nothing changes.  Otherwise the user it names is credited exactly the
    amount, in one entry under the number, and no other wallet changes.  A delivery without
    a number is credited each time: only a number is looked up. *)
Theorem deposit_webhook_safe s body h w :
  wallet_reachable (store_of w) ->
  let '(r, w') := Service_ProcessDepositWebhook s body h w in
  let '(v, w1) := Validate (svc_xcashValidator s) body h w in
  part w1 = part w /\
  match v with
  | Ok wh =>
      header h "XC-Signature" = Sign (header h "XC-Nonce" +:+ header h "XC-Timestamp" +:+ body)
        (whv_hmacKey (svc_xcashValidator s)) /\
      unmarshal_webhook body = Ok wh /\
      if negb (wh_Confirmed wh) then r = Ok "ok" /\ part w' = part w
      else if negb (isSupportedPair s (wh_Crypto wh) (wh_Chain wh))
      then (exists e, r = Err e) /\ part w' = part w
      else match existing_by_ref (wh_SysNo wh) (part w), ParseDecimal (wh_Amount wh) with
      | Some _, _ => r = Ok "ok" /\ part w' = part w
      | None, inr _ => (exists e, r = Err e) /\ same_money (part w) (part w')
      | None, inl d => r = Ok "ok" /\
          (balance_of (part w') (wh_UID wh) (wh_Crypto wh) ==
           balance_of (part w) (wh_UID wh) (wh_Crypto wh) + dval d)%Q /\
          (exists t, booked "deposit" (wh_UID wh) (wh_Crypto wh) (wh_Amount wh) (wh_SysNo wh)
             (part w) (part w') t) /\
          others_same (walletKey (wh_UID wh) (wh_Crypto wh)) (part w) (part w')
      end
  | Err e => r = Err e /\ w' = w1
  | Panic p => r = Panic p /\ w' = w1
  end.
Proof.
  intros Hr. unfold Service_ProcessDepositWebhook. unfold mbind at 1, M_bind at 1.
  destruct (Validate_outside (svc_xcashValidator s) body h) as [Hp Ht _].
  specialize (Hp w). specialize (Ht w).
  destruct (Validate (svc_xcashValidator s) body h w) as [[wh|e|p] w1] eqn:Hv;
    cbn [snd] in Hp, Ht; [|done|done].
  apply Validate_signed in Hv as [Hsig Hwh].
  destruct (wh_Confirmed wh) eqn:Hc; cbn [negb].
  2: { by split_and!. }
  unfold mbind at 1, M_bind at 1, of_res, validatePair.
  destruct (isSupportedPair s (wh_Crypto wh) (wh_Chain wh)) eqn:Hpair; cbn [negb].
  2: { split_and!; try done. by eexists. }
  pose proof (webhook_credit wh w w1 Hr Hp Ht) as H. unfold mbind, M_bind.
  destruct (Service_CreditWallet _ _ _ _ _ w1) as [r w'].
  destruct (existing_by_ref (wh_SysNo wh) (part w)) as [t|] eqn:Hex;
    [|destruct (ParseDecimal (wh_Amount wh)) as [d|e] eqn:Hd].
  - destruct H as [-> H]. by split_and!.
  - destruct H as (t & -> & Hb & Hbk & Ho). split_and!; try done. by exists t.
  - destruct H as [[e' ->] H]. split_and!; try done. by eexists.
Qed.
End Deposits.

(** ** The interceptor *)
Section Access.
Context {S : Type} `{E : GoEnv, D : Decimal, Hm : Hmac, ST : Store S, R : Redis S,
  HT : HttpTransport S, LC : Lens S Cache, GT : GrpcText, GL : !GrpcLaws GT}.
Context (gs : GRPCServer (S := S)).
#[local] Instance the_conn : WalletConn S := wallet_server_conn gs.

(** Who the outgoing metadata says is calling, and whether as an administrator. *)
Definition md_caller (md : MD) : string := default "" (head (md_Get md UserIDHeader)).
Definition md_admin (md : MD) : bool :=
  bool_decide (head (md_Get md IsAdminHeader) = Some "true").

(** The call is answered with an authentication or permission error, and nothing is
    done. *)
Definition call_refused {A} (m : M S A) (w : World S) : Prop :=
  exists e c, m w = (Err e, w) /\ status_FromError e = Some c /\
    (c = Unauthenticated \/ c = PermissionDenied).

Lemma served_refused {A} md m u (h : M S A) w c msg :
  AuthInterceptor (Some md) m u = Err (ErrStatus c msg) ->
  c = Unauthenticated \/ c = PermissionDenied -> call_refused (served md m u h) w.
Proof.
  intros Ha Hc. exists (wire_error (ErrStatus c msg)), c.
  unfold served, map_err, mbind, M_bind, of_res. rewrite Ha. split_and!; [done| |done].
  by rewrite wire_code, FromError_status.
Qed.

Lemma served_allowed {A} md m u (h : M S A) w :
  AuthInterceptor (Some md) m u = Ok tt -> served md m u h w = map_err wire_error h w.
Proof. intros Ha. unfold served, map_err, mbind, M_bind, of_res. by rewrite Ha. Qed.

(** The interceptor by the three groups of methods. *)
Lemma interceptor_anonymous md m u : md_caller md = "" ->
  exists msg, AuthInterceptor (Some md) m u = Err (ErrStatus Unauthenticated msg).
Proof.
  unfold md_caller, AuthInterceptor. destruct (md_Get md UserIDHeader) as [|c l]; cbn.
  - by eexists.
  - intros ->. rewrite decide_True by done. by eexists.
Qed.

Lemma interceptor_admin md m u :
  m ∈ [wallet_method "ListPendingWithdrawals"; wallet_method "ReviewWithdrawal"] ->
  md_caller md <> "" ->
  AuthInterceptor (Some md) m u =
    if md_admin md then Ok tt
    else Err (ErrStatus PermissionDenied "admin metadata required").
Proof.
  unfold md_caller, md_admin, AuthInterceptor. intros Hm'.
  destruct (md_Get md UserIDHeader) as [|c l]; cbn [default head from_option id]; [done|].
  intros Hc. rewrite decide_False by done. rewrite decide_True by done.
  destruct (md_Get md IsAdminHeader) as [|v vs]; [done|]. cbn.
  by repeat case_bool_decide; simplify_eq.
Qed.

Lemma interceptor_service md m u :
  m ∈ [wallet_method "DebitWallet"; wallet_method "CreditWallet"] ->
  md_caller md <> "" ->
  AuthInterceptor (Some md) m u =
    if md_admin md then
      if decide (md_caller md = serviceCallerID) then Ok tt
      else Err (ErrStatus PermissionDenied "service caller metadata required")
    else Err (ErrStatus PermissionDenied "admin metadata required").
Proof.
  unfold md_caller, md_admin, AuthInterceptor. intros Hm'.
  destruct (md_Get md UserIDHeader) as [|c l]; cbn [default head from_option id]; [done|].
  intros Hc. rewrite decide_False by done.
  rewrite decide_False by (rewrite !elem_of_cons, elem_of_nil in Hm' |- *;
    destruct Hm' as [->|[->|[]]]; by intros [?|[?|[]]]).
  rewrite decide_True by done.
  destruct (md_Get md IsAdminHeader) as [|v vs]; [done|]. cbn.
  repeat case_bool_decide; simplify_eq; try done. cbn. by repeat case_decide.
Qed.

Lemma interceptor_user md m u :
  m ∈ [wallet_method "GetBalance"; wallet_method "ListTransactions";
       wallet_method "GetDepositAddress"; wallet_method "RequestWithdrawal"] ->
  md_caller md <> "" ->
  AuthInterceptor (Some md) m (Some u) =
    if decide (u <> "" /\ u <> md_caller md)
    then Err (ErrStatus PermissionDenied "caller user id does not match request user id")
    else Ok tt.
Proof.
  unfold md_caller, AuthInterceptor. intros Hm'.
  destruct (md_Get md UserIDHeader) as [|c l]; cbn [default head from_option id]; [done|].
  intros Hc. rewrite decide_False by done.
  rewrite !elem_of_cons, elem_of_nil in Hm'.
  do 3 rewrite decide_False by (rewrite !elem_of_cons, elem_of_nil;
    destruct Hm' as [->|[->|[->|[->|[]]]]]; by intros [?|[?|[]]]).
  done.
Qed.

(** C11.  Access control of the wallet's server, whatever handler stands behind it: money
    moves through DebitWallet and CreditWallet only for the gateway service acting as an
    administrator, withdrawals are listed and reviewed only for an administrator, and a
    named user's balance, history, address and withdrawals are open to that user only.
    Any other call is refused without effect; these reach their handlers. *)
Theorem wallet_access_control md w :
  (forall req, (md_caller md = serviceCallerID /\ md_admin md = true /\
       conn_DebitWallet md req w = map_err wire_error (GRPCServer_DebitWallet req) w /\
       conn_CreditWallet md req w = map_err wire_error (GRPCServer_CreditWallet req) w) \/
     (~ (md_caller md = serviceCallerID /\ md_admin md = true) /\
       call_refused (conn_DebitWallet md req) w /\ call_refused (conn_CreditWallet md req) w)) /\
  (forall id action tx by_ p n, (md_caller md <> "" /\ md_admin md = true /\
       conn_ReviewWithdrawal md id action tx by_ w =
         map_err wire_error (GRPCServer_ReviewWithdrawal id action tx by_) w) \/
     (~ (md_caller md <> "" /\ md_admin md = true) /\
       call_refused (conn_ReviewWithdrawal md id action tx by_) w /\
       call_refused (conn_ListPendingWithdrawals md p n) w)) /\
  (forall u c a dst ch fiat p n, u <> "" ->
     (md_caller md = u /\
       conn_RequestWithdrawal md u c a dst ch w =
         map_err wire_error (GRPCServer_RequestWithdrawal gs u c a dst ch) w) \/
     (md_caller md <> u /\ call_refused (conn_RequestWithdrawal md u c a dst ch) w /\
       call_refused (conn_GetBalance md u c fiat) w /\
       call_refused (conn_ListTransactions md u p n fiat) w /\
       call_refused (conn_GetDepositAddress md u c ch) w)).
Proof.
  destruct (decide (md_caller md = "")) as [Hc|Hc].
  { pose proof (fun m u => interceptor_anonymous md m u Hc) as Hi.
    assert (forall A m u (h : M S A), call_refused (served md m u h) w) as Hs.
    { intros A m u h. destruct (Hi m u) as [msg Hmsg]. eapply served_refused; eauto. }
    split_and!.
    - intros req. right. split; [by intros [H _]; rewrite Hc in H|]. split; apply Hs.
    - intros id action tx by_ p n. right. split; [by intros [H _]|]. split; apply Hs.
    - intros u c a dst ch fiat p n Hu. right. rewrite Hc. split_and!; [done|..]; apply Hs. }
  split_and!.
  - intros req.
    pose proof (interceptor_service md (wallet_method "DebitWallet") (Some (mv_UserId req))
      ltac:(set_solver) Hc) as H1.
    pose proof (interceptor_service md (wallet_method "CreditWallet") (Some (mv_UserId req))
      ltac:(set_solver) Hc) as H2.
    destruct (md_admin md).
    + destruct (decide (md_caller md = serviceCallerID)); [left|right].
      * split_and!; try done; by apply served_allowed.
      * split_and!; [by intros []|..]; eapply served_refused; eauto.
    + right. split_and!; [by intros []|..]; eapply served_refused; eauto.
  - intros id action tx by_ p n.
    pose proof (interceptor_admin md (wallet_method "ReviewWithdrawal") None
      ltac:(set_solver) Hc) as H1.
    pose proof (interceptor_admin md (wallet_method "ListPendingWithdrawals") None
      ltac:(set_solver) Hc) as H2.
    destruct (md_admin md); [left|right].
    + split_and!; try done; by apply served_allowed.
    + split_and!; [by intros []|..]; eapply served_refused; eauto.
  - intros u c a dst ch fiat p n Hu.
    pose proof (fun m Hin => interceptor_user md m u Hin Hc) as Hi.
    destruct (decide (md_caller md = u)) as [He|He]; [left|right].
    + split; [done|]. apply served_allowed. rewrite Hi by set_solver.
      by rewrite decide_False by naive_solver.
    + split_and!; [done|..]; (eapply served_refused; [|by right]);
        rewrite Hi by set_solver; by rewrite decide_True by done.
Qed.
End Access.

(** ** Witnesses *)
Module WalletSafetyDemo.
Import Demo WalletDemo.

(** The store, Redis as a map from keys to expiry times, and the cache of rates. *)
Record State : Type := mkState { st_money : memoryStore; st_redis : gmap string Z; st_rates : Cache }.
#[export] Instance money_lens : Lens State memoryStore :=
  { lget := st_money; lset m s := mkState m (st_redis s) (st_rates s) }.
#[export] Instance redis_lens : Lens State (gmap string Z) :=
  { lget := st_redis; lset r s := mkState (st_money s) r (st_rates s) }.
#[export] Instance rates_lens : Lens State Cache :=
  { lget := st_rates; lset r s := mkState (st_money s) (st_redis s) r }.
#[export] Instance money_laws : LensLaws money_lens.
Proof. constructor; intros; cbn; by try destruct s. Qed.
#[export] Instance money_redis : Disjoint money_lens redis_lens.
Proof. by constructor. Qed.
#[export] Existing Instance lens_Store.
#[export] Instance hmac : Hmac := { Sign m k := k +:+ m }.
Definition SetNX (k v : string) (ttl : Z) : M (gmap string Z) bool :=
  now ← time_now;
  m ← get;
  if default 0 (m !! k) <=? now then modify (<[k := now + ttl]>);; mret true else mret false.
#[export] Instance redis : Redis State :=
  { redis_SetNX k v ttl := zoom (SetNX k v ttl);
    redis_expiry s k := default 0 (st_redis s !! k) }.
#[export] Instance no_http : HttpTransport State :=
  { http_Do _ := mthrow (ErrNew "no network") }.

Lemma redis_outside k v ttl : outside (L := money_lens) (redis_SetNX k v ttl).
Proof.
  change (redis_SetNX k v ttl) with (zoom (SetNX k v ttl) : M State bool).
  apply outside_zoom; [apply _|intros [n m]|intros [n m] p];
    unfold SetNX; unmonad; destruct (_ <=? _); cbn; first [lia|done].
Qed.

Definition service : Service :=
  NewService (NewClient "" "" "") (WithRedis (NewWebhookValidator "key")) ["USDT:tron"].
Definition empty : World State := mkWorld 0 (mkState NewInMemoryStore ∅ (NewCache 0)).

(** A confirmed deposit of 7.5 USDT, signed with the key. *)
Definition member (k v : string) : string :=
  let q := String chr_quote "" in q +:+ k +:+ q +:+ ":" +:+ q +:+ v +:+ q +:+ ",".
Definition body : string :=
  let q := String chr_quote "" in
  "{" +:+ q +:+ "data" +:+ q +:+ ":{" +:+ member "sys_no" "d1" +:+ member "uid" "u" +:+
  member "chain" "tron" +:+ member "crypto" "USDT" +:+ member "amount" "7.5" +:+
  q +:+ "confirmed" +:+ q +:+ ":true}}".
(** The clock of these demos starts in the year 1. *)
Definition sent : string := Itoa (- unixToInternal).
Definition headers : gmap string string :=
  <["XC-Nonce" := "n1"]> (<["XC-Timestamp" := sent]>
    {["XC-Signature" := "key" +:+ "n1" +:+ sent +:+ body]}).
Definition deposit : DepositWebhook :=
  mkDepositWebhook "" "d1" "u" "tron" 0 "" "USDT" "7.5" true "" "".

Lemma deposit_webhook_safe_witness :
  let '(r, w') := Service_ProcessDepositWebhook service body headers empty in
  r = Ok "ok" /\ (balance_of (part (L := money_lens) w') "u" "USDT" == 15 # 2)%Q /\
  exists t, ms_heap (part (L := money_lens) w') = [t] /\ tx_ReferenceID t = "d1".
Proof.
  pose proof (deposit_webhook_safe redis_outside service body headers empty (wallet_init 0)) as H.
  destruct (Service_ProcessDepositWebhook service body headers empty) as [r w'].
  destruct (Validate (svc_xcashValidator service) body headers empty) as [v w1] eqn:Hv.
  assert (v = Ok deposit) as ->
    by (apply (f_equal fst) in Hv; cbn [fst] in Hv; rewrite <- Hv; vm_compute; reflexivity).
  destruct H as (_ & _ & _ & H). cbn [deposit wh_Confirmed wh_Crypto wh_Chain wh_SysNo wh_Amount wh_UID negb] in H.
  replace (isSupportedPair service "USDT" "tron") with true in H by (vm_compute; reflexivity).
  replace (existing_by_ref "d1" (part (L := money_lens) empty)) with (@None Transaction) in H
    by (vm_compute; reflexivity).
  cbn [negb] in H. destruct (ParseDecimal "7.5") as [d|e] eqn:Hd; [|vm_compute in Hd; discriminate Hd].
  destruct H as (-> & Hb & (t & _ & _ & _ & _ & Href & _ & _ & _ & Hh & _) & _).
  split; [reflexivity|]. split; [|exists t; split; [exact Hh|exact Href]].
  rewrite Hb. vm_compute in Hd. injection Hd as <-. vm_compute. reflexivity.
Defined.

Definition server : GRPCServer (S := State) := mkGRPCServer service None.
Definition stranger : MD := {["x-user-id" := ["mallory"]]}.

Lemma wallet_access_control_witness :
  call_refused (@conn_RequestWithdrawal State (the_conn server) stranger "victim" "USDT" "1" "0x" "tron")
    empty.
Proof.
  destruct (wallet_access_control server stranger empty) as (_ & _ & H).
  destruct (H "victim" "USDT" "1" "0x" "tron" "USD" 1 20 ltac:(discriminate))
    as [[Hc _]|(_ & Hr & _)]; [|exact Hr].
  exfalso. vm_compute in Hc. discriminate Hc.
Defined.
End WalletSafetyDemo.
