(* ===== verification/OddsModels.v ===== *)
(** * OddsModels: the odds feed's data and interfaces

    [internal/oddsfeed/models.go], [store.go] and [provider.go], and the messages of
    [oddsfeed.proto] that the services exchange. *)

From S2P Require Import Prelude GoStd.

(** ** models.go *)
Record Sport : Type := mkSport {
  sport_ID : string;
  sport_Provider : string;
  sport_ProviderSportID : string;
  sport_Slug : string;
  sport_Name : string;
  sport_CreatedAt : Z;
  sport_UpdatedAt : Z;
}.

Record League : Type := mkLeague {
  league_ID : string;
  league_Provider : string;
  league_ProviderLeagueID : string;
  league_SportID : string;
  league_Name : string;
  league_Country : string;
  league_CreatedAt : Z;
  league_UpdatedAt : Z;
}.

Record Event : Type := mkEvent {
  event_ID : string;
  event_Provider : string;
  event_ProviderEventID : string;
  event_LeagueID : string;
  event_SportID : string;
  event_HomeParticipant : string;
  event_AwayParticipant : string;
  event_StartsAt : Z;
  event_Status : string;
  event_HomeScore : string;
  event_AwayScore : string;
  event_ScoreUpdatedAt : Z;
  event_Metadata : gmap string string;
  event_CreatedAt : Z;
  event_UpdatedAt : Z;
}.

Record Market : Type := mkMarket {
  market_ID : string;
  market_Provider : string;
  market_ProviderMarketID : string;
  market_EventID : string;
  market_Type : string;
  market_Name : string;
  market_Line : string;
  market_Status : string;
  market_Metadata : gmap string string;
  market_CreatedAt : Z;
  market_UpdatedAt : Z;
}.

Record Outcome : Type := mkOutcome {
  outcome_ID : string;
  outcome_Provider : string;
  outcome_ProviderOutcomeID : string;
  outcome_MarketID : string;
  outcome_Name : string;
  outcome_Odds : string;
  outcome_Status : string;
  outcome_Metadata : gmap string string;
  outcome_CreatedAt : Z;
  outcome_UpdatedAt : Z;
}.

(** ** provider.go *)
Record ProviderConfig : Type := mkProviderConfig {
  cfg_Name : string;
  cfg_GraphURL : string;
  cfg_WSURL : string;
  cfg_APIKey : string;
  cfg_Extra : gmap string string;
}.

Record SportSnapshot : Type := mkSportSnapshot {
  ss_ProviderID : string;
  ss_Slug : string;
  ss_Name : string;
}.

Record LeagueSnapshot : Type := mkLeagueSnapshot {
  ls_ProviderID : string;
  ls_SportID : string;
  ls_Name : string;
  ls_Country : string;
}.

Record EventSnapshot : Type := mkEventSnapshot {
  es_ProviderID : string;
  es_LeagueID : string;
  es_SportID : string;
  es_HomeParticipant : string;
  es_AwayParticipant : string;
  es_StartsAt : string;
  es_Status : string;
  es_HomeScore : string;
  es_AwayScore : string;
  es_ScoreUpdatedAt : string;
  es_Metadata : gmap string string;
}.

Record MarketSnapshot : Type := mkMarketSnapshot {
  mks_ProviderID : string;
  mks_EventID : string;
  mks_Type : string;
  mks_Name : string;
  mks_Line : string;
  mks_Status : string;
  mks_Metadata : gmap string string;
}.

Record OutcomeSnapshot : Type := mkOutcomeSnapshot {
  os_ProviderID : string;
  os_MarketID : string;
  os_Name : string;
  os_Odds : string;
  os_Status : string;
  os_Metadata : gmap string string;
}.

Record Snapshot : Type := mkSnapshot {
  sn_Provider : string;
  sn_Sports : list SportSnapshot;
  sn_Leagues : list LeagueSnapshot;
  sn_Events : list EventSnapshot;
  sn_Markets : list MarketSnapshot;
  sn_Outcomes : list OutcomeSnapshot;
}.

Record Update : Type := mkUpdate {
  up_Provider : string;
  up_Type : string;
  up_EntityID : string;
  up_Payload : gmap string string;
}.

(** What the service calls of a [FeedProvider]; live streaming is the worker's. *)
Record FeedProvider (S : Type) : Type := mkFeedProvider {
  fp_Name : string;
  fp_FetchSnapshot : string -> gmap string string -> M S Snapshot;
  fp_FetchHierarchy : string -> gmap string string -> M S Snapshot;
  fp_FetchConditions : list string -> M S Snapshot;
}.
Arguments mkFeedProvider {S} _ _ _ _.
Arguments fp_Name {S} _.
Arguments fp_FetchSnapshot {S} _ _ _.
Arguments fp_FetchHierarchy {S} _ _ _.
Arguments fp_FetchConditions {S} _ _.

(** ** store.go *)
Class OddsStore (S : Type) : Type := {
  odds_UpsertSport : Sport -> M S string;
  odds_UpsertLeague : League -> M S string;
  odds_UpsertEvent : Event -> M S string;
  odds_UpsertMarket : Market -> M S string;
  odds_UpsertOutcome : Outcome -> M S string;
  odds_UpdateOutcomeOdds : string -> string -> string -> M S (string * string);
  odds_UpdateMarketStatus : string -> string -> string -> M S string;
  odds_UpdateOutcomeStatus : string -> string -> string -> M S (string * string);
  odds_UpdateEventStatus : string -> string -> string -> M S unit;
  odds_GetEventStatusesByProvider : string -> M S (gmap string string);
  odds_ListSports : Z -> Z -> M S (list Sport);
  odds_ListLeagues : string -> Z -> Z -> M S (list League);
  odds_ListEvents : string -> string -> string -> Z -> Z -> M S (list Event);
  odds_GetEvent : string -> M S (option Event);
  odds_ListMarkets : string -> string -> Z -> Z -> M S (list Market);
  odds_ListOutcomes : string -> string -> Z -> Z -> M S (list Outcome);
  odds_ListLiveScores : string -> string -> Z -> Z -> M S (list Event);
}.

(** ** Messages of oddsfeed.proto *)
Record pbSport : Type := mkPbSport { psp_Id : string; psp_Name : string; psp_Slug : string }.
Record pbLeague : Type := mkPbLeague {
  plg_Id : string; plg_Name : string; plg_SportId : string; plg_Country : string;
}.
Record pbEvent : Type := mkPbEvent {
  pev_Id : string; pev_LeagueId : string; pev_SportId : string;
  pev_HomeParticipant : string; pev_AwayParticipant : string; pev_StartsAt : string;
  pev_Status : string; pev_HomeScore : string; pev_AwayScore : string;
  pev_ScoreUpdatedAt : string;
}.
Record pbMarket : Type := mkPbMarket {
  pmk_Id : string; pmk_EventId : string; pmk_Type : string; pmk_Name : string;
  pmk_Line : string; pmk_Status : string;
}.
Record pbOutcome : Type := mkPbOutcome {
  poc_Id : string; poc_MarketId : string; poc_Name : string; poc_Odds : string;
  poc_Status : string;
}.
