(* ===== verification/OddsStore.v ===== *)
(** * OddsStore: the odds feed's in-memory store

    [internal/oddsfeed/memory_store.go].  Each map is the only way to its records, and
    the records handed out are copies, so the maps hold values. *)

From S2P Require Import Prelude GoStd OddsModels.

Record oddsMemory : Type := mkOddsMemory {
  om_sports : gmap string Sport;
  om_leagues : gmap string League;
  om_events : gmap string Event;
  om_markets : gmap string Market;
  om_outcomes : gmap string Outcome;
}.

Definition NewOddsMemory : oddsMemory := mkOddsMemory ∅ ∅ ∅ ∅ ∅.

Definition om_set_sport (k : string) (x : Sport) (s : oddsMemory) : oddsMemory :=
  mkOddsMemory (<[k := x]> (om_sports s)) (om_leagues s) (om_events s) (om_markets s)
    (om_outcomes s).
Definition om_set_league (k : string) (x : League) (s : oddsMemory) : oddsMemory :=
  mkOddsMemory (om_sports s) (<[k := x]> (om_leagues s)) (om_events s) (om_markets s)
    (om_outcomes s).
Definition om_set_event (k : string) (x : Event) (s : oddsMemory) : oddsMemory :=
  mkOddsMemory (om_sports s) (om_leagues s) (<[k := x]> (om_events s)) (om_markets s)
    (om_outcomes s).
Definition om_set_market (k : string) (x : Market) (s : oddsMemory) : oddsMemory :=
  mkOddsMemory (om_sports s) (om_leagues s) (om_events s) (<[k := x]> (om_markets s))
    (om_outcomes s).
Definition om_set_outcome (k : string) (x : Outcome) (s : oddsMemory) : oddsMemory :=
  mkOddsMemory (om_sports s) (om_leagues s) (om_events s) (om_markets s)
    (<[k := x]> (om_outcomes s)).

Definition sportKey (provider id : string) : string := provider +:+ ":" +:+ id.
Definition leagueKey (provider id : string) : string := provider +:+ ":" +:+ id.
Definition eventKey (provider id : string) : string := provider +:+ ":" +:+ id.
Definition marketKey (provider id : string) : string := provider +:+ ":" +:+ id.
Definition outcomeKey (provider id : string) : string := provider +:+ ":" +:+ id.

(** Assignments to a record's fields. *)
Definition event_set_Status (status : string) (now : Z) (e : Event) : Event :=
  mkEvent (event_ID e) (event_Provider e) (event_ProviderEventID e) (event_LeagueID e)
    (event_SportID e) (event_HomeParticipant e) (event_AwayParticipant e) (event_StartsAt e)
    status (event_HomeScore e) (event_AwayScore e) (event_ScoreUpdatedAt e)
    (event_Metadata e) (event_CreatedAt e) now.
Definition market_set_Status (status : string) (now : Z) (m : Market) : Market :=
  mkMarket (market_ID m) (market_Provider m) (market_ProviderMarketID m) (market_EventID m)
    (market_Type m) (market_Name m) (market_Line m) status (market_Metadata m)
    (market_CreatedAt m) now.
Definition outcome_set_Status (status : string) (now : Z) (o : Outcome) : Outcome :=
  mkOutcome (outcome_ID o) (outcome_Provider o) (outcome_ProviderOutcomeID o)
    (outcome_MarketID o) (outcome_Name o) (outcome_Odds o) status (outcome_Metadata o)
    (outcome_CreatedAt o) now.
Definition outcome_set_Odds (odds : string) (now : Z) (o : Outcome) : Outcome :=
  mkOutcome (outcome_ID o) (outcome_Provider o) (outcome_ProviderOutcomeID o)
    (outcome_MarketID o) (outcome_Name o) odds (outcome_Status o) (outcome_Metadata o)
    (outcome_CreatedAt o) now.

(** [paginate]: nil past the end, the slice expression otherwise. *)
Definition paginate {A} (items : list A) (page pageSize : Z) : res (list A) :=
  let page := if page <=? 0 then 1 else page in
  let pageSize := if pageSize <=? 0 then 20 else pageSize in
  let len := Z.of_nat (length items) in
  let start := int64 (int64 (page - 1) * pageSize) in
  if len <=? start then Ok []
  else
    let end_ := int64 (start + pageSize) in
    let end_ := if len <? end_ then len else end_ in
    slice items start end_.

Section OddsMemory.
Context `{E : GoEnv}.

(** [if x.ID == "" { x.ID = uuid.NewString() }] *)
Definition id_or_new (id : string) : M oddsMemory string :=
  if decide (id = "") then new_uuid else mret id.

Definition oddsMemory_UpsertSport (sp : Sport) : M oddsMemory string :=
  s ← get;
  let key := sportKey (sport_Provider sp) (sport_ProviderSportID sp) in
  match om_sports s !! key with
  | Some ex =>
      now ← time_now;
      modify (om_set_sport key (mkSport (sport_ID ex) (sport_Provider ex)
        (sport_ProviderSportID ex) (sport_Slug sp) (sport_Name sp) (sport_CreatedAt ex) now));;
      mret (sport_ID ex)
  | None =>
      id ← id_or_new (sport_ID sp);
      now ← time_now;
      modify (om_set_sport key (mkSport id (sport_Provider sp) (sport_ProviderSportID sp)
        (sport_Slug sp) (sport_Name sp) now now));;
      mret id
  end.

Definition oddsMemory_UpsertLeague (l : League) : M oddsMemory string :=
  s ← get;
  let key := leagueKey (league_Provider l) (league_ProviderLeagueID l) in
  match om_leagues s !! key with
  | Some ex =>
      now ← time_now;
      modify (om_set_league key (mkLeague (league_ID ex) (league_Provider ex)
        (league_ProviderLeagueID ex) (league_SportID l) (league_Name l) (league_Country l)
        (league_CreatedAt ex) now));;
      mret (league_ID ex)
  | None =>
      id ← id_or_new (league_ID l);
      now ← time_now;
      modify (om_set_league key (mkLeague id (league_Provider l) (league_ProviderLeagueID l)
        (league_SportID l) (league_Name l) (league_Country l) now now));;
      mret id
  end.

Definition oddsMemory_UpsertEvent (e : Event) : M oddsMemory string :=
  s ← get;
  let key := eventKey (event_Provider e) (event_ProviderEventID e) in
  match om_events s !! key with
  | Some ex =>
      now ← time_now;
      modify (om_set_event key (mkEvent (event_ID ex) (event_Provider ex)
        (event_ProviderEventID ex) (event_LeagueID e) (event_SportID e)
        (event_HomeParticipant e) (event_AwayParticipant e) (event_StartsAt e)
        (event_Status e) (event_HomeScore e) (event_AwayScore e) (event_ScoreUpdatedAt e)
        (event_Metadata e) (event_CreatedAt ex) now));;
      mret (event_ID ex)
  | None =>
      id ← id_or_new (event_ID e);
      now ← time_now;
      modify (om_set_event key (mkEvent id (event_Provider e) (event_ProviderEventID e)
        (event_LeagueID e) (event_SportID e) (event_HomeParticipant e)
        (event_AwayParticipant e) (event_StartsAt e) (event_Status e) (event_HomeScore e)
        (event_AwayScore e) (event_ScoreUpdatedAt e) (event_Metadata e) now now));;
      mret id
  end.

Definition oddsMemory_UpsertMarket (m : Market) : M oddsMemory string :=
  s ← get;
  let key := marketKey (market_Provider m) (market_ProviderMarketID m) in
  match om_markets s !! key with
  | Some ex =>
      now ← time_now;
      modify (om_set_market key (mkMarket (market_ID ex) (market_Provider ex)
        (market_ProviderMarketID ex) (market_EventID m) (market_Type m) (market_Name m)
        (market_Line m) (market_Status m) (market_Metadata m) (market_CreatedAt ex) now));;
      mret (market_ID ex)
  | None =>
      id ← id_or_new (market_ID m);
      now ← time_now;
      modify (om_set_market key (mkMarket id (market_Provider m) (market_ProviderMarketID m)
        (market_EventID m) (market_Type m) (market_Name m) (market_Line m)
        (market_Status m) (market_Metadata m) now now));;
      mret id
  end.

Definition oddsMemory_UpsertOutcome (o : Outcome) : M oddsMemory string :=
  s ← get;
  let key := outcomeKey (outcome_Provider o) (outcome_ProviderOutcomeID o) in
  match om_outcomes s !! key with
  | Some ex =>
      now ← time_now;
      modify (om_set_outcome key (mkOutcome (outcome_ID ex) (outcome_Provider ex)
        (outcome_ProviderOutcomeID ex) (outcome_MarketID o) (outcome_Name o)
        (outcome_Odds o) (outcome_Status o) (outcome_Metadata o) (outcome_CreatedAt ex) now));;
      mret (outcome_ID ex)
  | None =>
      id ← id_or_new (outcome_ID o);
      now ← time_now;
      modify (om_set_outcome key (mkOutcome id (outcome_Provider o)
        (outcome_ProviderOutcomeID o) (outcome_MarketID o) (outcome_Name o)
        (outcome_Odds o) (outcome_Status o) (outcome_Metadata o) now now));;
      mret id
  end.

Definition oddsMemory_UpdateOutcomeOdds (provider providerOutcomeID odds : string) :
    M oddsMemory (string * string) :=
  s ← get;
  let key := outcomeKey provider providerOutcomeID in
  match om_outcomes s !! key with
  | None => mthrow (ErrNew "update outcome odds: not found")
  | Some o =>
      now ← time_now;
      modify (om_set_outcome key (outcome_set_Odds odds now o));;
      mret (outcome_MarketID o, outcome_ID o)
  end.

Definition oddsMemory_UpdateMarketStatus (provider providerMarketID status : string) :
    M oddsMemory string :=
  s ← get;
  let key := marketKey provider providerMarketID in
  match om_markets s !! key with
  | None => mthrow (ErrNew "update market status: not found")
  | Some m =>
      now ← time_now;
      modify (om_set_market key (market_set_Status status now m));;
      mret (market_ID m)
  end.

Definition oddsMemory_UpdateOutcomeStatus (provider providerOutcomeID status : string) :
    M oddsMemory (string * string) :=
  s ← get;
  let key := outcomeKey provider providerOutcomeID in
  match om_outcomes s !! key with
  | None => mthrow (ErrNew "update outcome status: not found")
  | Some o =>
      now ← time_now;
      modify (om_set_outcome key (outcome_set_Status status now o));;
      mret (outcome_MarketID o, outcome_ID o)
  end.

Definition oddsMemory_UpdateEventStatus (provider providerEventID status : string) :
    M oddsMemory unit :=
  s ← get;
  let key := eventKey provider providerEventID in
  match om_events s !! key with
  | None => mthrow (ErrNew "update event status: not found")
  | Some e => now ← time_now; modify (om_set_event key (event_set_Status status now e))
  end.

Definition oddsMemory_GetEventStatusesByProvider (provider : string) :
    M oddsMemory (gmap string string) :=
  s ← get;
  events ← range (om_events s);
  mret (foldl (fun statuses e =>
    if decide (event_Provider e = provider)
    then <[event_ProviderEventID e := event_Status e]> statuses else statuses) ∅ events.*2).

(** An empty filter matches everything. *)
Definition matches (filter_ value : string) : Prop := filter_ = "" \/ value = filter_.
#[export] Instance matches_dec f v : Decision (matches f v).
Proof. unfold matches. apply _. Defined.

Definition oddsMemory_ListSports (page pageSize : Z) : M oddsMemory (list Sport) :=
  s ← get;
  sports ← range (om_sports s);
  let out := sort_Slice (fun a b => string_ltb (sport_Name a) (sport_Name b)) sports.*2 in
  of_res (paginate out page pageSize).

Definition oddsMemory_ListLeagues (sportID : string) (page pageSize : Z) :
    M oddsMemory (list League) :=
  s ← get;
  leagues ← range (om_leagues s);
  let out := filter (fun l => matches sportID (league_SportID l)) leagues.*2 in
  let out := sort_Slice (fun a b => string_ltb (league_Name a) (league_Name b)) out in
  of_res (paginate out page pageSize).

Definition oddsMemory_ListEvents (sportID leagueID status : string) (page pageSize : Z) :
    M oddsMemory (list Event) :=
  s ← get;
  events ← range (om_events s);
  let out := filter (fun e => matches sportID (event_SportID e) /\
                       matches leagueID (event_LeagueID e) /\
                       matches status (event_Status e)) events.*2 in
  let out := sort_Slice (fun a b => event_StartsAt b <? event_StartsAt a) out in
  of_res (paginate out page pageSize).

Definition oddsMemory_GetEvent (id : string) : M oddsMemory (option Event) :=
  s ← get;
  events ← range (om_events s);
  mret (snd <$> (list_find (fun e => event_ID e = id) events.*2)).

Definition oddsMemory_ListMarkets (eventID status : string) (page pageSize : Z) :
    M oddsMemory (list Market) :=
  s ← get;
  markets ← range (om_markets s);
  let out := filter (fun m => market_EventID m = eventID /\ matches status (market_Status m))
               markets.*2 in
  let out := sort_Slice (fun a b => string_ltb (market_Name a) (market_Name b)) out in
  of_res (paginate out page pageSize).

Definition oddsMemory_ListOutcomes (marketID status : string) (page pageSize : Z) :
    M oddsMemory (list Outcome) :=
  s ← get;
  outcomes ← range (om_outcomes s);
  let out := filter (fun o => outcome_MarketID o = marketID /\
                       matches status (outcome_Status o)) outcomes.*2 in
  let out := sort_Slice (fun a b => string_ltb (outcome_Name a) (outcome_Name b)) out in
  of_res (paginate out page pageSize).

Definition oddsMemory_ListLiveScores (sportID leagueID : string) (page pageSize : Z) :
    M oddsMemory (list Event) :=
  oddsMemory_ListEvents sportID leagueID "live" page pageSize.

#[export] Instance oddsMemory_OddsStore : OddsStore oddsMemory := {
  odds_UpsertSport := oddsMemory_UpsertSport;
  odds_UpsertLeague := oddsMemory_UpsertLeague;
  odds_UpsertEvent := oddsMemory_UpsertEvent;
  odds_UpsertMarket := oddsMemory_UpsertMarket;
  odds_UpsertOutcome := oddsMemory_UpsertOutcome;
  odds_UpdateOutcomeOdds := oddsMemory_UpdateOutcomeOdds;
  odds_UpdateMarketStatus := oddsMemory_UpdateMarketStatus;
  odds_UpdateOutcomeStatus := oddsMemory_UpdateOutcomeStatus;
  odds_UpdateEventStatus := oddsMemory_UpdateEventStatus;
  odds_GetEventStatusesByProvider := oddsMemory_GetEventStatusesByProvider;
  odds_ListSports := oddsMemory_ListSports;
  odds_ListLeagues := oddsMemory_ListLeagues;
  odds_ListEvents := oddsMemory_ListEvents;
  odds_GetEvent := oddsMemory_GetEvent;
  odds_ListMarkets := oddsMemory_ListMarkets;
  odds_ListOutcomes := oddsMemory_ListOutcomes;
  odds_ListLiveScores := oddsMemory_ListLiveScores;
}.
End OddsMemory.

(** A store that is a component of a larger state. *)
Section LensStore.
Context {S T : Type} `{LT : Lens S T, OS : OddsStore T}.

Definition lens_OddsStore : OddsStore S := {|
  odds_UpsertSport x := zoom (odds_UpsertSport x);
  odds_UpsertLeague x := zoom (odds_UpsertLeague x);
  odds_UpsertEvent x := zoom (odds_UpsertEvent x);
  odds_UpsertMarket x := zoom (odds_UpsertMarket x);
  odds_UpsertOutcome x := zoom (odds_UpsertOutcome x);
  odds_UpdateOutcomeOdds p i o := zoom (odds_UpdateOutcomeOdds p i o);
  odds_UpdateMarketStatus p i st := zoom (odds_UpdateMarketStatus p i st);
  odds_UpdateOutcomeStatus p i st := zoom (odds_UpdateOutcomeStatus p i st);
  odds_UpdateEventStatus p i st := zoom (odds_UpdateEventStatus p i st);
  odds_GetEventStatusesByProvider p := zoom (odds_GetEventStatusesByProvider p);
  odds_ListSports p n := zoom (odds_ListSports p n);
  odds_ListLeagues s p n := zoom (odds_ListLeagues s p n);
  odds_ListEvents s l st p n := zoom (odds_ListEvents s l st p n);
  odds_GetEvent i := zoom (odds_GetEvent i);
  odds_ListMarkets e st p n := zoom (odds_ListMarkets e st p n);
  odds_ListOutcomes m st p n := zoom (odds_ListOutcomes m st p n);
  odds_ListLiveScores s l p n := zoom (odds_ListLiveScores s l p n);
|}.
End LensStore.
