(* ===== verification/Normalizer.v ===== *)
(** * Normalizer: provider snapshots to internal records

    [internal/oddsfeed/normalizer.go].  Name-based UUIDs come from the uuid package:
    [NewSHA1] is the text of the UUID of a name in the OID name space. *)

From S2P Require Import Prelude GoStd OddsModels.

Class UuidSHA1 : Type := { NewSHA1 : string -> string }.

Section Normalize.
Context `{E : GoEnv, U : UuidSHA1}.

Definition deterministicID (provider key : string) : string :=
  NewSHA1 (provider +:+ ":" +:+ key).

(** The loops over the snapshot, each with the ids its predecessors assigned. *)
Definition normalize_sport (provider : string) (sp : SportSnapshot) : Sport :=
  mkSport (deterministicID provider ("sport:" +:+ ss_ProviderID sp)) provider
    (ss_ProviderID sp) (ss_Slug sp) (ss_Name sp) time_zero time_zero.

(** [ids[x.ProviderID] = deterministicID(provider, kind+x.ProviderID)] for every [x]. *)
Definition assign_ids {A} (provider kind : string) (pid : A -> string) (xs : list A) :
    gmap string string :=
  foldl (fun ids x => <[pid x := deterministicID provider (kind +:+ pid x)]> ids) ∅ xs.

Definition normalize_league (provider : string) (sportIDs : gmap string string)
    (l : LeagueSnapshot) : res League :=
  match sportIDs !! ls_SportID l with
  | None => Err (ErrNew ("league " +:+ ls_ProviderID l +:+ " references unknown sport " +:+
                  ls_SportID l))
  | Some sportID =>
      Ok (mkLeague (deterministicID provider ("league:" +:+ ls_ProviderID l)) provider
            (ls_ProviderID l) sportID (ls_Name l) (ls_Country l) time_zero time_zero)
  end.

(** [if text != "" { t, err = time.Parse(time.RFC3339, text) }] *)
Definition parse_time (what text : string) : res Z :=
  if decide (text = "") then Ok time_zero
  else wrap_res ("parse event " +:+ what) (ParseRFC3339 text).

(** An unknown league or sport is the empty id. *)
Definition normalize_event (provider : string) (sportIDs leagueIDs : gmap string string)
    (e : EventSnapshot) : res Event :=
  startsAt ← parse_time "starts_at" (es_StartsAt e);
  scoreUpdatedAt ← parse_time "score_updated_at" (es_ScoreUpdatedAt e);
  Ok (mkEvent (deterministicID provider ("event:" +:+ es_ProviderID e)) provider
        (es_ProviderID e) (default "" (leagueIDs !! es_LeagueID e))
        (default "" (sportIDs !! es_SportID e)) (es_HomeParticipant e)
        (es_AwayParticipant e) startsAt (es_Status e) (es_HomeScore e) (es_AwayScore e)
        scoreUpdatedAt (es_Metadata e) time_zero time_zero).

Definition normalize_market (provider : string) (eventIDs : gmap string string)
    (m : MarketSnapshot) : res Market :=
  match eventIDs !! mks_EventID m with
  | None => Err (ErrNew ("market " +:+ mks_ProviderID m +:+ " references unknown event " +:+
                  mks_EventID m))
  | Some eventID =>
      Ok (mkMarket (deterministicID provider ("market:" +:+ mks_ProviderID m)) provider
            (mks_ProviderID m) eventID (mks_Type m) (mks_Name m) (mks_Line m)
            (mks_Status m) (mks_Metadata m) time_zero time_zero)
  end.

Definition normalize_outcome (provider : string) (marketIDs : gmap string string)
    (o : OutcomeSnapshot) : res Outcome :=
  match marketIDs !! os_MarketID o with
  | None => Err (ErrNew ("outcome " +:+ os_ProviderID o +:+ " references unknown market " +:+
                  os_MarketID o))
  | Some marketID =>
      Ok (mkOutcome (deterministicID provider ("outcome:" +:+ os_ProviderID o)) provider
            (os_ProviderID o) marketID (os_Name o) (os_Odds o) (os_Status o)
            (os_Metadata o) time_zero time_zero)
  end.

Record Normalized : Type := mkNormalized {
  nz_sports : list Sport;
  nz_leagues : list League;
  nz_events : list Event;
  nz_markets : list Market;
  nz_outcomes : list Outcome;
}.

(** A loop that fails at its first error; the records before it are dropped. *)
Fixpoint map_res {A B} (f : A -> res B) (xs : list A) : res (list B) :=
  match xs with
  | [] => Ok []
  | x :: xs => y ← f x; ys ← map_res f xs; Ok (y :: ys)
  end.

Definition NormalizeSnapshot (snap : Snapshot) : res Normalized :=
  let provider := sn_Provider snap in
  let sportIDs := assign_ids provider "sport:" ss_ProviderID (sn_Sports snap) in
  let sports := normalize_sport provider <$> sn_Sports snap in
  let leagueIDs := assign_ids provider "league:" ls_ProviderID (sn_Leagues snap) in
  leagues ← map_res (normalize_league provider sportIDs) (sn_Leagues snap);
  let eventIDs := assign_ids provider "event:" es_ProviderID (sn_Events snap) in
  events ← map_res (normalize_event provider sportIDs leagueIDs) (sn_Events snap);
  let marketIDs := assign_ids provider "market:" mks_ProviderID (sn_Markets snap) in
  markets ← map_res (normalize_market provider eventIDs) (sn_Markets snap);
  outcomes ← map_res (normalize_outcome provider marketIDs) (sn_Outcomes snap);
  Ok (mkNormalized sports leagues events markets outcomes).
End Normalize.
