(* ===== verification/OddsService.v ===== *)
(** * OddsService: synchronising the odds feed

    [internal/oddsfeed/service.go], [cache.go], [events.go] and [scheduler.go], over any
    store.  The Redis commands of the cache and the NATS connection of the event bus are
    the classes [RedisHash] and [NatsConn]; the log lines of failed cache writes and
    failed publications are dropped, since they change nothing else. *)

From S2P Require Import Prelude GoStd GoJson OddsModels Normalizer.

(** ** cache.go *)
Inductive redis_cmd : Type :=
| HSet (key : string) (fields : gmap string string)
| Del (key : string)
| SAdd (key member : string)
| Expire (key : string) (ttl : Z).

Class RedisHash (S : Type) : Type := {
  (** A pipeline of commands, sent together. *)
  redis_Exec : list redis_cmd -> M S unit;
  redis_HGetAll : string -> M S (gmap string string);
}.

(** ** events.go *)
Class NatsConn (S : Type) : Type := { nats_Publish : string -> string -> M S unit }.

Definition default_ttl (ttl : Z) : Z := if ttl <=? 0 then 60 * 1000000000 else ttl.

Section OddsService.
Context {S : Type} `{E : GoEnv, U : UuidSHA1, OS : OddsStore S, RH : RedisHash S,
  NC : NatsConn S}.

(** [cache] holds the time to live; [cache] and [bus] may be nil. *)
Record OddsService : Type := mkOddsService {
  osv_providers : gmap string (FeedProvider S);
  osv_cache : option Z;
  osv_bus : bool;
}.

Definition NewOddsService (providers : list (FeedProvider S)) (cache : option Z) (bus : bool) :
    OddsService :=
  mkOddsService (foldl (fun pm p => <[fp_Name p := p]> pm) ∅ providers) cache bus.

Definition Cache_SetLiveOdds (ttl : Z) (marketID : string) (odds : gmap string string) :
    M S unit :=
  let key := "oddsfeed:live:odds:" +:+ marketID in
  redis_Exec [HSet key odds; Expire key ttl].

Definition Cache_SetLiveScore (ttl : Z) (eventID home away status : string) : M S unit :=
  let key := "oddsfeed:live:score:" +:+ eventID in
  redis_Exec [HSet key (<["home_score" := home]> (<["away_score" := away]>
                {["status" := status]})); Expire key ttl].

Definition Cache_SetLiveEventIDs (ttl : Z) (sportID : string) (ids : list string) :
    M S unit :=
  let key := "oddsfeed:live:events:" +:+ sportID in
  redis_Exec (Del key :: (SAdd key <$> ids) ++ [Expire key ttl]).

Definition Cache_GetLiveOdds (marketID : string) : M S (gmap string string) :=
  redis_HGetAll ("oddsfeed:live:odds:" +:+ marketID).
Definition Cache_GetLiveScore (eventID : string) : M S (gmap string string) :=
  redis_HGetAll ("oddsfeed:live:score:" +:+ eventID).

(** The payload is a map of strings, which always marshals. *)
Definition EventBus_Publish (subject : string) (payload : gmap string string) : M S unit :=
  wrapped "publish event" (nats_Publish subject (Marshal (JStr <$> payload))).

Definition maybeEmit (s : OddsService) (subject entityID : string) : M S unit :=
  if osv_bus s then ignore (EventBus_Publish subject {["id" := entityID]}) else mret tt.

(** [if s.cache != nil { if err := write; err != nil { log } }] *)
Definition maybeCache (s : OddsService) (write : Z -> M S unit) : M S unit :=
  match osv_cache s with
  | Some ttl => ignore (write ttl)
  | None => mret tt
  end.

(** A new event, one whose status changed, or a live one. *)
Definition needs_conditions (existing : gmap string string) (e : Event) : bool :=
  match existing !! event_ProviderEventID e with
  | None => true
  | Some prev => bool_decide (prev <> event_Status e) || bool_decide (event_Status e = "live")
  end.

Definition changedEventIDs (events : list Event) (existing : gmap string string) :
    list string :=
  event_ProviderEventID <$> filter (fun e => needs_conditions existing e = true) events.

(** The loop over the events; returns the live ids by sport. *)
Fixpoint apply_events (s : OddsService) (events : list Event)
    (liveBySport : gmap string (list string)) : M S (gmap string (list string)) :=
  match events with
  | [] => mret liveBySport
  | e :: events =>
      id ← wrapped "upsert event" (odds_UpsertEvent e);
      maybeEmit s "feed.event.updated" id;;
      apply_events s events
        (if decide (event_Status e = "live" /\ event_SportID e <> "")
         then <[event_SportID e := default [] (liveBySport !! event_SportID e) ++ [id]]>
                liveBySport
         else liveBySport)
  end.

Definition applyHierarchy (s : OddsService) (sports : list Sport) (leagues : list League)
    (events : list Event) : M S unit :=
  for_each sports (fun sp =>
    id ← wrapped "upsert sport" (odds_UpsertSport sp);
    maybeEmit s "feed.sport.updated" id);;
  for_each leagues (fun l =>
    id ← wrapped "upsert league" (odds_UpsertLeague l);
    maybeEmit s "feed.league.updated" id);;
  liveBySport ← apply_events s events ∅;
  match osv_cache s with
  | None => mret tt
  | Some ttl =>
      lives ← range liveBySport;
      for_each lives (fun '(sportID, ids) => ignore (Cache_SetLiveEventIDs ttl sportID ids))
  end.

Definition applyMarkets (s : OddsService) (markets : list Market) (outcomes : list Outcome) :
    M S unit :=
  for_each markets (fun m =>
    id ← wrapped "upsert market" (odds_UpsertMarket m);
    maybeEmit s "feed.market.updated" id);;
  for_each outcomes (fun o =>
    id ← wrapped "upsert outcome" (odds_UpsertOutcome o);
    maybeCache s (fun ttl => Cache_SetLiveOdds ttl (outcome_MarketID o) {[id := outcome_Odds o]});;
    maybeEmit s "feed.odds.changed" id).

Definition applySnapshot (s : OddsService) (snap : Snapshot) : M S unit :=
  n ← wrapped "normalize snapshot" (of_res (NormalizeSnapshot snap));
  applyHierarchy s (nz_sports n) (nz_leagues n) (nz_events n);;
  applyMarkets s (nz_markets n) (nz_outcomes n).

Definition SyncProvider (s : OddsService) (providerName : string) : M S unit :=
  match osv_providers s !! providerName with
  | None => mthrow (ErrNew ("unknown provider: " +:+ providerName))
  | Some p =>
      hier ← wrapped "fetch hierarchy" (fp_FetchHierarchy p "" ∅);
      n ← wrapped "normalize hierarchy" (of_res (NormalizeSnapshot hier));
      existingStatuses ← wrapped "get existing event statuses"
                           (odds_GetEventStatusesByProvider providerName);
      applyHierarchy s (nz_sports n) (nz_leagues n) (nz_events n);;
      let changedIDs := changedEventIDs (nz_events n) existingStatuses in
      if decide (changedIDs = []) then mret tt
      else
        conds ← wrapped "fetch conditions" (fp_FetchConditions p changedIDs);
        c ← wrapped "normalize conditions" (of_res (NormalizeSnapshot conds));
        applyMarkets s (nz_markets c) (nz_outcomes c)
  end.

Definition SyncLiveProvider (s : OddsService) (providerName : string) : M S unit :=
  match osv_providers s !! providerName with
  | None => mthrow (ErrNew ("unknown provider: " +:+ providerName))
  | Some p =>
      snap ← wrapped "fetch live snapshot" (fp_FetchSnapshot p "" {["game_state" := "Live"]});
      applySnapshot s snap
  end.

(** [u.Payload[key]] *)
Definition payload (u : Update) (key : string) : string := default "" (up_Payload u !! key).

Definition ApplyUpdate (s : OddsService) (u : Update) : M S unit :=
  if decide (up_Type u = "odds") then
    '(marketID, outcomeID) ← wrapped "apply odds update"
      (odds_UpdateOutcomeOdds (up_Provider u) (up_EntityID u) (payload u "odds"));
    maybeCache s (fun ttl =>
      Cache_SetLiveOdds ttl marketID {[outcomeID := payload u "odds"]});;
    maybeEmit s "feed.odds.changed" outcomeID
  else if decide (up_Type u = "status") then
    r ← attempt (odds_UpdateMarketStatus (up_Provider u) (up_EntityID u) (payload u "status"));
    match r with
    | Ok marketID => maybeEmit s "feed.market.updated" marketID
    | _ =>
        '(marketID, outcomeID) ← wrapped "apply status update"
          (odds_UpdateOutcomeStatus (up_Provider u) (up_EntityID u) (payload u "status"));
        maybeEmit s "feed.odds.changed" outcomeID
    end
  else mthrow (ErrNew ("unknown update type: " +:+ up_Type u)).

(** ** scheduler.go: one tick; errors are logged and do not stop it. *)
Definition default_interval (interval : Z) : Z :=
  if interval <=? 0 then 60 * 1000000000 else interval.

Definition scheduler_tick (s : OddsService) (providers : list string) : M S unit :=
  for_each providers (fun p => ignore (SyncProvider s p);; ignore (SyncLiveProvider s p)).

(** [Start]: [ticks] is how long it waits for each of the ticks that it takes; after them
    its context is done. *)
Definition OddsScheduler_Start (s : OddsService) (providers : list string) (ticks : list nat) :
    M S unit :=
  for_each ticks (fun d => sleep d;; scheduler_tick s providers).

(** ** websocket.go: how long the worker waits before it connects again. *)
Definition max_reconnect (maxReconnect : Z) : Z :=
  if maxReconnect <=? 0 then 5 * 1000000000 else maxReconnect.
Definition next_backoff (maxReconnect backoff : Z) : Z :=
  let backoff := int64 (backoff * 2) in
  if maxReconnect <? backoff then maxReconnect else backoff.

(** ** Queries *)
Definition Odds_ListSports (page pageSize : Z) : M S (list Sport) :=
  odds_ListSports page pageSize.
Definition Odds_ListLeagues (sportID : string) (page pageSize : Z) : M S (list League) :=
  odds_ListLeagues sportID page pageSize.
Definition Odds_ListEvents (sportID leagueID status : string) (page pageSize : Z) :
    M S (list Event) := odds_ListEvents sportID leagueID status page pageSize.
Definition Odds_GetEvent (id : string) : M S (option Event) := odds_GetEvent id.
Definition Odds_ListMarkets (eventID status : string) (page pageSize : Z) :
    M S (list Market) := odds_ListMarkets eventID status page pageSize.
Definition Odds_ListOutcomes (marketID status : string) (page pageSize : Z) :
    M S (list Outcome) := odds_ListOutcomes marketID status page pageSize.
Definition Odds_ListLiveScores (sportID leagueID : string) (page pageSize : Z) :
    M S (list Event) := odds_ListLiveScores sportID leagueID page pageSize.
End OddsService.
Arguments OddsService S : clear implicits.
