(* ===== verification/OddsProps.v ===== *)
(** * OddsProps: what the odds feed guarantees

    References inside a normalized snapshot, references inside the store after a
    snapshot was applied, which conditions a synchronisation asks for, and updates. *)

From S2P Require Import Prelude GoStd GoJson Demo OddsModels OddsStore Normalizer.
From S2P Require Import OddsService.

(** ** Snapshots *)
Section Normalized.
Context `{E : GoEnv, U : UuidSHA1}.

Lemma map_res_Forall2 {A B} (f : A -> res B) xs ys :
  map_res f xs = Ok ys <-> Forall2 (fun x y => f x = Ok y) xs ys.
Proof.
  revert ys. induction xs as [|x xs IH]; intros ys; cbn.
  - split; [intros [= <-]; constructor|by inversion 1].
  - destruct (f x) as [y|e|p] eqn:Hx; cbn.
    + destruct (map_res f xs) as [zs|e|p] eqn:Hm; cbn.
      * split.
        -- intros [= <-]. constructor; [done|]. by apply IH.
        -- inversion 1 as [|? y' ? zs' Hy Hzs]; subst. apply IH in Hzs.
           rewrite Hx in Hy. congruence.
      * split; [done|]. inversion 1 as [|? y' ? zs' Hy Hzs]; subst. by apply IH in Hzs.
      * split; [done|]. inversion 1 as [|? y' ? zs' Hy Hzs]; subst. by apply IH in Hzs.
    + split; [done|]. inversion 1; congruence.
    + split; [done|]. inversion 1; congruence.
Qed.

Lemma map_res_Ok {A B} (f : A -> res B) xs : (forall x, x ∈ xs -> exists y, f x = Ok y) ->
  exists ys, map_res f xs = Ok ys.
Proof.
  induction xs as [|x xs IH]; intros H; cbn; [by eexists|].
  destruct (H x ltac:(by left)) as [y ->].
  destruct IH as [ys ->]; [intros z Hz; apply H; by right|]. by eexists.
Qed.

Lemma assign_ids_lookup {A} provider kind (pid : A -> string) xs : forall k,
  assign_ids provider kind pid xs !! k =
  if decide (k ∈ pid <$> xs) then Some (deterministicID provider (kind +:+ k)) else None.
Proof.
  unfold assign_ids. intros k.
  assert (forall m : gmap string string,
    foldl (fun ids x => <[pid x := deterministicID provider (kind +:+ pid x)]> ids) m xs !! k =
    if decide (k ∈ pid <$> xs) then Some (deterministicID provider (kind +:+ k)) else m !! k)
    as H; [|by rewrite H, lookup_empty].
  induction xs as [|x xs IH]; intros m; [done|]. cbn [foldl fmap list_fmap List.map].
  rewrite IH. destruct (decide (k ∈ pid <$> xs)) as [Hin|Hin].
  - rewrite decide_True; [done|]. by right.
  - destruct (decide (k = pid x)) as [->|Hne].
    + rewrite lookup_insert_eq, decide_True; [done|]. by left.
    + rewrite lookup_insert_ne, decide_False; [done| |done].
      by intros [?|?]%elem_of_cons.
Qed.

(** What a snapshot must satisfy to be usable. *)
Definition times_parse (e : EventSnapshot) : Prop :=
  (exists t, parse_time "starts_at" (es_StartsAt e) = Ok t) /\
  (exists t, parse_time "score_updated_at" (es_ScoreUpdatedAt e) = Ok t).
Definition well_referenced (snap : Snapshot) : Prop :=
  (forall l, l ∈ sn_Leagues snap -> ls_SportID l ∈ ss_ProviderID <$> sn_Sports snap) /\
  (forall e, e ∈ sn_Events snap -> times_parse e) /\
  (forall m, m ∈ sn_Markets snap -> mks_EventID m ∈ es_ProviderID <$> sn_Events snap) /\
  (forall o, o ∈ sn_Outcomes snap -> os_MarketID o ∈ mks_ProviderID <$> sn_Markets snap).

(** Every reference in the records is the identifier of a record. *)
Definition integral (n : Normalized) : Prop :=
  (forall l, l ∈ nz_leagues n -> exists sp, sp ∈ nz_sports n /\ sport_ID sp = league_SportID l) /\
  (forall m, m ∈ nz_markets n -> exists e, e ∈ nz_events n /\ event_ID e = market_EventID m) /\
  (forall o, o ∈ nz_outcomes n -> exists m, m ∈ nz_markets n /\ market_ID m = outcome_MarketID o) /\
  (forall e, e ∈ nz_events n ->
     (event_LeagueID e = "" \/ exists l, l ∈ nz_leagues n /\ league_ID l = event_LeagueID e) /\
     (event_SportID e = "" \/ exists sp, sp ∈ nz_sports n /\ sport_ID sp = event_SportID e)).

Lemma Forall2_In_l {A B} (P : A -> B -> Prop) xs ys x :
  Forall2 P xs ys -> x ∈ xs -> exists y, y ∈ ys /\ P x y.
Proof.
  induction 1 as [|a b xs ys Hab _ IH]; intros Hx; [by apply elem_of_nil in Hx|].
  apply elem_of_cons in Hx as [->|Hx].
  - exists b. split; [by left|done].
  - destruct (IH Hx) as (y & Hy & HP). exists y. split; [by right|done].
Qed.

Lemma Forall2_In_r {A B} (P : A -> B -> Prop) xs ys y :
  Forall2 P xs ys -> y ∈ ys -> exists x, x ∈ xs /\ P x y.
Proof.
  induction 1 as [|a b xs ys Hab _ IH]; intros Hy; [by apply elem_of_nil in Hy|].
  apply elem_of_cons in Hy as [->|Hy].
  - exists a. split; [by left|done].
  - destruct (IH Hy) as (x & Hx & HP). exists x. split; [by right|done].
Qed.

(** The records, one for each entry of the snapshot and in its order. *)
Lemma NormalizeSnapshot_inv snap n : NormalizeSnapshot snap = Ok n ->
  let p := sn_Provider snap in
  let sportIDs := assign_ids p "sport:" ss_ProviderID (sn_Sports snap) in
  let leagueIDs := assign_ids p "league:" ls_ProviderID (sn_Leagues snap) in
  let eventIDs := assign_ids p "event:" es_ProviderID (sn_Events snap) in
  let marketIDs := assign_ids p "market:" mks_ProviderID (sn_Markets snap) in
  nz_sports n = normalize_sport p <$> sn_Sports snap /\
  Forall2 (fun l r => normalize_league p sportIDs l = Ok r) (sn_Leagues snap) (nz_leagues n) /\
  Forall2 (fun e r => normalize_event p sportIDs leagueIDs e = Ok r) (sn_Events snap) (nz_events n) /\
  Forall2 (fun m r => normalize_market p eventIDs m = Ok r) (sn_Markets snap) (nz_markets n) /\
  Forall2 (fun o r => normalize_outcome p marketIDs o = Ok r) (sn_Outcomes snap) (nz_outcomes n).
Proof.
  unfold NormalizeSnapshot. cbv zeta. intros H.
  destruct (map_res (normalize_league _ _) _) as [ls|e|q] eqn:Hl; cbn in H; [|done|done].
  destruct (map_res (normalize_event _ _ _) _) as [es|e|q] eqn:He; cbn in H; [|done|done].
  destruct (map_res (normalize_market _ _) _) as [ms|e|q] eqn:Hm; cbn in H; [|done|done].
  destruct (map_res (normalize_outcome _ _) _) as [os|e|q] eqn:Ho; cbn in H; [|done|done].
  injection H as <-. cbn. rewrite <- !map_res_Forall2. done.
Qed.

Lemma normalize_league_inv p ids l r : normalize_league p ids l = Ok r ->
  ids !! ls_SportID l = Some (league_SportID r) /\
  league_ID r = deterministicID p ("league:" +:+ ls_ProviderID l).
Proof.
  unfold normalize_league. destruct (ids !! ls_SportID l) as [i|]; [|done]. by intros [= <-].
Qed.
Lemma normalize_market_inv p ids m r : normalize_market p ids m = Ok r ->
  ids !! mks_EventID m = Some (market_EventID r) /\
  market_ID r = deterministicID p ("market:" +:+ mks_ProviderID m).
Proof.
  unfold normalize_market. destruct (ids !! mks_EventID m) as [i|]; [|done]. by intros [= <-].
Qed.
Lemma normalize_outcome_inv p ids o r : normalize_outcome p ids o = Ok r ->
  ids !! os_MarketID o = Some (outcome_MarketID r).
Proof.
  unfold normalize_outcome. destruct (ids !! os_MarketID o) as [i|]; [|done]. by intros [= <-].
Qed.
Lemma normalize_event_inv p sids lids e r : normalize_event p sids lids e = Ok r ->
  event_ID r = deterministicID p ("event:" +:+ es_ProviderID e) /\
  event_LeagueID r = default "" (lids !! es_LeagueID e) /\
  event_SportID r = default "" (sids !! es_SportID e) /\ times_parse e.
Proof.
  unfold normalize_event, times_parse. intros H.
  destruct (parse_time "starts_at" (es_StartsAt e)) as [t|?|?]; cbn in H; [|done|done].
  destruct (parse_time "score_updated_at" (es_ScoreUpdatedAt e)) as [t'|?|?]; cbn in H; [|done|done].
  injection H as <-. cbn. split_and!; try done; by eexists.
Qed.

Lemma assigned {A} p kind (pid : A -> string) xs k i :
  assign_ids p kind pid xs !! k = Some i ->
  exists x, x ∈ xs /\ pid x = k /\ i = deterministicID p (kind +:+ pid x).
Proof.
  rewrite assign_ids_lookup. case_decide as Hin; [|done]. intros [= <-].
  apply list_elem_of_fmap in Hin as (x & -> & Hx). by exists x.
Qed.

Lemma well_referenced_Ok snap : well_referenced snap -> exists n, NormalizeSnapshot snap = Ok n.
Proof.
  intros (Hl & He & Hm & Ho). unfold NormalizeSnapshot. cbv zeta.
  destruct (map_res_Ok (normalize_league (sn_Provider snap) (assign_ids (sn_Provider snap)
    "sport:" ss_ProviderID (sn_Sports snap))) (sn_Leagues snap)) as [ls ->].
  { intros l Hin. unfold normalize_league.
    rewrite assign_ids_lookup, decide_True by auto. by eexists. }
  cbn [mbind res_bind].
  match goal with |- context [map_res (normalize_event ?p ?s ?l) ?es] =>
    destruct (map_res_Ok (normalize_event p s l) es) as [evs ->] end.
  { intros e Hin. destruct (He e Hin) as [[t Ht] [t' Ht']]. unfold normalize_event.
    rewrite Ht. cbn [mbind res_bind]. rewrite Ht'. by eexists. }
  cbn [mbind res_bind].
  match goal with |- context [map_res (normalize_market ?p ?i) ?ms] =>
    destruct (map_res_Ok (normalize_market p i) ms) as [mks ->] end.
  { intros m Hin. unfold normalize_market.
    rewrite assign_ids_lookup, decide_True by auto. by eexists. }
  cbn [mbind res_bind].
  match goal with |- context [map_res (normalize_outcome ?p ?i) ?os] =>
    destruct (map_res_Ok (normalize_outcome p i) os) as [ous ->] end.
  { intros o Hin. unfold normalize_outcome.
    rewrite assign_ids_lookup, decide_True by auto. by eexists. }
  by eexists.
Qed.

Lemma Ok_well_referenced snap : (exists n, NormalizeSnapshot snap = Ok n) -> well_referenced snap.
Proof.
  intros [n Hn]. apply NormalizeSnapshot_inv in Hn as (_ & Hl & He & Hm & Ho).
  split_and!.
  + intros l Hin. destruct (Forall2_In_l _ _ _ _ Hl Hin) as (r & _ & [H _]%normalize_league_inv).
    apply assigned in H as (x & Hx & <- & _). by apply list_elem_of_fmap_2.
  + intros e Hin. destruct (Forall2_In_l _ _ _ _ He Hin) as (r & _ & Hr).
    by apply normalize_event_inv in Hr as (_ & _ & _ & ?).
  + intros m Hin. destruct (Forall2_In_l _ _ _ _ Hm Hin) as (r & _ & [H _]%normalize_market_inv).
    apply assigned in H as (x & Hx & <- & _). by apply list_elem_of_fmap_2.
  + intros o Hin. destruct (Forall2_In_l _ _ _ _ Ho Hin) as (r & _ & H%normalize_outcome_inv).
    apply assigned in H as (x & Hx & <- & _). by apply list_elem_of_fmap_2.
Qed.

Lemma normalized_integral snap n : NormalizeSnapshot snap = Ok n -> integral n /\
  length (nz_sports n) = length (sn_Sports snap) /\
  length (nz_leagues n) = length (sn_Leagues snap) /\
  length (nz_events n) = length (sn_Events snap) /\
  length (nz_markets n) = length (sn_Markets snap) /\
  length (nz_outcomes n) = length (sn_Outcomes snap).
Proof.
  intros Hn. apply NormalizeSnapshot_inv in Hn as (Hs & Hl & He & Hm & Ho).
  split; [|rewrite Hs, length_fmap; split_and!; try done; symmetry; by eapply Forall2_length].
  assert (forall l i, assign_ids (sn_Provider snap) "sport:" ss_ProviderID (sn_Sports snap) !! l
    = Some i -> exists sp, sp ∈ nz_sports n /\ sport_ID sp = i) as Hsport.
  { intros l i (x & Hx & _ & ->)%assigned. exists (normalize_sport (sn_Provider snap) x).
    rewrite Hs. split; [by apply list_elem_of_fmap_2|done]. }
  split_and!.
  + intros r Hin. destruct (Forall2_In_r _ _ _ _ Hl Hin) as (l & _ & [H _]%normalize_league_inv).
    by eapply Hsport.
  + intros r Hin. destruct (Forall2_In_r _ _ _ _ Hm Hin) as (m & _ & [H _]%normalize_market_inv).
    apply assigned in H as (x & Hx & _ & ->).
    destruct (Forall2_In_l _ _ _ _ He Hx) as (e & He' & [Hid _]%normalize_event_inv).
    by exists e.
  + intros r Hin. destruct (Forall2_In_r _ _ _ _ Ho Hin) as (o & _ & H%normalize_outcome_inv).
    apply assigned in H as (x & Hx & _ & ->).
    destruct (Forall2_In_l _ _ _ _ Hm Hx) as (m & Hm' & [_ Hid]%normalize_market_inv).
    by exists m.
  + intros r Hin. destruct (Forall2_In_r _ _ _ _ He Hin) as (e & _ & Hr).
    apply normalize_event_inv in Hr as (_ & -> & -> & _). split.
    * destruct (assign_ids _ _ ls_ProviderID _ !! es_LeagueID e) as [i|] eqn:Hi; [right|by left].
      apply assigned in Hi as (x & Hx & _ & ->).
      destruct (Forall2_In_l _ _ _ _ Hl Hx) as (l & Hl' & [_ Hid]%normalize_league_inv).
      by exists l.
    * destruct (assign_ids _ _ ss_ProviderID _ !! es_SportID e) as [i|] eqn:Hi; [right|by left].
      by eapply Hsport.
Qed.

(** C23.  A snapshot is normalized exactly when each league names a sport, each market an
    event and each outcome a market of the snapshot and the times parse; then there is
    one record for each entry, and every identifier that a record refers to is that of
    a record of the same snapshot (a league or sport that an event does not know is left
    empty). *)
Theorem NormalizeSnapshot_integrity snap :
  (well_referenced snap <-> exists n, NormalizeSnapshot snap = Ok n) /\
  forall n, NormalizeSnapshot snap = Ok n -> integral n /\
    length (nz_sports n) = length (sn_Sports snap) /\
    length (nz_leagues n) = length (sn_Leagues snap) /\
    length (nz_events n) = length (sn_Events snap) /\
    length (nz_markets n) = length (sn_Markets snap) /\
    length (nz_outcomes n) = length (sn_Outcomes snap).
Proof.
  split; [split; [apply well_referenced_Ok | apply Ok_well_referenced]|].
  apply normalized_integral.
Qed.
End Normalized.
