(* ===== verification/OddsSteps.v ===== *)
(** * OddsSteps: applying snapshots to a store that keeps its references

    [IntegralStore] is what a store promises to the odds feed service: an invariant that
    its upserts keep, the records that it then has, and what they hold.  From it follows that
    the service applies a normalized snapshot completely and changes nothing else, whatever
    Redis and the event bus answer.
    The in-memory and the Postgres store each discharge the promise. *)

From S2P Require Import Prelude GoStd GoJson OddsModels OddsStore Normalizer.
From S2P Require Import OddsService OddsProps.

(** The identifiers of the records a store has. *)
Class Records (T : Type) : Type := {
  has_sport : string -> T -> Prop;
  has_league : string -> T -> Prop;
  has_event : string -> T -> Prop;
  has_market : string -> T -> Prop;
}.

(** Nothing the store has gets lost. *)
Record grows `{Records T} (s s' : T) : Prop := {
  gr_sport : forall i, has_sport i s -> has_sport i s';
  gr_league : forall i, has_league i s -> has_league i s';
  gr_event : forall i, has_event i s -> has_event i s';
  gr_market : forall i, has_market i s -> has_market i s';
}.

Lemma grows_refl `{Records T} (s : T) : grows s s.
Proof. by constructor. Qed.
Lemma grows_trans `{Records T} (s1 s2 s3 : T) : grows s1 s2 -> grows s2 s3 -> grows s1 s3.
Proof. intros [] []. constructor; auto. Qed.

(** ** Contents *)

(** A record of one of the five kinds, and the key that an upsert looks it up by. *)
Inductive record : Type :=
| RSport (x : Sport)
| RLeague (x : League)
| REvent (x : Event)
| RMarket (x : Market)
| ROutcome (x : Outcome).
Definition rec_key (r : record) : nat * string * string :=
  match r with
  | RSport x => (0%nat, sport_Provider x, sport_ProviderSportID x)
  | RLeague x => (1%nat, league_Provider x, league_ProviderLeagueID x)
  | REvent x => (2%nat, event_Provider x, event_ProviderEventID x)
  | RMarket x => (3%nat, market_Provider x, market_ProviderMarketID x)
  | ROutcome x => (4%nat, outcome_Provider x, outcome_ProviderOutcomeID x)
  end.

(** [holds r s]: the store has the record with all of its fields, but for the times of its
    creation and last change, which the store sets. *)
Class Contents (T : Type) : Type := { holds : record -> T -> Prop }.

(** [r] is the last record of [rs] under its key. *)
Definition last_of (r : record) (rs : list record) : Prop :=
  exists rs1 rs2, rs = rs1 ++ r :: rs2 /\ (rec_key r ∉ rec_key <$> rs2).
(** [s'] is [s] after the records [rs] were stored in this order: it holds the last one of
    each key, and is unchanged at all other keys. *)
Definition writes `{CT : Contents T} (rs : list record) (s s' : T) : Prop :=
  (forall r, last_of r rs -> holds r s') /\
  (forall r, (rec_key r ∉ rec_key <$> rs) -> holds r s' <-> holds r s).

Lemma writes_nil `{CT : Contents T} (s : T) : writes [] s s.
Proof. split; [|done]. intros r (rs1 & rs2 & H & _). by destruct rs1. Qed.

(** One record: the others are those of another key. *)
Lemma writes_one `{CT : Contents T} r (s s' : T) : holds r s' ->
  (forall x, rec_key x <> rec_key r -> holds x s' <-> holds x s) -> writes [r] s s'.
Proof.
  intros Hr Ho. split.
  - intros x (rs1 & rs2 & Heq & _). destruct rs1 as [|y rs1]; [by injection Heq as <- _|].
    by destruct rs1.
  - intros x Hx. apply Ho. intros Heq. apply Hx. rewrite Heq. by left.
Qed.

Lemma last_of_app r rs rs' : last_of r (rs ++ rs') ->
  last_of r rs' \/ last_of r rs /\ (rec_key r ∉ rec_key <$> rs').
Proof.
  intros (l1 & l2 & Heq & Hno). apply app_eq_inv in Heq as [(k & -> & Hk)|(k & -> & Hk)].
  - destruct k as [|x k]; [left; exists [], l2; by cbn in *|]. injection Hk as <- ->.
    rewrite fmap_app, elem_of_app in Hno. right. split; [|naive_solver].
    exists l1, k. split; [done|naive_solver].
  - left. by exists k, l2.
Qed.

Lemma writes_app `{CT : Contents T} rs rs' (s s' s'' : T) :
  writes rs s s' -> writes rs' s' s'' -> writes (rs ++ rs') s s''.
Proof.
  intros [H1 K1] [H2 K2]. split.
  - intros r [Hr|[Hr Hno]]%last_of_app; [by apply H2|]. by apply K2, H1.
  - intros r Hno. rewrite fmap_app, elem_of_app in Hno. rewrite K2, K1; [done|naive_solver..].
Qed.

(** An upsert of the record [r]: it succeeds, keeps the invariant, loses nothing, and
    stores the record without touching any other. *)
Definition upserts `{RS : Records T, CT : Contents T} (inv : T -> Prop) (r : record) (m : M T string) (s : T)
    (post : T -> Prop) : Prop :=
  forall n, exists i n' s', m (mkWorld n s) = (Ok i, mkWorld n' s') /\ (n <= n')%nat /\
    inv s' /\ grows s s' /\ writes [r] s s' /\ post s'.

(** The records that the store takes, and what it needs besides to take an event. *)
Class IntegralStore (T : Type) {OS : OddsStore T} {RS : Records T} {CT : Contents T} : Type := {
  st_inv : T -> Prop;
  st_sport : Sport -> Prop;
  st_league : League -> Prop;
  st_event : Event -> T -> Prop;
  st_market : Market -> Prop;
  st_outcome : Outcome -> Prop;
  st_upsert_sport : forall x s, st_inv s -> st_sport x ->
    upserts st_inv (RSport x) (odds_UpsertSport x) s (has_sport (sport_ID x));
  st_upsert_league : forall x s, st_inv s -> st_league x -> has_sport (league_SportID x) s ->
    upserts st_inv (RLeague x) (odds_UpsertLeague x) s (has_league (league_ID x));
  st_upsert_event : forall x s, st_inv s -> st_event x s ->
    upserts st_inv (REvent x) (odds_UpsertEvent x) s (has_event (event_ID x));
  st_upsert_market : forall x s, st_inv s -> st_market x -> has_event (market_EventID x) s ->
    upserts st_inv (RMarket x) (odds_UpsertMarket x) s (has_market (market_ID x));
  st_upsert_outcome : forall x s, st_inv s -> st_outcome x -> has_market (outcome_MarketID x) s ->
    upserts st_inv (ROutcome x) (odds_UpsertOutcome x) s (fun _ => True);
}.

Section Steps.
Context {T : Type} `{OT : OddsStore T, RS : !Records T, CT : !Contents T, IS : !IntegralStore T}.
Context {S : Type} `{LO : Lens S T, LLO : !LensLaws LO}.
Context `{E : GoEnv, U : UuidSHA1, RH : RedisHash S, NC : NatsConn S}.
Context (publish_outside : forall subject p, outside (L := LO) (nats_Publish subject p)).
Context (exec_outside : forall cmds, outside (L := LO) (redis_Exec cmds)).
#[local] Existing Instance lens_OddsStore.
Implicit Types w : World S.
#[local] Abbreviation store_of := (part (L := LO)).

(** From a store with the invariant that satisfies [Pre], the call succeeds, keeps the
    integrity, loses nothing, stores exactly the records [rs] and establishes [Post]. *)
Definition step_ok {A} (rs : list record) (m : M S A) (Pre Post : T -> Prop) : Prop :=
  forall w, st_inv (store_of w) -> Pre (store_of w) ->
  exists a w', m w = (Ok a, w') /\ st_inv (store_of w') /\ grows (store_of w) (store_of w') /\
    writes rs (store_of w) (store_of w') /\ Post (store_of w').

Definition stable (P : T -> Prop) : Prop := forall s s', grows s s' -> P s -> P s'.

Lemma step_bind {A B} rs rs' (m : M S A) (f : A -> M S B) Pre Mid Post :
  step_ok rs m Pre Mid -> (forall a, step_ok rs' (f a) (fun s => Mid s) Post) ->
  step_ok (rs ++ rs') (m ≫= f) Pre Post.
Proof.
  intros Hm Hf w Hi Hp. destruct (Hm w Hi Hp) as (a & w1 & H1 & Hi1 & Hg1 & Hw1 & Hmid).
  destruct (Hf a w1 Hi1 Hmid) as (b & w2 & H2 & Hi2 & Hg2 & Hw2 & Hpost).
  exists b, w2. unfold mbind, M_bind. rewrite H1. split_and!; [done|done| | |done].
  - by eapply grows_trans.
  - by eapply writes_app.
Qed.

(** Followed by a call that stores nothing. *)
Lemma step_then {A B} rs (m : M S A) (f : A -> M S B) Pre Mid Post :
  step_ok rs m Pre Mid -> (forall a, step_ok [] (f a) (fun s => Mid s) Post) ->
  step_ok rs (m ≫= f) Pre Post.
Proof. intros Hm Hf. rewrite <- (app_nil_r rs). by eapply step_bind. Qed.

Lemma step_ext {A} rs (m m' : M S A) Pre Post : (forall w, m' w = m w) ->
  step_ok rs m' Pre Post -> step_ok rs m Pre Post.
Proof. intros H Hm w. rewrite <- H. apply Hm. Qed.

Lemma step_weaken {A} rs (m : M S A) (Pre Pre' Post Post' : T -> Prop) :
  step_ok rs m Pre Post -> (forall s, Pre' s -> Pre s) -> (forall s, Post s -> Post' s) ->
  step_ok rs m Pre' Post'.
Proof.
  intros H H1 H2 w Hi Hp. destruct (H w Hi (H1 _ Hp)) as (a & w' & ? & ? & ? & ? & ?).
  exists a, w'. split_and!; auto.
Qed.

(** A call that leaves the store alone, its error dropped. *)
Lemma step_ignore {A} (m : M S A) P : outside (L := LO) m -> step_ok [] (ignore m) P P.
Proof.
  intros [Hp _ Hr] w Hi HP. specialize (Hp w). specialize (Hr w).
  exists tt, (m w).2. unfold ignore, attempt, mbind, M_bind, mret, M_ret.
  assert (store_of (m w).2 = store_of w) as Heq by exact Hp.
  destruct (m w) as [[a|e|p] w']; cbn [fst snd] in *; [| |by destruct (Hr p)];
    rewrite Heq; split_and!; first [apply writes_nil|done].
Qed.

Lemma step_ret {A} (a : A) P : step_ok [] (mret a) P P.
Proof. intros w Hi HP. exists a, w. split_and!; first [apply writes_nil|done]. Qed.

Lemma step_emit sv subject i P : step_ok [] (maybeEmit sv subject i) P P.
Proof.
  unfold maybeEmit. destruct (osv_bus sv); [|apply step_ret].
  apply step_ignore. unfold EventBus_Publish. by apply outside_wrapped.
Qed.

Lemma step_upsert p r (m : M T string) (Pre Post : T -> Prop) :
  (forall s, st_inv s -> Pre s -> upserts st_inv r m s Post) ->
  step_ok [r] (wrapped p (zoom m)) Pre Post.
Proof.
  intros Hm [n st] Hi HP. destruct (Hm (store_of (mkWorld n st)) Hi HP n)
    as (i & n' & s' & Heq & _ & Hi' & Hg & Hw & Hpost).
  exists i, (mkWorld n' (lset s' st)). unfold wrapped, zoom. cbn [w_tick w_st].
  change (lget st) with (store_of (mkWorld n st)). rewrite Heq.
  unfold part. cbn [w_st w_tick wrap_res]. rewrite !lget_lset. by split_and!.
Qed.

Lemma step_for_each {A} (rec : A -> record) (xs : list A) (body : A -> M S unit) (Pre : T -> Prop)
    (Post : A -> T -> Prop) :
  stable Pre -> (forall x, stable (Post x)) ->
  (forall x, x ∈ xs -> step_ok [rec x] (body x) Pre (Post x)) ->
  step_ok (rec <$> xs) (for_each xs body) Pre (fun s => Pre s /\ forall x, x ∈ xs -> Post x s).
Proof.
  intros HPre HPost. induction xs as [|x xs IH]; intros Hb; cbn [for_each].
  - intros w Hi HP. exists tt, w. split_and!; [done|done|apply grows_refl|apply writes_nil|done|].
    by intros x Hx%elem_of_nil.
  - intros w Hi HP. destruct (Hb x ltac:(by left) w Hi HP) as ([] & w1 & H1 & Hi1 & Hg1 & Hw1 & Hx).
    destruct (IH (fun y Hy => Hb y (list_elem_of_further _ _ _ Hy)) w1 Hi1 (HPre _ _ Hg1 HP))
      as ([] & w2 & H2 & Hi2 & Hg2 & Hw2 & HP2 & Hxs).
    exists tt, w2. unfold mbind, M_bind. rewrite H1. split_and!;
      [done|done|by eapply grows_trans|exact (writes_app [rec x] _ _ _ _ Hw1 Hw2)|done|].
    intros y [->|Hy]%elem_of_cons; [by eapply HPost|by apply Hxs].
Qed.

(** ** Applying a snapshot *)

Lemma stable_sport i : stable (has_sport i).
Proof. intros s s' []. auto. Qed.
Lemma stable_league i : stable (has_league i).
Proof. intros s s' []. auto. Qed.
Lemma stable_event i : stable (has_event i).
Proof. intros s s' []. auto. Qed.
Lemma stable_market i : stable (has_market i).
Proof. intros s s' []. auto. Qed.
Lemma stable_all {A} (xs : list A) (P : A -> T -> Prop) :
  (forall x, stable (P x)) -> stable (fun s => forall x, x ∈ xs -> P x s).
Proof. intros H s s' Hg HP x Hx. eapply H; eauto. Qed.
Lemma stable_and P Q : stable P -> stable Q -> stable (fun s => P s /\ Q s).
Proof. intros HP HQ s s' Hg [? ?]. split; eauto. Qed.
Lemma stable_True : stable (fun _ => True).
Proof. done. Qed.

Lemma step_events sv (P : T -> Prop) es : stable P -> forall live,
  (forall e s, e ∈ es -> P s -> st_event e s) ->
  step_ok (REvent <$> es) (apply_events sv es live) P
    (fun s => P s /\ forall e, e ∈ es -> has_event (event_ID e) s).
Proof.
  intros HP. induction es as [|e es IH]; intros live Hg; cbn [apply_events].
  - intros w Hi Hp. exists live, w. split_and!; [done|done|apply grows_refl|apply writes_nil|done|].
    by intros x Hx%elem_of_nil.
  - intros w Hi Hp.
    assert (step_ok [REvent e] (id ← wrapped "upsert event" (odds_UpsertEvent e);
      maybeEmit sv "feed.event.updated" id) P (has_event (event_ID e))) as Hone.
    { eapply step_then; [|intros; apply step_emit]. apply step_upsert.
      intros s Hs Hps. apply st_upsert_event; [done|]. apply Hg; [by left|done]. }
    destruct (Hone w Hi Hp) as ([] & w1 & H1 & Hi1 & Hg1 & Hw1 & Hx).
    pose proof (HP _ _ Hg1 Hp) as Hp1.
    pose proof (fun live => IH live (fun y s Hy => Hg y s (list_elem_of_further _ _ _ Hy)) w1 Hi1 Hp1)
      as IH'.
    unfold mbind, M_bind in *.
    destruct (wrapped "upsert event" (odds_UpsertEvent e) w) as [[i|er|p] w0]; [|done|done].
    rewrite H1.
    match goal with |- context [apply_events sv es ?l w1] =>
      destruct (IH' l) as (a & w2 & H2 & Hi2 & Hg2 & Hw2 & Hp2 & Hxs) end.
    exists a, w2. split_and!;
      [done|done|by eapply grows_trans|exact (writes_app [REvent e] _ _ _ _ Hw1 Hw2)|done|].
    intros y [->|Hy]%elem_of_cons; [by eapply stable_event|by apply Hxs].
Qed.

Lemma outside_ids ttl sportID ids : outside (L := LO) (Cache_SetLiveEventIDs ttl sportID ids).
Proof. apply exec_outside. Qed.

Lemma step_all {A} (xs : list A) (body : A -> M S unit) P :
  (forall x, step_ok [] (body x) P P) -> step_ok [] (for_each xs body) P P.
Proof.
  intros Hb. induction xs as [|x xs IH]; cbn [for_each]; [apply step_ret|].
  eapply step_then; [apply Hb|]. intros _. exact IH.
Qed.

Lemma step_range {V} (m : gmap string V) P : step_ok [] (range m : M S _) P P.
Proof.
  intros [n s] Hi HP. unfold range. unmonad. do 2 eexists. split; [reflexivity|].
  change (store_of (mkWorld (Datatypes.S n) s)) with (store_of (mkWorld n s)).
  split_and!; first [apply writes_nil|done].
Qed.

(** The records of a normalized snapshot, in the order in which they are stored. *)
Definition hierarchy_records (n : Normalized) : list record :=
  ((RSport <$> nz_sports n) ++ (RLeague <$> nz_leagues n)) ++ (REvent <$> nz_events n).
Definition snapshot_records (n : Normalized) : list record :=
  hierarchy_records n ++ ((RMarket <$> nz_markets n) ++ (ROutcome <$> nz_outcomes n)).

(** The hierarchy of a normalized snapshot is stored. *)
Definition parents_stored (n : Normalized) (s : T) : Prop :=
  (forall x, x ∈ nz_sports n -> has_sport (sport_ID x) s) /\
  (forall x, x ∈ nz_leagues n -> has_league (league_ID x) s).
Definition all_stored (n : Normalized) (s : T) : Prop :=
  parents_stored n s /\
  (forall x, x ∈ nz_events n -> has_event (event_ID x) s) /\
  (forall x, x ∈ nz_markets n -> has_market (market_ID x) s).

(** The store takes the records, events once their parents are there. *)
Record storable (n : Normalized) : Prop := {
  so_sports : forall x, x ∈ nz_sports n -> st_sport x;
  so_leagues : forall x, x ∈ nz_leagues n -> st_league x;
  so_events : forall x s, x ∈ nz_events n -> parents_stored n s -> st_event x s;
  so_markets : forall x, x ∈ nz_markets n -> st_market x;
  so_outcomes : forall x, x ∈ nz_outcomes n -> st_outcome x;
}.

#[local] Abbreviation sports_in n := (fun s : T => forall x, x ∈ nz_sports n -> has_sport (sport_ID x) s).
#[local] Abbreviation events_in n := (fun s : T => forall x, x ∈ nz_events n -> has_event (event_ID x) s).
#[local] Abbreviation markets_in n := (fun s : T => forall x, x ∈ nz_markets n -> has_market (market_ID x) s).

Lemma stable_parents n : stable (parents_stored n).
Proof.
  apply stable_and; apply stable_all; intros x; [apply stable_sport|apply stable_league].
Qed.

Lemma step_parents sv n : integral n -> storable n ->
  step_ok ((RSport <$> nz_sports n) ++ (RLeague <$> nz_leagues n)) (for_each (nz_sports n) (fun sp =>
      id ← wrapped "upsert sport" (odds_UpsertSport sp); maybeEmit sv "feed.sport.updated" id);;
    for_each (nz_leagues n) (fun l =>
      id ← wrapped "upsert league" (odds_UpsertLeague l); maybeEmit sv "feed.league.updated" id))
    (fun _ => True) (parents_stored n).
Proof.
  intros (Il & _) Hn. eapply step_bind with (Mid := sports_in n).
  { eapply step_weaken; [apply (step_for_each RSport _ _ (fun _ => True) (fun x => has_sport (sport_ID x)));
      [apply stable_True|intros x; apply stable_sport|]
    |intros s H; exact H|intros s [_ H]; exact H].
    intros x Hx. eapply step_then; [|intros; apply step_emit].
    apply step_upsert. intros s Hs _. by apply st_upsert_sport, (so_sports _ Hn). }
  intros _. apply (step_for_each RLeague _ _ (sports_in n) (fun x => has_league (league_ID x)));
    [apply stable_all; intros x; apply stable_sport|intros x; apply stable_league|].
  intros l Hl. eapply step_then; [|intros; apply step_emit].
  destruct (Il l Hl) as (sp & Hsp & Hid). apply step_upsert. intros s Hs Hin.
  apply st_upsert_league; [done|by apply (so_leagues _ Hn)|]. rewrite <- Hid. by apply Hin.
Qed.

Lemma step_hierarchy sv n : integral n -> storable n ->
  step_ok (hierarchy_records n) (applyHierarchy sv (nz_sports n) (nz_leagues n) (nz_events n)) (fun _ => True)
    (fun s => parents_stored n s /\ events_in n s).
Proof.
  intros Ht Hn. unfold applyHierarchy. eapply step_ext; [intros w; apply bind_assoc|].
  eapply step_bind; [by apply step_parents|]. intros _.
  eapply step_then with (Mid := fun s => parents_stored n s /\ events_in n s).
  { apply step_events; [apply stable_parents|]. intros e s He Hp. by apply (so_events _ Hn). }
  intros live. destruct (osv_cache sv) as [ttl|]; [|apply step_ret].
  eapply step_then; [apply step_range|]. intros lives.
  apply step_all. intros [sportID ids]. apply step_ignore, outside_ids.
Qed.

Lemma step_markets sv n : integral n -> storable n ->
  step_ok ((RMarket <$> nz_markets n) ++ (ROutcome <$> nz_outcomes n))
    (applyMarkets sv (nz_markets n) (nz_outcomes n))
    (fun s => parents_stored n s /\ events_in n s) (all_stored n).
Proof.
  intros (_ & Im & Io & _) Hn.
  assert (stable (fun s => parents_stored n s /\ events_in n s)) as Hst.
  { apply stable_and; [apply stable_parents|]. apply stable_all. intros x. apply stable_event. }
  assert (stable (all_stored n)) as Hst'.
  { apply stable_and; [apply stable_parents|]. apply stable_and; apply stable_all; intros x;
      [apply stable_event|apply stable_market]. }
  unfold applyMarkets. eapply step_bind with (Mid := all_stored n).
  { eapply step_weaken; [apply (step_for_each RMarket _ _ _ (fun x => has_market (market_ID x)) Hst);
      [intros x; apply stable_market|]|intros s H; exact H|intros s [[? ?] ?]; by split_and!].
    intros m Hm. eapply step_then; [|intros; apply step_emit].
    destruct (Im m Hm) as (e & He & Hid). apply step_upsert. intros s Hs [_ Hin].
    apply st_upsert_market; [done|by apply (so_markets _ Hn)|]. rewrite <- Hid. by apply Hin. }
  intros _. eapply step_weaken; [apply (step_for_each ROutcome _ _ (all_stored n) (fun _ _ => True) Hst');
    [intros _; apply stable_True|]|intros s H; exact H|intros s [H _]; exact H].
  intros o Ho. eapply step_then with (Mid := fun _ => True).
  { destruct (Io o Ho) as (m & Hm & Hid). apply step_upsert. intros s Hs (_ & _ & Hin).
    apply st_upsert_outcome; [done|by apply (so_outcomes _ Hn)|]. rewrite <- Hid. by apply Hin. }
  intros i. eapply step_then; [|intros; apply step_emit].
  unfold maybeCache. destruct (osv_cache sv); [|apply step_ret].
  apply step_ignore, exec_outside.
Qed.

(** A snapshot that normalizes to records the store takes is applied completely, and nothing
    else is written. *)
Lemma apply_snapshot_ok sv snap n w : NormalizeSnapshot snap = Ok n -> storable n ->
  st_inv (store_of w) ->
  exists w', applySnapshot sv snap w = (Ok tt, w') /\ st_inv (store_of w') /\
    grows (store_of w) (store_of w') /\ all_stored n (store_of w') /\
    writes (snapshot_records n) (store_of w) (store_of w').
Proof.
  intros Hn Hs Hi. destruct (normalized_integral snap n Hn) as (Ht & _).
  unfold applySnapshot. rewrite Hn.
  assert (step_ok (snapshot_records n) (applyHierarchy sv (nz_sports n) (nz_leagues n) (nz_events n);;
    applyMarkets sv (nz_markets n) (nz_outcomes n)) (fun _ => True) (all_stored n)) as H.
  { eapply step_bind; [by apply step_hierarchy|]. intros _. by apply step_markets. }
  destruct (H w Hi I) as ([] & w' & Heq & Hi' & Hg & Hw & Ha). by exists w'.
Qed.
End Steps.
