(* ===== verification/OddsIntegrity.v ===== *)
(** * OddsIntegrity: references inside the odds store

    Records are filed under provider and provider id, carry name-based identifiers, and
    refer to records that the store has.  Applying a snapshot keeps this, so that a bet
    can always be followed from its outcome to its market and event. *)

From S2P Require Import Prelude GoStd GoJson Demo OddsModels OddsStore Normalizer.
From S2P Require Import OddsService OddsProps OddsSteps WalletService.

(** ** Maps from provider keys to records *)
Section Keyed.
Context {R : Type} (prov pid id : R -> string) (mkid : R -> string).

Definition key_of (r : R) : string := prov r +:+ ":" +:+ pid r.
(** A record whose provider's name has no colon and whose identifier is name-based. *)
Definition good (r : R) : Prop := colon_free (prov r) /\ id r = mkid r.
Definition keyed (m : gmap string R) : Prop :=
  forall k r, m !! k = Some r -> k = key_of r /\ good r.
Definition has (i : string) (m : gmap string R) : Prop := exists k r, m !! k = Some r /\ id r = i.

Context (mkid_ext : forall r r', prov r = prov r' -> pid r = pid r' -> mkid r = mkid r').

Lemma key_of_inj r r' : colon_free (prov r) -> colon_free (prov r') ->
  key_of r = key_of r' -> prov r = prov r' /\ pid r = pid r'.
Proof. intros H H' E. by apply (pair_key_inj (prov r) (pid r)). Qed.

(** Storing [r'] where the upsert of [r] puts it. *)
Lemma keyed_upsert m r r' : keyed m -> good r ->
  match m !! key_of r with
  | Some ex => prov r' = prov ex /\ pid r' = pid ex /\ id r' = id ex
  | None => prov r' = prov r /\ pid r' = pid r /\ id r' = id r
  end ->
  let m' := <[key_of r := r']> m in
  keyed m' /\ has (id r) m' /\ (forall i, has i m -> has i m') /\
  (forall k x, m' !! k = Some x -> m !! k = Some x \/ x = r') /\
  (prov r' = prov r /\ pid r' = pid r /\ id r' = id r).
Proof.
  intros Hm [Hc Hi] Hr m'.
  assert (prov r' = prov r /\ pid r' = pid r /\ id r' = id r) as (Hp & Hq & Hid).
  { destruct (m !! key_of r) as [ex|] eqn:Hex; [|done].
    destruct Hr as (-> & -> & ->). destruct (Hm _ _ Hex) as (Hk & Hcx & Hix).
    apply key_of_inj in Hk as [Hp Hq]; [|done|done].
    split_and!; [done|done|]. rewrite Hix, Hi. by apply mkid_ext. }
  split; [|split; [|split; [|split]]].
  - intros k x. unfold m'. intros [[<- <-]|[_ Hx]]%lookup_insert_Some; [|by apply Hm].
    unfold good, key_of. rewrite Hp, Hq, Hid. split_and!; [done|done|].
    rewrite Hi. symmetry. by apply mkid_ext.
  - exists (key_of r), r'. unfold m'. by rewrite lookup_insert_eq.
  - intros i (k & x & Hx & Hxi). destruct (decide (k = key_of r)) as [->|Hne].
    + exists (key_of r), r'. unfold m'. rewrite lookup_insert_eq. split; [done|].
      rewrite Hx in Hr. destruct Hr as (_ & _ & ->). done.
    + exists k, x. unfold m'. by rewrite lookup_insert_ne.
  - intros k x. unfold m'. intros [[_ <-]|[_ Hx]]%lookup_insert_Some; auto.
  - done.
Qed.

(** The map holds [r], its times aside. *)
Context (untimed : R -> R).
Definition filed (r : R) (m : gmap string R) : Prop :=
  exists x, m !! key_of r = Some x /\ untimed x = untimed r.

Lemma filed_upsert m r r' :
  (forall x y, untimed x = untimed y -> prov x = prov y /\ pid x = pid y) ->
  keyed m -> good r -> untimed r' = untimed r ->
  let m' := <[key_of r := r']> m in
  filed r m' /\ forall x, (prov x, pid x) <> (prov r, pid r) -> filed x m' <-> filed x m.
Proof.
  intros Hext Hm [Hc _] Hr m'. split.
  { exists r'. unfold m'. by rewrite lookup_insert_eq. }
  intros x Hne. unfold filed, m'.
  destruct (decide (key_of r = key_of x)) as [Heq|Hk]; [|by rewrite lookup_insert_ne].
  rewrite Heq, lookup_insert_eq. split.
  - intros (y & [= <-] & Hy). destruct Hne. rewrite Hr in Hy.
    by destruct (Hext _ _ Hy) as [-> ->].
  - intros (y & Hy & Hyx). destruct Hne. destruct (Hm _ _ Hy) as (Hky & Hcy & _).
    destruct (Hext _ _ Hyx) as [<- <-]. rewrite <- Heq in Hky.
    apply key_of_inj in Hky as [-> ->]; done.
Qed.
End Keyed.

Section Integrity.
Context `{E : GoEnv, U : UuidSHA1}.
Context (sha1_nonempty : forall x, NewSHA1 x <> "").

Definition sport_mkid (x : Sport) : string :=
  deterministicID (sport_Provider x) ("sport:" +:+ sport_ProviderSportID x).
Definition league_mkid (x : League) : string :=
  deterministicID (league_Provider x) ("league:" +:+ league_ProviderLeagueID x).
Definition event_mkid (x : Event) : string :=
  deterministicID (event_Provider x) ("event:" +:+ event_ProviderEventID x).
Definition market_mkid (x : Market) : string :=
  deterministicID (market_Provider x) ("market:" +:+ market_ProviderMarketID x).
Definition outcome_mkid (x : Outcome) : string :=
  deterministicID (outcome_Provider x) ("outcome:" +:+ outcome_ProviderOutcomeID x).

Definition good_sport : Sport -> Prop := good sport_Provider sport_ID sport_mkid.
Definition good_league : League -> Prop := good league_Provider league_ID league_mkid.
Definition good_event : Event -> Prop := good event_Provider event_ID event_mkid.
Definition good_market : Market -> Prop := good market_Provider market_ID market_mkid.
Definition good_outcome : Outcome -> Prop := good outcome_Provider outcome_ID outcome_mkid.

#[export] Instance memory_records : Records oddsMemory := {
  has_sport i s := has sport_ID i (om_sports s);
  has_league i s := has league_ID i (om_leagues s);
  has_event i s := has event_ID i (om_events s);
  has_market i s := has market_ID i (om_markets s);
}.

(** The records without the times that the store sets. *)
Definition sport_untimed (x : Sport) : Sport :=
  mkSport (sport_ID x) (sport_Provider x) (sport_ProviderSportID x) (sport_Slug x) (sport_Name x) 0 0.
Definition league_untimed (x : League) : League :=
  mkLeague (league_ID x) (league_Provider x) (league_ProviderLeagueID x) (league_SportID x)
    (league_Name x) (league_Country x) 0 0.
Definition event_untimed (x : Event) : Event :=
  mkEvent (event_ID x) (event_Provider x) (event_ProviderEventID x) (event_LeagueID x)
    (event_SportID x) (event_HomeParticipant x) (event_AwayParticipant x) (event_StartsAt x)
    (event_Status x) (event_HomeScore x) (event_AwayScore x) (event_ScoreUpdatedAt x)
    (event_Metadata x) 0 0.
Definition market_untimed (x : Market) : Market :=
  mkMarket (market_ID x) (market_Provider x) (market_ProviderMarketID x) (market_EventID x)
    (market_Type x) (market_Name x) (market_Line x) (market_Status x) (market_Metadata x) 0 0.
Definition outcome_untimed (x : Outcome) : Outcome :=
  mkOutcome (outcome_ID x) (outcome_Provider x) (outcome_ProviderOutcomeID x) (outcome_MarketID x)
    (outcome_Name x) (outcome_Odds x) (outcome_Status x) (outcome_Metadata x) 0 0.

#[export] Instance memory_contents : Contents oddsMemory := {
  holds r s :=
    match r with
    | RSport x => filed sport_Provider sport_ProviderSportID sport_untimed x (om_sports s)
    | RLeague x => filed league_Provider league_ProviderLeagueID league_untimed x (om_leagues s)
    | REvent x => filed event_Provider event_ProviderEventID event_untimed x (om_events s)
    | RMarket x => filed market_Provider market_ProviderMarketID market_untimed x (om_markets s)
    | ROutcome x =>
        filed outcome_Provider outcome_ProviderOutcomeID outcome_untimed x (om_outcomes s)
    end
}.

(** The integrity of the store. *)
Record odds_inv (s : oddsMemory) : Prop := {
  oi_sports : keyed sport_Provider sport_ProviderSportID sport_ID sport_mkid (om_sports s);
  oi_leagues : keyed league_Provider league_ProviderLeagueID league_ID league_mkid (om_leagues s);
  oi_events : keyed event_Provider event_ProviderEventID event_ID event_mkid (om_events s);
  oi_markets : keyed market_Provider market_ProviderMarketID market_ID market_mkid (om_markets s);
  oi_outcomes :
    keyed outcome_Provider outcome_ProviderOutcomeID outcome_ID outcome_mkid (om_outcomes s);
  oi_league_sport : forall k l, om_leagues s !! k = Some l -> has_sport (league_SportID l) s;
  oi_market_event : forall k m, om_markets s !! k = Some m -> has_event (market_EventID m) s;
  oi_outcome_market : forall k o, om_outcomes s !! k = Some o -> has_market (outcome_MarketID o) s;
}.

Lemma odds_inv_empty : odds_inv NewOddsMemory.
Proof.
  constructor; unfold keyed; intros k r H; cbn in H; by rewrite lookup_empty in H.
Qed.

Lemma id_nonempty x : deterministicID x.1 x.2 <> "".
Proof. apply sha1_nonempty. Qed.

(** A name-based identifier is kept, not replaced by a fresh one. *)
Lemma id_or_new_id i (n : nat) (s : oddsMemory) : i <> "" ->
  id_or_new i (mkWorld n s) = (Ok i, mkWorld n s).
Proof. intros H. unfold id_or_new. by rewrite decide_False. Qed.

(** The common course of the five upserts: [K] is [keyed_upsert] for the record at hand and
    [set] the assignment to its map. *)
#[local] Ltac upsert_tac K set :=
  unfold time_now; unfold mbind, M_bind, get, tick, modify, mret, M_ret;
  cbn [w_tick w_st];
  match type of K with forall r, match ?m !! ?k with _ => _ end -> _ =>
    change (m !! k) with (m !! k); destruct (m !! k) as [ex|] end;
  rewrite ?id_or_new_id by done; cbn [w_tick w_st];
  match goal with |- context [set _ ?r _] =>
    destruct (K r) as (K1 & K2 & K3 & K4 & K5); [done|] end;
  do 3 eexists; (split; [reflexivity|]); (split; [lia|]).

(** The contents afterwards: [F] is [filed_upsert] for the record at hand, and [K] says that
    its provider, provider id and identifier are those of the upserted one. *)
#[local] Ltac writes_tac F K set untimed :=
  match goal with |- context [set _ ?r _] =>
    let W := fresh in let V := fresh in
    destruct (F r) as [W V];
      [unfold untimed; cbn in K |- *; destruct K as (? & ? & ?); congruence|];
    apply writes_one; [exact W|]; intros [y|y|y|y|y] Hy; try done;
    apply V; cbn in Hy; congruence
  end.

Lemma upsert_sport x s : odds_inv s -> good_sport x ->
  upserts odds_inv (RSport x) (oddsMemory_UpsertSport x) s (has_sport (sport_ID x)).
Proof.
  intros Hi Hg n.
  pose proof (fun r' => keyed_upsert sport_Provider sport_ProviderSportID sport_ID sport_mkid
    ltac:(unfold sport_mkid; congruence) (om_sports s) x r' (oi_sports _ Hi) Hg) as K.
  pose proof (fun r' => filed_upsert sport_Provider sport_ProviderSportID sport_ID sport_mkid
    sport_untimed (om_sports s) x r' ltac:(unfold sport_untimed; intros ?? [=]; done) (oi_sports _ Hi) Hg) as F.
  assert (sport_ID x <> "") as Hne by (rewrite (proj2 Hg); apply sha1_nonempty).
  unfold oddsMemory_UpsertSport.
  change (sportKey _ _) with (key_of sport_Provider sport_ProviderSportID x).
  upsert_tac K om_set_sport.
  all: split; [|split; [by constructor; intros i Hx; try apply K3; exact Hx|split; [|exact K2]]].
  all: try writes_tac F K5 om_set_sport sport_untimed.
  all: constructor; try apply Hi; [exact K1|]; intros k l Hl; apply K3;
    exact (oi_league_sport _ Hi _ _ Hl).
Qed.

Lemma upsert_league x s : odds_inv s -> good_league x -> has_sport (league_SportID x) s ->
  upserts odds_inv (RLeague x) (oddsMemory_UpsertLeague x) s (has_league (league_ID x)).
Proof.
  intros Hi Hg Hr n.
  pose proof (fun r' => keyed_upsert league_Provider league_ProviderLeagueID league_ID league_mkid
    ltac:(unfold league_mkid; congruence) (om_leagues s) x r' (oi_leagues _ Hi) Hg) as K.
  pose proof (fun r' => filed_upsert league_Provider league_ProviderLeagueID league_ID league_mkid
    league_untimed (om_leagues s) x r' ltac:(unfold league_untimed; intros ?? [=]; done) (oi_leagues _ Hi) Hg) as F.
  assert (league_ID x <> "") as Hne by (rewrite (proj2 Hg); apply sha1_nonempty).
  unfold oddsMemory_UpsertLeague.
  change (leagueKey _ _) with (key_of league_Provider league_ProviderLeagueID x).
  upsert_tac K om_set_league.
  all: split; [|split; [by constructor; intros i Hx; try apply K3; exact Hx|split; [|exact K2]]].
  all: try writes_tac F K5 om_set_league league_untimed.
  all: constructor; try apply Hi; [exact K1|]; intros k l Hl; apply K4 in Hl as [Hl| ->];
    [by apply (oi_league_sport _ Hi) in Hl | exact Hr].
Qed.

Lemma upsert_event x s : odds_inv s -> good_event x ->
  upserts odds_inv (REvent x) (oddsMemory_UpsertEvent x) s (has_event (event_ID x)).
Proof.
  intros Hi Hg n.
  pose proof (fun r' => keyed_upsert event_Provider event_ProviderEventID event_ID event_mkid
    ltac:(unfold event_mkid; congruence) (om_events s) x r' (oi_events _ Hi) Hg) as K.
  pose proof (fun r' => filed_upsert event_Provider event_ProviderEventID event_ID event_mkid
    event_untimed (om_events s) x r' ltac:(unfold event_untimed; intros ?? [=]; done) (oi_events _ Hi) Hg) as F.
  assert (event_ID x <> "") as Hne by (rewrite (proj2 Hg); apply sha1_nonempty).
  unfold oddsMemory_UpsertEvent.
  change (eventKey _ _) with (key_of event_Provider event_ProviderEventID x).
  upsert_tac K om_set_event.
  all: split; [|split; [by constructor; intros i Hx; try apply K3; exact Hx|split; [|exact K2]]].
  all: try writes_tac F K5 om_set_event event_untimed.
  all: constructor; try apply Hi; [exact K1|]; intros k l Hl; apply K3;
    exact (oi_market_event _ Hi _ _ Hl).
Qed.

Lemma upsert_market x s : odds_inv s -> good_market x -> has_event (market_EventID x) s ->
  upserts odds_inv (RMarket x) (oddsMemory_UpsertMarket x) s (has_market (market_ID x)).
Proof.
  intros Hi Hg Hr n.
  pose proof (fun r' => keyed_upsert market_Provider market_ProviderMarketID market_ID market_mkid
    ltac:(unfold market_mkid; congruence) (om_markets s) x r' (oi_markets _ Hi) Hg) as K.
  pose proof (fun r' => filed_upsert market_Provider market_ProviderMarketID market_ID market_mkid
    market_untimed (om_markets s) x r' ltac:(unfold market_untimed; intros ?? [=]; done) (oi_markets _ Hi) Hg) as F.
  assert (market_ID x <> "") as Hne by (rewrite (proj2 Hg); apply sha1_nonempty).
  unfold oddsMemory_UpsertMarket.
  change (marketKey _ _) with (key_of market_Provider market_ProviderMarketID x).
  upsert_tac K om_set_market.
  all: split; [|split; [by constructor; intros i Hx; try apply K3; exact Hx|split; [|exact K2]]].
  all: try writes_tac F K5 om_set_market market_untimed.
  all: constructor; try apply Hi; [exact K1| |intros k l Hl; apply K3;
    exact (oi_outcome_market _ Hi _ _ Hl)]; intros k l Hl; apply K4 in Hl as [Hl| ->];
    [by apply (oi_market_event _ Hi) in Hl | exact Hr].
Qed.

Lemma upsert_outcome x s : odds_inv s -> good_outcome x -> has_market (outcome_MarketID x) s ->
  upserts odds_inv (ROutcome x) (oddsMemory_UpsertOutcome x) s (fun _ => True).
Proof.
  intros Hi Hg Hr n.
  pose proof (fun r' => keyed_upsert outcome_Provider outcome_ProviderOutcomeID outcome_ID outcome_mkid
    ltac:(unfold outcome_mkid; congruence) (om_outcomes s) x r' (oi_outcomes _ Hi) Hg) as K.
  pose proof (fun r' => filed_upsert outcome_Provider outcome_ProviderOutcomeID outcome_ID outcome_mkid
    outcome_untimed (om_outcomes s) x r' ltac:(unfold outcome_untimed; intros ?? [=]; done) (oi_outcomes _ Hi) Hg) as F.
  assert (outcome_ID x <> "") as Hne by (rewrite (proj2 Hg); apply sha1_nonempty).
  unfold oddsMemory_UpsertOutcome.
  change (outcomeKey _ _) with (key_of outcome_Provider outcome_ProviderOutcomeID x).
  upsert_tac K om_set_outcome.
  all: split; [|split; [by constructor; intros i Hx; try apply K3; exact Hx|split; [|done]]].
  all: try writes_tac F K5 om_set_outcome outcome_untimed.
  all: constructor; try apply Hi; [exact K1|]; intros k l Hl; apply K4 in Hl as [Hl| ->];
    [by apply (oi_outcome_market _ Hi) in Hl | exact Hr].
Qed.

#[export] Instance memory_integral : IntegralStore oddsMemory := {
  st_inv := odds_inv;
  st_sport := good_sport;
  st_league := good_league;
  st_event x _ := good_event x;
  st_market := good_market;
  st_outcome := good_outcome;
  st_upsert_sport := upsert_sport;
  st_upsert_league := upsert_league;
  st_upsert_event := upsert_event;
  st_upsert_market := upsert_market;
  st_upsert_outcome := upsert_outcome;
}.

Lemma normalized_good snap n : NormalizeSnapshot snap = Ok n -> colon_free (sn_Provider snap) ->
  (forall x, x ∈ nz_sports n -> good_sport x) /\ (forall x, x ∈ nz_leagues n -> good_league x) /\
  (forall x, x ∈ nz_events n -> good_event x) /\ (forall x, x ∈ nz_markets n -> good_market x) /\
  (forall x, x ∈ nz_outcomes n -> good_outcome x).
Proof.
  intros H Hc. apply NormalizeSnapshot_inv in H as (Hs & Hl & He & Hm & Ho). split_and!.
  - rewrite Hs. intros x (y & -> & _)%list_elem_of_fmap. by split.
  - intros x Hin. destruct (Forall2_In_r _ _ _ _ Hl Hin) as (y & _ & Hy).
    unfold normalize_league in Hy. destruct (_ !! _); [|done]. by injection Hy as <-.
  - intros x Hin. destruct (Forall2_In_r _ _ _ _ He Hin) as (y & _ & Hy).
    unfold normalize_event in Hy.
    destruct (parse_time "starts_at" _); cbn in Hy; [|done|done].
    destruct (parse_time "score_updated_at" _); cbn in Hy; [|done|done]. by injection Hy as <-.
  - intros x Hin. destruct (Forall2_In_r _ _ _ _ Hm Hin) as (y & _ & Hy).
    unfold normalize_market in Hy. destruct (_ !! _); [|done]. by injection Hy as <-.
  - intros x Hin. destruct (Forall2_In_r _ _ _ _ Ho Hin) as (y & _ & Hy).
    unfold normalize_outcome in Hy. destruct (_ !! _); [|done]. by injection Hy as <-.
Qed.

Lemma normalized_storable snap n : NormalizeSnapshot snap = Ok n -> colon_free (sn_Provider snap) ->
  storable n.
Proof.
  intros Hn Hc. destruct (normalized_good snap n Hn Hc) as (Gs & Gl & Ge & Gm & Go).
  constructor; auto. intros x s Hx _. by apply Ge.
Qed.

(** ** The service, next to Redis and the event bus *)
Context {S : Type} `{LO : Lens S oddsMemory, LLO : !LensLaws LO}.
Context `{RH : RedisHash S, NC : NatsConn S}.
Context (publish_outside : forall subject p, outside (L := LO) (nats_Publish subject p)).
Context (exec_outside : forall cmds, outside (L := LO) (redis_Exec cmds)).
#[local] Existing Instance lens_OddsStore.
Implicit Types w : World S.

Definition odds_of (w : World S) : oddsMemory := part (L := LO) w.

(** C24.  Applying a snapshot keeps the integrity of the odds store: records are filed
    under their provider's key with name-based identifiers, and every league's sport,
    market's event and outcome's market is in the store.  A usable snapshot is applied
    whatever Redis and the event bus answer: nothing is lost, and the store then holds
    exactly the snapshot's sports, leagues, events, markets and outcomes with all of their
    fields, statuses and odds among them (of records with the same key the last), and at
    every other key what it held before.  An unusable one is an error that changes
    nothing.  Providers' names have no colon. *)
Theorem applySnapshot_integrity sv snap w :
  odds_inv (odds_of w) -> colon_free (sn_Provider snap) ->
  match NormalizeSnapshot snap with
  | Ok n => exists w', applySnapshot sv snap w = (Ok tt, w') /\ odds_inv (odds_of w') /\
      grows (odds_of w) (odds_of w') /\ all_stored n (odds_of w') /\
      writes (snapshot_records n) (odds_of w) (odds_of w')
  | Err e => applySnapshot sv snap w = (Err (ErrWrap "normalize snapshot" e), w)
  | Panic _ => True
  end.
Proof.
  intros Hi Hc. destruct (NormalizeSnapshot snap) as [n|e|p] eqn:Hn; [| |done].
  - exact (apply_snapshot_ok (IS := memory_integral) publish_outside exec_outside sv snap n w Hn
      (normalized_storable snap n Hn Hc) Hi).
  - unfold applySnapshot. by rewrite Hn.
Qed.
End Integrity.

(** ** Witness *)
Module IntegrityDemo.
Import Demo.

#[export] Instance sha1 : UuidSHA1 := { NewSHA1 s := "id-" +:+ s }.
Lemma sha1_ne x : NewSHA1 x <> "".
Proof. change (String "i" ("d-" +:+ x) <> ""). done. Qed.
(** The state is the store alone; Redis and the bus answer nothing. *)
#[export] Instance odds_lens : Lens oddsMemory oddsMemory := { lget s := s; lset t _ := t }.
#[export] Instance odds_laws : LensLaws odds_lens.
Proof. by constructor. Qed.
#[export] Instance redis : RedisHash oddsMemory :=
  { redis_Exec _ := mthrow (ErrNew "down"); redis_HGetAll _ := mthrow (ErrNew "down") }.
#[export] Instance nats : NatsConn oddsMemory := { nats_Publish _ _ := mthrow (ErrNew "down") }.
#[export] Existing Instance lens_OddsStore.

Definition snapshot : Snapshot :=
  mkSnapshot "azuro" [mkSportSnapshot "33" "football" "Football"]
    [mkLeagueSnapshot "33:a:b" "33" "League" "Country"]
    [mkEventSnapshot "g1" "33:a:b" "33" "Home" "Away" "" "upcoming" "" "" "" ∅]
    [mkMarketSnapshot "c1" "g1" "1" "Winner" "" "active" ∅]
    [mkOutcomeSnapshot "c1:1" "c1" "Home" "1.5" "active" ∅].
Definition service : OddsService oddsMemory := mkOddsService ∅ (Some 60) true.

Definition home_outcome : Outcome :=
  mkOutcome (deterministicID "azuro" "outcome:c1:1") "azuro" "c1:1"
    (deterministicID "azuro" "market:c1") "Home" "1.5" "active" ∅ 0 0.

Lemma home_last : match NormalizeSnapshot snapshot with
  | Ok n => last_of (ROutcome home_outcome) (snapshot_records n)
  | _ => False
  end.
Proof.
  vm_compute. eexists [_; _; _; _], []. split; [reflexivity|]. intros H. by apply elem_of_nil in H.
Qed.

(** The outcome is stored with its odds. *)
Lemma applySnapshot_integrity_witness :
  exists w', applySnapshot service snapshot (mkWorld 0 NewOddsMemory) = (Ok tt, w') /\
    odds_inv (w_st w') /\ holds (ROutcome home_outcome) (w_st w').
Proof.
  pose proof (applySnapshot_integrity (S := oddsMemory) sha1_ne
    ltac:(intros; by constructor) ltac:(intros; by constructor) service snapshot
    (mkWorld 0 NewOddsMemory) odds_inv_empty eq_refl) as H.
  pose proof home_last as L.
  destruct (NormalizeSnapshot snapshot) as [n|e|p] eqn:Hn; [|by destruct L..].
  destruct H as (w' & H & Hi & _ & _ & Hw & _). exists w'. split; [exact H|]. split; [exact Hi|].
  exact (Hw _ L).
Defined.
End IntegrityDemo.
