(* ===== verification/OddsSyncProps.v ===== *)
(** * OddsSyncProps: what a synchronisation asks for, what an update changes, and the ticks *)

From S2P Require Import Prelude GoStd GoJson Demo OddsModels OddsStore Normalizer.
From S2P Require Import OddsService OddsProps OddsIntegrity WalletService.

Section Sync.
Context {S : Type} `{LO : Lens S oddsMemory, LLO : !LensLaws LO}.
Context `{E : GoEnv, EL : !GoEnvLaws E, U : UuidSHA1}.
Context `{RH : RedisHash S, NC : NatsConn S}.
#[local] Existing Instance lens_OddsStore.
Implicit Types w : World S.

(** The store has the provider's event with this status. *)
Definition on_record (provider id status : string) (s : oddsMemory) : Prop :=
  exists k e, om_events s !! k = Some e /\ event_Provider e = provider /\
    event_ProviderEventID e = id /\ event_Status e = status.

Definition statuses_of (provider : string) (es : list Event) : gmap string string :=
  foldl (fun statuses e =>
    if decide (event_Provider e = provider)
    then <[event_ProviderEventID e := event_Status e]> statuses else statuses) ∅ es.

(** At most one event of a list per provider and provider id. *)
Definition distinct_events (es : list Event) : Prop :=
  forall e e', e ∈ es -> e' ∈ es -> event_Provider e = event_Provider e' ->
    event_ProviderEventID e = event_ProviderEventID e' -> e = e'.

Lemma statuses_of_lookup provider es id st : distinct_events es ->
  statuses_of provider es !! id = Some st <->
  exists e, e ∈ es /\ event_Provider e = provider /\ event_ProviderEventID e = id /\
    event_Status e = st.
Proof.
  unfold statuses_of. induction es as [|e es IH] using rev_ind; intros Hd.
  - cbn. rewrite lookup_empty. split; [done|]. by intros (e & H%elem_of_nil & _).
  - rewrite foldl_app. cbn [foldl].
    assert (distinct_events es) as Hd'.
    { intros a b Ha Hb. apply Hd; apply elem_of_app; by left. }
    specialize (IH Hd').
    assert (e ∈ es ++ [e]) as Hin by (apply elem_of_app; right; by left).
    destruct (decide (event_Provider e = provider)) as [Hp|Hp].
    + rewrite lookup_insert_Some, IH. split.
      * intros [[Hi Hs]|[Hne (x & Hx & H)]].
        -- by exists e.
        -- exists x. split; [apply elem_of_app; by left|done].
      * intros (x & Hx & Hxp & Hxi & Hxs).
        destruct (decide (event_ProviderEventID e = id)) as [Hi|Hi].
        -- left. split; [done|]. replace e with x; [done|]. apply Hd; congruence.
        -- right. split; [done|]. exists x. apply elem_of_app in Hx as [Hx|Hx]; [done|].
           apply list_elem_of_singleton in Hx. by subst.
    + rewrite IH. split; intros (x & Hx & Hxp & H).
      * exists x. split; [apply elem_of_app; by left|done].
      * exists x. apply elem_of_app in Hx as [Hx|Hx]; [done|].
        apply list_elem_of_singleton in Hx. by subst.
Qed.

Lemma stored_distinct s t : odds_inv s -> distinct_events (range_at t (om_events s)).*2.
Proof.
  intros Hi e e' He He' Hp Hid.
  apply list_elem_of_fmap in He as ([k x] & -> & Hk).
  apply list_elem_of_fmap in He' as ([k' x'] & -> & Hk').
  rewrite range_perm, elem_of_map_to_list in Hk, Hk'. cbn in *.
  assert (k = k') as <-; [|congruence].
  rewrite (proj1 (oi_events _ Hi _ _ Hk)), (proj1 (oi_events _ Hi _ _ Hk')).
  unfold key_of. by rewrite Hp, Hid.
Qed.

Lemma existing_lookup s t provider id st : odds_inv s ->
  statuses_of provider (range_at t (om_events s)).*2 !! id = Some st <->
  on_record provider id st s.
Proof.
  intros Hi. rewrite statuses_of_lookup by (by apply stored_distinct). unfold on_record. split.
  - intros (e & He & H). apply list_elem_of_fmap in He as ([k x] & -> & Hk).
    rewrite range_perm, elem_of_map_to_list in Hk. by exists k, x.
  - intros (k & e & Hk & H). exists e. split; [|done].
    apply list_elem_of_fmap. exists (k, e). split; [done|].
    by rewrite range_perm, elem_of_map_to_list.
Qed.

(** C25.  A synchronisation stores the provider's hierarchy and asks for the conditions of
    exactly those events that are live, that the store did not have, or whose status
    was another; when there are none it asks for nothing. *)
Theorem SyncProvider_conditions sv name p hier n w w1 :
  osv_providers sv !! name = Some p ->
  fp_FetchHierarchy p "" ∅ w = (Ok hier, w1) -> NormalizeSnapshot hier = Ok n ->
  odds_inv (odds_of w1) ->
  exists needs : Event -> bool,
    (forall e, needs e = true <-> event_Status e = "live" \/
       ~ on_record name (event_ProviderEventID e) (event_Status e) (odds_of w1)) /\
    let ids := event_ProviderEventID <$> filter (fun e => needs e = true) (nz_events n) in
    SyncProvider sv name w =
      (applyHierarchy sv (nz_sports n) (nz_leagues n) (nz_events n);;
       if decide (ids = []) then mret tt
       else
         conds ← wrapped "fetch conditions" (fp_FetchConditions p ids);
         c ← wrapped "normalize conditions" (of_res (NormalizeSnapshot conds));
         applyMarkets sv (nz_markets c) (nz_outcomes c))
      (mkWorld (Datatypes.S (w_tick w1)) (w_st w1)).
Proof.
  intros Hp Hh Hn Hi.
  set (existing := statuses_of name (range_at (w_tick w1) (om_events (odds_of w1))).*2).
  exists (needs_conditions existing). split.
  - intros e. unfold needs_conditions.
    destruct (existing !! event_ProviderEventID e) as [prev|] eqn:He.
    + apply existing_lookup in He; [|done].
      rewrite orb_true_iff, !bool_decide_eq_true. split.
      * intros [Hne|Hl]; [right|by left]. intros Hr. apply Hne.
        apply (existing_lookup _ (w_tick w1)) in Hr, He; [|done|done].
        rewrite He in Hr. congruence.
      * intros [Hl|Hr]; [by right|left]. intros ->. by apply Hr.
    + split; [intros _; right|done]. intros Hr.
      apply (existing_lookup _ (w_tick w1)) in Hr; [|done].
      change (existing !! event_ProviderEventID e = Some (event_Status e)) in Hr. congruence.
  - unfold SyncProvider. rewrite Hp. unfold mbind at 1, M_bind at 1, wrapped at 1. rewrite Hh.
    cbn [wrap_res]. unfold mbind at 1, M_bind at 1, wrapped at 1, of_res at 1. rewrite Hn.
    cbn [wrap_res].
    change (odds_GetEventStatusesByProvider name) with
      (zoom (oddsMemory_GetEventStatusesByProvider name) : M S _).
    unfold mbind at 1, M_bind at 1, wrapped at 1, zoom at 1.
    unfold oddsMemory_GetEventStatusesByProvider at 1.
    unfold range, get, tick, mret, M_ret. unfold mbind at 1 2 3, M_bind at 1 2 3.
    cbn [w_tick w_st wrap_res]. rewrite lset_lget. reflexivity.
Qed.

(** ** Updates *)
Context (publish_outside : forall subject p, outside (L := LO) (nats_Publish subject p)).
Context (exec_outside : forall cmds, outside (L := LO) (redis_Exec cmds)).

(** A notification after an update: it succeeds and leaves the store alone. *)
Lemma emit_outside sv subject i w : exists w', maybeEmit sv subject i w = (Ok tt, w') /\
  odds_of w' = odds_of w.
Proof.
  unfold maybeEmit. destruct (osv_bus sv); [|by exists w].
  assert (outside (L := LO) (EventBus_Publish subject {["id" := i]})) as [Hp _ Hr]
    by (by apply outside_wrapped).
  specialize (Hp w). specialize (Hr w). unfold ignore, attempt, mbind, M_bind, mret, M_ret.
  destruct (EventBus_Publish subject {["id" := i]} w) as [[a|e|q] w']; cbn [fst snd] in *;
    [by exists w'|by exists w'|by destruct (Hr q)].
Qed.

Lemma cache_outside sv (f : Z -> M S unit) w : (forall ttl, outside (L := LO) (f ttl)) ->
  exists w', maybeCache sv f w = (Ok tt, w') /\ odds_of w' = odds_of w.
Proof.
  intros Hf. unfold maybeCache. destruct (osv_cache sv) as [ttl|]; [|by exists w].
  destruct (Hf ttl) as [Hp _ Hr]. specialize (Hp w). specialize (Hr w).
  unfold ignore, attempt, mbind, M_bind, mret, M_ret.
  destruct (f ttl w) as [[a|e|q] w']; cbn [fst snd] in *;
    [by exists w'|by exists w'|by destruct (Hr q)].
Qed.

Lemma zoom_store {A} (m : M oddsMemory A) w r n s :
  m (mkWorld (w_tick w) (odds_of w)) = (r, mkWorld n s) ->
  exists w', zoom m w = (r, w') /\ odds_of w' = s.
Proof.
  intros H. unfold zoom. change (lget (w_st w)) with (odds_of w). rewrite H.
  eexists. split; [done|]. apply lget_lset.
Qed.

(** What an update does to the store. *)
Definition update_effect (u : Update) (now : Z) (s : oddsMemory) : option oddsMemory :=
  let market := marketKey (up_Provider u) (up_EntityID u) in
  let outcome := outcomeKey (up_Provider u) (up_EntityID u) in
  if decide (up_Type u = "odds") then
    (fun o => om_set_outcome outcome (outcome_set_Odds (payload u "odds") now o) s)
      <$> om_outcomes s !! outcome
  else if decide (up_Type u = "status") then
    match om_markets s !! market with
    | Some m => Some (om_set_market market (market_set_Status (payload u "status") now m) s)
    | None =>
        (fun o => om_set_outcome outcome (outcome_set_Status (payload u "status") now o) s)
          <$> om_outcomes s !! outcome
    end
  else None.

Lemma status_update sv u w :
  exists r w',
  (r0 ← attempt (odds_UpdateMarketStatus (up_Provider u) (up_EntityID u) (payload u "status"));
   match r0 with
   | Ok marketID => maybeEmit sv "feed.market.updated" marketID
   | _ =>
       '(marketID, outcomeID) ← wrapped "apply status update"
         (odds_UpdateOutcomeStatus (up_Provider u) (up_EntityID u) (payload u "status"));
       maybeEmit sv "feed.odds.changed" outcomeID
   end) w = (r, w') /\
  match
    (match om_markets (odds_of w) !! marketKey (up_Provider u) (up_EntityID u) with
     | Some m => Some (om_set_market (marketKey (up_Provider u) (up_EntityID u))
                   (market_set_Status (payload u "status") (time_at (w_tick w)) m) (odds_of w))
     | None =>
         (fun o => om_set_outcome (outcomeKey (up_Provider u) (up_EntityID u))
            (outcome_set_Status (payload u "status") (time_at (w_tick w)) o) (odds_of w))
           <$> om_outcomes (odds_of w) !! outcomeKey (up_Provider u) (up_EntityID u)
     end)
  with
  | Some s => r = Ok tt /\ odds_of w' = s
  | None => (exists e, r = Err e) /\ odds_of w' = odds_of w
  end.
Proof.
  change (odds_UpdateMarketStatus ?p ?i ?o) with (zoom (oddsMemory_UpdateMarketStatus p i o) : M S _).
  change (odds_UpdateOutcomeStatus ?p ?i ?o) with (zoom (oddsMemory_UpdateOutcomeStatus p i o) : M S _).
  unfold mbind at 1, M_bind at 1, attempt.
  destruct (om_markets (odds_of w) !! _) as [m|] eqn:Hm.
  - edestruct (zoom_store (oddsMemory_UpdateMarketStatus (up_Provider u) (up_EntityID u)
      (payload u "status")) w) as (w1 & -> & H1).
    { unfold oddsMemory_UpdateMarketStatus. unmonad. rewrite Hm. reflexivity. }
    destruct (emit_outside sv "feed.market.updated" (market_ID m) w1) as (w2 & -> & H2).
    do 2 eexists. split; [done|]. split; [done|]. by rewrite H2, H1.
  - assert (zoom (oddsMemory_UpdateMarketStatus (up_Provider u) (up_EntityID u)
      (payload u "status")) w = (Err (ErrNew "update market status: not found"), w)) as ->.
    { unfold zoom, oddsMemory_UpdateMarketStatus. change (lget (w_st w)) with (odds_of w).
      unmonad. rewrite Hm. cbn. unfold odds_of, part. rewrite lset_lget. by destruct w. }
    unfold mbind, M_bind, wrapped.
    destruct (om_outcomes (odds_of w) !! _) as [o|] eqn:Hl; cbn [fmap option_fmap option_map];
      (edestruct (zoom_store (oddsMemory_UpdateOutcomeStatus (up_Provider u) (up_EntityID u)
        (payload u "status")) w) as (w1 & -> & H1);
        [unfold oddsMemory_UpdateOutcomeStatus; unmonad; rewrite Hl; reflexivity|]);
      cbn [wrap_res].
    + destruct (emit_outside sv "feed.odds.changed" (outcome_ID o) w1) as (w2 & -> & H2).
      do 2 eexists. split; [done|]. split; [done|]. by rewrite H2, H1.
    + do 2 eexists. split; [done|]. split; [by eexists|done].
Qed.

(** C26.  A live update changes one field of one record: the odds of the outcome it names,
    or the status of the market it names or else of the outcome; an update of an unknown
    entity or kind is an error that changes nothing.  Redis and the event bus being down
    does not matter. *)
Theorem ApplyUpdate_spec sv u w :
  exists r w', ApplyUpdate sv u w = (r, w') /\
  match update_effect u (time_at (w_tick w)) (odds_of w) with
  | Some s => r = Ok tt /\ odds_of w' = s
  | None => (exists e, r = Err e) /\ odds_of w' = odds_of w
  end.
Proof.
  unfold ApplyUpdate, update_effect. destruct (decide (up_Type u = "odds")) as [Ho|Ho];
    [|destruct (decide (up_Type u = "status")) as [Hs|Hs]].
  - change (odds_UpdateOutcomeOdds ?p ?i ?o) with (zoom (oddsMemory_UpdateOutcomeOdds p i o) : M S _).
    unfold mbind at 1, M_bind at 1, wrapped.
    destruct (om_outcomes (odds_of w) !! _) as [o|] eqn:Hl; cbn [fmap option_fmap option_map].
    + edestruct (zoom_store (oddsMemory_UpdateOutcomeOdds (up_Provider u) (up_EntityID u)
        (payload u "odds")) w) as (w1 & -> & H1).
      { unfold oddsMemory_UpdateOutcomeOdds. unmonad. rewrite Hl. reflexivity. }
      cbn [wrap_res]. unfold mbind, M_bind.
      destruct (cache_outside sv (fun ttl => Cache_SetLiveOdds ttl (outcome_MarketID o)
        {[outcome_ID o := payload u "odds"]}) w1) as (w2 & -> & H2); [intros; apply exec_outside|].
      destruct (emit_outside sv "feed.odds.changed" (outcome_ID o) w2) as (w3 & -> & H3).
      do 2 eexists. split; [done|]. split; [done|]. by rewrite H3, H2, H1.
    + edestruct (zoom_store (oddsMemory_UpdateOutcomeOdds (up_Provider u) (up_EntityID u)
        (payload u "odds")) w) as (w1 & -> & H1).
      { unfold oddsMemory_UpdateOutcomeOdds. unmonad. rewrite Hl. reflexivity. }
      cbn [wrap_res]. do 2 eexists. split; [done|]. split; [by eexists|done].
  - apply status_update.
  - do 2 eexists. split; [done|]. split; [by eexists|done].
Qed.

(** ** The scheduler *)
Lemma for_each_goes_on {A} (xs : list A) (body : A -> M S unit) w :
  (forall x v, (body x v).1 = Ok tt) -> (for_each xs body w).1 = Ok tt.
Proof.
  intros Hb. revert w. induction xs as [|x xs IH]; intros w; [done|]. cbn [for_each].
  unfold mbind, M_bind. pose proof (Hb x w) as Hx. destruct (body x w) as [r v]. cbn in Hx. subst r. apply IH.
Qed.
Lemma ignore_goes_on {A} (m : M S A) w : (forall p, (m w).1 <> Panic p) -> ignore m w = (Ok tt, (m w).2).
Proof.
  intros Hm. unfold ignore, attempt, mbind, M_bind, mret, M_ret.
  destruct (m w) as [[a|e|p] v]; [done|done|]. by destruct (Hm p).
Qed.

(** A provider that fails stops neither the synchronisation of the others nor later ticks. *)
Theorem OddsScheduler_goes_on sv providers ticks w :
  (forall p v q, (SyncProvider sv p v).1 <> Panic q) ->
  (forall p v q, (SyncLiveProvider sv p v).1 <> Panic q) ->
  (OddsScheduler_Start sv providers ticks w).1 = Ok tt.
Proof.
  intros H1 H2. apply for_each_goes_on. intros d v. unfold mbind, M_bind, sleep.
  apply for_each_goes_on. intros p u. unfold mbind, M_bind.
  rewrite ignore_goes_on by apply H1. by rewrite ignore_goes_on by apply H2.
Qed.
End Sync.

(** ** A provider with one game, and a live update *)
Module OddsSyncDemo.
Import Demo IntegrityDemo.

Definition provider : FeedProvider oddsMemory := mkFeedProvider (S := oddsMemory) "azuro"
  (fun _ _ => mret snapshot) (fun _ _ => mret snapshot) (fun _ => mret snapshot).
Definition synced : OddsService oddsMemory := NewOddsService [provider] None false.
Definition normal : Normalized :=
  match NormalizeSnapshot snapshot with
  | Ok n => n
  | _ => mkNormalized [] [] [] [] []
  end.

Lemma SyncProvider_conditions_witness :
  exists needs : Event -> bool,
    event_ProviderEventID <$> filter (fun e => needs e = true) (nz_events normal) = ["g1"] /\
    SyncProvider synced "azuro" (mkWorld 0 NewOddsMemory) =
      (applyHierarchy synced (nz_sports normal) (nz_leagues normal) (nz_events normal);;
       conds ← wrapped "fetch conditions" (fp_FetchConditions provider ["g1"]);
       c ← wrapped "normalize conditions" (of_res (NormalizeSnapshot conds));
       applyMarkets synced (nz_markets c) (nz_outcomes c)) (mkWorld 1 NewOddsMemory).
Proof.
  destruct (SyncProvider_conditions (LO := odds_lens) synced "azuro" provider snapshot normal
    (mkWorld 0 NewOddsMemory) (mkWorld 0 NewOddsMemory) eq_refl eq_refl eq_refl
    odds_inv_empty) as (needs & Hn & H).
  exists needs.
  assert (forall e, needs e = true) as Hall.
  { intros e. apply Hn. right. by intros (k & x & Hk & _). }
  assert (event_ProviderEventID <$> filter (fun e => needs e = true) (nz_events normal) = ["g1"])
    as Hids.
  { assert (exists e, nz_events normal = [e] /\ event_ProviderEventID e = "g1") as (e & -> & He)
      by (eexists; split; reflexivity).
    rewrite filter_cons_True by apply Hall. rewrite filter_nil. cbn. by rewrite He. }
  split; [exact Hids|]. cbn zeta in H. rewrite Hids in H. exact H.
Defined.

Definition stored : World oddsMemory := (applySnapshot synced snapshot (mkWorld 0 NewOddsMemory)).2.

Lemma ApplyUpdate_spec_witness :
  exists r w', ApplyUpdate (OS := lens_OddsStore) synced (mkUpdate "azuro" "odds" "c1:1" {["odds" := "2.5"]}) stored = (r, w') /\
  r = Ok tt /\ outcome_Odds <$> om_outcomes (w_st w') !! outcomeKey "azuro" "c1:1" = Some "2.5".
Proof.
  destruct (ApplyUpdate_spec (LO := odds_lens) ltac:(intros; by constructor)
    ltac:(intros; by constructor) synced
    (mkUpdate "azuro" "odds" "c1:1" {["odds" := "2.5"]}) stored) as (r & w' & Hu & H).
  exists r, w'. split; [exact Hu|]. vm_compute in H. destruct H as [-> H].
  split; [reflexivity|]. destruct w' as [n s']. cbn [w_st]. rewrite H. vm_compute. reflexivity.
Defined.
End OddsSyncDemo.
