(* ===== verification/OddsServer.v ===== *)
(** * OddsServer: the odds feed's gRPC server

    [internal/oddsfeed/server.go]; the server has no interceptor. *)

From S2P Require Import Prelude GoStd OddsModels OddsService WalletServer.

(** What a client's call of an odds-feed method does. *)
Class OddsFeedConn (S : Type) : Type := {
  conn_ListSports : Z -> Z -> M S (list pbSport);
  conn_ListLeagues : string -> Z -> Z -> M S (list pbLeague);
  conn_ListEvents : string -> string -> string -> Z -> Z -> M S (list pbEvent);
  conn_GetEvent : string -> M S (option pbEvent);
  conn_ListMarkets : string -> string -> Z -> Z -> M S (list pbMarket);
  conn_ListOutcomes : string -> string -> Z -> Z -> M S (list pbOutcome);
  conn_ListLiveScores : string -> string -> Z -> Z -> M S (list pbEvent);
}.

Section OddsServer.
Context {S : Type} `{E : GoEnv, GT : GrpcText, OS : OddsStore S}.

Definition toProtoSport (s : Sport) : pbSport :=
  mkPbSport (sport_ID s) (sport_Name s) (sport_Slug s).
Definition toProtoLeague (l : League) : pbLeague :=
  mkPbLeague (league_ID l) (league_Name l) (league_SportID l) (league_Country l).
Definition toProtoEvent (e : Event) : pbEvent :=
  let scoreUpdatedAt := if negb (IsZero (event_ScoreUpdatedAt e))
                        then FormatRFC3339 (event_ScoreUpdatedAt e) else "" in
  mkPbEvent (event_ID e) (event_LeagueID e) (event_SportID e) (event_HomeParticipant e)
    (event_AwayParticipant e) (FormatRFC3339 (event_StartsAt e)) (event_Status e)
    (event_HomeScore e) (event_AwayScore e) scoreUpdatedAt.
Definition toProtoMarket (m : Market) : pbMarket :=
  mkPbMarket (market_ID m) (market_EventID m) (market_Type m) (market_Name m)
    (market_Line m) (market_Status m).
Definition toProtoOutcome (o : Outcome) : pbOutcome :=
  mkPbOutcome (outcome_ID o) (outcome_MarketID o) (outcome_Name o) (outcome_Odds o)
    (outcome_Status o).

Definition GRPCServer_ListSports (page pageSize : Z) : M S (list pbSport) :=
  items ← wrapped "list sports" (Odds_ListSports page pageSize);
  mret (toProtoSport <$> items).
Definition GRPCServer_ListLeagues (sportID : string) (page pageSize : Z) :
    M S (list pbLeague) :=
  items ← wrapped "list leagues" (Odds_ListLeagues sportID page pageSize);
  mret (toProtoLeague <$> items).
Definition GRPCServer_ListEvents (sportID leagueID status : string) (page pageSize : Z) :
    M S (list pbEvent) :=
  items ← wrapped "list events" (Odds_ListEvents sportID leagueID status page pageSize);
  mret (toProtoEvent <$> items).
Definition GRPCServer_GetEvent (id : string) : M S (option pbEvent) :=
  it ← wrapped "get event" (Odds_GetEvent id);
  mret (toProtoEvent <$> it).
Definition GRPCServer_ListMarkets (eventID status : string) (page pageSize : Z) :
    M S (list pbMarket) :=
  items ← wrapped "list markets" (Odds_ListMarkets eventID status page pageSize);
  mret (toProtoMarket <$> items).
Definition GRPCServer_ListOutcomes (marketID status : string) (page pageSize : Z) :
    M S (list pbOutcome) :=
  items ← wrapped "list outcomes" (Odds_ListOutcomes marketID status page pageSize);
  mret (toProtoOutcome <$> items).
Definition GRPCServer_ListLiveScores (sportID leagueID : string) (page pageSize : Z) :
    M S (list pbEvent) :=
  items ← wrapped "list live scores" (Odds_ListLiveScores sportID leagueID page pageSize);
  mret (toProtoEvent <$> items).

(** The server as its clients see it. *)
Definition odds_server_conn : OddsFeedConn S := {|
  conn_ListSports p n := map_err wire_error (GRPCServer_ListSports p n);
  conn_ListLeagues s p n := map_err wire_error (GRPCServer_ListLeagues s p n);
  conn_ListEvents s l st p n := map_err wire_error (GRPCServer_ListEvents s l st p n);
  conn_GetEvent i := map_err wire_error (GRPCServer_GetEvent i);
  conn_ListMarkets e st p n := map_err wire_error (GRPCServer_ListMarkets e st p n);
  conn_ListOutcomes m st p n := map_err wire_error (GRPCServer_ListOutcomes m st p n);
  conn_ListLiveScores s l p n := map_err wire_error (GRPCServer_ListLiveScores s l p n);
|}.
End OddsServer.
