(* ===== verification/Azuro.v ===== *)
(** * Azuro: the Azuro protocol's feed

    [internal/oddsfeed/providers/azuro/azuro.go]: decoding of the REST answers and of the
    messages of the WebSocket, and their translation to snapshots and updates; the
    connection loop of the WebSocket is in LiveWorker.  [FormatFloat4] is the text [%.4f]
    of the float64 that a JSON number denotes. *)

From S2P Require Import Prelude GoStd GoJson GoTime OddsModels Xcash.

Definition ProviderName : string := "azuro".

(** ** The answers *)
Record participant : Type := mkParticipant { pt_Name : string }.
Record game : Type := mkGame {
  g_GameID : string;
  g_Slug : string;
  g_Title : string;
  g_StartsAt : string;
  g_State : string;
  g_Participants : list participant;
}.
Record az_league : Type := mkAzLeague {
  al_Slug : string;
  al_Name : string;
  al_Games : list game;
}.
Record country : Type := mkCountry {
  ct_Slug : string;
  ct_Name : string;
  ct_Leagues : list az_league;
}.
Record az_sport : Type := mkAzSport {
  as_ID : Z;
  as_Slug : string;
  as_Name : string;
  as_SportID : string;
  as_Countries : list country;
}.
Record az_outcome : Type := mkAzOutcome {
  ao_Title : string;
  ao_OutcomeID : string;
  ao_Odds : string;
  ao_State : string;
}.
(** [Game] is the reference to the game: its id and its sport's id. *)
Record condition : Type := mkCondition {
  cd_ID : string;
  cd_ConditionID : string;
  cd_State : string;
  cd_Title : string;
  cd_GameID : string;
  cd_SportID : string;
  cd_Outcomes : list az_outcome;
}.

Definition decode_participant (kvs : list (string * any)) : res participant :=
  n ← field_string "name" kvs; Ok (mkParticipant n).

(** The references to the sport, league and country of a game are decoded, so that a
    member of the wrong type is an error, and not used. *)
Definition decode_ref (names : list string) (name : string) (kvs : list (string * any)) :
    res unit :=
  ms ← nested name kvs;
  foldr (fun n acc => field_string n ms ≫= fun _ => acc) (Ok tt) names.

Definition decode_game (kvs : list (string * any)) : res game :=
  gameID ← field_string "gameId" kvs;
  slug ← field_string "slug" kvs;
  title ← field_string "title" kvs;
  startsAt ← field_string "startsAt" kvs;
  state ← field_string "state" kvs;
  decode_ref ["sportId"; "slug"; "name"] "sport" kvs;;
  decode_ref ["id"; "slug"; "name"] "league" kvs;;
  decode_ref ["id"; "slug"; "name"] "country" kvs;;
  parts ← field_list decode_participant "participants" kvs;
  Ok (mkGame gameID slug title startsAt state parts).

Definition decode_league (kvs : list (string * any)) : res az_league :=
  slug ← field_string "slug" kvs;
  name ← field_string "name" kvs;
  games ← field_list decode_game "games" kvs;
  Ok (mkAzLeague slug name games).

Definition decode_country (kvs : list (string * any)) : res country :=
  slug ← field_string "slug" kvs;
  name ← field_string "name" kvs;
  leagues ← field_list decode_league "leagues" kvs;
  Ok (mkCountry slug name leagues).

Definition decode_sport (kvs : list (string * any)) : res az_sport :=
  id ← field_int64 "id" kvs;
  slug ← field_string "slug" kvs;
  name ← field_string "name" kvs;
  sportID ← field_string "sportId" kvs;
  countries ← field_list decode_country "countries" kvs;
  Ok (mkAzSport id slug name sportID countries).

Definition decode_outcome (kvs : list (string * any)) : res az_outcome :=
  title ← field_string "title" kvs;
  outcomeID ← field_string "outcomeId" kvs;
  odds ← field_string "odds" kvs;
  state ← field_string "state" kvs;
  Ok (mkAzOutcome title outcomeID odds state).

Definition decode_condition (kvs : list (string * any)) : res condition :=
  id ← field_string "id" kvs;
  conditionID ← field_string "conditionId" kvs;
  state ← field_string "state" kvs;
  title ← field_string "title" kvs;
  game ← nested "game" kvs;
  gameID ← field_string "gameId" game;
  sport ← nested "sport" game;
  sportID ← field_string "sportId" sport;
  decode_ref ["slug"; "name"] "sport" game;;
  outcomes ← field_list decode_outcome "outcomes" kvs;
  Ok (mkCondition id conditionID state title gameID sportID outcomes).

(** ** Translation of states and fields *)
Definition normalizeGameState (state : string) : string :=
  if decide (state = "Prematch") then "upcoming"
  else if decide (state = "Live") then "live"
  else if decide (state = "Finished") then "finished"
  else if decide (state = "Canceled") then "canceled"
  else ToLower state.

Definition normalizeConditionState (state : string) : string :=
  if decide (state = "Active") then "active"
  else if decide (state = "Paused" \/ state = "Stopped") then "suspended"
  else if decide (state = "Resolved") then "settled"
  else "cancelled".

Definition normalizeOutcomeState (state : string) : string :=
  if decide (state = "Active") then "active"
  else if decide (state = "Won") then "won"
  else if decide (state = "Lost") then "lost"
  else if decide (state = "Paused" \/ state = "Stopped") then "suspended"
  else "cancelled".

Definition urlEncode (s : string) : string := ReplaceByte s " "%char "%20".

Definition providerSportID (sp : az_sport) : string :=
  if decide (as_SportID sp <> "") then as_SportID sp else Itoa (as_ID sp).
Definition providerLeagueID (sp : az_sport) (c : country) (l : az_league) : string :=
  providerSportID sp +:+ ":" +:+ ct_Slug c +:+ ":" +:+ al_Slug l.
Definition homeParticipant (parts : list participant) : string :=
  match parts with p :: _ => pt_Name p | [] => "" end.
Definition awayParticipant (parts : list participant) : string :=
  match parts with _ :: p :: _ => pt_Name p | _ => "" end.

(** The digits [fmt.Sscanf(s, "%d", &n)] reads: after blanks, an optional sign and at
    least one digit; the rest of the text is ignored. *)
Fixpoint skip_blanks (s : string) : string :=
  match s with
  | String c s' => if bool_decide (Ascii.nat_of_ascii c ∈ [32; 9; 11; 12; 13]%nat)
                   then skip_blanks s' else s
  | "" => ""
  end.
Definition parseInt64 (s : string) : option Z :=
  let s := skip_blanks s in
  let '(neg, s) := match s with
                   | String c s' => if decide (c = "-"%char) then (true, s')
                                    else if decide (c = "+"%char) then (false, s') else (false, s)
                   | "" => (false, s)
                   end in
  n ← unsigned_val (span_digits s).1;
  let n := if (neg : bool) then - n else n in
  if decide (in_int64 n) then Some n else None.

Definition azuroTime (ts : string) : string :=
  if decide (ts = "") then ""
  else match parseInt64 ts with
       | None => ts
       | Some sec => FormatRFC3339_UTC (time_Unix sec)
       end.

(** ** Snapshots *)
Definition snapshot_events (leagueID sportID : string) (games : list game) :
    list EventSnapshot :=
  (fun g => mkEventSnapshot (g_GameID g) leagueID sportID (homeParticipant (g_Participants g))
              (awayParticipant (g_Participants g)) (azuroTime (g_StartsAt g))
              (normalizeGameState (g_State g)) "" "" ""
              (<["title" := g_Title g]> {["slug" := g_Slug g]})) <$> games.

(** Every league of a sport, with its country. *)
Definition sport_leagues (sp : az_sport) : list (country * az_league) :=
  c ← as_Countries sp; l ← ct_Leagues c; [(c, l)].

Definition condition_market_id (cond : condition) : string :=
  if decide (cd_ConditionID cond = "") then cd_ID cond else cd_ConditionID cond.

Definition condition_market (cond : condition) : MarketSnapshot :=
  mkMarketSnapshot (condition_market_id cond) (cd_GameID cond) (cd_Title cond) (cd_Title cond)
    "" (normalizeConditionState (cd_State cond)) {["condition_id" := cd_ID cond]}.

Definition condition_outcomes (cond : condition) : list OutcomeSnapshot :=
  let marketID := condition_market_id cond in
  (fun out => mkOutcomeSnapshot (marketID +:+ ":" +:+ ao_OutcomeID out) marketID (ao_Title out)
                (ao_Odds out) (normalizeOutcomeState (ao_State out))
                {["azuro_outcome_id" := ao_OutcomeID out]}) <$> cd_Outcomes cond.

(** The stub of a game that only its conditions mention. *)
Definition stub_event (gameID sportID : string) : EventSnapshot :=
  let sportID := if decide (sportID = "") then "0" else sportID in
  mkEventSnapshot gameID "" sportID "" "" "" "upcoming" "" "" "" ∅.

Record AzProvider : Type := mkAzProvider {
  az_baseURL : string;
  az_wsURL : string;
  az_environment : string;
}.

(** [strings.TrimSuffix(s, "/")] *)
Definition trim_slash (s : string) : string :=
  match string_rev s with
  | String c r => if decide (c = "/"%char) then string_rev r else s
  | "" => s
  end.

Definition NewAzProvider (baseURL wsURL environment : string) : AzProvider :=
  mkAzProvider (if decide (baseURL <> "") then trim_slash baseURL else baseURL) wsURL
    (if decide (environment = "") then "PolygonUSDT" else environment).

Section Azuro.
Context {S : Type} `{E : GoEnv, HT : HttpTransport S}.

Definition buildSnapshot (sports : list az_sport) (conditions : list condition) :
    M S Snapshot :=
  let sportSnaps := (fun sp => mkSportSnapshot (providerSportID sp) (as_Slug sp) (as_Name sp))
                      <$> sports in
  let leagueSnaps := sp ← sports; '(c, l) ← sport_leagues sp;
    [mkLeagueSnapshot (providerLeagueID sp c l) (providerSportID sp) (al_Name l) (ct_Name c)] in
  let events := sp ← sports; '(c, l) ← sport_leagues sp;
    snapshot_events (providerLeagueID sp c l) (providerSportID sp) (al_Games l) in
  let conditionGames := foldl (fun m cond => <[cd_GameID cond := cd_SportID cond]> m)
                          (∅ : gmap string string) conditions in
  games ← range conditionGames;
  let stubs := (fun '(gameID, sportID) => stub_event gameID sportID) <$> games in
  let markets := condition_market <$> conditions in
  let outcomes := cond ← conditions; condition_outcomes cond in
  mret (mkSnapshot ProviderName sportSnaps leagueSnaps (events ++ stubs) markets outcomes).

(** A request that must answer with a 2xx status. *)
Definition az_request (what : string) (req : HttpRequest) : M S (list (string * any)) :=
  resp ← wrapped ("azuro fetch " +:+ what) (http_Do req);
  if (hresp_StatusCode resp <? 200) || (300 <=? hresp_StatusCode resp)
  then mthrow (ErrNew ("azuro fetch " +:+ what +:+ ": status " +:+ Itoa (hresp_StatusCode resp)))
  else wrapped ("azuro decode " +:+ what) (of_res (first_document (hresp_Body resp))).

Definition fetchSports (p : AzProvider) (sportSlug gameState : string) : M S (list az_sport) :=
  let reqURL := az_baseURL p +:+ "/market-manager/sports?environment=" +:+ az_environment p +:+
    "&gameState=" +:+ gameState +:+ "&numberOfGames=100&orderBy=turnover&orderDirection=desc" in
  let reqURL := if decide (sportSlug <> "") then reqURL +:+ "&sportSlug=" +:+ urlEncode sportSlug
                else reqURL in
  top ← az_request "sports" (mkHttpRequest "GET" reqURL [("Accept", "application/json")] "");
  wrapped "azuro decode sports" (of_res (field_list decode_sport "sports" top)).

Definition fetchConditions (p : AzProvider) (gameIDs : list string) : M S (list condition) :=
  let body := marshal (JObj [("gameIds", JArr (JStr <$> gameIDs));
    ("environment", JStr (az_environment p)); ("extended", JBool false)]) in
  top ← az_request "conditions"
    (mkHttpRequest "POST" (az_baseURL p +:+ "/market-manager/conditions-by-game-ids")
       [("Accept", "application/json"); ("Content-Type", "application/json")] body);
  wrapped "azuro decode conditions" (of_res (field_list decode_condition "conditions" top)).

Definition param (params : gmap string string) (name : string) : string :=
  default "" (params !! name).

Definition Azuro_FetchHierarchy (p : AzProvider) (sport : string)
    (params : gmap string string) : M S Snapshot :=
  if decide (az_baseURL p = "") then mthrow (ErrNew "azuro base URL not configured")
  else
    let sportSlug := if decide (sport = "") then param params "sport_slug" else sport in
    let gameState := if decide (param params "game_state" <> "") then param params "game_state"
                     else "Prematch" in
    sports ← fetchSports p sportSlug gameState;
    buildSnapshot sports [].

Definition Azuro_FetchConditions (p : AzProvider) (gameIDs : list string) : M S Snapshot :=
  if decide (az_baseURL p = "") then mthrow (ErrNew "azuro base URL not configured")
  else if decide (gameIDs = []) then mret (mkSnapshot ProviderName [] [] [] [] [])
  else
    conds ← fetchConditions p gameIDs;
    buildSnapshot [] conds.

Definition Azuro_FetchSnapshot (p : AzProvider) (sport : string)
    (params : gmap string string) : M S Snapshot :=
  hier ← Azuro_FetchHierarchy p sport params;
  let gameIDs := es_ProviderID <$> sn_Events hier in
  if decide (gameIDs = []) then mret hier
  else
    conds ← Azuro_FetchConditions p gameIDs;
    mret (mkSnapshot (sn_Provider hier) (sn_Sports hier) (sn_Leagues hier) (sn_Events hier)
            (sn_Markets conds) (sn_Outcomes conds)).

Definition fetchLiveConditionIDs (p : AzProvider) : M S (list string) :=
  sports ← fetchSports p "" "Live";
  let gameIDs := sp ← sports; '(c, l) ← sport_leagues sp; g_GameID <$> al_Games l in
  if decide (gameIDs = []) then mret []
  else conds ← fetchConditions p gameIDs; mret (condition_market_id <$> conds).

Definition azuro_FeedProvider (p : AzProvider) : FeedProvider S :=
  mkFeedProvider ProviderName (Azuro_FetchSnapshot p) (Azuro_FetchHierarchy p)
    (Azuro_FetchConditions p).
End Azuro.

(** ** Live updates *)
Class FloatText : Type := { FormatFloat4 : string -> res string }.

(** [Odds] is kept as the text it is printed as. *)
Record wsOutcome : Type := mkWsOutcome { wo_ID : Z; wo_Odds : string }.
Record wsCondition : Type := mkWsCondition {
  wc_ID : string;
  wc_State : string;
  wc_Outcomes : list wsOutcome;
}.

Section Live.
Context `{FT : FloatText}.

(** A missing number is zero. *)
Definition decode_ws_outcome (kvs : list (string * any)) : res wsOutcome :=
  id ← field_int64 "id" kvs;
  zero ← FormatFloat4 "0";
  odds ← fill (fun v => match v with JNum lit => FormatFloat4 lit | _ => Err ErrJSON end)
           "odds" kvs zero;
  Ok (mkWsOutcome id odds).

Definition decode_ws_condition (kvs : list (string * any)) : res wsCondition :=
  id ← field_string "id" kvs;
  state ← field_string "state" kvs;
  outcomes ← field_list decode_ws_outcome "outcomes" kvs;
  Ok (mkWsCondition id state outcomes).

Definition decode_ws_message (body : string) : res (list wsCondition) :=
  top ← document body; field_list decode_ws_condition "data" top.

Definition condition_updates (cond : wsCondition) : list Update :=
  if decide (wc_ID cond = "") then []
  else
    (if decide (wc_State cond <> "")
     then [mkUpdate ProviderName "status" (wc_ID cond)
             {["status" := normalizeConditionState (wc_State cond)]}]
     else []) ++
    ((fun out => mkUpdate ProviderName "odds" (wc_ID cond +:+ ":" +:+ Itoa (wo_ID out))
                   {["odds" := wo_Odds out]}) <$> wc_Outcomes cond).

Definition updatesFromMessage (data : list wsCondition) : list Update :=
  cond ← data; condition_updates cond.
End Live.
