(* ===== verification/AzuroProps.v ===== *)
(** * AzuroProps: the snapshots of the Azuro feed can be stored *)

From S2P Require Import Prelude GoStd GoJson GoTime OddsModels Normalizer Xcash OddsProps.
From S2P Require Import OddsStore Azuro Demo.

Section AzuroSnapshots.
Context {S : Type} `{E : GoEnv, EL : !GoEnvLaws E, HT : HttpTransport S, U : UuidSHA1}.
Implicit Types w : World S.

(** The loops of buildSnapshot over sports, countries, leagues and games. *)
Definition az_leagues (sports : list az_sport) : list LeagueSnapshot :=
  sp ← sports; '(c, l) ← sport_leagues sp;
  [mkLeagueSnapshot (providerLeagueID sp c l) (providerSportID sp) (al_Name l) (ct_Name c)].
Definition az_events (sports : list az_sport) : list EventSnapshot :=
  sp ← sports; '(c, l) ← sport_leagues sp;
  snapshot_events (providerLeagueID sp c l) (providerSportID sp) (al_Games l).
Definition condition_stubs t (conds : list condition) : list EventSnapshot :=
  (fun '(gameID, sportID) => stub_event gameID sportID) <$>
    range_at t (foldl (fun m cond => <[cd_GameID cond := cd_SportID cond]> m)
                  (∅ : gmap string string) conds).

Lemma buildSnapshot_eq sports conds w :
  buildSnapshot sports conds w =
    (Ok (mkSnapshot ProviderName
       ((fun sp => mkSportSnapshot (providerSportID sp) (as_Slug sp) (as_Name sp)) <$> sports)
       (az_leagues sports) (az_events sports ++ condition_stubs (w_tick w) conds)
       (condition_market <$> conds) (cond ← conds; condition_outcomes cond)),
     mkWorld (Datatypes.S (w_tick w)) (w_st w)).
Proof. reflexivity. Qed.

Lemma az_leagues_sport sports l : l ∈ az_leagues sports ->
  exists sp, sp ∈ sports /\ ls_SportID l = providerSportID sp.
Proof.
  intros (sp & Hl & Hsp)%list_elem_of_bind. exists sp. split; [done|].
  apply list_elem_of_bind in Hl as ([c l'] & Hl & _).
  apply list_elem_of_singleton in Hl. by subst.
Qed.

(** A snapshot of Azuro is sound but for its start times: the events carry no score time,
    and the stubs, one for each game that a condition mentions, no start. *)
Lemma buildSnapshot_sound sports conds w snap w' :
  buildSnapshot sports conds w = (Ok snap, w') ->
  (forall e, e ∈ az_events sports -> exists t, parse_time "starts_at" (es_StartsAt e) = Ok t) ->
  well_referenced snap.
Proof.
  rewrite buildSnapshot_eq. intros [= <- <-] Htimes. split_and!; cbn [sn_Leagues sn_Sports
    sn_Events sn_Markets sn_Outcomes].
  - intros l (sp & Hsp & ->)%az_leagues_sport. rewrite <- list_fmap_compose.
    apply list_elem_of_fmap. by exists sp.
  - intros e [He|He]%elem_of_app.
    + split; [by apply Htimes|].
      apply list_elem_of_bind in He as (sp & He & _).
      apply list_elem_of_bind in He as ([c l] & He & _).
      apply list_elem_of_fmap in He as (g & -> & _). by eexists.
    + apply list_elem_of_fmap in He as ([g sid] & -> & _). split; by eexists.
  - intros m (cond & -> & Hc)%list_elem_of_fmap.
    rewrite fmap_app. apply elem_of_app. right. unfold condition_stubs.
    rewrite <- list_fmap_compose.
    destruct (range_keys (w_tick w) (foldl (fun m cond => <[cd_GameID cond := cd_SportID cond]> m)
      (∅ : gmap string string) conds)) as [_ Hk].
    specialize (Hk (cd_GameID cond)). rewrite (foldl_insert_is_Some cd_GameID cd_SportID) in Hk.
    apply proj2 in Hk. apply list_elem_of_fmap in Hk as ([g sid] & Hg & Hin);
      [|right; by apply list_elem_of_fmap_2].
    apply list_elem_of_fmap. exists (g, sid). split; [exact Hg|exact Hin].
  - intros o (cond & Ho & Hc)%list_elem_of_bind.
    apply list_elem_of_fmap in Ho as (out & -> & _). rewrite <- list_fmap_compose.
    apply list_elem_of_fmap. by exists cond.
Qed.

Lemma FetchHierarchy_built p sport params w snap w' :
  Azuro_FetchHierarchy p sport params w = (Ok snap, w') ->
  exists sports w0, buildSnapshot sports [] w0 = (Ok snap, w').
Proof.
  unfold Azuro_FetchHierarchy. case_decide; [done|]. unfold mbind, M_bind.
  destruct (fetchSports _ _ _ w) as [[sports|e|q] w0]; [|done..]. intros Hb. by exists sports, w0.
Qed.

Lemma FetchConditions_built p ids w snap w' :
  Azuro_FetchConditions p ids w = (Ok snap, w') ->
  exists conds w0, (buildSnapshot [] conds w0).1 = Ok snap.
Proof.
  unfold Azuro_FetchConditions. case_decide; [done|]. case_decide.
  - intros [= <- <-]. exists [], (mkWorld 0 (w_st w)). rewrite buildSnapshot_eq. cbn.
    unfold condition_stubs. cbn. assert (range_at 0 (∅ : gmap string string) = []) as ->; [|done].
    apply Permutation_nil_r. by rewrite range_perm, map_to_list_empty.
  - unfold mbind, M_bind. destruct (fetchConditions _ _ w) as [[conds|e|q] w0]; [|done..].
    intros Hb. exists conds, w0. by rewrite Hb.
Qed.

(** What the Azuro feed fetches can be stored: the conditions of any games always
    normalize, because every game they mention gets a stub; a hierarchy does exactly when
    its start times parse; and a snapshot does exactly when, besides, its conditions are
    of games of the hierarchy. *)
Theorem Azuro_snapshots_normalize p w :
  (forall ids snap w', Azuro_FetchConditions p ids w = (Ok snap, w') ->
     exists n, NormalizeSnapshot snap = Ok n) /\
  (forall sport params snap w', Azuro_FetchHierarchy p sport params w = (Ok snap, w') ->
     (exists n, NormalizeSnapshot snap = Ok n) <->
     forall e, e ∈ sn_Events snap -> exists t, parse_time "starts_at" (es_StartsAt e) = Ok t) /\
  (forall sport params snap w', Azuro_FetchSnapshot p sport params w = (Ok snap, w') ->
     (exists n, NormalizeSnapshot snap = Ok n) <->
     (forall e, e ∈ sn_Events snap -> exists t, parse_time "starts_at" (es_StartsAt e) = Ok t) /\
     (forall m, m ∈ sn_Markets snap -> mks_EventID m ∈ es_ProviderID <$> sn_Events snap)).
Proof.
  assert (forall sports w0 snap w', buildSnapshot sports [] w0 = (Ok snap, w') ->
    (forall e, e ∈ sn_Events snap -> exists t, parse_time "starts_at" (es_StartsAt e) = Ok t) ->
    well_referenced snap) as Hhier.
  { intros sports w0 snap w' H Ht. eapply buildSnapshot_sound; [exact H|]. intros e He. apply Ht.
    rewrite buildSnapshot_eq in H. injection H as <- <-. apply elem_of_app. by left. }
  assert (forall conds w0 snap, (buildSnapshot [] conds w0).1 = Ok snap -> well_referenced snap)
    as Hcond.
  { intros conds w0 snap H. destruct (buildSnapshot [] conds w0) as [r w'] eqn:Hb.
    cbn in H. subst r. eapply buildSnapshot_sound; [exact Hb|].
    intros e He. by apply elem_of_nil in He. }
  split_and!.
  - intros ids snap w' (conds & w0 & H)%FetchConditions_built.
    by apply well_referenced_Ok, (Hcond conds w0).
  - intros sport params snap w' (sports & w0 & H)%FetchHierarchy_built. split.
    + intros Hn. apply Ok_well_referenced in Hn as (_ & Ht & _). intros e He. by apply Ht.
    + intros Ht. by apply well_referenced_Ok, (Hhier sports w0 snap w').
  - intros sport params snap w' H. split.
    + intros Hn. apply Ok_well_referenced in Hn as (_ & Ht & Hm & _).
      split; [intros e He; by apply Ht|exact Hm].
    + intros [Ht Hm]. apply well_referenced_Ok. unfold Azuro_FetchSnapshot in H.
      unfold mbind, M_bind in H.
      destruct (Azuro_FetchHierarchy p sport params w) as [[hier|e|q] w1] eqn:Hh; [|done..].
      apply FetchHierarchy_built in Hh as (sports & w0 & Hb). case_decide.
      * injection H as <- <-. by eapply Hhier.
      * destruct (Azuro_FetchConditions _ _ w1) as [[conds|e|q] w2] eqn:Hc; [|done..].
        apply FetchConditions_built in Hc as (cs & w3 & Hcs). injection H as <- <-. cbn in *.
        destruct (Hhier sports w0 hier w1 Hb Ht) as (Hl & He & _ & _).
        destruct (Hcond cs w3 conds Hcs) as (_ & _ & _ & Ho). split_and!; assumption.
Qed.
End AzuroSnapshots.

(** ** An answer with one condition *)
Module AzuroDemo.
Import Demo.
#[export] Instance sha1 : UuidSHA1 := { NewSHA1 s := "id-" +:+ s }.

Definition answer : string := marshal (JObj [("conditions", JArr [JObj [
  ("conditionId", JStr "c1"); ("state", JStr "Active"); ("title", JStr "Winner");
  ("game", JObj [("gameId", JStr "g1"); ("sport", JObj [("sportId", JStr "33")])]);
  ("outcomes", JArr [JObj [("outcomeId", JStr "1"); ("odds", JStr "1.5");
    ("state", JStr "Active")]])]])]).
#[export] Instance http : HttpTransport unit :=
  { http_Do _ := mret (mkHttpResponse 200 answer) }.
Definition feed : AzProvider := NewAzProvider "https://feed/" "" "".

Lemma Azuro_snapshots_normalize_witness : exists snap n,
  (Azuro_FetchConditions feed ["g1"] (mkWorld 0 tt)).1 = Ok snap /\
  mks_ProviderID <$> sn_Markets snap = ["c1"] /\ NormalizeSnapshot snap = Ok n.
Proof.
  destruct (Azuro_FetchConditions feed ["g1"] (mkWorld 0 tt)) as [r w'] eqn:H.
  assert (exists snap, r = Ok snap /\ mks_ProviderID <$> sn_Markets snap = ["c1"])
    as (snap & -> & Hm).
  { apply (f_equal fst) in H. cbn in H. subst r. vm_compute. by eexists. }
  destruct (proj1 (Azuro_snapshots_normalize feed (mkWorld 0 tt)) _ _ _ H) as [n Hn].
  exists snap, n. split; [reflexivity|]. split; [exact Hm|exact Hn].
Defined.
End AzuroDemo.
