(* ===== verification/MockProvider.v ===== *)
(** * MockProvider: the fixed feed for development

    [internal/oddsfeed/providers/mock/mock.go]. *)

From S2P Require Import Prelude GoStd GoTime OddsModels.

Definition mock_ProviderName : string := "mock".

Section Mock.
Context {S : Type} `{E : GoEnv}.

Definition mock_FetchHierarchy (sport : string) (params : gmap string string) : M S Snapshot :=
  now ← time_now;
  mret (mkSnapshot mock_ProviderName
    [mkSportSnapshot "mock-sp-1" "soccer" "Soccer"]
    [mkLeagueSnapshot "mock-lg-1" "mock-sp-1" "Mock League" "Mockland"]
    [mkEventSnapshot "mock-ev-1" "mock-lg-1" "mock-sp-1" "Mock FC" "Test United"
       (FormatRFC3339 (now + 120 * minute)) "upcoming" "" "" "" ∅]
    [] []).

Definition mock_FetchConditions (gameIDs : list string) : M S Snapshot :=
  mret (mkSnapshot mock_ProviderName [] []
    [mkEventSnapshot "mock-ev-1" "mock-lg-1" "mock-sp-1" "" "" "" "upcoming" "" "" "" ∅]
    [mkMarketSnapshot "mock-mk-1" "mock-ev-1" "1x2" "Match Result" "" "active" ∅]
    [mkOutcomeSnapshot "mock-oc-1" "mock-mk-1" "Home" "2.10" "active" ∅;
     mkOutcomeSnapshot "mock-oc-2" "mock-mk-1" "Draw" "3.40" "active" ∅;
     mkOutcomeSnapshot "mock-oc-3" "mock-mk-1" "Away" "3.20" "active" ∅]).

Definition mock_FetchSnapshot (sport : string) (params : gmap string string) : M S Snapshot :=
  hier ← mock_FetchHierarchy sport params;
  conds ← mock_FetchConditions ["mock-ev-1"];
  mret (mkSnapshot (sn_Provider hier) (sn_Sports hier) (sn_Leagues hier) (sn_Events hier)
          (sn_Markets conds) (sn_Outcomes conds)).

Definition mock_FeedProvider : FeedProvider S :=
  mkFeedProvider mock_ProviderName mock_FetchSnapshot mock_FetchHierarchy mock_FetchConditions.

(** What SubscribeLive sends on each tick. *)
Definition mock_live_update : Update :=
  mkUpdate mock_ProviderName "odds" "mock-oc-1" {["odds" := "2.15"]}.
End Mock.
