(* ===== verification/LiveWorker.v ===== *)
(** * LiveWorker: live updates from a provider to the store

    [internal/oddsfeed/websocket.go] and the [SubscribeLive] of the two providers.  A
    provider's goroutine sends updates into a channel of a hundred, the worker's goroutine
    applies them; when the provider returns, the worker waits and subscribes again.  The
    two run interleaved, and the context can be cancelled at any time: a step relation. *)

From S2P Require Import Prelude GoStd GoJson OddsModels Normalizer OddsStore OddsService.
From S2P Require Import Xcash Azuro MockProvider.

Definition ErrCanceled : goerr := ErrVar "context.Canceled" "context canceled".

(** ** Providers: [SubscribeLive(ctx, sport, updates)]

    A step of the provider's goroutine is internal, a send that blocks while the channel
    is full, or a send that is skipped then ([select] with [default]). *)
Inductive feed_label : Type :=
| Internal
| Send (u : Update)
| TrySend (u : Update).

Record LiveFeed (S : Type) : Type := mkLiveFeed {
  lf_state : Type;
  lf_start : lf_state;
  lf_step : bool -> lf_state -> World S -> feed_label -> lf_state -> World S -> Prop;
  lf_returned : lf_state -> option goerr;
}.
Arguments lf_state {S} _.
Arguments lf_start {S} _.
Arguments lf_step {S} _ _ _ _ _ _ _.
Arguments lf_returned {S} _ _.

(** gorilla/websocket: dialing, WriteJSON of the subscription, and ReadMessage. *)
Class WsConn (S : Type) : Type := {
  ws_Dial : string -> M S unit;
  ws_Subscribe : list string -> M S unit;
  ws_ReadMessage : M S string;
}.

Section Feeds.
Context {S : Type} `{E : GoEnv, HT : HttpTransport S, WC : WsConn S, FT : FloatText}.

(** Up to the loop: whether there is anything to read. *)
Definition Azuro_open (p : AzProvider) : M S bool :=
  if decide (az_wsURL p = "") then mthrow (ErrNew "azuro websocket URL not configured")
  else
    condIDs ← wrapped "fetch live condition ids" (fetchLiveConditionIDs p);
    if decide (condIDs = []) then mret false
    else
      wrapped "dial websocket" (ws_Dial (az_wsURL p));;
      wrapped "subscribe" (ws_Subscribe condIDs);;
      mret true.

(** A message that does not decode is skipped. *)
Definition message_updates (message : string) : list Update :=
  match decode_ws_message message with Ok data => updatesFromMessage data | _ => [] end.

(** [AzIdle] is [<-ctx.Done()]; [AzCheck] the [select] at the top of the loop. *)
Inductive az_live : Type :=
| AzStart
| AzIdle
| AzCheck
| AzRead
| AzSend (updates : list Update)
| AzReturned (err : goerr).

Inductive az_step (p : AzProvider) (cancelled : bool) :
    az_live -> World S -> feed_label -> az_live -> World S -> Prop :=
| az_opened w w' : Azuro_open p w = (Ok true, w') ->
    az_step p cancelled AzStart w Internal AzCheck w'
| az_nothing w w' : Azuro_open p w = (Ok false, w') ->
    az_step p cancelled AzStart w Internal AzIdle w'
| az_failed w e w' : Azuro_open p w = (Err e, w') ->
    az_step p cancelled AzStart w Internal (AzReturned e) w'
| az_idle_done w : cancelled = true ->
    az_step p cancelled AzIdle w Internal (AzReturned ErrCanceled) w
| az_check_done w : cancelled = true ->
    az_step p cancelled AzCheck w Internal (AzReturned ErrCanceled) w
| az_check_go w : cancelled = false ->
    az_step p cancelled AzCheck w Internal AzRead w
| az_read w message w' : ws_ReadMessage w = (Ok message, w') ->
    az_step p cancelled AzRead w Internal (AzSend (message_updates message)) w'
| az_read_failed w e w' : ws_ReadMessage w = (Err e, w') ->
    az_step p cancelled AzRead w Internal (AzReturned (ErrWrap "read message" e)) w'
| az_send u us w :
    az_step p cancelled (AzSend (u :: us)) w (Send u) (AzSend us) w
| az_send_done u us w : cancelled = true ->
    az_step p cancelled (AzSend (u :: us)) w Internal (AzReturned ErrCanceled) w
| az_sent w :
    az_step p cancelled (AzSend []) w Internal AzCheck w.

Definition azuro_LiveFeed (p : AzProvider) : LiveFeed S :=
  mkLiveFeed S az_live AzStart (az_step p)
    (fun st => match st with AzReturned e => Some e | _ => None end).

Inductive mock_live : Type := MockTicking | MockReturned.

Inductive mock_step (cancelled : bool) :
    mock_live -> World S -> feed_label -> mock_live -> World S -> Prop :=
| mock_tick w : mock_step cancelled MockTicking w (TrySend mock_live_update) MockTicking w
| mock_done w : cancelled = true -> mock_step cancelled MockTicking w Internal MockReturned w.

Definition mock_LiveFeed : LiveFeed S :=
  mkLiveFeed S mock_live MockTicking mock_step
    (fun st => match st with MockReturned => Some ErrCanceled | _ => None end).
End Feeds.

(** ** The worker

    [wk_chan] is the channel; [wk_sent] and [wk_applied] are what went into it and what was
    taken out of it and applied on this connection, [wk_past] the same of the connections
    before.  The channel of a connection is abandoned with it. *)
Inductive phase : Type := Receiving | Waiting | Stopped.

Record worker (F : Type) : Type := mkWorker {
  wk_phase : phase;
  wk_feed : F;
  wk_chan : list Update;
  wk_backoff : Z;
  wk_sent : list Update;
  wk_applied : list Update;
  wk_past : list (list Update * list Update);
}.
Arguments mkWorker {F} _ _ _ _ _ _ _.
Arguments wk_phase {F} _.
Arguments wk_feed {F} _.
Arguments wk_chan {F} _.
Arguments wk_backoff {F} _.
Arguments wk_sent {F} _.
Arguments wk_applied {F} _.
Arguments wk_past {F} _.

Definition second : Z := 1000000000.
Definition chan_cap : nat := 100.

Section Worker.
Context {S : Type} `{E : GoEnv, U : UuidSHA1, OS : OddsStore S, RH : RedisHash S, NC : NatsConn S}.
Context (sv : OddsService S) (feed : LiveFeed S) (maxReconnect : Z).
#[local] Abbreviation worker := (worker (lf_state feed)).

Definition set_phase (ph : phase) (k : worker) : worker :=
  mkWorker ph (wk_feed k) (wk_chan k) (wk_backoff k) (wk_sent k) (wk_applied k) (wk_past k).
Definition set_feed (f : lf_state feed) (k : worker) : worker :=
  mkWorker (wk_phase k) f (wk_chan k) (wk_backoff k) (wk_sent k) (wk_applied k) (wk_past k).
(** [updates <- u] *)
Definition enqueue (u : Update) (k : worker) : worker :=
  mkWorker (wk_phase k) (wk_feed k) (wk_chan k ++ [u]) (wk_backoff k) (wk_sent k ++ [u])
    (wk_applied k) (wk_past k).
(** [u := <-updates] *)
Definition dequeue (u : Update) (rest : list Update) (k : worker) : worker :=
  mkWorker (wk_phase k) (wk_feed k) rest (wk_backoff k) (wk_sent k) (wk_applied k ++ [u])
    (wk_past k).
(** [backoff *= 2; ...], a new channel and a new subscription. *)
Definition resubscribe (k : worker) : worker :=
  mkWorker Receiving (lf_start feed) [] (next_backoff (max_reconnect maxReconnect) (wk_backoff k))
    [] [] (wk_past k ++ [(wk_sent k, wk_applied k)]).
Definition subscribed : worker := mkWorker Receiving (lf_start feed) [] second [] [] [].

(** The whole: whether the context is cancelled, the worker, and the services' state. *)
Definition live : Type := bool * worker * World S.

Inductive live_step : live -> live -> Prop :=
| live_cancel c k w : live_step (c, k, w) (true, k, w)
(* the provider's goroutine *)
| live_internal c k w f' w' :
    lf_step feed c (wk_feed k) w Internal f' w' ->
    live_step (c, k, w) (c, set_feed f' k, w')
| live_send c k w u f' w' :
    lf_step feed c (wk_feed k) w (Send u) f' w' -> (length (wk_chan k) < chan_cap)%nat ->
    live_step (c, k, w) (c, enqueue u (set_feed f' k), w')
| live_try_send c k w u f' w' :
    lf_step feed c (wk_feed k) w (TrySend u) f' w' -> (length (wk_chan k) < chan_cap)%nat ->
    live_step (c, k, w) (c, enqueue u (set_feed f' k), w')
| live_skip c k w u f' w' :
    lf_step feed c (wk_feed k) w (TrySend u) f' w' -> (chan_cap <= length (wk_chan k))%nat ->
    live_step (c, k, w) (c, set_feed f' k, w')
(* the worker's: [select] takes any case that is ready *)
| live_apply c k w u rest : wk_phase k = Receiving -> wk_chan k = u :: rest ->
    live_step (c, k, w) (c, dequeue u rest k, (ignore (ApplyUpdate sv u) w).2)
| live_ended c k w e : wk_phase k = Receiving -> lf_returned feed (wk_feed k) = Some e ->
    live_step (c, k, w) (c, set_phase Waiting k, w)
| live_stop c k w : wk_phase k <> Stopped -> c = true ->
    live_step (c, k, w) (c, set_phase Stopped k, w)
| live_again c k w : wk_phase k = Waiting ->
    live_step (c, k, w) (c, resubscribe k, w).

Definition live_run : live -> live -> Prop := rtc live_step.
End Worker.
