(* ===== verification/LiveWorkerProps.v ===== *)
(** * LiveWorkerProps: which live updates arrive, and in which order

    By induction over the interleaved steps of provider and worker: updates are applied in
    the order they were sent and never twice, nothing else of it touches the store, and
    the waits between connections follow the back-off. *)

From S2P Require Import Prelude GoStd GoJson Demo OddsModels Normalizer OddsStore.
From S2P Require Import OddsService Xcash Azuro MockProvider LiveWorker.

Section Props.
Context {S T : Type} `{LT : Lens S T}.
Context `{E : GoEnv, U : UuidSHA1, OS : OddsStore S, RH : RedisHash S, NC : NatsConn S}.
Context (sv : OddsService S) (feed : LiveFeed S) (maxReconnect : Z).
(** The provider's goroutine does not touch the store. *)
Context (feed_outside : forall c f w l f' w', lf_step feed c f w l f' w' -> part w' = part (L := LT) w).
#[local] Abbreviation step := (live_step sv feed maxReconnect).
#[local] Abbreviation run := (live_run sv feed maxReconnect).
#[local] Abbreviation worker := (worker (lf_state feed)).

(** The store [t'] is [t] after the updates, each applied in some state with the store as
    the one before left it. *)
Inductive applied_all : list Update -> T -> T -> Prop :=
| aa_nil t : applied_all [] t t
| aa_snoc us u t (w : World S) : applied_all us t (part w) ->
    applied_all (us ++ [u]) t (part (ignore (ApplyUpdate sv u) w).2).

(** The wait after the [n]-th connection. *)
Definition backoff_after (n : nat) : Z :=
  match n with
  | O => second
  | _ => Z.min (second * 2 ^ Z.of_nat n) (max_reconnect maxReconnect)
  end.

Definition all_applied (k : worker) : list Update :=
  concat (wk_past k).*2 ++ wk_applied k.

Record worker_ok (t : T) (st : live feed) : Prop := {
  wo_now : wk_sent st.1.2 = wk_applied st.1.2 ++ wk_chan st.1.2;
  wo_cap : (length (wk_chan st.1.2) <= chan_cap)%nat;
  wo_past : forall sent applied, (sent, applied) ∈ wk_past st.1.2 -> applied `prefix_of` sent;
  wo_backoff : wk_backoff st.1.2 = backoff_after (length (wk_past st.1.2));
  wo_store : applied_all (all_applied st.1.2) t (part st.2);
  wo_stopped : wk_phase st.1.2 = Stopped -> st.1.1 = true;
}.

Lemma second_pos : second = 1000000000.
Proof. done. Qed.

Lemma max_reconnect_pos : 0 < max_reconnect maxReconnect.
Proof. unfold max_reconnect. destruct (_ <=? _) eqn:H; lia. Qed.

Lemma next_backoff_after n : max_reconnect maxReconnect < 2 ^ 62 ->
  next_backoff (max_reconnect maxReconnect) (backoff_after n) = backoff_after (Datatypes.S n).
Proof.
  intros Hmax. pose proof max_reconnect_pos as Hpos. unfold next_backoff.
  assert (1 <= 2 ^ Z.of_nat n) as Hone by (pose proof (Z.pow_pos_nonneg 2 (Z.of_nat n)); lia).
  assert (backoff_after (Datatypes.S n) =
    Z.min (2 * (second * 2 ^ Z.of_nat n)) (max_reconnect maxReconnect)) as ->.
  { unfold backoff_after. rewrite Nat2Z.inj_succ, Z.pow_succ_r by lia. f_equal. ring. }
  assert (0 < backoff_after n /\ (backoff_after n = Z.min (second * 2 ^ Z.of_nat n) (max_reconnect maxReconnect)
    \/ backoff_after n = second * 2 ^ Z.of_nat n /\ backoff_after n < 2 ^ 62)) as [Hb Hcase].
  { destruct n; [split; [done|]; right; by split|]. unfold backoff_after.
    rewrite second_pos in *. split; [lia|by left]. }
  rewrite int64_id by (unfold in_int64; lia).
  destruct (_ <? _) eqn:Hlt; lia.
Qed.

Lemma worker_ok_start (w : World S) : worker_ok (part w) (false, subscribed feed, w).
Proof.
  constructor; cbn; try done; [lia| |constructor]. intros ? ? H. by apply elem_of_nil in H.
Qed.

Lemma worker_ok_step t st st' : max_reconnect maxReconnect < 2 ^ 62 ->
  worker_ok t st -> step st st' -> worker_ok t st'.
Proof.
  intros Hmax [H1 H2 H3 H4 H5 H6]. destruct 1 as [c k w|c k w f' w' Hs|c k w u f' w' Hs Hl|c k w u f' w' Hs Hl
    |c k w u f' w' Hs Hl|c k w u rest Hp Hc|c k w e Hp He|c k w Hp Hc|c k w Hp]; cbn in *;
    try apply feed_outside in Hs.
  - by constructor.
  - constructor; cbn; try done. by rewrite Hs.
  - constructor; cbn; try done; [by rewrite H1, app_assoc|rewrite length_app; cbn; lia|by rewrite Hs].
  - constructor; cbn; try done; [by rewrite H1, app_assoc|rewrite length_app; cbn; lia|by rewrite Hs].
  - constructor; cbn; try done. by rewrite Hs.
  - rewrite Hc in *. constructor; cbn; try done.
    + by rewrite H1, <- app_assoc.
    + cbn in H2. lia.
    + unfold all_applied. cbn. rewrite app_assoc. by constructor.
  - by constructor.
  - by constructor.
  - constructor; cbn; try done; [lia| | |].
    + intros s a [Hin|[= -> ->]%list_elem_of_singleton]%elem_of_app; [by apply H3|].
      rewrite H1. by eexists.
    + rewrite H4, length_app, Nat.add_comm. cbn [length Nat.add]. by apply next_backoff_after.
    + unfold all_applied in *. cbn. rewrite fmap_app, concat_app. cbn. by rewrite !app_nil_r.
Qed.

(** C40.  After any interleaving of the provider's and the worker's steps, the updates
    applied on a connection are those sent on it, in their order and each once: all but
    those still in the channel, which holds a hundred at most, and on a connection that
    ended a prefix.  The store is the one before with exactly these applied, one after the
    other; the wait before the n-th reconnection is 2^n seconds up to the maximum. *)
Theorem live_updates_in_order (w : World S) st : max_reconnect maxReconnect < 2 ^ 62 ->
  run (false, subscribed feed, w) st ->
  let k := st.1.2 in
  wk_sent k = wk_applied k ++ wk_chan k /\ (length (wk_chan k) <= chan_cap)%nat /\
  (forall sent applied, (sent, applied) ∈ wk_past k -> applied `prefix_of` sent) /\
  applied_all (all_applied k) (part w) (part st.2) /\
  wk_backoff k = backoff_after (length (wk_past k)).
Proof.
  intros Hmax Hr. assert (worker_ok (part w) st) as [? ? ? ? ? _]; [|done].
  remember (false, subscribed feed, w) as st0 eqn:H0.
  assert (worker_ok (part w) st0) as Hok by (subst; apply worker_ok_start). clear H0.
  induction Hr as [|a b c Hs _ IH]; [done|]. apply IH. by apply (worker_ok_step _ a).
Qed.
End Props.

(** ** Azuro's feed *)
Section AzuroFeed.
Context {S T : Type} `{LT : Lens S T}.
Context `{E : GoEnv, HT : HttpTransport S, WC : WsConn S, FT : FloatText}.
Context (p : AzProvider).

(** A call that leaves the store alone. *)
Definition leaves {A} (m : M S A) : Prop := forall w, part (m w).2 = part (L := LT) w.
Context (http_leaves : forall req, leaves (http_Do req)) (dial_leaves : forall url, leaves (ws_Dial url)).
Context (write_leaves : forall ids, leaves (ws_Subscribe ids)) (read_leaves : leaves ws_ReadMessage).

Lemma leaves_bind {A B} (m : M S A) (f : A -> M S B) : leaves m -> (forall a, leaves (f a)) ->
  leaves (m ≫= f).
Proof.
  intros Hm Hf w. specialize (Hm w). unfold mbind, M_bind.
  destruct (m w) as [[a|e|q] w']; cbn in *; [by rewrite Hf|done|done].
Qed.
Lemma leaves_wrapped {A} what (m : M S A) : leaves m -> leaves (wrapped what m).
Proof. intros Hm w. by rewrite wrapped_snd. Qed.

Lemma leaves_request what req : leaves (az_request what req).
Proof.
  unfold az_request. apply leaves_bind; [by apply leaves_wrapped|]. intros resp.
  destruct (_ || _); [done|]. by apply leaves_wrapped.
Qed.

Lemma leaves_open : leaves (Azuro_open p).
Proof.
  unfold Azuro_open. case_decide; [done|]. apply leaves_bind; [apply leaves_wrapped|].
  - apply leaves_bind; [apply leaves_bind; [apply leaves_request|by intros]|]. intros sports.
    cbv zeta. case_decide; [done|]. apply leaves_bind; [|by intros].
    apply leaves_bind; [apply leaves_request|by intros].
  - intros ids. case_decide; [done|]. apply leaves_bind; [by apply leaves_wrapped|]. intros _.
    apply leaves_bind; [by apply leaves_wrapped|done].
Qed.

Lemma azuro_outside c f w l f' w' : lf_step (azuro_LiveFeed p) c f w l f' w' ->
  part w' = part (L := LT) w.
Proof.
  destruct 1 as [w w' H|w w' H|w e w' H|w|w|w|w m w' H|w e w' H|u us w|u us w|w]; try done.
  1-3: by rewrite <- (leaves_open w), H.
  1-2: by rewrite <- (read_leaves w), H.
Qed.
End AzuroFeed.

Section AzuroIdle.
Context {S : Type} `{E : GoEnv, U : UuidSHA1, OS : OddsStore S, RH : RedisHash S, NC : NatsConn S}.
Context `{HT : HttpTransport S, WC : WsConn S, FT : FloatText}.
Context (sv : OddsService S) (p : AzProvider) (maxReconnect : Z).
#[local] Abbreviation feed := (azuro_LiveFeed p).

(** When no condition is live at the moment the worker subscribes to Azuro, it waits
    until the context is cancelled: it neither connects nor asks again, whatever becomes
    live later, and applies no update. *)
Theorem azuro_idle_until_cancelled w w1 st : az_wsURL p <> "" ->
  fetchLiveConditionIDs p w = (Ok [], w1) ->
  live_run sv feed maxReconnect (false, subscribed feed, w) st ->
  st.1.1 = true \/ st = (false, subscribed feed, w) \/
  st = (false, set_feed feed AzIdle (subscribed feed), w1).
Proof.
  intros Hu Hf Hr. assert (Azuro_open p w = (Ok false, w1)) as Ho.
  { unfold Azuro_open. rewrite decide_False by done. unfold mbind, M_bind, wrapped. by rewrite Hf. }
  remember (false, subscribed feed, w) as st0 eqn:H0.
  assert (st0.1.1 = true \/ st0 = (false, subscribed feed, w) \/
    st0 = (false, set_feed feed AzIdle (subscribed feed), w1)) as Hst by (right; by left).
  rewrite H0. clear H0. induction Hr as [|a b c Hs _ IH]; [done|]. apply IH. clear IH.
  destruct Hst as [Hc|[-> | ->]].
  - left. by destruct Hs.
  - inversion Hs; subst; cbn in *; try done; try (by left);
      match goal with H : az_step _ _ _ _ _ _ _ |- _ => inversion H; subst; try congruence end.
    right. right. congruence.
  - inversion Hs; subst; cbn in *; try done; try (by left);
      match goal with H : az_step _ _ _ _ _ _ _ |- _ => inversion H; subst; congruence end.
Qed.
End AzuroIdle.

(** ** A connection that breaks *)
Module LiveDemo.
Import Demo.
#[local] Instance sha1 : UuidSHA1 := { NewSHA1 s := "id-" +:+ s }.
#[local] Instance odds_lens : Lens oddsMemory oddsMemory := { lget s := s; lset t _ := t }.
#[local] Instance redis : RedisHash oddsMemory :=
  { redis_Exec _ := mthrow (ErrNew "down"); redis_HGetAll _ := mthrow (ErrNew "down") }.
#[local] Instance nats : NatsConn oddsMemory := { nats_Publish _ _ := mthrow (ErrNew "down") }.
#[local] Instance floats : FloatText := { FormatFloat4 s := Ok s }.

(** One live game with one condition; the connection breaks after one message. *)
Definition games : string := marshal (JObj [("sports", JArr [JObj [("sportId", JStr "33");
  ("countries", JArr [JObj [("leagues", JArr [JObj [("games", JArr [JObj [
    ("gameId", JStr "g1")]])]])]])]])]).
Definition conditions : string := marshal (JObj [("conditions", JArr [JObj [
  ("conditionId", JStr "c1")]])]).
Definition message : string := marshal (JObj [("data", JArr [JObj [("id", JStr "c1");
  ("state", JStr "Stopped"); ("outcomes", JArr [JObj [("id", JNum "1"); ("odds", JNum "1.5")]])]])]).
#[local] Instance http : HttpTransport oddsMemory :=
  { http_Do req := mret (mkHttpResponse 200
      (if decide (hreq_Method req = "GET") then games else conditions)) }.
#[local] Instance ws : WsConn oddsMemory := {
  ws_Dial _ := mret tt;
  ws_Subscribe _ := mret tt;
  ws_ReadMessage := n ← tick; if decide (n = 0%nat) then mret message else mthrow (ErrNew "EOF");
}.
Definition provider : AzProvider := NewAzProvider "https://feed" "wss://feed" "".
Definition sv : OddsService oddsMemory := mkOddsService ∅ None false.
Definition feed : LiveFeed oddsMemory := azuro_LiveFeed provider.
Definition market : Market := mkMarket "id-m" "azuro" "c1" "id-e" "t" "n" "" "active" ∅ 0 0.
Definition stored : World oddsMemory :=
  mkWorld 0 (om_set_market (marketKey "azuro" "c1") market NewOddsMemory).

Definition u_status : Update := mkUpdate "azuro" "status" "c1" {["status" := "suspended"]}.
Definition u_odds : Update := mkUpdate "azuro" "odds" "c1:1" {["odds" := "1.5"]}.
Lemma message_is : message_updates message = [u_status; u_odds].
Proof. vm_compute. reflexivity. Qed.

(** The worker after the status was applied, the connection broke and it connected again. *)
Definition broken : live feed :=
  (false, mkWorker Receiving AzStart [] (2 * second) [] []
     [([u_status; u_odds], [u_status])],
   mkWorld 3 (om_set_market (marketKey "azuro" "c1")
     (market_set_Status "suspended" 1000000000 market) (w_st stored))).

(** Status and odds arrive in one message; the connection breaks before the worker takes
    the odds out of the channel, and they are lost. *)
Lemma breaks : live_run sv feed 0 (false, subscribed feed, stored) broken.
Proof.
  eapply rtc_l; [eapply live_internal, az_opened; vm_compute; reflexivity|].
  eapply rtc_l; [eapply live_internal, az_check_go; reflexivity|].
  eapply rtc_l; [eapply live_internal, az_read; reflexivity|]. rewrite message_is.
  eapply rtc_l; [eapply live_send; [apply az_send|cbn; unfold chan_cap; lia]|].
  eapply rtc_l; [eapply live_send; [apply az_send|cbn; unfold chan_cap; lia]|].
  eapply rtc_l; [eapply live_apply; reflexivity|].
  eapply rtc_l; [eapply live_internal, az_sent|].
  eapply rtc_l; [eapply live_internal, az_check_go; reflexivity|].
  eapply rtc_l; [eapply live_internal, az_read_failed; reflexivity|].
  eapply rtc_l; [eapply live_ended; reflexivity|].
  eapply rtc_l; [eapply live_again; reflexivity|].
  match goal with |- rtc _ ?a ?b => assert (a = b) as -> by (vm_compute; reflexivity) end. apply rtc_refl.
Qed.

Lemma feed_outside c f w l f' w' : lf_step feed c f w l f' w' -> part w' = part (L := odds_lens) w.
Proof.
  apply azuro_outside; [by intros|by intros|by intros|]. intros w0. unfold ws_ReadMessage, ws. unmonad.
  by case_decide.
Qed.

Lemma live_updates_in_order_witness :
  wk_past broken.1.2 = [([u_status; u_odds], [u_status])] /\
  applied_all (LT := odds_lens) sv [u_status] (w_st stored) (w_st broken.2) /\
  wk_backoff broken.1.2 = backoff_after 0 1.
Proof.
  destruct (live_updates_in_order (LT := odds_lens) sv feed 0 feed_outside stored broken
    ltac:(reflexivity) breaks) as (_ & _ & _ & Hst & Hb).
  split; [reflexivity|]. split; [exact Hst|exact Hb].
Defined.

(** Nothing is live. *)
Definition quiet : HttpTransport oddsMemory := {| http_Do req := mret (mkHttpResponse 200 "{}") |}.
Definition quiet_feed : LiveFeed oddsMemory := azuro_LiveFeed (HT := quiet) provider.
Definition idle : live quiet_feed := (false, set_feed quiet_feed AzIdle (subscribed quiet_feed), stored).
Lemma idles : live_run sv quiet_feed 0 (false, subscribed quiet_feed, stored) idle.
Proof.
  eapply rtc_l; [|apply rtc_refl]. apply live_internal, az_nothing. vm_compute. reflexivity.
Qed.
Lemma azuro_idle_until_cancelled_witness :
  idle.1.1 = true \/ idle = (false, subscribed quiet_feed, stored) \/
  idle = (false, set_feed quiet_feed AzIdle (subscribed quiet_feed), stored).
Proof.
  exact (azuro_idle_until_cancelled (HT := quiet) sv provider 0 stored stored idle
    ltac:(discriminate) ltac:(vm_compute; reflexivity) idles).
Defined.
End LiveDemo.
