(* ===== verification/BetStore.v ===== *)
(** * BetStore: the sportsbook's data and in-memory store

    [internal/sportsbook/models.go], [decimal.go], [store.go] and [memory_store.go]. *)

From S2P Require Import Prelude GoStd Decimal.

Record Bet : Type := mkBet {
  bet_ID : string;
  bet_UserID : string;
  bet_EventID : string;
  bet_MarketID : string;
  bet_OutcomeID : string;
  bet_Odds : string;
  bet_Stake : string;
  bet_PotentialPayout : string;
  bet_Currency : string;
  bet_Status : string;
  bet_ReferenceID : string;
  bet_DebitTransactionID : string;
  bet_CreditTransactionID : string;
  bet_CreatedAt : Z;
  bet_SettledAt : option Z;
}.

Definition StatusDebitPending : string := "debit_pending".
Definition StatusPending : string := "pending".
Definition StatusWon : string := "won".
Definition StatusLost : string := "lost".
Definition StatusCancelled : string := "cancelled".
Definition StatusSettled : string := "settled".

(** Assignments to a bet's fields. *)
Definition bet_set_ID (id : string) (b : Bet) : Bet :=
  mkBet id (bet_UserID b) (bet_EventID b) (bet_MarketID b) (bet_OutcomeID b) (bet_Odds b)
    (bet_Stake b) (bet_PotentialPayout b) (bet_Currency b) (bet_Status b)
    (bet_ReferenceID b) (bet_DebitTransactionID b) (bet_CreditTransactionID b)
    (bet_CreatedAt b) (bet_SettledAt b).
Definition bet_set_CreatedAt (t : Z) (b : Bet) : Bet :=
  mkBet (bet_ID b) (bet_UserID b) (bet_EventID b) (bet_MarketID b) (bet_OutcomeID b)
    (bet_Odds b) (bet_Stake b) (bet_PotentialPayout b) (bet_Currency b) (bet_Status b)
    (bet_ReferenceID b) (bet_DebitTransactionID b) (bet_CreditTransactionID b) t
    (bet_SettledAt b).
Definition bet_set_Status (status : string) (b : Bet) : Bet :=
  mkBet (bet_ID b) (bet_UserID b) (bet_EventID b) (bet_MarketID b) (bet_OutcomeID b)
    (bet_Odds b) (bet_Stake b) (bet_PotentialPayout b) (bet_Currency b) status
    (bet_ReferenceID b) (bet_DebitTransactionID b) (bet_CreditTransactionID b)
    (bet_CreatedAt b) (bet_SettledAt b).
Definition bet_set_DebitTx (tx : string) (b : Bet) : Bet :=
  mkBet (bet_ID b) (bet_UserID b) (bet_EventID b) (bet_MarketID b) (bet_OutcomeID b)
    (bet_Odds b) (bet_Stake b) (bet_PotentialPayout b) (bet_Currency b) (bet_Status b)
    (bet_ReferenceID b) tx (bet_CreditTransactionID b) (bet_CreatedAt b) (bet_SettledAt b).
Definition bet_set_CreditTx (tx : string) (b : Bet) : Bet :=
  mkBet (bet_ID b) (bet_UserID b) (bet_EventID b) (bet_MarketID b) (bet_OutcomeID b)
    (bet_Odds b) (bet_Stake b) (bet_PotentialPayout b) (bet_Currency b) (bet_Status b)
    (bet_ReferenceID b) (bet_DebitTransactionID b) tx (bet_CreatedAt b) (bet_SettledAt b).
(** [if !settledAt.IsZero() { b.SettledAt = &settledAt }] *)
Definition bet_set_SettledAt (t : Z) (b : Bet) : Bet :=
  if IsZero t then b else
  mkBet (bet_ID b) (bet_UserID b) (bet_EventID b) (bet_MarketID b) (bet_OutcomeID b)
    (bet_Odds b) (bet_Stake b) (bet_PotentialPayout b) (bet_Currency b) (bet_Status b)
    (bet_ReferenceID b) (bet_DebitTransactionID b) (bet_CreditTransactionID b)
    (bet_CreatedAt b) (Some t).

Definition ErrBetNotFound : goerr := ErrVar "sportsbook.ErrBetNotFound" "bet not found".

(** ** decimal.go *)
Section Decimals.
Context `{D : Decimal}.

Definition parseDecimal (s : string) : res dec :=
  wrap_res ("parse decimal " +:+ quote s) (NewFromString s).

Definition multiplyDecimal (a b : string) : res string :=
  da ← parseDecimal a;
  db ← parseDecimal b;
  mret (dec_String (dec_Mul da db)).

Definition decimalGreaterThanZero (s : string) : res bool :=
  d ← parseDecimal s;
  mret (dec_GreaterThan d dec_Zero).
End Decimals.

(** ** The [Store] interface of store.go *)
Class BetStore (S : Type) : Type := {
  bets_CreateBet : Bet -> M S string;
  bets_GetBet : string -> M S Bet;
  bets_ListBets : string -> string -> Z -> Z -> M S (list Bet);
  bets_ListPendingBets : Z -> Z -> M S (list Bet);
  bets_UpdateBetStatus : string -> string -> Z -> M S unit;
  bets_UpdateBetStatusAndDebitTx : string -> string -> string -> Z -> M S unit;
  bets_UpdateBetStatusAndOutcome : string -> string -> Z -> M S unit;
  bets_SetCreditTransactionID : string -> string -> M S unit;
  bets_GetBetByReference : string -> string -> M S Bet;
}.

(** ** memory_store.go *)

(** The inner loop: [bets[j]] moves left while it goes [before] its neighbour. *)
Fixpoint sift (before : Bet -> Bet -> bool) (j : nat) (bets : list Bet) : list Bet :=
  match j with
  | O => bets
  | S j' =>
      match bets !! j, bets !! j' with
      | Some x, Some y =>
          if before x y then sift before j' (<[j' := x]> (<[j := y]> bets)) else bets
      | _, _ => bets
      end
  end.

(** [for i := 1; i < len(bets); i++] *)
Definition insertion_sort (before : Bet -> Bet -> bool) (bets : list Bet) : list Bet :=
  foldl (fun bs i => sift before i bs) bets (seq 1 (length bets - 1)).

Definition before_desc (x y : Bet) : bool :=
  (bet_CreatedAt y <? bet_CreatedAt x) ||
  ((bet_CreatedAt x =? bet_CreatedAt y) && string_ltb (bet_ID y) (bet_ID x)).
Definition before_asc (x y : Bet) : bool :=
  (bet_CreatedAt x <? bet_CreatedAt y) ||
  ((bet_CreatedAt x =? bet_CreatedAt y) && string_ltb (bet_ID x) (bet_ID y)).

Definition sortBetsByCreatedDesc : list Bet -> list Bet := insertion_sort before_desc.
Definition sortBetsByCreatedAsc : list Bet -> list Bet := insertion_sort before_asc.

(** [start := (page-1)*pageSize] up to [xs[start:end]]. *)
Definition page_of {A} (xs : list A) (page pageSize : Z) : res (list A) :=
  let len := Z.of_nat (length xs) in
  let start := int64 (int64 (page - 1) * pageSize) in
  let start := if len <? start then len else start in
  let end_ := int64 (start + pageSize) in
  let end_ := if len <? end_ then len else end_ in
  slice xs start end_.

Abbreviation InMemoryStore := (gmap string Bet).
Definition NewBetMemory : InMemoryStore := ∅.

Section InMemory.
Context `{E : GoEnv}.

Definition InMemoryStore_CreateBet (b : Bet) : M InMemoryStore string :=
  s ← get;
  bets ← range s;
  if existsb (fun '(_, existing) =>
       bool_decide (bet_UserID existing = bet_UserID b) &&
       bool_decide (bet_ReferenceID existing = bet_ReferenceID b)) bets
  then mthrow ErrBetNotFound
  else
    id ← (if decide (bet_ID b = "") then new_uuid else mret (bet_ID b));
    let b := bet_set_ID id b in
    b ← (if IsZero (bet_CreatedAt b)
         then t ← time_now; mret (bet_set_CreatedAt t b)
         else mret b);
    modify (<[id := b]>);;
    mret id.

Definition InMemoryStore_GetBet (id : string) : M InMemoryStore Bet :=
  s ← get;
  match s !! id with
  | Some b => mret b
  | None => mthrow ErrBetNotFound
  end.

Definition InMemoryStore_ListBets (userID status : string) (page pageSize : Z) :
    M InMemoryStore (list Bet) :=
  s ← get;
  let page := default_int 1 page in
  let pageSize := default_int 20 pageSize in
  bets ← range s;
  let filtered := filter (fun b => bet_UserID b = userID /\
                            (status = "" \/ bet_Status b = status)) bets.*2 in
  of_res (page_of (sortBetsByCreatedDesc filtered) page pageSize).

(** [b, ok := s.bets[id]; if !ok { return ErrBetNotFound }; ...; s.bets[id] = b] *)
Definition update_bet (id : string) (f : Bet -> Bet) : M InMemoryStore unit :=
  s ← get;
  match s !! id with
  | Some b => modify (<[id := f b]>)
  | None => mthrow ErrBetNotFound
  end.

Definition InMemoryStore_UpdateBetStatus (id status : string) (settledAt : Z) :
    M InMemoryStore unit :=
  update_bet id (fun b => bet_set_SettledAt settledAt (bet_set_Status status b)).

Definition InMemoryStore_UpdateBetStatusAndDebitTx (id status debitTxID : string)
    (settledAt : Z) : M InMemoryStore unit :=
  update_bet id (fun b =>
    bet_set_SettledAt settledAt (bet_set_DebitTx debitTxID (bet_set_Status status b))).

Definition InMemoryStore_UpdateBetStatusAndOutcome (id status : string) (settledAt : Z) :
    M InMemoryStore unit :=
  update_bet id (fun b => bet_set_SettledAt settledAt (bet_set_Status status b)).

Definition InMemoryStore_SetCreditTransactionID (id creditTxID : string) :
    M InMemoryStore unit :=
  update_bet id (bet_set_CreditTx creditTxID).

Definition InMemoryStore_ListPendingBets (page pageSize : Z) : M InMemoryStore (list Bet) :=
  s ← get;
  let page := default_int 1 page in
  let pageSize := default_int 20 pageSize in
  bets ← range s;
  let out := filter (fun b => bet_Status b = StatusPending) bets.*2 in
  of_res (page_of (sortBetsByCreatedAsc out) page pageSize).

Definition InMemoryStore_GetBetByReference (userID referenceID : string) :
    M InMemoryStore Bet :=
  s ← get;
  bets ← range s;
  match list_find (fun '(_, b) => bet_UserID b = userID /\ bet_ReferenceID b = referenceID)
          bets with
  | Some (_, (_, b)) => mret b
  | None => mthrow ErrBetNotFound
  end.

#[export] Instance InMemoryStore_BetStore : BetStore InMemoryStore := {
  bets_CreateBet := InMemoryStore_CreateBet;
  bets_GetBet := InMemoryStore_GetBet;
  bets_ListBets := InMemoryStore_ListBets;
  bets_ListPendingBets := InMemoryStore_ListPendingBets;
  bets_UpdateBetStatus := InMemoryStore_UpdateBetStatus;
  bets_UpdateBetStatusAndDebitTx := InMemoryStore_UpdateBetStatusAndDebitTx;
  bets_UpdateBetStatusAndOutcome := InMemoryStore_UpdateBetStatusAndOutcome;
  bets_SetCreditTransactionID := InMemoryStore_SetCreditTransactionID;
  bets_GetBetByReference := InMemoryStore_GetBetByReference;
}.
End InMemory.

(** A store that is a component of a larger state. *)
Section LensStore.
Context {S T : Type} `{LB : Lens S T, BS : BetStore T}.

Definition lens_BetStore : BetStore S := {|
  bets_CreateBet b := zoom (bets_CreateBet b);
  bets_GetBet id := zoom (bets_GetBet id);
  bets_ListBets u st p n := zoom (bets_ListBets u st p n);
  bets_ListPendingBets p n := zoom (bets_ListPendingBets p n);
  bets_UpdateBetStatus id st t := zoom (bets_UpdateBetStatus id st t);
  bets_UpdateBetStatusAndDebitTx id st tx t := zoom (bets_UpdateBetStatusAndDebitTx id st tx t);
  bets_UpdateBetStatusAndOutcome id st t := zoom (bets_UpdateBetStatusAndOutcome id st t);
  bets_SetCreditTransactionID id tx := zoom (bets_SetCreditTransactionID id tx);
  bets_GetBetByReference u r := zoom (bets_GetBetByReference u r);
|}.
End LensStore.
