(* ===== verification/BetStoreProps.v ===== *)
(** * BetStoreProps: what the sportsbook's in-memory store guarantees

    The insertion sort sorts, the paging arithmetic selects a window of the sorted list
    for every page the API can ask for, and references stay unique per user. *)

From stdpp Require Import sorting.
From S2P Require Import Prelude GoStd Decimal Demo BetStore.

(** ** The order on strings *)
Lemma string_ltb_irrefl s : string_ltb s s = false.
Proof.
  unfold string_ltb. pose proof (String.compare_antisym s s) as H.
  by destruct (String.compare s s).
Qed.

Lemma string_ltb_asym s t : string_ltb s t = true -> string_ltb t s = false.
Proof.
  unfold string_ltb. rewrite (String.compare_antisym t s). by destruct (String.compare s t).
Qed.

Lemma string_ltb_total s t : string_ltb s t = false -> string_ltb t s = false -> s = t.
Proof.
  unfold string_ltb. rewrite (String.compare_antisym t s).
  destruct (String.compare s t) eqn:E; cbn; try done. by intros; apply String.compare_eq_iff.
Qed.

Lemma ascii_compare_N a b : Ascii.compare a b = N.compare (N_of_ascii a) (N_of_ascii b).
Proof. done. Qed.

Lemma string_ltb_trans s t u :
  string_ltb s t = true -> string_ltb t u = true -> string_ltb s u = true.
Proof.
  unfold string_ltb. revert t u.
  induction s as [|a s IH]; intros [|b t] [|c u]; cbn; try done.
  rewrite !ascii_compare_N.
  destruct (N.compare_spec (N_of_ascii a) (N_of_ascii b)) as [H1|H1|H1],
    (N.compare_spec (N_of_ascii b) (N_of_ascii c)) as [H2|H2|H2];
    destruct (N.compare_spec (N_of_ascii a) (N_of_ascii c)) as [H3|H3|H3]; try done; try lia.
  apply IH.
Qed.

(** ** The insertion sort *)

(** [x] may stay to the left of [y]. *)
Definition in_order (before : Bet -> Bet -> bool) (x y : Bet) : Prop := before y x = false.

(** A strict total preorder, as the comparisons of the two sorts are. *)
Class StrictOrder (before : Bet -> Bet -> bool) : Prop := {
  before_asym : forall x y, before x y = true -> before y x = false;
  in_order_trans : forall x y z,
    in_order before x y -> in_order before y z -> in_order before x z;
}.

(** The order on two keys, creation date then identifier, gives the sorts' comparisons. *)
Lemma keyed_order (lt : Z -> Z -> bool) (slt : string -> string -> bool) :
  (forall a b, lt a b = true -> lt b a = false) ->
  (forall a b, lt a b = false -> lt b a = false -> a = b) ->
  (forall a b c, lt a b = true -> lt b c = true -> lt a c = true) ->
  (forall a b, slt a b = true -> slt b a = false) ->
  (forall a b, slt a b = false -> slt b a = false -> a = b) ->
  (forall a b c, slt a b = true -> slt b c = true -> slt a c = true) ->
  StrictOrder (fun x y => lt (bet_CreatedAt x) (bet_CreatedAt y) ||
    ((bet_CreatedAt x =? bet_CreatedAt y) && slt (bet_ID x) (bet_ID y))).
Proof.
  intros La Lt Lr Sa St Sr.
  assert (forall a, lt a a = false) as Li.
  { intros a. destruct (lt a a) eqn:E; [|done]. by pose proof (La _ _ E); congruence. }
  assert (forall a, slt a a = false) as Si.
  { intros a. destruct (slt a a) eqn:E; [|done]. by pose proof (Sa _ _ E); congruence. }
  constructor.
  - intros x y [H|[H1%Z.eqb_eq H2]%andb_prop]%orb_prop; apply orb_false_iff.
    + split; [by apply La|]. apply andb_false_iff. left. apply Z.eqb_neq. intros E.
      rewrite E, Li in H. done.
    + rewrite H1, Li. split; [done|]. by rewrite (Sa _ _ H2), andb_false_r.
  - unfold in_order. intros x y z [H1 H2]%orb_false_iff [H3 H4]%orb_false_iff.
    apply orb_false_iff.
    assert (lt (bet_CreatedAt z) (bet_CreatedAt x) = false) as H.
    { destruct (lt (bet_CreatedAt z) (bet_CreatedAt x)) eqn:E; [|done].
      destruct (lt (bet_CreatedAt x) (bet_CreatedAt y)) eqn:E'.
      - by rewrite (Lr _ _ _ E E') in H3.
      - rewrite (Lt _ _ E' H1) in E. congruence. }
    split; [done|]. destruct (Z.eqb_spec (bet_CreatedAt z) (bet_CreatedAt x)) as [Ezx|]; [|done].
    rewrite Ezx in *. pose proof (Lt _ _ H1 H3) as Eyx. rewrite Eyx, Z.eqb_refl in *. cbn in *.
    destruct (slt (bet_ID z) (bet_ID x)) eqn:E; [|done].
    destruct (slt (bet_ID x) (bet_ID y)) eqn:E'.
    + by rewrite (Sr _ _ _ E E') in H4.
    + rewrite (St _ _ E' H2) in E. congruence.
Qed.

#[export] Instance before_asc_order : StrictOrder before_asc.
Proof.
  apply (keyed_order Z.ltb string_ltb); eauto using string_ltb_asym, string_ltb_total,
    string_ltb_trans; intros *; rewrite ?Z.ltb_lt, ?Z.ltb_ge; lia.
Qed.

#[export] Instance before_desc_order : StrictOrder before_desc.
Proof.
  apply (keyed_order (fun a b => b <? a) (fun a b => string_ltb b a));
    eauto using string_ltb_asym, string_ltb_total, string_ltb_trans;
    intros *; rewrite ?Z.ltb_lt, ?Z.ltb_ge; lia.
Qed.

Section Sort.
Context (before : Bet -> Bet -> bool) `{!StrictOrder before}.

Lemma sift_step l x y r :
  sift before (length (l ++ [y])) ((l ++ [y]) ++ x :: r) =
  if before x y then sift before (length l) (l ++ x :: y :: r) else (l ++ [y]) ++ x :: r.
Proof.
  rewrite length_app, Nat.add_1_r, <- app_assoc. cbn [sift app].
  assert ((l ++ y :: x :: r) !! S (length l) = Some x) as ->.
  { rewrite lookup_app_r by lia. by rewrite Nat.sub_succ_l, Nat.sub_diag by lia. }
  rewrite list_lookup_middle by done. destruct (before x y); [|done]. f_equal.
  rewrite (insert_app_r_alt l _ (S (length l))) by lia.
  rewrite Nat.sub_succ_l, Nat.sub_diag by lia. cbn.
  by rewrite (insert_app_r_alt l _ (length l)), Nat.sub_diag by lia.
Qed.

Lemma sift_spec l : forall x r,
  exists l', sift before (length l) (l ++ x :: r) = l' ++ r /\ l' ≡ₚ x :: l /\
    (StronglySorted (in_order before) l -> StronglySorted (in_order before) l').
Proof.
  induction l as [|y l IH] using rev_ind; intros x r.
  - exists [x]. split_and!; [done|done|]. intros _. by repeat constructor.
  - rewrite sift_step. destruct (before x y) eqn:Hxy.
    + destruct (IH x (y :: r)) as (l' & -> & Hp & Hs). exists (l' ++ [y]).
      rewrite <- app_assoc. split_and!; [done|by rewrite Hp|].
      rewrite StronglySorted_app. intros (H & Hl & _). apply StronglySorted_app.
      split_and!; [|by auto|by repeat constructor].
      intros a b Ha ->%list_elem_of_singleton. rewrite Hp in Ha.
      apply elem_of_cons in Ha as [->|Ha]; [by apply before_asym|].
      apply H; [done|]. by apply list_elem_of_singleton.
    + exists ((l ++ [y]) ++ [x]). rewrite <- !app_assoc. split_and!; [done|solve_Permutation|].
      rewrite app_assoc. rewrite !StronglySorted_app. intros (Hy & Hl & H).
      split_and!; [|done|done|done|by repeat constructor].
      intros a b Ha ->%list_elem_of_singleton.
      assert (in_order before y x) as Hyx by done.
      apply elem_of_app in Ha as [Ha| ->%list_elem_of_singleton]; [|done].
      eapply in_order_trans; [|done]. apply Hy; [done|]. by apply list_elem_of_singleton.
Qed.

Lemma insertion_sort_prefix (bets : list Bet) n : (1 + n <= length bets)%nat ->
  exists l, foldl (fun bs i => sift before i bs) bets (seq 1 n) = l ++ drop (1 + n) bets /\
    l ≡ₚ take (1 + n) bets /\ StronglySorted (in_order before) l.
Proof.
  induction n as [|n IH]; intros Hn.
  - destruct bets as [|b bets]; [cbn in Hn; lia|]. exists [b].
    split_and!; [done|done|]. by repeat constructor.
  - destruct IH as (l & Heq & Hp & Hs); [lia|].
    rewrite seq_S, foldl_app, Heq. cbn [foldl].
    assert (1 + n = length l)%nat as Hl.
    { rewrite (Permutation_length Hp), length_take. lia. }
    destruct (lookup_lt_is_Some_2 bets (1 + n)) as [x Hx]; [lia|].
    rewrite (drop_S _ _ _ Hx). change (1 + n)%nat with (S n) in Hl |- *.
    destruct (sift_spec l x (drop (S (S n)) bets)) as (l' & Heq' & Hp' & Hs').
    rewrite <- Hl in Heq'. exists l'. split_and!; [done| |by auto].
    change (1 + S n)%nat with (S (1 + n)). rewrite (take_S_r _ _ _ Hx), Hp', Hp.
    solve_Permutation.
Qed.

Lemma insertion_sort_perm (bets : list Bet) : insertion_sort before bets ≡ₚ bets.
Proof.
  unfold insertion_sort. destruct bets as [|b bets]; [done|].
  destruct (insertion_sort_prefix (b :: bets) (length bets)) as (l & H & Hp & _); [done|].
  replace (length (b :: bets) - 1)%nat with (length bets) by (cbn; lia).
  rewrite H, Hp, take_ge, drop_ge by done. by rewrite app_nil_r.
Qed.

Lemma insertion_sort_sorted (bets : list Bet) :
  StronglySorted (in_order before) (insertion_sort before bets).
Proof.
  unfold insertion_sort. destruct bets as [|b bets]; [constructor|].
  destruct (insertion_sort_prefix (b :: bets) (length bets)) as (l & H & Hp & Hs); [done|].
  replace (length (b :: bets) - 1)%nat with (length bets) by (cbn; lia).
  by rewrite H, drop_ge, app_nil_r by done.
Qed.

(** Lists of distinct bets that are permutations of one another sort alike. *)
Lemma insertion_sort_unique (l l' : list Bet) :
  (forall x y, before x y = false -> before y x = false -> bet_ID x = bet_ID y) ->
  (forall x y, x ∈ l -> y ∈ l -> bet_ID x = bet_ID y -> x = y) ->
  l ≡ₚ l' -> insertion_sort before l = insertion_sort before l'.
Proof.
  intros Htot Hid Hp. apply StronglySorted_unique_strong with (in_order before).
  - intros x y Hx Hy H1 H2. apply Hid.
    + by rewrite <- (insertion_sort_perm l).
    + rewrite Hp. by rewrite <- (insertion_sort_perm l').
    + by apply Htot.
  - apply insertion_sort_sorted.
  - apply insertion_sort_sorted.
  - by rewrite !insertion_sort_perm.
Qed.
End Sort.

(** ** Windows of a list *)

Definition window {A} (page pageSize : Z) (xs : list A) : list A :=
  take (Z.to_nat pageSize) (drop (Z.to_nat ((page - 1) * pageSize)) xs).

(** The pages and page sizes an [int32] field of a request can ask for. *)
Definition page_arg (n : Z) : Prop := 1 <= n < 2 ^ 31.
(** More elements than any memory holds. *)
Definition fits {A} (xs : list A) : Prop := Z.of_nat (length xs) < 2 ^ 61.

Lemma page_of_window {A} (xs : list A) page pageSize : fits xs -> page_arg pageSize ->
  1 <= page -> (page - 1) * pageSize < 2 ^ 62 -> page < 2 ^ 62 ->
  page_of xs page pageSize = Ok (window page pageSize xs).
Proof.
  unfold fits, page_arg, page_of, window. intros Hlen Hn Hp Hs Hp'.
  assert (0 <= (page - 1) * pageSize) as H0 by nia.
  rewrite (int64_id (page - 1)) by (unfold in_int64; lia).
  rewrite (int64_id (_ * _)) by (unfold in_int64; lia).
  set (len := Z.of_nat (length xs)) in *. set (start := (page - 1) * pageSize) in *.
  destruct (len <? start) eqn:E; [apply Z.ltb_lt in E|apply Z.ltb_ge in E];
    rewrite (int64_id (_ + pageSize)) by (unfold in_int64; lia);
    destruct (len <? _) eqn:E'; [apply Z.ltb_lt in E'|apply Z.ltb_ge in E'
      |apply Z.ltb_lt in E'|apply Z.ltb_ge in E']; rewrite slice_Ok by lia; f_equal.
  - rewrite Z.sub_diag, (drop_ge _ (Z.to_nat start)), take_nil by lia. done.
  - lia.
  - rewrite !take_ge; [done| |]; rewrite length_drop; lia.
  - f_equal. lia.
Qed.

Lemma page_args_bound page pageSize : page_arg page -> page_arg pageSize ->
  (page - 1) * pageSize < 2 ^ 62 /\ page < 2 ^ 62.
Proof. unfold page_arg. nia. Qed.

Lemma windows_concat {A} (n k : nat) (xs : list A) :
  concat ((fun i => window (Z.of_nat i + 1) (Z.of_nat n) xs) <$> seq 0 k) = take (k * n) xs.
Proof.
  induction k as [|k IH]; [done|].
  rewrite seq_S, fmap_app, concat_app, IH. cbn. unfold window.
  rewrite Nat2Z.id, app_nil_r. replace (Z.to_nat _) with (k * n)%nat by lia.
  rewrite (take_take_drop xs (k * n) n). f_equal. lia.
Qed.

(** ** The store *)
Section Store.
Context `{E : GoEnv, EL : !GoEnvLaws E}.

Lemma range_values {V} t (m : gmap string V) : (range_at t m).*2 ≡ₚ (map_to_list m).*2.
Proof. by rewrite range_perm. Qed.

Lemma elem_of_range {V} t (m : gmap string V) k v :
  (k, v) ∈ range_at t m <-> m !! k = Some v.
Proof. rewrite range_perm. apply elem_of_map_to_list. Qed.

Lemma elem_of_values {V} (m : gmap string V) v :
  v ∈ (map_to_list m).*2 <-> exists k, m !! k = Some v.
Proof.
  rewrite list_elem_of_fmap. split.
  - intros ([k v'] & -> & H%elem_of_map_to_list). by exists k.
  - intros [k H%elem_of_map_to_list]. by exists (k, v).
Qed.

(** Bets are filed under their identifier, and a user's references are unique. *)
Record bets_inv (s : InMemoryStore) : Prop := {
  bi_id : forall id b, s !! id = Some b -> bet_ID b = id;
  bi_ref : forall i j b b', s !! i = Some b -> s !! j = Some b' ->
    bet_UserID b = bet_UserID b' -> bet_ReferenceID b = bet_ReferenceID b' -> i = j;
}.

(** One call of a method of the store that changes it. *)
Inductive bet_op : Type :=
| BetCreate (b : Bet)
| BetStatus (id status : string) (settledAt : Z)
| BetDebitTx (id status tx : string) (settledAt : Z)
| BetOutcome (id status : string) (settledAt : Z)
| BetCreditTx (id tx : string).

Definition run_bet_op (op : bet_op) : M InMemoryStore unit :=
  match op with
  | BetCreate b => ignore (InMemoryStore_CreateBet b)
  | BetStatus id st t => ignore (InMemoryStore_UpdateBetStatus id st t)
  | BetDebitTx id st tx t => ignore (InMemoryStore_UpdateBetStatusAndDebitTx id st tx t)
  | BetOutcome id st t => ignore (InMemoryStore_UpdateBetStatusAndOutcome id st t)
  | BetCreditTx id tx => ignore (InMemoryStore_SetCreditTransactionID id tx)
  end.

Inductive bets_reachable : World InMemoryStore -> Prop :=
| bets_init n : bets_reachable (mkWorld n NewBetMemory)
| bets_step w op : bets_reachable w -> bets_reachable (run_bet_op op w).2
| bets_wait n m s : (n <= m)%nat -> bets_reachable (mkWorld n s) ->
    bets_reachable (mkWorld m s).

Definition run_bet_ops (ops : list bet_op) (w : World InMemoryStore) : World InMemoryStore :=
  foldl (fun w op => (run_bet_op op w).2) w ops.
Lemma run_bet_ops_reachable os w : bets_reachable w -> bets_reachable (run_bet_ops os w).
Proof.
  revert w. induction os as [|o os IH]; intros w H; [done|]. by apply IH, bets_step.
Qed.

(** Two bets agree on what identifies them. *)
Definition same_key (b b' : Bet) : Prop :=
  bet_ID b' = bet_ID b /\ bet_UserID b' = bet_UserID b /\
  bet_ReferenceID b' = bet_ReferenceID b.

Lemma inv_update s id b b' : bets_inv s -> s !! id = Some b -> same_key b b' ->
  bets_inv (<[id := b']> s).
Proof.
  intros [Hid Href] Hb (H1 & H2 & H3). constructor.
  - intros i c [[<- <-]|[_ Hc]]%lookup_insert_Some; [|by apply Hid].
    rewrite H1. by apply Hid.
  - intros i j c c'.
    intros [[<- <-]|[? Hc]]%lookup_insert_Some [[<- <-]|[? Hc']]%lookup_insert_Some;
      try done; rewrite ?H2, ?H3; eauto.
Qed.

Lemma update_bet_eq id f n s : update_bet id f (mkWorld n s) =
  match s !! id with
  | Some b => (Ok tt, mkWorld n (<[id := f b]> s))
  | None => (Err ErrBetNotFound, mkWorld n s)
  end.
Proof. unfold update_bet. unmonad. by destruct (s !! id). Qed.

Lemma inv_update_bet id f w : (forall b, same_key b (f b)) ->
  bets_inv (w_st w) -> bets_inv (w_st (ignore (update_bet id f) w).2).
Proof.
  destruct w as [n s]. intros Hf Hi. rewrite ignore_snd, update_bet_eq.
  destruct (s !! id) as [b|] eqn:Hb; [|done]. cbn in *. by eapply inv_update.
Qed.

Lemma same_key_settled t b b' : same_key b b' -> same_key b (bet_set_SettledAt t b').
Proof. unfold bet_set_SettledAt. by destruct (IsZero t). Qed.

(** [CreateBet]: refused for a reference the user already has, a new record else. *)
Definition has_reference (u ref : string) (s : InMemoryStore) : Prop :=
  exists id b, s !! id = Some b /\ bet_UserID b = u /\ bet_ReferenceID b = ref.

Definition created_bet (b : Bet) (id : string) (t : Z) : Bet :=
  let b := bet_set_ID id b in if IsZero (bet_CreatedAt b) then bet_set_CreatedAt t b else b.

Lemma CreateBet_cases b n s :
  (has_reference (bet_UserID b) (bet_ReferenceID b) s /\
   InMemoryStore_CreateBet b (mkWorld n s) = (Err ErrBetNotFound, mkWorld (S n) s)) \/
  (~ has_reference (bet_UserID b) (bet_ReferenceID b) s /\ exists id t n',
   (bet_ID b = "" -> id = uuid_at (S n)) /\ (bet_ID b <> "" -> id = bet_ID b) /\
   InMemoryStore_CreateBet b (mkWorld n s) =
     (Ok id, mkWorld n' (<[id := created_bet b id t]> s)) /\
   (bet_ID b = "" -> (S n < n')%nat)).
Proof.
  unfold InMemoryStore_CreateBet. unmonad.
  destruct (existsb _ (range_at n s)) eqn:Hex; [left|right].
  - split; [|done]. apply existsb_exists in Hex as ([id b'] & Hin & Hb').
    apply list_elem_of_In, elem_of_range in Hin.
    apply andb_prop in Hb' as [H1%bool_decide_eq_true H2%bool_decide_eq_true].
    by exists id, b'.
  - split.
    + intros (id & b' & Hb' & Hu & Hr). apply not_true_iff_false in Hex. apply Hex.
      apply existsb_exists. exists (id, b'). split.
      * by apply list_elem_of_In, elem_of_range.
      * by rewrite !bool_decide_true.
    + unfold created_bet. cbv zeta.
      exists (if decide (bet_ID b = "") then uuid_at (S n) else bet_ID b),
        (time_at (if decide (bet_ID b = "") then S (S n) else S n)).
      destruct (decide (bet_ID b = "")) as [He|He]; cbn;
        destruct (IsZero (bet_CreatedAt b)); eexists; (split_and!; [done|done|reflexivity|intros; first [done | cbn; lia]]).
Qed.

Lemma created_same_key b id t : bet_UserID (created_bet b id t) = bet_UserID b /\
  bet_ReferenceID (created_bet b id t) = bet_ReferenceID b /\
  bet_ID (created_bet b id t) = id /\ bet_Status (created_bet b id t) = bet_Status b.
Proof. unfold created_bet. cbv zeta. by destruct (IsZero _). Qed.

Lemma inv_create_bet s b id t : bets_inv s ->
  ~ has_reference (bet_UserID b) (bet_ReferenceID b) s ->
  bets_inv (<[id := created_bet b id t]> s).
Proof.
  intros [Hid Href] Hno. destruct (created_same_key b id t) as (Hu & Hr & Hi & _).
  constructor.
  - intros i c [[<- <-]|[_ Hc]]%lookup_insert_Some; [done|by apply Hid].
  - intros i j c c'.
    intros [[<- <-]|[? Hc]]%lookup_insert_Some [[<- <-]|[? Hc']]%lookup_insert_Some;
      rewrite ?Hu, ?Hr; intros; try done; [| |by eauto];
      exfalso; apply Hno; unfold has_reference; eauto.
Qed.

Lemma run_bet_op_inv op w : bets_inv (w_st w) -> bets_inv (w_st (run_bet_op op w).2).
Proof.
  intros Hi. destruct op as [b|id st t|id st tx t|id st t|id tx]; cbn [run_bet_op].
  - destruct w as [n s]. rewrite ignore_snd. cbn in *.
    destruct (CreateBet_cases b n s) as [[_ ->]|(Hno & id & t & n' & _ & _ & -> & _)];
      cbn; [done|]. by apply inv_create_bet.
  - apply inv_update_bet; [|done]. intros b. by apply same_key_settled.
  - apply inv_update_bet; [|done]. intros b. by apply same_key_settled.
  - apply inv_update_bet; [|done]. intros b. by apply same_key_settled.
  - apply inv_update_bet; [|done]. done.
Qed.

Lemma NewBetMemory_empty i : NewBetMemory !! i = None.
Proof. exact (lookup_empty (M := gmap string) i). Qed.

Lemma bets_reachable_inv w : bets_reachable w -> bets_inv (w_st w).
Proof.
  induction 1 as [n|w op Hr IH|n m s Hle Hr IH]; [|by apply run_bet_op_inv|done].
  constructor; cbn [w_st]; intros *; by rewrite NewBetMemory_empty.
Qed.

(** ** Listing *)

Definition listed (userID status : string) (s : InMemoryStore) : list Bet :=
  filter (fun b => bet_UserID b = userID /\ (status = "" \/ bet_Status b = status))
    (map_to_list s).*2.

Lemma values_ID_inj s : bets_inv s -> forall b b', b ∈ (map_to_list s).*2 ->
  b' ∈ (map_to_list s).*2 -> bet_ID b = bet_ID b' -> b = b'.
Proof.
  intros Hi b b' [i Hb]%elem_of_values [j Hb']%elem_of_values H.
  rewrite (bi_id _ Hi _ _ Hb), (bi_id _ Hi _ _ Hb') in H. congruence.
Qed.

Lemma keyed_total_asc x y : before_asc x y = false -> before_asc y x = false ->
  bet_ID x = bet_ID y.
Proof.
  unfold before_asc. rewrite !orb_false_iff, !Z.ltb_ge. intros [H1 H2] [H3 H4].
  replace (bet_CreatedAt x) with (bet_CreatedAt y) in * by lia. rewrite Z.eqb_refl in *.
  by apply string_ltb_total.
Qed.

Lemma keyed_total_desc x y : before_desc x y = false -> before_desc y x = false ->
  bet_ID x = bet_ID y.
Proof.
  unfold before_desc. rewrite !orb_false_iff, !Z.ltb_ge. intros [H1 H2] [H3 H4].
  replace (bet_CreatedAt x) with (bet_CreatedAt y) in * by lia. rewrite Z.eqb_refl in *.
  by apply string_ltb_total.
Qed.

(** The order in which [range] visits the store does not show in the listing. *)
Lemma sorted_values before (P : Bet -> Prop) `{forall b, Decision (P b)} t s :
  StrictOrder before ->
  (forall x y, before x y = false -> before y x = false -> bet_ID x = bet_ID y) ->
  bets_inv s ->
  insertion_sort before (filter P (range_at t s).*2) =
  insertion_sort before (filter P (map_to_list s).*2).
Proof.
  intros Ho Ht Hi. apply insertion_sort_unique; [done|done| |by rewrite range_values].
  intros x y [_ Hx]%list_elem_of_filter [_ Hy]%list_elem_of_filter.
  rewrite range_values in Hx, Hy. by apply (values_ID_inj s Hi).
Qed.

Lemma filter_fits (P : Bet -> Prop) `{forall b, Decision (P b)} (s : InMemoryStore) before :
  Z.of_nat (size s) < 2 ^ 61 -> StrictOrder before ->
  fits (insertion_sort before (filter P (map_to_list s).*2)).
Proof.
  intros Hs Ho. unfold fits. rewrite (Permutation_length (insertion_sort_perm _ _)).
  eapply Z.le_lt_trans; [|exact Hs]. apply inj_le.
  eapply Nat.le_trans; [apply list.length_filter|].
  by rewrite length_fmap, length_map_to_list.
Qed.

Lemma ListBets_eq userID status page pageSize n s :
  bets_inv s -> Z.of_nat (size s) < 2 ^ 61 -> page_arg page -> page_arg pageSize ->
  InMemoryStore_ListBets userID status page pageSize (mkWorld n s) =
    (Ok (window page pageSize (sortBetsByCreatedDesc (listed userID status s))),
     mkWorld (S n) s).
Proof.
  intros Hi Hs Hp Hn. unfold InMemoryStore_ListBets. unmonad.
  unfold default_int, page_arg in *. rewrite !(proj2 (Z.leb_gt _ 0)) by lia.
  unfold sortBetsByCreatedDesc, listed.
  rewrite (sorted_values before_desc _ n s before_desc_order keyed_total_desc Hi).
  rewrite page_of_window; [done| |done|lia|nia|lia].
  apply filter_fits; [done|apply _].
Qed.

Definition pending_bets (s : InMemoryStore) : list Bet :=
  sortBetsByCreatedAsc (filter (fun b => bet_Status b = StatusPending) (map_to_list s).*2).

Lemma ListPendingBets_eq page pageSize n s :
  bets_inv s -> Z.of_nat (size s) < 2 ^ 61 -> 1 <= page < 2 ^ 62 -> page_arg pageSize ->
  (page - 1) * pageSize < 2 ^ 62 ->
  InMemoryStore_ListPendingBets page pageSize (mkWorld n s) =
    (Ok (window page pageSize (pending_bets s)), mkWorld (S n) s).
Proof.
  intros Hi Hs Hp Hn Hb. unfold InMemoryStore_ListPendingBets. unmonad.
  unfold default_int, page_arg in *. rewrite !(proj2 (Z.leb_gt _ 0)) by lia.
  unfold sortBetsByCreatedAsc, pending_bets.
  rewrite (sorted_values before_asc _ n s before_asc_order keyed_total_asc Hi).
  rewrite page_of_window; [done| |done|lia|lia|lia].
  apply filter_fits; [done|apply _].
Qed.

(** Walking the pages of a user's bets, with any page size, lists each matching
    bet exactly once, newest first, whatever order [range] visits the map in and
    however much time passes between the calls; no page of a request overflows. *)
Theorem ListBets_pages userID status size_ s (at_ : nat -> nat) n :
  bets_reachable (mkWorld n s) -> Z.of_nat (size s) < 2 ^ 61 ->
  page_arg (Z.of_nat size_) ->
  exists (all : list Bet) (pages : nat -> list Bet),
    all ≡ₚ listed userID status s /\
    StronglySorted (in_order before_desc) all /\
    (forall i, Z.of_nat i + 1 < 2 ^ 31 ->
       InMemoryStore_ListBets userID status (Z.of_nat i + 1) (Z.of_nat size_)
         (mkWorld (at_ i) s) = (Ok (pages i), mkWorld (S (at_ i)) s)) /\
    (forall k, concat (pages <$> seq 0 k) = take (k * size_) all).
Proof.
  intros Hr%bets_reachable_inv Hs Hn.
  exists (sortBetsByCreatedDesc (listed userID status s)),
    (fun i => window (Z.of_nat i + 1) (Z.of_nat size_)
                (sortBetsByCreatedDesc (listed userID status s))).
  split_and!.
  - apply insertion_sort_perm, _.
  - apply insertion_sort_sorted, _.
  - intros i Hi. apply ListBets_eq; [done|done|unfold page_arg; lia|done].
  - intros k. apply windows_concat.
Qed.

(** A user's reference names one bet: in every reachable state two bets of a user
    with the same reference are the same bet, and creating another is refused without
    changing the store. *)
Theorem bet_reference_unique w i j b b' :
  bets_reachable w -> w_st w !! i = Some b -> w_st w !! j = Some b' ->
  bet_UserID b = bet_UserID b' -> bet_ReferenceID b = bet_ReferenceID b' ->
  i = j /\ forall c, bet_UserID c = bet_UserID b -> bet_ReferenceID c = bet_ReferenceID b ->
    InMemoryStore_CreateBet c w = (Err ErrBetNotFound, mkWorld (S (w_tick w)) (w_st w)).
Proof.
  destruct w as [n s]. cbn. intros Hr%bets_reachable_inv Hb Hb' Hu Href.
  split; [by eapply (bi_ref _ Hr)|]. intros c Hcu Hcr.
  destruct (CreateBet_cases c n s) as [[_ ?]|[Hno _]]; [done|].
  exfalso. apply Hno. rewrite Hcu, Hcr. by exists i, b.
Qed.
End Store.

(** ** Witnesses *)
Module BetStoreDemo.
Import Demo.

Definition bet (u ref : string) (created : Z) : Bet :=
  mkBet "" u "e" "m" "o" "1.5" "10" "15" "USDT" StatusPending ref "" "" created None.
Definition ops : list bet_op :=
  [BetCreate (bet "u" "r1" 5); BetCreate (bet "u" "r2" 7); BetCreate (bet "v" "r1" 6)].
Definition world : World InMemoryStore := run_bet_ops ops (mkWorld 0 NewBetMemory).

Lemma ListBets_pages_witness : exists all,
  StronglySorted (in_order before_desc) all /\
  all ≡ₚ listed "u" "" (w_st world).
Proof.
  destruct (ListBets_pages "u" "" 1 (w_st world) (fun i => i) (w_tick world))
    as (all & pages & Hp & Hs & _).
  - exact (run_bet_ops_reachable ops (mkWorld 0 NewBetMemory) (bets_init 0)).
  - vm_compute. reflexivity.
  - unfold page_arg. vm_compute. split; [discriminate|reflexivity].
  - exists all. split; [exact Hs|exact Hp].
Defined.

Lemma bet_reference_unique_witness :
  exists b, w_st world !! tally 1 = Some b /\
    (InMemoryStore_CreateBet (bet "u" "r1" 9) world).1 = Err ErrBetNotFound.
Proof.
  eexists. split; [vm_compute; reflexivity|].
  assert (w_st world !! tally 1 = Some (created_bet (bet "u" "r1" 5) (tally 1) 0)) as H
    by (vm_compute; reflexivity).
  refine (f_equal fst (proj2 (bet_reference_unique world (tally 1) (tally 1) _ _
    (run_bet_ops_reachable ops (mkWorld 0 NewBetMemory) (bets_init 0)) H H eq_refl eq_refl)
    (bet "u" "r1" 9) eq_refl eq_refl)).
Defined.
End BetStoreDemo.
