(* ===== verification/BetService.v ===== *)
(** * BetService: placing and settling bets

    [internal/sportsbook/service.go] and [scheduler.go], over any bet store, wallet
    client and odds-feed client.  The loops over pages of pending bets take fuel: when
    it runs out the result is the panic [out_of_fuel], and [BetServiceProps] shows how
    much is enough. *)

From S2P Require Import Prelude GoStd GoJson Decimal OddsModels BetStore.

(** ** The clients the service is given *)
Class WalletClient (S : Type) : Type := {
  wc_DebitWallet : string -> string -> string -> string -> Metadata -> M S string;
  wc_CreditWallet : string -> string -> string -> string -> Metadata -> M S string;
}.

Class OddsFeedClient (S : Type) : Type := {
  ofc_GetEvent : string -> M S (option pbEvent);
  ofc_ListMarkets : string -> string -> Z -> Z -> M S (list pbMarket);
  ofc_ListOutcomes : string -> string -> Z -> Z -> M S (list pbOutcome);
  ofc_ListEvents : string -> string -> string -> Z -> Z -> M S (list pbEvent);
}.

(** The clients NewService substitutes for missing ones. *)
Definition noopWalletClient {S} : WalletClient S := {|
  wc_DebitWallet _ _ _ _ _ := mret "";
  wc_CreditWallet _ _ _ _ _ := mret "";
|}.
Definition noopOddsFeedClient {S} : OddsFeedClient S := {|
  ofc_GetEvent _ := mret None;
  ofc_ListMarkets _ _ _ _ := mret [];
  ofc_ListOutcomes _ _ _ _ := mret [];
  ofc_ListEvents _ _ _ _ _ := mret [];
|}.

(** [if wallet == nil { wallet = &noopWalletClient{} }], likewise for the odds feed. *)
Definition NewBetService {S} (wallet : option (WalletClient S))
    (oddsfeed : option (OddsFeedClient S)) : WalletClient S * OddsFeedClient S :=
  (default noopWalletClient wallet, default noopOddsFeedClient oddsfeed).

Definition out_of_fuel : string := "out of fuel".

Section BetService.
Context {S : Type} `{E : GoEnv, D : Decimal, BS : BetStore S, WC : WalletClient S,
  OF : OddsFeedClient S}.

(** [existing, err := store.GetBetByReference(...)] up to the return of the existing
    bet: [None] when the reference is new. *)
Definition existing_bet (userID referenceID : string) : M S (option Bet) :=
  r ← attempt (bets_GetBetByReference userID referenceID);
  match r with
  | Ok existing => mret (Some existing)
  | Err err =>
      if errors_Is err ErrBetNotFound then mret None
      else mthrow (ErrWrap "check existing bet" err)
  | Panic p => panic p
  end.

(** The event, market and outcome checks: the odds of the outcome bet on. *)
Definition current_odds (eventID marketID outcomeID : string) : M S string :=
  event ← wrapped "validate event" (ofc_GetEvent eventID);
  match event with
  | None => mthrow (ErrNew "event not found")
  | Some ev =>
      if decide (pev_Id ev = "") then mthrow (ErrNew "event not found")
      else
        markets ← wrapped "list markets" (ofc_ListMarkets eventID "active" 1 100);
        match list_find (fun m => pmk_Id m = marketID) markets with
        | None => mthrow (ErrNew "market not found or not active for event")
        | Some _ =>
            outcomes ← wrapped "list outcomes" (ofc_ListOutcomes marketID "active" 1 100);
            match list_find (fun o => poc_Id o = outcomeID) outcomes with
            | None => mthrow (ErrNew "outcome not found or not active for market")
            | Some (_, outcome) =>
                wrapped "invalid outcome odds" (of_res (parseDecimal (poc_Odds outcome)));;
                mret (poc_Odds outcome)
            end
        end
  end.

Definition bet_metadata (eventID marketID outcomeID odds referenceID : string) : Metadata :=
  <["event_id" := JStr eventID]> (<["market_id" := JStr marketID]>
    (<["outcome_id" := JStr outcomeID]> (<["odds" := JStr odds]>
      {["bet_ref" := JStr referenceID]}))).

Definition stake_metadata (eventID marketID outcomeID odds referenceID : string) : Metadata :=
  <["type" := JStr "bet_stake"]>
    {["metadata" := JStr (Marshal (bet_metadata eventID marketID outcomeID odds referenceID))]}.

(** The wallet is debited for a bet that is on record: a failed debit cancels it. *)
Definition debit_stake (bet : Bet) : M S Bet :=
  r ← attempt (wc_DebitWallet (bet_UserID bet) (bet_Currency bet) (bet_Stake bet)
                 (bet_ReferenceID bet)
                 (stake_metadata (bet_EventID bet) (bet_MarketID bet) (bet_OutcomeID bet)
                    (bet_Odds bet) (bet_ReferenceID bet)));
  match r with
  | Ok debitTxID =>
      let bet := bet_set_DebitTx debitTxID bet in
      wrapped "finalize bet after debit"
        (bets_UpdateBetStatusAndDebitTx (bet_ID bet) StatusPending debitTxID time_zero);;
      mret (bet_set_Status StatusPending bet)
  | Err err =>
      now ← time_now;
      ignore (bets_UpdateBetStatus (bet_ID bet) StatusCancelled now);;
      mthrow (ErrWrap "debit stake" err)
  | Panic p => panic p
  end.

Definition PlaceBet (userID eventID marketID outcomeID stake currency referenceID : string) :
    M S Bet :=
  if decide (userID = "" \/ eventID = "" \/ marketID = "" \/ outcomeID = "" \/
             stake = "" \/ currency = "" \/ referenceID = "")
  then mthrow (ErrNew "missing required bet field")
  else
    gt ← wrapped "invalid stake" (of_res (decimalGreaterThanZero stake));
    if negb gt then mthrow (ErrNew "stake must be greater than zero")
    else
      existing ← existing_bet userID referenceID;
      match existing with
      | Some b => mret b
      | None =>
          odds ← current_odds eventID marketID outcomeID;
          potentialPayout ← wrapped "calculate payout" (of_res (multiplyDecimal stake odds));
          created ← time_now;
          let bet := mkBet "" userID eventID marketID outcomeID odds stake potentialPayout
                       currency StatusDebitPending referenceID "" "" created None in
          r ← attempt (bets_CreateBet bet);
          match r with
          | Ok id => debit_stake (bet_set_ID id bet)
          | Err err =>
              if errors_Is err ErrBetNotFound
              then wrapped "create bet conflict" (bets_GetBetByReference userID referenceID)
              else mthrow (ErrWrap "create bet" err)
          | Panic p => panic p
          end
      end.

Definition Service_GetBet (id : string) : M S Bet :=
  if decide (id = "") then mthrow (ErrNew "bet id required") else bets_GetBet id.

Definition Service_ListBets (userID status : string) (page pageSize : Z) : M S (list Bet) :=
  if decide (userID = "") then mthrow (ErrNew "user id required")
  else bets_ListBets userID status page pageSize.

Definition Service_ListPendingBets (page pageSize : Z) : M S (list Bet) :=
  bets_ListPendingBets page pageSize.

(** The bet as the store has it, or a minimal record. *)
Definition mustGetBet (id : string) : M S Bet :=
  r ← attempt (bets_GetBet id);
  match r with
  | Ok b => mret b
  | _ => mret (mkBet id "" "" "" "" "" "" "" "" "" "" "" "" time_zero None)
  end.

Definition settle_metadata (betID outcome key value : string) : Metadata :=
  <["bet_id" := JStr betID]> (<["outcome" := JStr outcome]> {[key := JStr value]}).

(** Mark, credit, record: the [StatusWon] and [StatusCancelled] cases. *)
Definition settle_with_credit (bet : Bet) (outcome markErr creditErr recordErr prefix key : string)
    (amount : string) (now : Z) : M S unit :=
  wrapped markErr (bets_UpdateBetStatusAndOutcome (bet_ID bet) outcome now);;
  creditTxID ← wrapped creditErr
    (wc_CreditWallet (bet_UserID bet) (bet_Currency bet) amount (prefix +:+ bet_ReferenceID bet)
       (settle_metadata (bet_ID bet) outcome key amount));
  wrapped recordErr (bets_SetCreditTransactionID (bet_ID bet) creditTxID).

(** On a bet that is not pending the code also returns the bet, which no caller reads. *)
Definition SettleBet (betID outcome : string) : M S Bet :=
  if decide (betID = "") then mthrow (ErrNew "bet id required")
  else if decide (outcome <> StatusWon /\ outcome <> StatusLost /\ outcome <> StatusCancelled)
  then mthrow (ErrNew ("invalid settlement outcome: " +:+ outcome))
  else
    bet ← wrapped "get bet" (bets_GetBet betID);
    if decide (bet_Status bet <> StatusPending)
    then mthrow (ErrNew ("bet cannot be settled: status=" +:+ bet_Status bet))
    else
      now ← time_now;
      (if decide (outcome = StatusWon)
       then settle_with_credit bet StatusWon "mark bet won" "credit winnings"
              "record credit tx" "settle-" "payout" (bet_PotentialPayout bet) now
       else if decide (outcome = StatusLost)
       then wrapped "mark bet lost" (bets_UpdateBetStatusAndOutcome (bet_ID bet) StatusLost now)
       else settle_with_credit bet StatusCancelled "mark bet cancelled" "credit refund"
              "record refund tx" "cancel-" "refund" (bet_Stake bet) now);;
      mustGetBet (bet_ID bet).

(** [""] when the outcome is not decided yet. *)
Definition resolveOutcomeStatus (eventID marketID outcomeID : string) : M S string :=
  event ← ofc_GetEvent eventID;
  match event with
  | None => mthrow (ErrNew "event not found")
  | Some _ =>
      markets ← ofc_ListMarkets eventID "" 1 100;
      if negb (existsb (fun m => bool_decide (pmk_Id m = marketID)) markets)
      then mthrow (ErrNew "market not found")
      else
        outcomes ← ofc_ListOutcomes marketID "" 1 100;
        match list_find (fun o => poc_Id o = outcomeID) outcomes with
        | Some (_, o) =>
            if decide (poc_Status o = StatusWon \/ poc_Status o = StatusLost \/
                       poc_Status o = StatusCancelled)
            then mret (poc_Status o) else mret ""
        | None => mthrow (ErrNew "outcome not found")
        end
  end.

(** One iteration of the settlement loops: errors do not stop them. *)
Definition auto_settle_one (bet : Bet) : M S unit :=
  r ← attempt (resolveOutcomeStatus (bet_EventID bet) (bet_MarketID bet) (bet_OutcomeID bet));
  match r with
  | Ok outcome =>
      if decide (outcome = "") then mret tt else ignore (SettleBet (bet_ID bet) outcome)
  | _ => mret tt
  end.

Definition settlePageSize : Z := 100.

Fixpoint auto_settle_pages (fuel : nat) (page : Z) : M S unit :=
  match fuel with
  | O => panic out_of_fuel
  | Datatypes.S fuel =>
      pending ← wrapped "list pending bets" (bets_ListPendingBets page settlePageSize);
      if decide (pending = []) then mret tt
      else
        for_each pending auto_settle_one;;
        if Z.of_nat (length pending) <? settlePageSize then mret tt
        else auto_settle_pages fuel (int64 (page + 1))
  end.

Definition AutoSettleFromEvents (fuel : nat) : M S unit := auto_settle_pages fuel 1.

(** ** scheduler.go *)
Definition schedulerPageSize : Z := 100.

(** A line of the log: its message and its text attributes. *)
Definition log_line : Type := string * list (string * string).

Context `{GT : GrpcText}.

(** [runOnce] also returns the log lines it writes. *)
Fixpoint run_bets (bets : list Bet) : M S (list log_line) :=
  match bets with
  | [] => mret []
  | bet :: bets =>
      r ← attempt (resolveOutcomeStatus (bet_EventID bet) (bet_MarketID bet) (bet_OutcomeID bet));
      l ← match r with
          | Ok outcome =>
              if decide (outcome = "") then mret []
              else
                r ← attempt (SettleBet (bet_ID bet) outcome);
                match r with
                | Err err => mret [("auto settle bet",
                    [("bet_id", bet_ID bet); ("outcome", outcome); ("error", Error err)])]
                | _ => mret []
                end
          | Err err => mret [("resolve outcome status",
              [("bet_id", bet_ID bet); ("event_id", bet_EventID bet); ("error", Error err)])]
          | Panic p => panic p
          end;
      ls ← run_bets bets;
      mret (l ++ ls)
  end.

Fixpoint runOnce_pages (fuel : nat) (page : Z) : M S (list log_line) :=
  match fuel with
  | O => panic out_of_fuel
  | Datatypes.S fuel =>
      r ← attempt (Service_ListPendingBets page schedulerPageSize);
      match r with
      | Err err => mret [("list pending bets", [("error", Error err)])]
      | Panic p => panic p
      | Ok bets =>
          if decide (bets = []) then mret []
          else
            l ← run_bets bets;
            if Z.of_nat (length bets) <? schedulerPageSize then mret l
            else ls ← runOnce_pages fuel (int64 (page + 1)); mret (l ++ ls)
      end
  end.

Definition runOnce (fuel : nat) : M S (list log_line) := runOnce_pages fuel 1.

Definition settle_interval (interval : Z) : Z :=
  if interval <=? 0 then 60 * 1000000000 else interval.

(** [Start] runs once and then at every tick.  [ticks] is how long it waits for each of the
    ticks that it takes; after them its context is done. *)
Fixpoint scheduler_loop (fuel : nat) (ticks : list nat) : M S (list log_line) :=
  match ticks with
  | [] => mret []
  | d :: ticks =>
      sleep d;;
      l ← runOnce fuel;
      ls ← scheduler_loop fuel ticks;
      mret (l ++ ls)
  end.

Definition Scheduler_Start (fuel : nat) (ticks : list nat) : M S (list log_line) :=
  l ← runOnce fuel;
  ls ← scheduler_loop fuel ticks;
  mret (l ++ ls).
End BetService.
