(* ===== verification/BetLifecycle.v ===== *)
(** * BetLifecycle: bets move along their life cycle

    The service over a state that holds the in-memory bet store as one component (a
    [Lens]) and over any wallet and odds-feed clients that leave that component alone
    and return: the interface [ClientsOutside], which the system of [SystemProps]
    discharges.  [bets_of] is the store inside a world.  Run alone, every operation of the service
    only [moves] bets along [status_step]; PlaceBet and SettleBet are also given as
    equations. *)

From S2P Require Import Prelude GoStd GoJson Decimal Demo OddsModels BetStore BetStoreProps.
From S2P Require Import BetService.

(** The terms of a bet: what never changes once it is placed. *)
Definition bet_terms (b : Bet) : list string :=
  [bet_ID b; bet_UserID b; bet_EventID b; bet_MarketID b; bet_OutcomeID b; bet_Odds b;
   bet_Stake b; bet_PotentialPayout b; bet_Currency b; bet_ReferenceID b].

(** The life cycle of a bet's status. *)
Inductive status_step : string -> string -> Prop :=
| step_debited : status_step StatusDebitPending StatusPending
| step_refused : status_step StatusDebitPending StatusCancelled
| step_won : status_step StatusPending StatusWon
| step_lost : status_step StatusPending StatusLost
| step_cancelled : status_step StatusPending StatusCancelled.

Definition final (status : string) : Prop :=
  status = StatusWon \/ status = StatusLost \/ status = StatusCancelled.
Definition outcome_arg : string -> Prop := final.

Lemma final_no_step st st' : final st -> ~ status_step st st'.
Proof. by intros [->|[->| ->]] H; inversion H. Qed.

Lemma bet_terms_settled t b : bet_terms (bet_set_SettledAt t b) = bet_terms b.
Proof. unfold bet_set_SettledAt. by destruct (IsZero t). Qed.
Lemma bet_status_settled t b : bet_Status (bet_set_SettledAt t b) = bet_Status b.
Proof. unfold bet_set_SettledAt. by destruct (IsZero t). Qed.
Lemma bet_id_settled t b : bet_ID (bet_set_SettledAt t b) = bet_ID b.
Proof. unfold bet_set_SettledAt. by destruct (IsZero t). Qed.

(** How the record of a bet may develop: its terms stay, its status follows the life
    cycle, and a final record never changes again. *)
Definition bet_evolves (b b' : Bet) : Prop :=
  bet_terms b' = bet_terms b /\ rtc status_step (bet_Status b) (bet_Status b') /\
  (final (bet_Status b) -> b' = b).

Lemma bet_evolves_refl b : bet_evolves b b.
Proof. done. Qed.
Lemma bet_evolves_trans b1 b2 b3 : bet_evolves b1 b2 -> bet_evolves b2 b3 -> bet_evolves b1 b3.
Proof.
  intros (T1 & S1 & F1) (T2 & S2 & F2). split_and!; [congruence|by etrans|].
  intros Hf. pose proof (F1 Hf) as ->. auto.
Qed.

Section Service.
Context {S : Type} `{LB : Lens S InMemoryStore, LL : !LensLaws LB}.
Context `{E : GoEnv, EL : !GoEnvLaws E, L : DecimalLaws}.
#[local] Existing Instance lens_BetStore.

Definition bets_of (w : World S) : InMemoryStore := part w.
Lemma outside_bets {A} (m : M S A) : outside (L := LB) m ->
  forall w, bets_of (m w).2 = bets_of w.
Proof. apply outside_part. Qed.
(** The world with another bet store in it. *)
Definition with_bets (s : InMemoryStore) (w : World S) : World S :=
  mkWorld (w_tick w) (lset s (w_st w)).

(** An odds feed whose queries leave a component alone, and clients that leave the bets
    alone. *)
Class OddsOutside {T} (LT : Lens S T) (OF : OddsFeedClient S) : Prop := {
  event_outside : forall e, outside (L := LT) (ofc_GetEvent e);
  markets_outside : forall e st p n, outside (L := LT) (ofc_ListMarkets e st p n);
  outcomes_outside : forall m st p n, outside (L := LT) (ofc_ListOutcomes m st p n);
}.

Class ClientsOutside (WC : WalletClient S) (OF : OddsFeedClient S) : Prop := {
  debit_outside : forall u c a r md, outside (wc_DebitWallet u c a r md);
  credit_outside : forall u c a r md, outside (wc_CreditWallet u c a r md);
  odds_outside :: OddsOutside LB OF;
}.

Lemma bets_with s w : bets_of (with_bets s w) = s.
Proof. apply lget_lset. Qed.
Lemma with_bets_same w : with_bets (bets_of w) w = w.
Proof. destruct w. unfold with_bets, bets_of, part. cbn. by rewrite lset_lget. Qed.

(** ** The store seen through the lens *)

Lemma zoom_with {A} (m : M InMemoryStore A) w :
  zoom m w = let (r, v) := m (mkWorld (w_tick w) (bets_of w)) in
             (r, mkWorld (w_tick v) (lset (w_st v) (w_st w))).
Proof. done. Qed.

Lemma zoom_read {A} (m : M InMemoryStore A) w r k :
  m (mkWorld (w_tick w) (bets_of w)) = (r, mkWorld k (bets_of w)) ->
  zoom m w = (r, mkWorld k (w_st w)).
Proof. intros H. rewrite zoom_with, H. cbn. unfold bets_of, part. by rewrite lset_lget. Qed.

Lemma zoom_update id f w b : bets_of w !! id = Some b ->
  zoom (update_bet id f) w = (Ok tt, with_bets (<[id := f b]> (bets_of w)) w).
Proof. intros H. by rewrite zoom_with, update_bet_eq, H. Qed.

Lemma get_bet_eq id w : zoom (InMemoryStore_GetBet id) w =
  (match bets_of w !! id with Some b => Ok b | None => Err ErrBetNotFound end, w).
Proof.
  destruct w as [n s]. rewrite zoom_with. unfold InMemoryStore_GetBet. unmonad.
  unfold bets_of, part. cbn. destruct (lget s !! id); cbn; by rewrite lset_lget.
Qed.

(** Looking a reference up: found exactly when some bet has it. *)
Lemma GetBetByReference_cases u ref n s : bets_inv s ->
  (exists id b, s !! id = Some b /\ bet_UserID b = u /\ bet_ReferenceID b = ref /\
     InMemoryStore_GetBetByReference u ref (mkWorld n s) =
       (Ok b, mkWorld (Datatypes.S n) s)) \/
  (~ has_reference u ref s /\
   InMemoryStore_GetBetByReference u ref (mkWorld n s) =
     (Err ErrBetNotFound, mkWorld (Datatypes.S n) s)).
Proof.
  intros Hi. unfold InMemoryStore_GetBetByReference. unmonad.
  destruct (list_find _ (range_at n s)) as [[i [id b]]|] eqn:Hf; [left|right].
  - apply list_find_Some in Hf as (Hl & [Hu Hr] & _).
    apply list_elem_of_lookup_2, elem_of_range in Hl. exists id, b. by split_and!.
  - split; [|done]. intros (id & b & Hb & Hu & Hr).
    apply list_find_None in Hf. rewrite list.Forall_forall in Hf.
    apply elem_of_range with (t := n) in Hb. by apply (Hf _ Hb).
Qed.

(** ** Worlds of the service *)

(** The invariant of the store, and every identifier in it was drawn already. *)
Definition svc_inv (w : World S) : Prop :=
  bets_inv (bets_of w) /\
  forall id, is_Some (bets_of w !! id) -> exists k, (k < w_tick w)%nat /\ id = uuid_at k.

(** Every bet of [w] has developed into a bet of [w']. *)
Definition evolves (w w' : World S) : Prop :=
  (svc_inv w -> svc_inv w') /\ (w_tick w <= w_tick w')%nat /\
  (svc_inv w -> forall id b, bets_of w !! id = Some b ->
     exists b', bets_of w' !! id = Some b' /\ bet_evolves b b').

Lemma evolves_same w w' : bets_of w' = bets_of w -> (w_tick w <= w_tick w')%nat ->
  evolves w w'.
Proof.
  intros H Ht. split_and!; [|done|].
  - intros [Hi Hd]. split; rewrite H; [done|]. intros id (k & ? & ?)%Hd. exists k. split; [lia|done].
  - intros _ id b Hb. exists b. rewrite H. by split.
Qed.

Lemma evolves_refl w : evolves w w.
Proof. by apply evolves_same. Qed.

Lemma evolves_trans w1 w2 w3 : evolves w1 w2 -> evolves w2 w3 -> evolves w1 w3.
Proof.
  intros (I1 & T1 & B1) (I2 & T2 & B2). split_and!; [auto|lia|].
  intros Hi id b Hb. destruct (B1 Hi id b Hb) as (b' & Hb' & E1).
  destruct (B2 (I1 Hi) id b' Hb') as (b'' & Hb'' & E2). exists b''. split; [done|].
  by eapply bet_evolves_trans.
Qed.

Lemma terms_same_key b b' : bet_terms b' = bet_terms b -> same_key b b'.
Proof. unfold bet_terms, same_key. intros [=]. by split_and!. Qed.

(** One record developed. *)
Lemma evolves_update w w' id b b' : bets_of w !! id = Some b -> bet_evolves b b' ->
  bets_of w' = <[id := b']> (bets_of w) -> (w_tick w <= w_tick w')%nat -> evolves w w'.
Proof.
  intros Hb He Hw Ht. split_and!; [|done|].
  - intros [Hi Hd]. split; rewrite Hw.
    + eapply inv_update; [done|done|]. apply terms_same_key, He.
    + intros i Hs. destruct (decide (i = id)) as [->|Hne].
      * destruct (Hd id ltac:(by exists b)) as (k & ? & ?). exists k. split; [lia|done].
      * rewrite lookup_insert_ne in Hs by done. destruct (Hd i Hs) as (k & ? & ?).
        exists k. split; [lia|done].
  - intros _ i c Hc. rewrite Hw. destruct (decide (i = id)) as [->|Hne].
    + exists b'. rewrite lookup_insert_eq. split; [done|]. congruence.
    + exists c. rewrite lookup_insert_ne by done. by split.
Qed.

(** ** SettleBet *)
Context {WC : WalletClient S} {OF : OddsFeedClient S} `{CO : !ClientsOutside WC OF}.

(** The bet marked with its outcome. *)
Definition marked (outcome : string) (now : Z) (b : Bet) : Bet :=
  bet_set_SettledAt now (bet_set_Status outcome b).

Definition settle_amount (outcome : string) (b : Bet) : string :=
  if decide (outcome = StatusWon) then bet_PotentialPayout b else bet_Stake b.
Definition settle_prefix (outcome : string) : string :=
  if decide (outcome = StatusWon) then "settle-" else "cancel-".
Definition settle_key (outcome : string) : string :=
  if decide (outcome = StatusWon) then "payout" else "refund".
Definition credit_err (outcome : string) : string :=
  if decide (outcome = StatusWon) then "credit winnings" else "credit refund".

(** The one call to the wallet that settling the bet makes. *)
Definition settle_credit (outcome : string) (b : Bet) : M S string :=
  wc_CreditWallet (bet_UserID b) (bet_Currency b) (settle_amount outcome b)
    (settle_prefix outcome +:+ bet_ReferenceID b)
    (settle_metadata (bet_ID b) outcome (settle_key outcome) (settle_amount outcome b)).

Lemma marked_id o now b : bet_ID (marked o now b) = bet_ID b.
Proof. unfold marked. by rewrite bet_id_settled. Qed.
Lemma marked_status o now b : bet_Status (marked o now b) = o.
Proof. unfold marked. by rewrite bet_status_settled. Qed.

Lemma mark_eq id o now w b : bets_of w !! id = Some b ->
  bets_UpdateBetStatusAndOutcome id o now w =
  (Ok tt, with_bets (<[id := marked o now b]> (bets_of w)) w).
Proof. apply zoom_update. Qed.

Lemma SetCredit_eq id tx w b : bets_of w !! id = Some b ->
  bets_SetCreditTransactionID id tx w =
  (Ok tt, with_bets (<[id := bet_set_CreditTx tx b]> (bets_of w)) w).
Proof. apply zoom_update. Qed.

Lemma mustGetBet_eq id w b : bets_of w !! id = Some b -> mustGetBet id w = (Ok b, w).
Proof.
  intros H. unfold mustGetBet, attempt, mbind, M_bind. cbn [bets_GetBet lens_BetStore].
  change (bets_GetBet id) with (InMemoryStore_GetBet id).
  by rewrite get_bet_eq, H.
Qed.

Lemma with_bets_with s s' w : with_bets s (with_bets s' w) = with_bets s w.
Proof. unfold with_bets. cbn. by rewrite lset_lset. Qed.

Lemma settle_with_credit_eq b o markErr creditErr recordErr prefix key amount now w :
  bets_of w !! bet_ID b = Some b ->
  let b1 := marked o now b in
  settle_with_credit b o markErr creditErr recordErr prefix key amount now w =
  match wc_CreditWallet (bet_UserID b) (bet_Currency b) amount (prefix +:+ bet_ReferenceID b)
          (settle_metadata (bet_ID b) o key amount)
          (with_bets (<[bet_ID b := b1]> (bets_of w)) w) with
  | (Ok tx, w2) =>
      (Ok tt, with_bets (<[bet_ID b := bet_set_CreditTx tx b1]> (bets_of w2)) w2)
  | (Err e, w2) => (Err (ErrWrap creditErr e), w2)
  | (Panic p, w2) => (Panic p, w2)
  end.
Proof.
  intros Hb b1. unfold settle_with_credit, wrapped, mbind, M_bind.
  rewrite (mark_eq _ o now w b Hb). cbn [wrap_res]. fold b1.
  set (w1 := with_bets _ w).
  assert (bets_of w1 !! bet_ID b = Some b1) as H1.
  { unfold w1. rewrite bets_with. apply lookup_insert_eq. }
  match goal with |- context [wc_CreditWallet ?u ?c ?a ?r ?md w1] =>
    pose proof (outside_bets _ (credit_outside u c a r md) w1) as Ho;
    destruct (wc_CreditWallet u c a r md w1) as [[tx|e|p] w2] end; try done.
  cbn [wrap_res]. cbn [snd] in Ho. rewrite <- Ho in H1.
  by rewrite (SetCredit_eq _ tx w2 b1 H1).
Qed.

(** What settling a pending bet does, given the wallet's answer. *)
Lemma SettleBet_eq id outcome w b : svc_inv w -> id <> "" -> outcome_arg outcome ->
  bets_of w !! id = Some b -> bet_Status b = StatusPending ->
  let now := time_at (w_tick w) in
  let b1 := marked outcome now b in
  let w1 := mkWorld (Datatypes.S (w_tick w)) (lset (<[id := b1]> (bets_of w)) (w_st w)) in
  SettleBet id outcome w =
  if decide (outcome = StatusLost) then (Ok b1, w1)
  else match settle_credit outcome b w1 with
       | (Ok tx, w2) =>
           let b2 := bet_set_CreditTx tx b1 in (Ok b2, with_bets (<[id := b2]> (bets_of w2)) w2)
       | (Err e, w2) => (Err (ErrWrap (credit_err outcome) e), w2)
       | (Panic p, w2) => (Panic p, w2)
       end.
Proof.
  intros [Hi _] Hne Ho Hb Hp now b1 w1.
  assert (bet_ID b = id) as Hid by (by apply (bi_id _ Hi)).
  assert (bets_of w1 = <[id := b1]> (bets_of w)) as Hw1 by apply lget_lset.
  assert (outcome_arg outcome -> ~ (outcome <> StatusWon /\ outcome <> StatusLost /\
    outcome <> StatusCancelled)) as Hne' by (intros [->|[->| ->]]; naive_solver).
  unfold SettleBet. rewrite decide_False, decide_False by auto.
  unfold mbind at 1, M_bind at 1, wrapped at 1.
  change (bets_GetBet id) with (zoom (InMemoryStore_GetBet id)) at 1.
  rewrite get_bet_eq, Hb. cbn [wrap_res]. rewrite decide_False by auto.
  unfold time_now, tick, mret, M_ret. unfold mbind, M_bind. cbn [w_tick w_st].
  pose proof (mark_eq id outcome now (mkWorld (Datatypes.S (w_tick w)) (w_st w)) b Hb) as Hm.
  change (with_bets _ _) with w1 in Hm.
  fold now. rewrite Hid.
  destruct (decide (outcome = StatusLost)) as [->|Hl].
  - rewrite decide_False by done. unfold wrapped. rewrite Hm. cbn [wrap_res].
    apply mustGetBet_eq. rewrite Hw1. apply lookup_insert_eq.
  - set (w0 := mkWorld (Datatypes.S (w_tick w)) (w_st w)) in *.
    assert (bets_of w0 !! bet_ID b = Some b) as Hb0 by (by rewrite Hid).
    pose proof (fun o m c r p k a => settle_with_credit_eq b o m c r p k a now w0 Hb0) as Hs.
    cbv zeta in Hs. rewrite Hid in Hs. change (bets_of w0) with (bets_of w) in Hs.
    unfold settle_credit, settle_amount, settle_prefix, settle_key, credit_err. rewrite Hid.
    assert (forall (b2 : Bet) (w2 : World S),
      mustGetBet id (with_bets (<[id := b2]> (bets_of w2)) w2) =
        (Ok b2, with_bets (<[id := b2]> (bets_of w2)) w2)) as Hget.
    { intros b2 w2. apply mustGetBet_eq. rewrite bets_with. apply lookup_insert_eq. }
    destruct (decide (outcome = StatusWon)) as [->|Hw].
    + rewrite Hs. change (with_bets _ w0) with w1.
      destruct (wc_CreditWallet _ _ _ _ _ w1) as [[tx|e|p] w2]; [apply Hget|done|done].
    + destruct Ho as [->|[->| ->]]; [done|done|].
      rewrite Hs. change (with_bets _ w0) with w1.
      destruct (wc_CreditWallet _ _ _ _ _ w1) as [[tx|e|p] w2]; [apply Hget|done|done].
Qed.

(** Every other call is refused without effect. *)
Lemma SettleBet_refused id outcome w :
  match bets_of w !! id with
  | Some b => bet_Status b <> StatusPending
  | None => True
  end \/ id = "" \/ ~ outcome_arg outcome ->
  exists e, SettleBet id outcome w = (Err e, w).
Proof.
  intros H. unfold SettleBet. case_decide; [by eexists|].
  case_decide as Ho; [by eexists|].
  destruct H as [H|[?|H]]; [|done|].
  - unfold mbind, M_bind, wrapped.
    change (bets_GetBet id) with (zoom (InMemoryStore_GetBet id)). rewrite get_bet_eq.
    destruct (bets_of w !! id) as [b|]; cbn [wrap_res]; [|by eexists].
    rewrite decide_True by done. by eexists.
  - exfalso. apply H. unfold outcome_arg, final.
    destruct (decide (outcome = StatusWon)), (decide (outcome = StatusLost)),
      (decide (outcome = StatusCancelled)); naive_solver.
Qed.

Lemma marked_evolves o now b b' : outcome_arg o -> bet_Status b = StatusPending ->
  bet_terms b' = bet_terms (marked o now b) -> bet_Status b' = bet_Status (marked o now b) ->
  bet_evolves b b'.
Proof.
  intros Ho Hp Ht Hs. unfold marked in *. rewrite bet_terms_settled in Ht.
  rewrite bet_status_settled in Hs. cbn in Hs. split_and!; [done| |].
  - rewrite Hp, Hs. apply rtc_once. destruct Ho as [->|[->| ->]]; constructor.
  - rewrite Hp. by intros [?|[?|?]].
Qed.

Lemma settle_bets_credit o b w : bets_of (settle_credit o b w).2 = bets_of w /\
  (w_tick w <= w_tick (settle_credit o b w).2)%nat /\
  forall p, (settle_credit o b w).1 <> Panic p.
Proof. split_and!; apply credit_outside. Qed.

Lemma bets_marked w id b1 n : bets_of (mkWorld n (lset (<[id := b1]> (bets_of w)) (w_st w))) =
  <[id := b1]> (bets_of w).
Proof. apply lget_lset. Qed.

(** SettleBet never panics, and either changes nothing or moves one pending bet on. *)
Lemma SettleBet_effect id o w : svc_inv w ->
  (forall p, (SettleBet id o w).1 <> Panic p) /\
  ((SettleBet id o w).2 = w \/
   exists b b', bets_of w !! id = Some b /\ bet_Status b = StatusPending /\
     bets_of (SettleBet id o w).2 = <[id := b']> (bets_of w) /\
     (w_tick w <= w_tick (SettleBet id o w).2)%nat /\
     bet_evolves b b' /\ bet_Status b' = o /\ outcome_arg o).
Proof.
  intros Hi.
  destruct (decide (id = "")) as [->|Hne].
  { destruct (SettleBet_refused "" o w) as [e ->]; [auto|]. auto. }
  destruct (decide (o = StatusWon \/ o = StatusLost \/ o = StatusCancelled)) as [Ho|Ho].
  2: { destruct (SettleBet_refused id o w) as [e ->]; [by auto|]. auto. }
  destruct (bets_of w !! id) as [b|] eqn:Hb.
  2: { destruct (SettleBet_refused id o w) as [e ->]; [rewrite Hb; auto|]. auto. }
  destruct (decide (bet_Status b = StatusPending)) as [Hp|Hp].
  2: { destruct (SettleBet_refused id o w) as [e ->]; [rewrite Hb; auto|]. auto. }
  rewrite (SettleBet_eq id o w b Hi Hne Ho Hb Hp). cbv zeta.
  set (b1 := marked o _ b). set (w1 := mkWorld _ _).
  pose proof (bets_marked w id b1 (Datatypes.S (w_tick w))) as Hw1. fold w1 in Hw1.
  assert (w_tick w <= w_tick w1)%nat as Ht1 by (cbn; lia).
  destruct (decide (o = StatusLost)) as [Hl|Hl].
  - split; [done|]. right. exists b, b1. cbn [snd]. split_and!; try done; [|apply marked_status].
    by eapply marked_evolves.
  - destruct (settle_bets_credit o b w1) as (Hb2 & Ht2 & Hp2).
    destruct (settle_credit o b w1) as [[tx|e|p] w2]; cbn [fst snd] in *.
    + split; [done|]. right. exists b, (bet_set_CreditTx tx b1). cbn [snd].
      rewrite bets_with, Hb2, Hw1, insert_insert_eq.
      split_and!; try done; [cbn in *; lia| |apply marked_status].
      by eapply marked_evolves.
    + split; [done|]. right. exists b, b1. rewrite Hb2, Hw1.
      split_and!; try done; [lia| |apply marked_status]. by eapply marked_evolves.
    + by destruct (Hp2 p).
Qed.

Lemma SettleBet_evolves id o w : svc_inv w -> evolves w (SettleBet id o w).2.
Proof.
  intros Hi. destruct (SettleBet_effect id o w Hi)
    as [_ [->|(b & b' & Hb & _ & Hw & Ht & He & _)]]; [apply evolves_refl|].
  by eapply evolves_update.
Qed.

(** ** PlaceBet *)

Lemma parseDecimal_runs a p : parseDecimal a <> Panic p.
Proof. unfold parseDecimal, NewFromString. by destruct (ParseDecimal a). Qed.

Lemma multiplyDecimal_runs a b p : multiplyDecimal a b <> Panic p.
Proof.
  unfold multiplyDecimal, parseDecimal, NewFromString.
  destruct (ParseDecimal a); [|done]. by destruct (ParseDecimal b).
Qed.

Lemma current_odds_outside {T} (LT : Lens S T) `{!OddsOutside LT OF} e m o :
  outside (L := LT) (current_odds e m o).
Proof.
  unfold current_odds. apply outside_bind; [apply outside_wrapped, event_outside|].
  intros [ev|]; [|apply outside_throw]. case_decide; [apply outside_throw|].
  apply outside_bind; [apply outside_wrapped, markets_outside|]. intros ms.
  destruct (list_find _ ms); [|apply outside_throw].
  apply outside_bind; [apply outside_wrapped, outcomes_outside|]. intros os.
  destruct (list_find _ os) as [[i oc]|]; [|apply outside_throw].
  apply outside_bind; [|intros; apply outside_ret].
  apply outside_wrapped, outside_of_res, parseDecimal_runs.
Qed.

Lemma resolve_outside {T} (LT : Lens S T) `{!OddsOutside LT OF} e m o :
  outside (L := LT) (resolveOutcomeStatus e m o).
Proof.
  unfold resolveOutcomeStatus. apply outside_bind; [apply event_outside|].
  intros [ev|]; [|apply outside_throw].
  apply outside_bind; [apply markets_outside|]. intros ms.
  case_match; [apply outside_throw|].
  apply outside_bind; [apply outcomes_outside|]. intros os.
  destruct (list_find _ os) as [[i oc]|]; [|apply outside_throw].
  case_decide; apply outside_ret.
Qed.

(** The bet that PlaceBet puts on record before it asks for the money. *)
Definition new_bet (id u e m o odds stake payout c ref : string) (now : Z) : Bet :=
  mkBet id u e m o odds stake payout c StatusDebitPending ref "" "" now None.

Definition stake_debit (b : Bet) : M S string :=
  wc_DebitWallet (bet_UserID b) (bet_Currency b) (bet_Stake b) (bet_ReferenceID b)
    (stake_metadata (bet_EventID b) (bet_MarketID b) (bet_OutcomeID b) (bet_Odds b)
       (bet_ReferenceID b)).

Definition confirmed (tx : string) (b : Bet) : Bet :=
  bet_set_Status StatusPending (bet_set_DebitTx tx b).
Definition refused (now : Z) (b : Bet) : Bet :=
  bet_set_SettledAt now (bet_set_Status StatusCancelled b).

(** [debit_stake] on a bet that the store has as [b0]. *)
Lemma debit_stake_eq b b0 w : bets_of w !! bet_ID b = Some b0 ->
  debit_stake b w =
  match stake_debit b w with
  | (Ok tx, w') =>
      (Ok (confirmed tx b), with_bets (<[bet_ID b := confirmed tx b0]> (bets_of w')) w')
  | (Err e, w') =>
      let w'' := mkWorld (Datatypes.S (w_tick w')) (w_st w') in
      (Err (ErrWrap "debit stake" e),
       with_bets (<[bet_ID b := refused (time_at (w_tick w')) b0]> (bets_of w')) w'')
  | (Panic p, w') => (Panic p, w')
  end.
Proof.
  intros Hb. unfold debit_stake.
  unfold mbind at 1, M_bind at 1, attempt at 1. fold (stake_debit b).
  pose proof (outside_bets _ (debit_outside (bet_UserID b) (bet_Currency b) (bet_Stake b)
    (bet_ReferenceID b) (stake_metadata (bet_EventID b) (bet_MarketID b) (bet_OutcomeID b)
       (bet_Odds b) (bet_ReferenceID b))) w) as Ho. fold (stake_debit b) in Ho.
  destruct (stake_debit b w) as [[tx|e|p] w']; [| |done]; cbn [snd] in Ho;
    rewrite <- Ho in Hb.
  - unfold wrapped, mbind, M_bind.
    change (bets_UpdateBetStatusAndDebitTx (bet_ID (bet_set_DebitTx tx b)) StatusPending tx
      time_zero) with (zoom (update_bet (bet_ID b) (fun b => bet_set_SettledAt time_zero
        (bet_set_DebitTx tx (bet_set_Status StatusPending b))))).
    rewrite (zoom_update _ _ _ b0 Hb). done.
  - unfold time_now, tick, ignore, attempt, mret, M_ret. unfold mbind, M_bind.
    cbn [w_tick w_st].
    change (bets_UpdateBetStatus (bet_ID b) StatusCancelled (time_at (w_tick w'))) with
      (zoom (update_bet (bet_ID b) (fun b => bet_set_SettledAt (time_at (w_tick w'))
        (bet_set_Status StatusCancelled b)))).
    rewrite (zoom_update _ _ (mkWorld (Datatypes.S (w_tick w')) (w_st w')) b0 Hb). done.
Qed.

(** The request names everything and its stake is a positive amount. *)
Definition valid_request (u e m o stake c ref : string) : Prop :=
  ~ (u = "" \/ e = "" \/ m = "" \/ o = "" \/ stake = "" \/ c = "" \/ ref = "") /\
  decimalGreaterThanZero stake = Ok true.

Definition next (w : World S) : World S := mkWorld (Datatypes.S (w_tick w)) (w_st w).

Lemma existing_eq u ref w : svc_inv w ->
  (exists id b, bets_of w !! id = Some b /\ bet_UserID b = u /\ bet_ReferenceID b = ref /\
     existing_bet u ref w = (Ok (Some b), next w)) \/
  (~ has_reference u ref (bets_of w) /\ existing_bet u ref w = (Ok None, next w)).
Proof.
  intros [Hi _]. unfold existing_bet, mbind, M_bind, attempt.
  change (bets_GetBetByReference u ref) with (zoom (InMemoryStore_GetBetByReference u ref)).
  destruct (GetBetByReference_cases u ref (w_tick w) _ Hi)
    as [(id & b & Hb & Hu & Hr & Heq)|[Hno Heq]]; [left|right].
  - exists id, b. split_and!; [done|done|done|]. by rewrite (zoom_read _ _ _ _ Heq).
  - split; [done|]. by rewrite (zoom_read _ _ _ _ Heq).
Qed.

Lemma PlaceBet_unfold u e m o stake c ref w : valid_request u e m o stake c ref ->
  PlaceBet u e m o stake c ref w =
  (existing ← existing_bet u ref;
   match existing with
   | Some b => mret b
   | None =>
       odds ← current_odds e m o;
       potentialPayout ← wrapped "calculate payout" (of_res (multiplyDecimal stake odds));
       created ← time_now;
       let bet := mkBet "" u e m o odds stake potentialPayout c StatusDebitPending ref "" ""
                    created None in
       r ← attempt (bets_CreateBet bet);
       match r with
       | Ok id => debit_stake (bet_set_ID id bet)
       | Err err =>
           if errors_Is err ErrBetNotFound
           then wrapped "create bet conflict" (bets_GetBetByReference u ref)
           else mthrow (ErrWrap "create bet" err)
       | Panic p => panic p
       end
   end) w.
Proof.
  intros [Hf Hs]. unfold PlaceBet. rewrite decide_False by done.
  unfold mbind at 1, M_bind at 1, wrapped at 1, of_res at 1. rewrite Hs. done.
Qed.

(** A request that passes every check: the bet is on record, and the money is asked
    for, in a world [w2] that differs from what the odds feed left by that record. *)
Lemma PlaceBet_new u e m o stake c ref w w1 odds payout :
  svc_inv w -> valid_request u e m o stake c ref ->
  ~ has_reference u ref (bets_of w) ->
  current_odds e m o (next w) = (Ok odds, w1) -> multiplyDecimal stake odds = Ok payout ->
  exists id k t w2,
    let b := new_bet id u e m o odds stake payout c ref (time_at (w_tick w1)) in
    let b0 := created_bet b id t in
    id = uuid_at k /\ (w_tick w <= k < w_tick w2)%nat /\
    w_st w2 = lset (<[id := b0]> (bets_of w)) (w_st w1) /\
    PlaceBet u e m o stake c ref w = debit_stake b w2.
Proof.
  intros Hi Hv Hno Ho Hm. rewrite PlaceBet_unfold by done.
  destruct (existing_eq u ref w Hi) as [(id & b & Hb & Hu & Hr & _)|[_ He]].
  { exfalso. apply Hno. by exists id, b. }
  pose proof (outside_bets _ (current_odds_outside LB e m o) (next w)) as Hb1.
  pose proof (outside_tick _ (current_odds_outside LB e m o) (next w)) as Ht1.
  rewrite Ho in Hb1, Ht1. cbn [snd next w_tick] in Hb1, Ht1.
  change (bets_of (next w)) with (bets_of w) in Hb1.
  unfold mbind at 1, M_bind at 1. rewrite He.
  unfold mbind at 1, M_bind at 1. rewrite Ho.
  rewrite Hm. unfold time_now, tick, mret, M_ret, of_res. unfold mbind, M_bind.
  unfold wrapped at 1. cbn [wrap_res w_tick w_st].
  set (bet := mkBet "" u e m o odds stake payout c StatusDebitPending ref "" ""
    (time_at (w_tick w1)) None). unfold attempt.
  change (bets_CreateBet bet) with (zoom (InMemoryStore_CreateBet bet)).
  rewrite zoom_with. cbn [w_tick w_st].
  change (bets_of (mkWorld _ _)) with (bets_of w1). rewrite Hb1.
  destruct (CreateBet_cases bet (Datatypes.S (w_tick w1)) (bets_of w))
    as [[Hyes _]|(_ & id & t & n' & Hid & _ & -> & Hn')]; [done|].
  exists id, (Datatypes.S (Datatypes.S (w_tick w1))), t,
    (mkWorld n' (lset (<[id := created_bet bet id t]> (bets_of w)) (w_st w1))).
  specialize (Hn' eq_refl). split_and!; [by apply Hid|lia|cbn; lia|done|done].
Qed.

(** ** Every operation moves the bets along their life cycle *)

Definition moves {A} (m : M S A) : Prop := forall w, svc_inv w -> evolves w (m w).2.

Lemma moves_outside {A} (m : M S A) : outside m -> moves m.
Proof. intros [Hb Ht _] w _. by apply evolves_same. Qed.

Lemma moves_bind {A B} (m : M S A) (f : A -> M S B) :
  moves m -> (forall a, moves (f a)) -> moves (m ≫= f).
Proof.
  intros Hm Hf w Hi. specialize (Hm w Hi). unfold mbind, M_bind.
  destruct (m w) as [[a|e|p] w']; cbn [snd] in *; try done.
  eapply evolves_trans; [done|]. apply Hf. by apply Hm.
Qed.

Lemma moves_snd {A B} (m : M S A) (m' : M S B) :
  (forall w, (m' w).2 = (m w).2) -> moves m -> moves m'.
Proof. intros H Hm w Hi. rewrite H. by apply Hm. Qed.

Lemma moves_for_each {A} (xs : list A) (f : A -> M S unit) :
  (forall a, moves (f a)) -> moves (for_each xs f).
Proof.
  intros Hf. induction xs as [|x xs IH]; cbn [for_each].
  - apply moves_outside, outside_ret.
  - by apply moves_bind; auto.
Qed.

Lemma evolves_create w w' id k b t : svc_inv w -> id = uuid_at k ->
  (w_tick w <= k < w_tick w')%nat -> ~ has_reference (bet_UserID b) (bet_ReferenceID b) (bets_of w) ->
  bets_of w' = <[id := created_bet b id t]> (bets_of w) -> evolves w w'.
Proof.
  intros [Hi Hd] Hid Hk Hno Hw.
  assert (bets_of w !! id = None) as Hfresh.
  { destruct (bets_of w !! id) as [c|] eqn:Hc; [|done].
    destruct (Hd id ltac:(by exists c)) as (j & Hj & Heq).
    rewrite Hid in Heq. apply uuid_inj in Heq. lia. }
  split_and!; [intros _; split; rewrite Hw|lia|].
  - by apply inv_create_bet.
  - intros i Hs. destruct (decide (i = id)) as [->|Hne]; [exists k; split; [lia|done]|].
    rewrite lookup_insert_ne in Hs by done. destruct (Hd i Hs) as (j & ? & ?).
    exists j. split; [lia|done].
  - intros _ i c Hc. exists c. rewrite Hw. split; [|apply bet_evolves_refl].
    rewrite lookup_insert_ne; [done|]. congruence.
Qed.

Lemma debit_stake_effect b b0 w : bets_of w !! bet_ID b = Some b0 ->
  exists b1, bets_of (debit_stake b w).2 = <[bet_ID b := b1]> (bets_of w) /\
    (w_tick w <= w_tick (debit_stake b w).2)%nat /\
    bet_terms b1 = bet_terms b0 /\
    (bet_Status b1 = StatusPending \/ bet_Status b1 = StatusCancelled).
Proof.
  intros Hb. rewrite (debit_stake_eq b b0 w Hb). unfold stake_debit.
  match goal with |- context [wc_DebitWallet ?u ?c ?a ?r ?md] =>
    destruct (debit_outside u c a r md) as [Ho Ht Hr]; specialize (Ho w);
    change (bets_of (wc_DebitWallet u c a r md w).2 = bets_of w) in Ho;
    specialize (Ht w); specialize (Hr w);
    destruct (wc_DebitWallet u c a r md w) as [[tx|e|p] w2] end; cbn [fst snd] in *.
  - exists (confirmed tx b0). rewrite bets_with, Ho. split_and!; try done. by left.
  - exists (refused (time_at (w_tick w2)) b0). rewrite bets_with, Ho.
    split_and!; [done|cbn; lia| |].
    + unfold refused. by rewrite bet_terms_settled.
    + unfold refused. rewrite bet_status_settled. by right.
  - by destruct (Hr p).
Qed.

Lemma existing_moves u ref : moves (existing_bet u ref).
Proof.
  intros w Hi. destruct (existing_eq u ref w Hi) as [(?&?&?&?&?&->)|[_ ->]];
    (apply evolves_same; [done|cbn; lia]).
Qed.

Lemma PlaceBet_moves u e m o stake c ref : moves (PlaceBet u e m o stake c ref).
Proof.
  intros w Hi.
  destruct (decide (u = "" \/ e = "" \/ m = "" \/ o = "" \/ stake = "" \/ c = "" \/ ref = ""))
    as [Hf|Hf]; [unfold PlaceBet; rewrite decide_True by done; apply evolves_refl|].
  destruct (decimalGreaterThanZero stake) as [[]|er|p] eqn:Hs.
  2-4: unfold PlaceBet; rewrite decide_False by done; unfold mbind, M_bind, wrapped, of_res;
    rewrite Hs; apply evolves_refl.
  assert (valid_request u e m o stake c ref) as Hv by done.
  destruct (existing_eq u ref w Hi) as [(id&b&_&_&_&He)|[Hno He]].
  - rewrite PlaceBet_unfold by done. unfold mbind at 1, M_bind at 1. rewrite He.
    apply evolves_same; [done|cbn; lia].
  - assert (evolves w (current_odds e m o (next w)).2) as Hev.
    { eapply (evolves_trans _ (next w)); [apply evolves_same; [done|cbn; lia]|].
      apply evolves_same; apply (current_odds_outside LB). }
    destruct (current_odds e m o (next w)) as [r w1] eqn:Ho.
    destruct r as [odds|er|p].
    2,3: rewrite PlaceBet_unfold by done; unfold mbind at 1, M_bind at 1; rewrite He;
      unfold mbind at 1, M_bind at 1; rewrite Ho; exact Hev.
    destruct (multiplyDecimal stake odds) as [payout|er|p] eqn:Hm.
    2,3: rewrite PlaceBet_unfold by done; unfold mbind at 1, M_bind at 1; rewrite He;
      unfold mbind at 1, M_bind at 1; rewrite Ho; rewrite Hm;
      exact Hev.
    destruct (PlaceBet_new u e m o stake c ref w w1 odds payout Hi Hv Hno Ho Hm)
      as (id & k & t & w2 & Hid & Hk & Hw2 & ->).
    set (b := new_bet _ _ _ _ _ _ _ _ _ _ _) in *.
    assert (bets_of w2 = <[id := created_bet b id t]> (bets_of w)) as Hb2.
    { unfold bets_of, part at 1. by rewrite Hw2, lget_lset. }
    assert (evolves w w2) as Hc.
    { exact (evolves_create w w2 id k b t Hi Hid Hk Hno Hb2). }
    eapply evolves_trans; [exact Hc|].
    assert (bets_of w2 !! bet_ID b = Some (created_bet b id t)) as Hl.
    { rewrite Hb2. apply lookup_insert_eq. }
    destruct (debit_stake_effect b _ w2 Hl) as (b1 & Hb1 & Ht & Hterms & Hst).
    eapply evolves_update; [exact Hl| |exact Hb1|exact Ht].
    assert (bet_Status (created_bet b id t) = StatusDebitPending) as Hst0
      by apply (created_same_key b id t).
    split_and!; [done| |]; rewrite Hst0; [|by intros [?|[?|?]]].
    apply rtc_once. destruct Hst as [->| ->]; constructor.
Qed.

Lemma SettleBet_moves id o : moves (SettleBet id o).
Proof. intros w Hi. by apply SettleBet_evolves. Qed.

Lemma auto_settle_one_moves b : moves (auto_settle_one b).
Proof.
  unfold auto_settle_one. apply moves_bind.
  - eapply moves_snd; [intros; apply attempt_snd|]. apply moves_outside, (resolve_outside LB).
  - intros [o|er|p]; try apply moves_outside, outside_ret.
    case_decide; [apply moves_outside, outside_ret|].
    eapply moves_snd; [intros; apply ignore_snd|]. apply SettleBet_moves.
Qed.

Lemma list_pending_moves p n : moves (bets_ListPendingBets p n).
Proof.
  intros w _. change (bets_ListPendingBets p n) with (zoom (InMemoryStore_ListPendingBets p n)).
  rewrite zoom_with. unfold InMemoryStore_ListPendingBets. unmonad.
  cbn [snd w_tick w_st]. unfold bets_of, part. cbn [w_st]. rewrite lset_lget.
  by apply evolves_same; [|cbn; lia].
Qed.

Lemma auto_settle_pages_moves fuel : forall page, moves (auto_settle_pages fuel page).
Proof.
  induction fuel as [|fuel IH]; intros page; cbn [auto_settle_pages].
  - intros w _. apply evolves_refl.
  - apply moves_bind.
    { eapply moves_snd; [intros; apply wrapped_snd|]. apply list_pending_moves. }
    intros pending. case_decide; [apply moves_outside, outside_ret|].
    apply moves_bind; [apply moves_for_each, auto_settle_one_moves|]. intros _.
    case_match; [apply moves_outside, outside_ret|apply IH].
Qed.

(** ** The scheduler does what AutoSettleFromEvents does *)
Context `{GT : GrpcText}.

(** The same end: both went through, both stopped with an error, or the same panic. *)
Definition same_end {A B} (x : res A * World S) (y : res B * World S) : Prop :=
  x.2 = y.2 /\
  match x.1, y.1 with
  | Ok _, Ok _ => True
  | Panic p, Panic q => p = q
  | _, _ => False
  end.

Lemma run_bets_auto bets w : same_end (run_bets bets w) (for_each bets auto_settle_one w).
Proof.
  revert w. induction bets as [|b bets IH]; intros w; [done|]. cbn [run_bets for_each].
  unfold auto_settle_one.
  set (r := attempt (resolveOutcomeStatus _ _ _)).
  assert (forall l v, same_end ((ls ← run_bets bets; mret (l ++ ls)) v)
    (for_each bets auto_settle_one v)) as Htail.
  { intros l v. destruct (IH v) as [H1 H2]. unfold mbind, M_bind.
    destruct (run_bets bets v) as [[a|er|p] v']; destruct (for_each _ _ v) as [[a'|er'|p'] v''];
      cbn [fst snd] in *; subst; done. }
  unfold mbind, M_bind. unfold mbind, M_bind in Htail.
  destruct (r w) as [[[o|e|p]|e|p] v] eqn:Hr; try done.
  - destruct (decide (o = "")); [apply Htail|].
    unfold ignore, attempt, mbind, M_bind.
    destruct (SettleBet (bet_ID b) o v) as [[b'|e|p] v']; [apply Htail|apply Htail|done].
  - apply Htail.
  - unfold r, attempt in Hr. by destruct (resolveOutcomeStatus _ _ _ w) as [[?|?|?] ?].
  - unfold r, attempt in Hr. by destruct (resolveOutcomeStatus _ _ _ w) as [[?|?|?] ?].
Qed.

(** Two computations that returned or panicked in front of us. *)
#[local] Ltac panics :=
  split; [done | intros ?; cbn [fst]; split; intros ?; by simplify_eq].

Lemma runOnce_auto_pages fuel : forall page w,
  (runOnce_pages fuel page w).2 = (auto_settle_pages fuel page w).2 /\
  forall p, (runOnce_pages fuel page w).1 = Panic p <->
            (auto_settle_pages fuel page w).1 = Panic p.
Proof.
  induction fuel as [|fuel IH]; intros page w; [cbn; unfold panic; panics|].
  cbn [runOnce_pages auto_settle_pages]. unfold Service_ListPendingBets.
  change schedulerPageSize with settlePageSize.
  unfold mbind, M_bind, attempt, wrapped.
  destruct (bets_ListPendingBets page settlePageSize w) as [[bs|e|q] v]; cbn [wrap_res];
    [|panics|panics].
  destruct (decide (bs = [])); [panics|].
  destruct (run_bets_auto bs v) as [H1 H2].
  destruct (run_bets bs v) as [[l|e|q] v'], (for_each bs auto_settle_one v) as [[u|e'|q'] v''];
    cbn [fst snd] in *; subst; try panics.
  destruct (_ <? _); [panics|]. destruct (IH (int64 (page + 1)) v'') as [I1 I2].
    split; [by destruct (runOnce_pages fuel _ v'') as [[ls|e|q] z]|].
  intros p. rewrite <- I2. destruct (runOnce_pages fuel _ v'') as [[ls|e|q] z]; done.
Qed.

(** When the loop of AutoSettleFromEvents goes through, so does the scheduler's. *)
Lemma runOnce_pages_Ok fuel : forall page w w', auto_settle_pages fuel page w = (Ok tt, w') ->
  exists l, runOnce_pages fuel page w = (Ok l, w').
Proof.
  induction fuel as [|fuel IH]; intros page w w'; [done|].
  cbn [runOnce_pages auto_settle_pages]. unfold Service_ListPendingBets.
  change schedulerPageSize with settlePageSize. unfold mbind, M_bind, attempt, wrapped.
  destruct (bets_ListPendingBets page settlePageSize w) as [[bs|e|q] v]; cbn [wrap_res]; [|done..].
  destruct (decide (bs = [])); [intros [= <-]; by eexists|].
  destruct (run_bets_auto bs v) as [H1 H2].
  destruct (run_bets bs v) as [[l|e|q] v'], (for_each bs auto_settle_one v) as [[u|e'|q'] v''];
    cbn [fst snd] in *; subst; try done.
  destruct (_ <? _); [intros [= <-]; by eexists|].
  intros H%IH. destruct H as [ls ->]. by eexists.
Qed.

Lemma runOnce_moves fuel : moves (runOnce fuel).
Proof.
  intros w Hi. unfold runOnce. rewrite (proj1 (runOnce_auto_pages fuel 1 w)).
  by apply auto_settle_pages_moves.
Qed.

(** ** Executions *)

Inductive svc_op : Type :=
| SvcPlace (userID eventID marketID outcomeID stake currency referenceID : string)
| SvcSettle (betID outcome : string)
| SvcAuto (fuel : nat)
| SvcRunOnce (fuel : nat).

Definition run_svc (op : svc_op) : M S unit :=
  match op with
  | SvcPlace u e m o stake c ref => ignore (PlaceBet u e m o stake c ref)
  | SvcSettle id o => ignore (SettleBet id o)
  | SvcAuto fuel => AutoSettleFromEvents fuel
  | SvcRunOnce fuel => ignore (runOnce fuel)
  end.

(** A call of the service, or anything that leaves the bets alone. *)
Inductive svc_step : World S -> World S -> Prop :=
| svc_call op w : svc_step w (run_svc op w).2
| svc_other w w' : bets_of w' = bets_of w -> (w_tick w <= w_tick w')%nat -> svc_step w w'.

Definition svc_reachable (w : World S) : Prop :=
  exists w0, bets_of w0 = NewBetMemory /\ rtc svc_step w0 w.

Lemma svc_step_evolves w w' : svc_step w w' -> svc_inv w -> evolves w w'.
Proof.
  intros [op v|v v' Hb Ht] Hi; [|by apply evolves_same].
  destruct op; cbn [run_svc]; rewrite ?ignore_snd.
  - by apply PlaceBet_moves.
  - by apply SettleBet_moves.
  - by apply auto_settle_pages_moves.
  - by apply runOnce_moves.
Qed.

Lemma svc_steps_evolve w w' : rtc svc_step w w' -> svc_inv w -> evolves w w'.
Proof.
  induction 1 as [w|w w1 w2 H1 _ IH]; intros Hi; [apply evolves_refl|].
  pose proof (svc_step_evolves _ _ H1 Hi) as He.
  eapply evolves_trans; [done|]. apply IH. by apply He.
Qed.

Lemma svc_reachable_inv w : svc_reachable w -> svc_inv w.
Proof.
  intros (w0 & H0 & Hs). assert (svc_inv w0) as Hi.
  { unfold svc_inv. rewrite H0. split; [constructor; intros *; by rewrite NewBetMemory_empty|].
    intros id. rewrite NewBetMemory_empty. by intros []. }
  by apply (svc_steps_evolve _ _ Hs Hi).
Qed.
End Service.
