(* ===== verification/BetServiceProps.v ===== *)
(** * BetServiceProps: what placing and settling bets guarantees

    The properties of the sportsbook's service over any clients that satisfy
    [ClientsOutside], with witnesses over a small system whose wallet counts calls. *)

From S2P Require Import Prelude GoStd GoJson Decimal Demo OddsModels BetStore BetStoreProps.
From S2P Require Import BetService BetLifecycle.

Section Props.
Context {S : Type} `{LB : Lens S InMemoryStore, LL : !LensLaws LB}.
Context `{E : GoEnv, EL : !GoEnvLaws E, L : DecimalLaws}.
Context {WC : WalletClient S} {OF : OddsFeedClient S} `{CO : !ClientsOutside WC OF} `{GT : GrpcText}.
#[local] Existing Instance lens_BetStore.
Implicit Types w : World S.

Lemma reachable_id w id b : svc_reachable w -> bets_of w !! id = Some b ->
  id <> "" /\ bet_ID b = id.
Proof.
  intros [Hi Hd]%svc_reachable_inv Hb. split; [|by apply (bi_id _ Hi)].
  destruct (Hd id ltac:(by exists b)) as (k & _ & ->). apply uuid_nonempty.
Qed.

(** The odds a bet is placed at are a decimal number. *)
Lemma current_odds_decimal e m o odds w w' : current_odds e m o w = (Ok odds, w') ->
  exists d, ParseDecimal odds = inl d.
Proof.
  unfold current_odds, parseDecimal, NewFromString. intros H. run_inv H; eauto.
Qed.

Lemma valid_stake stake : decimalGreaterThanZero stake = Ok true ->
  exists d, ParseDecimal stake = inl d /\ (0 < amt stake)%Q.
Proof.
  unfold decimalGreaterThanZero, parseDecimal, NewFromString. intros H.
  destruct (ParseDecimal stake) as [d|] eqn:Hd; [|done]. exists d. split; [done|].
  cbn in H. injection H as H. apply GreaterThan_spec in H. rewrite (amt_parse _ _ Hd).
  by rewrite dval_Zero in H.
Qed.

(** PlaceBet on a new reference, once the odds feed has confirmed event, market and
    outcome: the payout is exactly stake times odds; one new bet is put on record before
    the wallet is asked, once, for the stake; if the wallet agrees the bet returned and
    the record are pending with the wallet's transaction, and if it refuses the call
    fails and the record is cancelled.  No other bet changes. *)
Theorem PlaceBet_spec u e m o stake c ref w w1 odds :
  svc_reachable w -> valid_request u e m o stake c ref ->
  ~ has_reference u ref (bets_of w) ->
  current_odds e m o (next w) = (Ok odds, w1) ->
  exists payout id b0 w2,
    let b := new_bet id u e m o odds stake payout c ref (time_at (w_tick w1)) in
    (amt payout == amt stake * amt odds)%Q /\ (0 < amt stake)%Q /\
    bets_of w !! id = None /\ bet_terms b0 = bet_terms b /\
    bets_of w2 = <[id := b0]> (bets_of w) /\
    match stake_debit b w2 with
    | (Ok tx, _) => exists w3,
        PlaceBet u e m o stake c ref w = (Ok (confirmed tx b), w3) /\
        bets_of w3 = <[id := confirmed tx b0]> (bets_of w)
    | (Err er, _) => exists w3 b1,
        PlaceBet u e m o stake c ref w = (Err (ErrWrap "debit stake" er), w3) /\
        bets_of w3 = <[id := b1]> (bets_of w) /\
        bet_terms b1 = bet_terms b0 /\ bet_Status b1 = StatusCancelled
    | (Panic _, _) => False
    end.
Proof.
  intros Hi%svc_reachable_inv Hv Hno Ho.
  destruct (valid_stake stake (proj2 Hv)) as (ds & Hds & Hpos).
  destruct (current_odds_decimal _ _ _ _ _ _ Ho) as [do_ Hdo].
  assert (multiplyDecimal stake odds = Ok (dec_String (dec_Mul ds do_))) as Hm.
  { unfold multiplyDecimal, parseDecimal, NewFromString. by rewrite Hds, Hdo. }
  destruct (PlaceBet_new u e m o stake c ref w w1 odds _ Hi Hv Hno Ho Hm)
    as (id & k & t & w2 & Hid & Hk & Hw2 & Heq).
  exists (dec_String (dec_Mul ds do_)), id.
  set (b := new_bet _ _ _ _ _ _ _ _ _ _ _) in *. exists (created_bet b id t), w2.
  assert (bets_of w2 = <[id := created_bet b id t]> (bets_of w)) as Hb2.
  { unfold bets_of, part at 1. by rewrite Hw2, lget_lset. }
  assert (bets_of w !! id = None) as Hfresh.
  { destruct (bets_of w !! id) as [b'|] eqn:Hb'; [|done].
    destruct (proj2 Hi id ltac:(by exists b')) as (j & Hj & Hjid).
    rewrite Hid in Hjid. apply uuid_inj in Hjid. lia. }
  cbv zeta. split_and!; try done.
  - by rewrite (is_amount_amt _ _ (is_amount_String _)), dval_Mul, (amt_parse _ _ Hds),
      (amt_parse _ _ Hdo).
  - unfold created_bet. cbv zeta. by destruct (IsZero _).
  - assert (bets_of w2 !! bet_ID b = Some (created_bet b id t)) as Hl.
    { rewrite Hb2. apply lookup_insert_eq. }
    rewrite Heq, (debit_stake_eq b _ w2 Hl).
    pose proof (outside_bets _ (debit_outside (bet_UserID b) (bet_Currency b) (bet_Stake b)
      (bet_ReferenceID b) (stake_metadata (bet_EventID b) (bet_MarketID b) (bet_OutcomeID b)
         (bet_Odds b) (bet_ReferenceID b))) w2) as Hd.
    pose proof (outside_runs _ (debit_outside (bet_UserID b) (bet_Currency b) (bet_Stake b)
      (bet_ReferenceID b) (stake_metadata (bet_EventID b) (bet_MarketID b) (bet_OutcomeID b)
         (bet_Odds b) (bet_ReferenceID b))) w2) as Hp.
    fold (stake_debit b) in Hd, Hp.
    destruct (stake_debit b w2) as [[tx|er|p] w3]; cbn [fst snd] in *.
    + eexists. split; [done|]. rewrite bets_with, Hd, Hb2. apply insert_insert_eq.
    + eexists _, (refused _ _). split; [done|]. rewrite bets_with, Hd, Hb2.
      unfold refused. rewrite bet_terms_settled, bet_status_settled.
      split_and!; [apply insert_insert_eq|done|done].
    + by destruct (Hp p).
Qed.

(** PlaceBet is idempotent: a valid request under a reference that the user has
    already used returns the bet on record, whatever else the request says, asks the
    wallet and the odds feed nothing and changes nothing. *)
Theorem PlaceBet_idempotent w id b e m o stake c :
  svc_reachable w -> bets_of w !! id = Some b ->
  valid_request (bet_UserID b) e m o stake c (bet_ReferenceID b) ->
  PlaceBet (bet_UserID b) e m o stake c (bet_ReferenceID b) w = (Ok b, next w).
Proof.
  intros Hi%svc_reachable_inv Hb Hv. rewrite PlaceBet_unfold by done.
  unfold mbind, M_bind.
  destruct (existing_eq (bet_UserID b) (bet_ReferenceID b) w Hi)
    as [(id' & b' & Hb' & Hu & Hr & ->)|[Hno _]].
  - replace b' with b; [done|].
    assert (id = id') as <- by (by eapply (bi_ref _ (proj1 Hi))). congruence.
  - exfalso. apply Hno. by exists id, b.
Qed.

(** C12.  SettleBet on a pending bet, as an equation for its answer and for the whole state
    after it.  First the bet is marked with the outcome and the time, [w1]; only the bet's
    record and the clock change.  For a lost bet that is all: the answer is that record and
    the wallet is not called.  For a won or cancelled bet there is one call to the wallet,
    from [w1]: a credit to the bet's user in its currency, of the payout under "settle-" and
    the bet's reference, or of the stake under "cancel-" and the reference.  If the wallet
    agrees, its transaction is recorded with the bet, which is answered, and nothing else is
    done to the state that the call left; if it refuses, the call fails with its error and
    leaves the state as the wallet did, the bet marked and without a transaction. *)
Theorem SettleBet_spec id outcome w b :
  svc_reachable w -> outcome_arg outcome ->
  bets_of w !! id = Some b -> bet_Status b = StatusPending ->
  let b1 := marked outcome (time_at (w_tick w)) b in
  let w1 := mkWorld (Datatypes.S (w_tick w)) (lset (<[id := b1]> (bets_of w)) (w_st w)) in
  let '(amount, ref, key, err) :=
    if decide (outcome = StatusWon)
    then (bet_PotentialPayout b, "settle-" +:+ bet_ReferenceID b, "payout", "credit winnings")
    else (bet_Stake b, "cancel-" +:+ bet_ReferenceID b, "refund", "credit refund") in
  if decide (outcome = StatusLost) then SettleBet id outcome w = (Ok b1, w1)
  else match wc_CreditWallet (bet_UserID b) (bet_Currency b) amount ref
               (settle_metadata id outcome key amount) w1 with
       | (Ok tx, w2) =>
           let b2 := bet_set_CreditTx tx b1 in
           SettleBet id outcome w =
             (Ok b2, mkWorld (w_tick w2) (lset (<[id := b2]> (bets_of w)) (w_st w2)))
       | (Err e, w2) =>
           SettleBet id outcome w = (Err (ErrWrap err e), w2) /\
           bets_of w2 = <[id := b1]> (bets_of w)
       | (Panic _, _) => False
       end.
Proof.
  intros Hr Ho Hb Hp b1 w1. destruct (reachable_id w id b Hr Hb) as [Hne _].
  pose proof (SettleBet_eq id outcome w b (svc_reachable_inv w Hr) Hne Ho Hb Hp) as Heq.
  cbv zeta in Heq. fold b1 w1 in Heq.
  assert (bet_ID b = id) as Hid by (by apply (bi_id _ (proj1 (svc_reachable_inv w Hr)))).
  assert (bets_of w1 = <[id := b1]> (bets_of w)) as Hw1 by apply lget_lset.
  destruct (settle_bets_credit outcome b w1) as (Hb2 & _ & Hp2).
  unfold settle_credit, settle_amount, settle_prefix, settle_key, credit_err in *.
  rewrite Hid in *.
  destruct (decide (outcome = StatusWon)), (decide (outcome = StatusLost)); try exact Heq;
    destruct (wc_CreditWallet _ _ _ _ _ w1) as [[tx|er|p] w2]; cbn [fst snd] in *;
    first [by destruct (Hp2 p)|split; [exact Heq|by rewrite Hb2]|rewrite Heq, Hb2, Hw1].
  all: unfold with_bets; by rewrite insert_insert_eq.
Qed.

(** C13.  The life of a bet while requests and scheduler runs come one at a time, each
    finished before the next begins, with anything else happening to the wallet, the odds
    and the clock between them: a bet's terms never change, its status only moves
    debit_pending to pending or cancelled and pending to won, lost or cancelled, and once it
    is final its record never changes again and every attempt to settle it is an error that
    changes nothing.  Side by side, two settlements can both find a bet pending and a final
    record can change: those runs are BetConcProps's, with the run that pays twice. *)
Theorem bet_life_cycle w w' id b :
  svc_reachable w -> rtc svc_step w w' -> bets_of w !! id = Some b ->
  exists b', bets_of w' !! id = Some b' /\ bet_terms b' = bet_terms b /\
    rtc status_step (bet_Status b) (bet_Status b') /\
    (final (bet_Status b) -> b' = b /\
       forall outcome, exists e, SettleBet id outcome w' = (Err e, w')).
Proof.
  intros Hr Hs Hb.
  destruct (svc_steps_evolve _ _ Hs (svc_reachable_inv w Hr)) as (_ & _ & He).
  destruct (He (svc_reachable_inv w Hr) id b Hb) as (b' & Hb' & Ht & Hst & Hf).
  exists b'. split_and!; try done. intros Hfin. pose proof (Hf Hfin) as ->.
  split; [done|]. intros o. apply SettleBet_refused. left. rewrite Hb'.
  by destruct Hfin as [->|[->| ->]].
Qed.

Lemma refused_settlement id outcome w b e w1 :
  svc_reachable w -> outcome_arg outcome -> outcome <> StatusLost ->
  bets_of w !! id = Some b -> bet_Status b = StatusPending ->
  SettleBet id outcome w = (Err e, w1) ->
  bets_of w1 = <[id := marked outcome (time_at (w_tick w)) b]> (bets_of w).
Proof.
  intros Hr Ho Hl Hb Hp. destruct (reachable_id w id b Hr Hb) as [Hne _].
  rewrite (SettleBet_eq id outcome w b (svc_reachable_inv w Hr) Hne Ho Hb Hp).
  cbv zeta. rewrite decide_False by done. set (w2 := mkWorld _ _).
  assert (bets_of w2 = <[id := marked outcome (time_at (w_tick w)) b]> (bets_of w)) as Hw2
    by apply lget_lset.
  destruct (settle_bets_credit outcome b w2) as (Hb2 & _ & _).
  destruct (settle_credit outcome b w2) as [[tx|er|p] w3]; cbn [fst snd] in *; intros H;
    simplify_eq. by rewrite Hb2.
Qed.

(** C14.  A payout that the wallet refuses is never tried again: the bet keeps its outcome
    without a transaction for ever, every later settlement is refused, and the
    scheduler, which looks at pending bets only, does not see it. *)
Theorem failed_credit_not_retried id outcome w b :
  svc_reachable w -> outcome_arg outcome -> outcome <> StatusLost ->
  bets_of w !! id = Some b -> bet_Status b = StatusPending ->
  bet_CreditTransactionID b = "" ->
  forall e w1, SettleBet id outcome w = (Err (ErrWrap (credit_err outcome) e), w1) ->
  forall w2, rtc svc_step w1 w2 ->
  exists b', bets_of w2 !! id = Some b' /\ bet_Status b' = outcome /\
    bet_CreditTransactionID b' = "" /\ (b' ∉ pending_bets (bets_of w2)) /\
    forall o, exists er, SettleBet id o w2 = (Err er, w2).
Proof.
  intros Hr Ho Hl Hb Hp Hc e w1 Hs w2 Hsteps.
  set (b1 := marked outcome (time_at (w_tick w)) b).
  assert (bets_of w1 = <[id := b1]> (bets_of w)) as Hw1 by (by eapply refused_settlement).
  assert (svc_reachable w1) as Hr1.
  { destruct Hr as (v & Hv & Hsv). exists v. split; [done|]. etrans; [exact Hsv|].
    apply rtc_once. replace w1 with (run_svc (SvcSettle id outcome) w).2; [constructor|].
    cbn [run_svc]. by rewrite ignore_snd, Hs. }
  assert (bets_of w1 !! id = Some b1) as Hb1 by (rewrite Hw1; apply lookup_insert_eq).
  assert (final (bet_Status b1)) as Hf by (by unfold b1; rewrite marked_status).
  destruct (svc_steps_evolve _ _ Hsteps (svc_reachable_inv w1 Hr1)) as (_ & _ & He).
  destruct (He (svc_reachable_inv w1 Hr1) id b1 Hb1) as (b' & Hb' & _ & _ & Heq).
  rewrite (Heq Hf) in Hb'. exists b1.
  assert (bet_Status b1 = outcome) as Hst by apply marked_status.
  split_and!; try done.
  - unfold b1, marked, bet_set_SettledAt. by destruct (IsZero _).
  - unfold pending_bets, sortBetsByCreatedAsc. rewrite (insertion_sort_perm before_asc).
    intros [H _]%list_elem_of_filter. rewrite H in Hf. by destruct Hf as [?|[?|?]].
  - intros o. apply SettleBet_refused. left. rewrite Hb'.
    destruct Hf as [->|[->| ->]]; done.
Qed.

(** The scheduler does exactly what AutoSettleFromEvents does to the system, however
    many pages of pending bets there are and whatever fails on the way; it only adds
    log lines. *)
Theorem runOnce_is_AutoSettle fuel w :
  (runOnce fuel w).2 = (AutoSettleFromEvents fuel w).2 /\
  forall p, (runOnce fuel w).1 = Panic p <-> (AutoSettleFromEvents fuel w).1 = Panic p.
Proof. apply runOnce_auto_pages. Qed.
End Props.

(** ** Witnesses *)
Module BetDemo.
Import Demo.

(** A sportsbook next to a wallet that only counts its calls. *)
Definition State : Type := InMemoryStore * nat.
#[export] Instance bets_lens : Lens State InMemoryStore :=
  { lget := fst; lset t s := (t, snd s) }.
#[export] Instance bets_lens_laws : LensLaws bets_lens.
Proof. by constructor; intros; cbn; try destruct s. Qed.
#[export] Existing Instance lens_BetStore.

Definition count_call (tx : string) : M State string :=
  modify (fun s => (s.1, Datatypes.S s.2));; mret tx.
(** A wallet that agrees to everything, and one that pays nothing out. *)
Definition generous : WalletClient State :=
  {| wc_DebitWallet _ _ _ _ _ := count_call "tx";
     wc_CreditWallet _ _ _ _ _ := count_call "tx" |}.
Definition stingy : WalletClient State :=
  {| wc_DebitWallet _ _ _ _ _ := count_call "tx";
     wc_CreditWallet _ _ _ _ _ := mthrow (ErrNew "unavailable") |}.

(** One event with one market and one outcome, which [status ""] reports as won. *)
Definition the_odds : OddsFeedClient State :=
  {| ofc_GetEvent id := mret (Some (mkPbEvent id "l" "s" "h" "a" "" "upcoming" "" "" ""));
     ofc_ListMarkets e st _ _ := mret [mkPbMarket "m" e "1x2" "Winner" "" "active"];
     ofc_ListOutcomes m st _ _ := mret [mkPbOutcome "o" m "Home" "1.5"
       (if decide (st = "active") then "active" else StatusWon)];
     ofc_ListEvents _ _ _ _ _ := mret [] |}.
#[export] Existing Instance the_odds.

Lemma outside_count tx : outside (count_call tx).
Proof. by constructor. Qed.
#[export] Instance generous_outside : ClientsOutside generous the_odds.
Proof. constructor; intros; by constructor. Qed.
#[export] Instance stingy_outside : ClientsOutside stingy the_odds.
Proof. constructor; intros; by constructor. Qed.

Definition empty : World State := mkWorld 0 (NewBetMemory, 0%nat).
Lemma empty_reachable (WC : WalletClient State) : svc_reachable (WC := WC) empty.
Proof. exists empty. by split. Qed.
Lemma request_valid : valid_request "u" "e" "m" "o" "10" "USDT" "r1".
Proof.
  split; [|vm_compute; reflexivity].
  intros H. repeat (destruct H as [H|H]; [discriminate H|]). discriminate H.
Qed.
Lemma no_reference : ~ has_reference "u" "r1" (bets_of empty).
Proof. intros (id & b & H & _). change (NewBetMemory !! id = Some b) in H.
  by rewrite NewBetMemory_empty in H. Qed.

Lemma PlaceBet_spec_witness :
  exists payout id b0 w2,
    (amt payout == 15)%Q /\
    bets_of w2 = <[id := b0]> (bets_of empty) /\ bets_of empty !! id = None.
Proof.
  destruct (PlaceBet_spec (WC := generous) "u" "e" "m" "o" "10" "USDT" "r1" empty (next empty)
    "1.5" (empty_reachable _) request_valid no_reference eq_refl)
    as (payout & id & b0 & w2 & Hp & _ & Hn & _ & Hw & _).
  exists payout, id, b0, w2. split; [|split; [exact Hw|exact Hn]].
  rewrite Hp. vm_compute. reflexivity.
Defined.

(** A world with one pending bet, filed under [tally 3]. *)
Definition placed (WC : WalletClient State) : World State :=
  (run_svc (WC := WC) (SvcPlace "u" "e" "m" "o" "10" "USDT" "r1") empty).2.
Definition the_bet : Bet :=
  mkBet (tally 3) "u" "e" "m" "o" "1.5" "10" "15" "USDT" StatusPending "r1" "tx" "" 1000000000 None.
Lemma placed_reachable WC `{!ClientsOutside WC the_odds} : svc_reachable (WC := WC) (placed WC).
Proof.
  exists empty. split; [reflexivity|]. apply rtc_once. apply svc_call.
Qed.
Lemma placed_generous : bets_of (placed generous) !! tally 3 = Some the_bet.
Proof. vm_compute. reflexivity. Qed.
Lemma placed_stingy : bets_of (placed stingy) !! tally 3 = Some the_bet.
Proof. vm_compute. reflexivity. Qed.

Lemma PlaceBet_idempotent_witness :
  PlaceBet (WC := generous) "u" "e" "m" "o" "10" "USDT" "r1" (placed generous) =
    (Ok the_bet, next (placed generous)).
Proof.
  exact (PlaceBet_idempotent (WC := generous) (placed generous) (tally 3) the_bet
    "e" "m" "o" "10" "USDT" (placed_reachable generous) placed_generous request_valid).
Defined.

Lemma SettleBet_spec_witness :
  let w := placed generous in
  exists w3, SettleBet (WC := generous) (tally 3) StatusWon w =
      (Ok (bet_set_CreditTx "tx" (marked StatusWon (time_at (w_tick w)) the_bet)), w3) /\
    snd (w_st w3) = Datatypes.S (snd (w_st w)).
Proof.
  intros w. pose proof (SettleBet_spec (WC := generous) (tally 3) StatusWon w the_bet
    (placed_reachable generous) (or_introl eq_refl) placed_generous eq_refl) as H.
  cbv zeta in H. rewrite decide_True in H by reflexivity.
  rewrite decide_False in H by discriminate.
  eexists. split; [exact H|]. reflexivity.
Defined.


(** The bet of [placed generous], settled. *)
Definition settled : World State :=
  (run_svc (WC := generous) (SvcSettle (tally 3) StatusWon) (placed generous)).2.
Definition settled_bet : Bet :=
  mkBet (tally 3) "u" "e" "m" "o" "1.5" "10" "15" "USDT" StatusWon "r1" "tx" "tx" 1000000000
    (Some 4000000000).
Lemma settled_reachable : svc_reachable (WC := generous) settled.
Proof.
  exists empty. split; [reflexivity|].
  apply (rtc_l _ _ (placed generous)); [apply svc_call|]. apply rtc_once. apply svc_call.
Qed.

Lemma bet_life_cycle_witness : exists e,
  SettleBet (WC := generous) (tally 3) StatusCancelled
    (run_svc (WC := generous) (SvcAuto 2) settled).2 =
  (Err e, (run_svc (WC := generous) (SvcAuto 2) settled).2).
Proof.
  destruct (bet_life_cycle (WC := generous) settled
    (run_svc (WC := generous) (SvcAuto 2) settled).2 (tally 3) settled_bet settled_reachable)
    as (b' & _ & _ & _ & Hf).
  - apply rtc_once. apply svc_call.
  - vm_compute. reflexivity.
  - destruct (Hf (or_introl eq_refl)) as [_ H]. apply H.
Defined.

Lemma failed_credit_not_retried_witness :
  exists b', bets_of (run_svc (WC := stingy) (SvcSettle (tally 3) StatusWon)
               (placed stingy)).2 !! tally 3 = Some b' /\
    bet_Status b' = StatusWon /\ bet_CreditTransactionID b' = "".
Proof.
  destruct (failed_credit_not_retried (WC := stingy) (tally 3) StatusWon (placed stingy) the_bet
    (placed_reachable stingy) (or_introl eq_refl) ltac:(discriminate) placed_stingy eq_refl
    eq_refl (ErrNew "unavailable")
    (run_svc (WC := stingy) (SvcSettle (tally 3) StatusWon) (placed stingy)).2)
    with (w2 := (run_svc (WC := stingy) (SvcSettle (tally 3) StatusWon) (placed stingy)).2)
    as (b' & Hb & Hs & Hc & _).
  - vm_compute. reflexivity.
  - apply rtc_refl.
  - exists b'. split; [exact Hb|]. split; [exact Hs|exact Hc].
Defined.
End BetDemo.
