(* ===== verification/SettlementProps.v ===== *)
(** * SettlementProps: the settlement loop

    AutoSettleFromEvents and the scheduler page through the pending bets while they
    settle them.  The loop ends, with fuel for one page per hundred pending bets; one
    run settles the decided bets of the first page; and it can pass over later ones. *)

From S2P Require Import Prelude GoStd GoJson Decimal Demo OddsModels BetStore BetStoreProps.
From S2P Require Import BetService BetLifecycle BetServiceProps.

(** ** Counting pending bets *)
Definition npend (s : InMemoryStore) : nat :=
  length (filter (fun b => bet_Status b = StatusPending) (map_to_list s).*2).

Lemma npend_pending s : length (pending_bets s) = npend s.
Proof. apply Permutation_length, (insertion_sort_perm before_asc). Qed.

Lemma npend_insert s id b : npend (<[id := b]> s) =
  ((if decide (bet_Status b = StatusPending) then 1 else 0) + npend (delete id s))%nat.
Proof.
  unfold npend. rewrite <- insert_delete_eq.
  rewrite map_to_list_insert by apply lookup_delete_eq. cbn [fmap list_fmap snd].
  rewrite filter_cons. by case_decide.
Qed.

Lemma npend_update s id b b' : s !! id = Some b -> bet_Status b = StatusPending ->
  bet_Status b' <> StatusPending -> (npend (<[id := b']> s) <= npend s)%nat.
Proof.
  intros Hb Hp Hp'. rewrite npend_insert. rewrite <- (insert_id s id b Hb) at 2.
  rewrite npend_insert. rewrite (decide_True _ _ Hp), (decide_False _ _ Hp'). lia.
Qed.

Section Loop.
Context {S : Type} `{LB : Lens S InMemoryStore, LL : !LensLaws LB}.
Context `{E : GoEnv, EL : !GoEnvLaws E, L : DecimalLaws}.
Context {WC : WalletClient S} {OF : OddsFeedClient S} `{CO : !ClientsOutside WC OF} `{GT : GrpcText}.
#[local] Existing Instance lens_BetStore.
Implicit Types w : World S.

(** Settling leaves as many bets, no more of them pending. *)
Definition shrinks (w w' : World S) : Prop :=
  (npend (bets_of w') <= npend (bets_of w))%nat /\ size (bets_of w') = size (bets_of w).

Lemma shrinks_trans w1 w2 w3 : shrinks w1 w2 -> shrinks w2 w3 -> shrinks w1 w3.
Proof. intros [? ?] [? ?]. split; [lia|congruence]. Qed.

(** One iteration: nothing happens to the bets, or one pending bet is settled. *)
Lemma auto_settle_one_effect b w : svc_inv w ->
  exists w', auto_settle_one b w = (Ok tt, w') /\ svc_inv w' /\
    (bets_of w' = bets_of w \/
     exists c c' o, bets_of w !! bet_ID b = Some c /\ bet_Status c = StatusPending /\
       bets_of w' = <[bet_ID b := c']> (bets_of w) /\ outcome_arg o /\ bet_Status c' = o).
Proof.
  intros Hi. pose proof (auto_settle_one_moves b w Hi) as (Hi' & _ & _). specialize (Hi' Hi).
  unfold auto_settle_one in *.
  destruct (resolve_outside LB (bet_EventID b) (bet_MarketID b) (bet_OutcomeID b)) as [Hb _ Hr].
  specialize (Hb w). specialize (Hr w).
  change (part ?v) with (bets_of v) in Hb. unfold attempt, ignore, mbind, M_bind in *.
  destruct (resolveOutcomeStatus _ _ _ w) as [[o|e|p] w1] eqn:Hres; cbn [fst snd] in *;
    [|exists w1; auto|by destruct (Hr p)].
  destruct (decide (o = "")) as [|Hne]; [exists w1; auto|].
  assert (svc_inv w1) as Hi1.
  { apply (moves_outside _ (resolve_outside LB (bet_EventID b) (bet_MarketID b)
      (bet_OutcomeID b)) w Hi) in Hi. by rewrite Hres in Hi. }
  destruct (SettleBet_effect (bet_ID b) o w1 Hi1) as [Hp Heff].
  unfold attempt, mret, M_ret in *.
  destruct (SettleBet (bet_ID b) o w1) as [[x|e|p] w2]; cbn [fst snd] in *;
    [| |by destruct (Hp p)]; (exists w2; split; [done|]; split; [done|]);
    (destruct Heff as [->|(c & c' & Hc & Hcp & Hw & _ & _ & Hst & Ho)]; [by left|right]);
    rewrite Hb in *; by exists c, c', o.
Qed.

Lemma final_not_pending o : outcome_arg o -> o <> StatusPending.
Proof. by intros [->|[->| ->]]. Qed.

Lemma auto_settle_one_shrinks b w : svc_inv w ->
  exists w', auto_settle_one b w = (Ok tt, w') /\ svc_inv w' /\ shrinks w w'.
Proof.
  intros Hi. destruct (auto_settle_one_effect b w Hi)
    as (w' & Heq & Hi' & [Hb|(c & c' & o & Hc & Hp & Hw & Ho & Hs)]); exists w';
    (split; [done|]; split; [done|]); unfold shrinks.
  - by rewrite Hb.
  - rewrite Hw. split.
    + eapply npend_update; [done|done|]. rewrite Hs. by apply final_not_pending.
    + apply map_size_insert_Some. by eexists.
Qed.

Lemma for_each_shrinks bs : forall w, svc_inv w ->
  exists w', for_each bs auto_settle_one w = (Ok tt, w') /\ svc_inv w' /\ shrinks w w'.
Proof.
  induction bs as [|b bs IH]; intros w Hi; [by exists w|]. cbn [for_each].
  destruct (auto_settle_one_shrinks b w Hi) as (w1 & Heq & Hi1 & Hs1).
  destruct (IH w1 Hi1) as (w2 & Heq2 & Hi2 & Hs2). exists w2.
  unfold mbind, M_bind. rewrite Heq. split_and!; [done|done|by eapply shrinks_trans].
Qed.

Lemma next_inv w : svc_inv w -> svc_inv (next w).
Proof. intros Hi. by apply (evolves_same w (next w) eq_refl (Nat.le_succ_diag_r _)). Qed.

Definition small_store (w : World S) : Prop := Z.of_nat (size (bets_of w)) < 2 ^ 61.

Lemma list_pending_eq k w : svc_inv w -> small_store w -> Z.of_nat k < 2 ^ 50 ->
  bets_ListPendingBets (Z.of_nat k + 1) settlePageSize w =
    (Ok (window (Z.of_nat k + 1) settlePageSize (pending_bets (bets_of w))), next w).
Proof.
  intros [Hi _] Hs Hk.
  change (bets_ListPendingBets (Z.of_nat k + 1) settlePageSize) with
    (zoom (InMemoryStore_ListPendingBets (Z.of_nat k + 1) settlePageSize)).
  apply zoom_read, ListPendingBets_eq; unfold page_arg, settlePageSize; try done; lia.
Qed.

Lemma window_length {A} k n (xs : list A) :
  length (window (Z.of_nat k + 1) (Z.of_nat n) xs) = min n (length xs - k * n).
Proof.
  unfold window. rewrite length_take, length_drop, Nat2Z.id. f_equal. f_equal. lia.
Qed.

Lemma auto_settle_pages_ends fuel : forall k w, svc_inv w -> small_store w ->
  (0 < fuel)%nat -> (npend (bets_of w) < 100 * (k + fuel))%nat ->
  Z.of_nat (k + fuel) < 2 ^ 50 ->
  exists w', auto_settle_pages fuel (Z.of_nat k + 1) w = (Ok tt, w').
Proof.
  induction fuel as [|fuel IH]; intros k w Hi Hs Hf Hn Hk; [lia|].
  cbn [auto_settle_pages]. unfold mbind, M_bind, wrapped.
  rewrite list_pending_eq by (try done; lia). cbn [wrap_res].
  set (page := window _ _ _).
  assert (length page = min 100 (npend (bets_of w) - k * 100)) as Hlen.
  { unfold page, settlePageSize. rewrite <- npend_pending. apply (window_length k 100). }
  destruct (decide (page = [])); [by eexists|].
  destruct (for_each_shrinks page (next w) (next_inv w Hi)) as (w1 & -> & Hi1 & Hsh1 & Hsz).
  change (bets_of (next w)) with (bets_of w) in *.
  destruct (Z.of_nat (length page) <? settlePageSize) eqn:Hlt; [by eexists|].
  apply Z.ltb_ge in Hlt. unfold settlePageSize in Hlt.
  rewrite int64_id by (unfold in_int64; lia).
  replace (Z.of_nat k + 1 + 1) with (Z.of_nat (Datatypes.S k) + 1) by lia.
  apply IH; [done|unfold small_store in *; by rewrite Hsz|lia|lia|lia].
Qed.

(** C17.  The settlement loop ends: with fuel for one page per hundred pending bets and
    one more, it returns without an error, whatever the wallet and the odds feed
    answer. *)
Theorem AutoSettle_terminates fuel w :
  svc_reachable w -> small_store w ->
  (npend (bets_of w) < 100 * fuel)%nat -> Z.of_nat fuel < 2 ^ 50 ->
  exists w', AutoSettleFromEvents fuel w = (Ok tt, w').
Proof.
  intros Hi%svc_reachable_inv Hs Hn Hf. apply (auto_settle_pages_ends fuel 0); try done. lia.
Qed.

(** ** What a run settles *)

(** The odds feed's verdict on a bet, at all times. *)
Definition verdict (b : Bet) (o : string) : Prop :=
  forall w, exists w', resolveOutcomeStatus (bet_EventID b) (bet_MarketID b) (bet_OutcomeID b) w
    = (Ok o, w').

(** A bet settles when its turn comes. *)
Lemma auto_settle_one_verdict b o w : svc_inv w -> verdict b o -> outcome_arg o ->
  bets_of w !! bet_ID b = Some b -> bet_Status b = StatusPending ->
  exists w' b', auto_settle_one b w = (Ok tt, w') /\ svc_inv w' /\
    bets_of w' !! bet_ID b = Some b' /\ bet_Status b' = o.
Proof.
  intros Hi Hv Ho Hb Hp.
  pose proof (auto_settle_one_moves b w Hi) as (Hi' & _ & _). specialize (Hi' Hi).
  unfold auto_settle_one in *. destruct (Hv w) as [w1 Hres].
  pose proof (resolve_outside LB (bet_EventID b) (bet_MarketID b) (bet_OutcomeID b)) as Hout.
  pose proof (outside_bets _ Hout w) as Hb1. rewrite Hres in Hb1. cbn [snd] in Hb1.
  assert (svc_inv w1) as Hi1.
  { apply (moves_outside _ Hout w Hi) in Hi. by rewrite Hres in Hi. }
  unfold attempt at 1 in Hi'. unfold attempt at 1. unfold mbind, M_bind in *.
  rewrite Hres in *. rewrite decide_False in * by (by destruct Ho as [->|[->| ->]]).
  rewrite <- Hb1 in Hb. rewrite ignore_snd in Hi'.
  assert (bet_ID b <> "") as Hne.
  { destruct (proj2 Hi1 (bet_ID b) ltac:(by exists b)) as (k & _ & ->). apply uuid_nonempty. }
  pose proof (SettleBet_eq (bet_ID b) o w1 b Hi1 Hne Ho Hb Hp) as Heq. cbv zeta in Heq.
  destruct (SettleBet_effect (bet_ID b) o w1 Hi1) as [Hrun Heff].
  assert (exists x, ignore (SettleBet (bet_ID b) o) w1 = (Ok x, (SettleBet (bet_ID b) o w1).2))
    as [[] Hig].
  { unfold ignore, attempt, mbind, M_bind, mret, M_ret.
    destruct (SettleBet (bet_ID b) o w1) as [[x|e|p] w2]; [by exists tt|by exists tt|].
    by destruct (Hrun p). }
  rewrite Hig. exists (SettleBet (bet_ID b) o w1).2.
  destruct Heff as [Hsame|(c & c' & _ & _ & Hw & _ & _ & Hst & _)].
  - exfalso. rewrite Heq in Hsame. revert Hsame.
    destruct (decide (o = StatusLost)).
    + cbn [snd]. intros H. apply (f_equal w_tick) in H. cbn in H. lia.
    + match goal with |- context [settle_credit o b ?v] =>
        destruct (settle_bets_credit o b v) as (Hb2 & Ht2 & _);
        destruct (settle_credit o b v) as [[tx|e|p] w2] end;
      cbn [snd] in *; intros H; apply (f_equal w_tick) in H; cbn in *; lia.
  - exists c'. rewrite Hw, lookup_insert_eq. by split_and!.
Qed.

(** A run over bets that are all still as listed. *)
Lemma for_each_verdict bs : forall w, svc_inv w -> NoDup (bet_ID <$> bs) ->
  (forall b, b ∈ bs -> bets_of w !! bet_ID b = Some b /\ bet_Status b = StatusPending) ->
  exists w', for_each bs auto_settle_one w = (Ok tt, w') /\ svc_inv w' /\
    forall b o, b ∈ bs -> verdict b o -> outcome_arg o ->
      exists b', bets_of w' !! bet_ID b = Some b' /\ bet_Status b' = o.
Proof.
  induction bs as [|b bs IH]; intros w Hi Hnd Hbs; cbn [for_each].
  { exists w. split_and!; [done|done|]. by intros b o H%not_elem_of_nil. }
  apply list.NoDup_cons in Hnd as [Hb Hnd].
  destruct (auto_settle_one_effect b w Hi) as (w1 & Heq & Hi1 & Heff).
  assert (forall i, i <> bet_ID b -> bets_of w1 !! i = bets_of w !! i) as Hother.
  { intros i Hne. destruct Heff as [->|(c & c' & ? & _ & _ & -> & _)]; [done|].
    by apply lookup_insert_ne. }
  destruct (IH w1 Hi1 Hnd) as (w2 & Heq2 & Hi2 & Hall).
  { intros b' Hin. rewrite Hother; [by apply Hbs; right|]. intros Hid. apply Hb.
    rewrite <- Hid. by apply list_elem_of_fmap_2. }
  exists w2. unfold mbind, M_bind. rewrite Heq. split_and!; [done|done|].
  intros b' o [->|Hin]%elem_of_cons Hv Ho; [|by apply Hall].
  destruct (Hbs b ltac:(by left)) as [Hst Hp].
  destruct (auto_settle_one_verdict b o w Hi Hv Ho Hst Hp) as (w1' & c & Heq' & _ & Hc & Hco).
  rewrite Heq in Heq'. injection Heq' as <-.
  pose proof (moves_for_each bs auto_settle_one auto_settle_one_moves w1 Hi1) as (_ & _ & Hev).
  rewrite Heq2 in Hev. cbn [snd] in Hev.
  destruct (Hev Hi1 _ _ Hc) as (c' & Hc' & _ & _ & Hfin). exists c'. split; [done|].
  by rewrite Hfin by (by rewrite Hco).
Qed.

(** The pending bets as listed are the pending bets on record. *)
Lemma pending_bets_stored s b : bets_inv s -> b ∈ pending_bets s ->
  s !! bet_ID b = Some b /\ bet_Status b = StatusPending.
Proof.
  intros Hi. unfold pending_bets, sortBetsByCreatedAsc.
  rewrite (insertion_sort_perm before_asc).
  intros [Hp [k Hk]%elem_of_values]%list_elem_of_filter. split; [|done].
  by rewrite (bi_id _ Hi k b Hk).
Qed.

Lemma pending_bets_ids s : bets_inv s -> NoDup (bet_ID <$> pending_bets s).
Proof.
  intros Hi. unfold pending_bets, sortBetsByCreatedAsc.
  rewrite (insertion_sort_perm before_asc).
  assert (forall l : list (string * Bet), (forall k b, (k, b) ∈ l -> bet_ID b = k) ->
    NoDup l.*1 -> NoDup (bet_ID <$> filter (fun b => bet_Status b = StatusPending) l.*2)) as H.
  { induction l as [|[k b] l IH]; intros Hk Hnd; [constructor|].
    cbn [fmap list_fmap List.map fst snd] in *.
    apply list.NoDup_cons in Hnd as [Hin Hnd].
    assert (NoDup (bet_ID <$> filter (fun b => bet_Status b = StatusPending) l.*2)) as Hl.
    { apply IH; [|done]. intros k' b' H. apply Hk. by right. }
    rewrite filter_cons. case_decide; [|done]. apply list.NoDup_cons. split; [|done].
    intros (b' & Hid & [_ ([k' b''] & -> & Hb')%list_elem_of_fmap]%list_elem_of_filter)
      %list_elem_of_fmap.
    apply Hin. cbn in Hid. rewrite (Hk k b) in Hid by left.
    rewrite (Hk k' b'') in Hid by (by right). subst k'.
    apply list_elem_of_fmap. by exists (k, b''). }
  apply H; [|apply NoDup_fst_map_to_list].
  intros k b Hk%elem_of_map_to_list. by apply (bi_id _ Hi).
Qed.

(** Progress: one run of the settlement loop settles each of the hundred oldest
    pending bets on which the odds feed has decided, with the outcome it decided, even
    when the wallet fails. *)
Theorem AutoSettle_settles_first_page fuel w b o :
  svc_reachable w -> small_store w ->
  (npend (bets_of w) < 100 * fuel)%nat -> Z.of_nat fuel < 2 ^ 50 ->
  b ∈ take 100 (pending_bets (bets_of w)) -> verdict b o -> outcome_arg o ->
  exists w' b', AutoSettleFromEvents fuel w = (Ok tt, w') /\
    bets_of w' !! bet_ID b = Some b' /\ bet_Status b' = o.
Proof.
  intros Hi%svc_reachable_inv Hs Hn Hf Hin Hv Ho.
  destruct (auto_settle_pages_ends fuel 0 w Hi Hs) as [w' Hend]; [lia|lia|lia|].
  unfold AutoSettleFromEvents. change (Z.of_nat 0 + 1) with 1 in Hend. rewrite Hend.
  destruct fuel as [|fuel]; [lia|]. cbn [auto_settle_pages] in Hend.
  unfold mbind, M_bind, wrapped in Hend.
  pose proof (list_pending_eq 0 w Hi Hs ltac:(lia)) as Hl.
  change (Z.of_nat 0 + 1) with 1 in Hl. rewrite Hl in Hend. cbn [wrap_res] in Hend.
  change (window _ _ _) with (take 100 (pending_bets (bets_of w))) in Hend.
  set (page := take 100 (pending_bets (bets_of w))) in *.
  rewrite decide_False in Hend by (intros Hnil; rewrite Hnil in Hin; by apply not_elem_of_nil in Hin).
  destruct (for_each_verdict page (next w) (next_inv w Hi)) as (w1 & Hw1 & Hi1 & Hall).
  - unfold page. rewrite fmap_take. eapply sublist_NoDup; [apply pending_bets_ids, Hi|].
    apply sublist_take.
  - intros c Hc. apply pending_bets_stored; [apply Hi|]. by apply elem_of_take in Hc as (i & Hl'%list_elem_of_lookup_2 & _).
  - destruct (Hall b o Hin Hv Ho) as (b1 & Hb1 & Hst). rewrite Hw1 in Hend.
    assert (evolves w1 w') as Hev.
    { destruct (_ <? settlePageSize); [unfold mret, M_ret in Hend; injection Hend as <-; apply evolves_refl|].
      pose proof (auto_settle_pages_moves fuel (int64 (1 + 1)) w1 Hi1) as Hev.
      by rewrite Hend in Hev. }
    destruct Hev as (_ & _ & Hev). destruct (Hev Hi1 _ _ Hb1) as (b2 & Hb2 & _ & _ & Hfin).
    exists w', b2. split_and!; [done|done|]. by rewrite Hfin by (by rewrite Hst).
Qed.
End Loop.

(** ** Witnesses, and what the paging passes over *)
Module SettlementDemo.
Import Demo BetDemo.

(** [n] pending bets, created one after the other. *)
Definition many (n : nat) : InMemoryStore :=
  foldr (fun i s => <[tally i := mkBet (tally i) "u" "e" "m" "o" "1.5" "10" "15" "USDT"
    StatusPending (tally i) "tx" "" (Z.of_nat i) None]> s) NewBetMemory (seq 1 n).

(** The loop settles pending bets while it pages through the pending bets, so a page
    that was settled makes the next page skip as many: of 150 pending bets that the odds
    feed has all decided, one run settles 100 and leaves 50 pending, and returns without
    an error. *)
Theorem pages_skip_pending :
  let w := mkWorld 1000 (many 150, 0%nat) in
  npend (bets_of w) = 150%nat /\
  (AutoSettleFromEvents (WC := generous) 10 w).1 = Ok tt /\
  npend (bets_of (AutoSettleFromEvents (WC := generous) 10 w).2) = 50%nat.
Proof. vm_compute. repeat split. Qed.

Lemma AutoSettle_terminates_witness :
  exists w', AutoSettleFromEvents (WC := generous) 2 (placed generous) = (Ok tt, w').
Proof.
  apply (AutoSettle_terminates (WC := generous) 2 (placed generous) (placed_reachable generous));
    vm_compute; [reflexivity|lia|reflexivity].
Defined.

Lemma the_verdict : verdict the_bet StatusWon.
Proof. intros w. eexists. reflexivity. Qed.

Lemma AutoSettle_settles_first_page_witness :
  exists w' b', AutoSettleFromEvents (WC := stingy) 2 (placed stingy) = (Ok tt, w') /\
    bets_of w' !! tally 3 = Some b' /\ bet_Status b' = StatusWon.
Proof.
  apply (AutoSettle_settles_first_page (WC := stingy) 2 (placed stingy) the_bet StatusWon
    (placed_reachable stingy)).
  - vm_compute. reflexivity.
  - vm_compute. lia.
  - vm_compute. reflexivity.
  - apply list_elem_of_lookup_2 with 0%nat. vm_compute. reflexivity.
  - exact the_verdict.
  - left. reflexivity.
Defined.
End SettlementDemo.
