(* ===== verification/BetServer.v ===== *)
(** * BetServer: the sportsbook's gRPC server and clients

    [internal/sportsbook/server.go] and [clients.go].  A connection is a class: what a
    remote call with outgoing metadata and a request message does. *)

From S2P Require Import Prelude GoStd GoJson Decimal OddsModels BetStore BetService WalletServer.
From S2P Require Import OddsServer.

(** ** server.go *)
Definition sportsbook_method (m : string) : string := "/sportsbook.SportsbookService/" +:+ m.

Definition Sportsbook_AuthInterceptor (md : option MD) (fullMethod : string) : res unit :=
  match md with
  | None => Err (ErrStatus Unauthenticated "missing caller metadata")
  | Some md =>
      match md_Get md UserIDHeader with
      | callerID :: _ =>
          if decide (callerID = "")
          then Err (ErrStatus Unauthenticated "missing caller user id")
          else
            let isAdmin := match md_Get md IsAdminHeader with
                           | v :: _ => bool_decide (v = "true")
                           | [] => false
                           end in
            if decide (fullMethod = sportsbook_method "SettleBet")
            then if negb isAdmin || bool_decide (callerID <> serviceCallerID)
                 then Err (ErrStatus PermissionDenied "admin service caller required")
                 else Ok tt
            else if decide (callerID <> serviceCallerID)
                 then Err (ErrStatus PermissionDenied "service caller required")
                 else Ok tt
      | [] => Err (ErrStatus Unauthenticated "missing caller user id")
      end
  end.

Record pbBet : Type := mkPbBet {
  pbet_Id : string; pbet_UserId : string; pbet_EventId : string; pbet_MarketId : string;
  pbet_OutcomeId : string; pbet_Odds : string; pbet_Stake : string;
  pbet_PotentialPayout : string; pbet_Currency : string; pbet_Status : string;
  pbet_ReferenceId : string; pbet_CreatedAt : string; pbet_SettledAt : string;
  pbet_DebitTransactionId : string; pbet_CreditTransactionId : string;
}.

Record PlaceBetRequest : Type := mkPlaceBetRequest {
  pbr_UserId : string;
  pbr_EventId : string;
  pbr_MarketId : string;
  pbr_OutcomeId : string;
  pbr_Stake : string;
  pbr_Currency : string;
  pbr_ReferenceId : string;
}.

Section BetServer.
Context {S : Type} `{E : GoEnv, GT : GrpcText, D : Decimal, BS : BetStore S,
  WC : WalletClient S, OF : OddsFeedClient S}.

(** Never called without an error. *)
Definition mapServiceError (err : goerr) : goerr :=
  if errors_Is err ErrBetNotFound then ErrStatus NotFound (Error err)
  else
    let msg := Error err in
    if HasPrefix msg "missing" || HasPrefix msg "invalid" || HasPrefix msg "stake"
    then ErrStatus InvalidArgument msg
    else ErrStatus Internal msg.

Definition betToProto (b : Bet) : pbBet :=
  let settledAt := match bet_SettledAt b with Some t => FormatRFC3339 t | None => "" end in
  mkPbBet (bet_ID b) (bet_UserID b) (bet_EventID b) (bet_MarketID b) (bet_OutcomeID b)
    (bet_Odds b) (bet_Stake b) (bet_PotentialPayout b) (bet_Currency b) (bet_Status b)
    (bet_ReferenceID b) (FormatRFC3339 (bet_CreatedAt b)) settledAt
    (bet_DebitTransactionID b) (bet_CreditTransactionID b).

Definition GRPCServer_PlaceBet (req : PlaceBetRequest) : M S pbBet :=
  bet ← map_err mapServiceError
          (PlaceBet (pbr_UserId req) (pbr_EventId req) (pbr_MarketId req)
             (pbr_OutcomeId req) (pbr_Stake req) (pbr_Currency req) (pbr_ReferenceId req));
  mret (betToProto bet).

Definition GRPCServer_GetBet (id : string) : M S pbBet :=
  bet ← map_err mapServiceError (Service_GetBet id);
  mret (betToProto bet).

Definition GRPCServer_ListBets (userID status : string) (page pageSize : Z) :
    M S (list pbBet) :=
  bets ← map_err mapServiceError (Service_ListBets userID status page pageSize);
  mret (betToProto <$> bets).

Definition GRPCServer_SettleBet (betID outcome : string) : M S pbBet :=
  bet ← map_err mapServiceError (SettleBet betID outcome);
  mret (betToProto bet).

Definition sportsbook_served {A} (md : MD) (method : string) (handler : M S A) : M S A :=
  map_err wire_error (of_res (Sportsbook_AuthInterceptor (Some md) method);; handler).
End BetServer.

(** [pb.SportsbookServiceClient] *)
Class SportsbookConn (S : Type) : Type := {
  conn_PlaceBet : MD -> PlaceBetRequest -> M S pbBet;
  conn_GetBet : MD -> string -> M S pbBet;
  conn_ListBets : MD -> string -> string -> Z -> Z -> M S (list pbBet);
  conn_SettleBet : MD -> string -> string -> M S pbBet;
}.

Definition sportsbook_server_conn {S} `{E : GoEnv, GT : GrpcText, D : Decimal, BS : BetStore S,
    WC : WalletClient S, OF : OddsFeedClient S} : SportsbookConn S := {|
  conn_PlaceBet md r := sportsbook_served md (sportsbook_method "PlaceBet") (GRPCServer_PlaceBet r);
  conn_GetBet md i := sportsbook_served md (sportsbook_method "GetBet") (GRPCServer_GetBet i);
  conn_ListBets md u st p n :=
    sportsbook_served md (sportsbook_method "ListBets") (GRPCServer_ListBets u st p n);
  conn_SettleBet md i o :=
    sportsbook_served md (sportsbook_method "SettleBet") (GRPCServer_SettleBet i o);
|}.

(** ** clients.go *)

Definition gatewayCallerID : string := "gateway".

(** [metadata.Pairs(...)] *)
Definition service_metadata : MD :=
  <[UserIDHeader := [gatewayCallerID]]> {[IsAdminHeader := ["true"]]}.

Section Clients.
Context {S : Type} `{WCn : WalletConn S, OCn : OddsFeedConn S}.

(** The service never passes a nil map. *)
Definition GRPCWalletClient_DebitWallet (userID currency amount referenceID : string)
    (meta : Metadata) : M S string :=
  resp ← conn_DebitWallet service_metadata
           (mkMoveRequest userID currency amount referenceID (Marshal meta));
  mret resp.1.

Definition GRPCWalletClient_CreditWallet (userID currency amount referenceID : string)
    (meta : Metadata) : M S string :=
  resp ← conn_CreditWallet service_metadata
           (mkMoveRequest userID currency amount referenceID (Marshal meta));
  mret resp.1.

Definition GRPCWalletClient : WalletClient S := {|
  wc_DebitWallet := GRPCWalletClient_DebitWallet;
  wc_CreditWallet := GRPCWalletClient_CreditWallet;
|}.

Definition GRPCOddsFeedClient_GetEvent (id : string) : M S (option pbEvent) :=
  conn_GetEvent id.
Definition GRPCOddsFeedClient_ListMarkets (eventID status : string) (page pageSize : Z) :
    M S (list pbMarket) :=
  conn_ListMarkets eventID status (int32 page) (int32 pageSize).
Definition GRPCOddsFeedClient_ListOutcomes (marketID status : string) (page pageSize : Z) :
    M S (list pbOutcome) :=
  conn_ListOutcomes marketID status (int32 page) (int32 pageSize).
Definition GRPCOddsFeedClient_ListEvents (sportID leagueID status : string)
    (page pageSize : Z) : M S (list pbEvent) :=
  conn_ListEvents sportID leagueID status (int32 page) (int32 pageSize).

Definition GRPCOddsFeedClient : OddsFeedClient S := {|
  ofc_GetEvent := GRPCOddsFeedClient_GetEvent;
  ofc_ListMarkets := GRPCOddsFeedClient_ListMarkets;
  ofc_ListOutcomes := GRPCOddsFeedClient_ListOutcomes;
  ofc_ListEvents := GRPCOddsFeedClient_ListEvents;
|}.
End Clients.
