(* ===== verification/SystemProps.v ===== *)
(** * SystemProps: the sportsbook and the wallet together

    The sportsbook's gRPC client talks to the wallet's gRPC server, in one state that
    holds the bet store and the wallet store as two disjoint components; the odds feed
    is any client that leaves both alone.  The wallet discharges the interface
    [ClientsOutside], and the stake of a bet is a ledger entry. *)

From S2P Require Import Prelude GoStd Decimal GoJson JsonProps Demo WalletModels.
From S2P Require Import WalletStore WalletLedger WalletProps Xcash Rates WalletService.
From S2P Require Import WalletServer OddsModels BetStore BetStoreProps BetService BetLifecycle.
From S2P Require Import BetServer.

(** ** Metadata on the wire *)

Lemma parseMetadata_strings (m : gmap string string) :
  parseMetadataJSON (Marshal (JStr <$> m)) = Ok (JStr <$> m).
Proof.
  unfold parseMetadataJSON. rewrite decide_False; [apply Unmarshal_Marshal|].
  unfold Marshal. cbn [marshal]. done.
Qed.

Lemma parseMetadata_runs s p : parseMetadataJSON s <> Panic p.
Proof.
  unfold parseMetadataJSON, Unmarshal_map, document. case_decide; [done|].
  by destruct (parse_json s) as [[]|].
Qed.

Lemma stake_metadata_strings e m o odds ref :
  exists ms : gmap string string, stake_metadata e m o odds ref = JStr <$> ms.
Proof.
  exists (<["type" := "bet_stake"]>
    {["metadata" := Marshal (bet_metadata e m o odds ref)]}).
  unfold stake_metadata. by rewrite fmap_insert, map_fmap_singleton.
Qed.

Lemma settle_metadata_strings id o k v :
  exists ms : gmap string string, settle_metadata id o k v = JStr <$> ms.
Proof.
  exists (<["bet_id" := id]> (<["outcome" := o]> {[k := v]})).
  unfold settle_metadata. by rewrite !fmap_insert, map_fmap_singleton.
Qed.

Section System.
Context {S : Type} `{LB : Lens S InMemoryStore, LLB : !LensLaws LB,
  LW : Lens S memoryStore, LLW : !LensLaws LW, DJ : !Disjoint LB LW}.
Context `{E : GoEnv, EL : !GoEnvLaws E, L : DecimalLaws, GT : GrpcText}.
Context `{Hm : Hmac, R : Redis S, HT : HttpTransport S, LC : Lens S Cache}.
Context {OF : OddsFeedClient S} `{OB : !OddsOutside LB OF, OW : !OddsOutside LW OF}.
#[local] Existing Instance lens_BetStore.
#[local] Existing Instance lens_Store.
Context (gs : GRPCServer (S := S)).
#[local] Instance conn : WalletConn S := wallet_server_conn gs.
#[local] Instance wallet_client : WalletClient S := GRPCWalletClient.
Implicit Types w : World S.

(** The wallet's world: its store, and the clock. *)
Definition money (w : World S) : memoryStore := part (L := LW) w.
Definition wallet_of (w : World S) : World memoryStore := mkWorld (w_tick w) (money w).
Definition with_money (w : World S) (v : World memoryStore) : World S :=
  mkWorld (w_tick v) (lset (w_st v) (w_st w)).

(** The sportsbook's two calls, all the way through interceptor and handler. *)
Definition answer (w : World S) (x : res Transaction * World memoryStore) :
    res string * World S :=
  (match x.1 with
   | Ok t => Ok (tx_ID t)
   | Err e => Err (wire_error (mapWalletError e))
   | Panic p => Panic p
   end, with_money w x.2).

Lemma debit_eq u c a r md ms w : parseMetadataJSON (Marshal md) = Ok ms ->
  wc_DebitWallet u c a r md w = answer w (memoryStore_DebitWallet u c a r ms (wallet_of w)).
Proof.
  intros Hms. cbn [wc_DebitWallet wallet_client GRPCWalletClient].
  unfold GRPCWalletClient_DebitWallet. cbn [conn_DebitWallet conn wallet_server_conn].
  unfold served. change (AuthInterceptor _ _ _) with (Ok tt : res unit).
  unfold GRPCServer_DebitWallet. cbn [mv_Metadata mv_UserId mv_Currency mv_Amount mv_ReferenceId].
  unfold mbind, M_bind, of_res, map_err. rewrite Hms.
  unfold Service_DebitWallet. change (store_DebitWallet u c a r ms) with
    (zoom (memoryStore_DebitWallet u c a r ms) : M S Transaction).
  unfold zoom, answer. fold (wallet_of w).
  change (mkWorld (w_tick w) (lget (w_st w))) with (wallet_of w).
  by destruct (memoryStore_DebitWallet u c a r ms (wallet_of w)) as [[t|e|p] v].
Qed.

(** A call whose metadata does not parse goes no further. *)
Lemma debit_bad_metadata u c a r md w :
  (forall ms, parseMetadataJSON (Marshal md) <> Ok ms) ->
  exists e, wc_DebitWallet u c a r md w = (Err e, w).
Proof.
  intros Hms. cbn [wc_DebitWallet wallet_client GRPCWalletClient].
  unfold GRPCWalletClient_DebitWallet. cbn [conn_DebitWallet conn wallet_server_conn].
  unfold served. change (AuthInterceptor _ _ _) with (Ok tt : res unit).
  unfold GRPCServer_DebitWallet. cbn [mv_Metadata mv_UserId mv_Currency mv_Amount mv_ReferenceId].
  unfold mbind, M_bind, of_res, map_err.
  destruct (parseMetadataJSON (Marshal md)) as [ms|e|p] eqn:Hp; [|by eexists|].
  - by destruct (Hms ms).
  - exfalso. revert Hp. apply parseMetadata_runs.
Qed.

Lemma credit_eq u c a r md ms w : parseMetadataJSON (Marshal md) = Ok ms ->
  wc_CreditWallet u c a r md w = answer w (memoryStore_CreditWallet u c a r ms (wallet_of w)).
Proof.
  intros Hms. cbn [wc_CreditWallet wallet_client GRPCWalletClient].
  unfold GRPCWalletClient_CreditWallet. cbn [conn_CreditWallet conn wallet_server_conn].
  unfold served. change (AuthInterceptor _ _ _) with (Ok tt : res unit).
  unfold GRPCServer_CreditWallet. cbn [mv_Metadata mv_UserId mv_Currency mv_Amount mv_ReferenceId].
  unfold mbind, M_bind, of_res, map_err. rewrite Hms.
  unfold Service_CreditWallet. change (store_CreditWallet u c a r ms) with
    (zoom (memoryStore_CreditWallet u c a r ms) : M S Transaction).
  unfold zoom, answer.
  change (mkWorld (w_tick w) (lget (w_st w))) with (wallet_of w).
  by destruct (memoryStore_CreditWallet u c a r ms (wallet_of w)) as [[t|e|p] v].
Qed.

Lemma credit_bad_metadata u c a r md w :
  (forall ms, parseMetadataJSON (Marshal md) <> Ok ms) ->
  exists e, wc_CreditWallet u c a r md w = (Err e, w).
Proof.
  intros Hms. cbn [wc_CreditWallet wallet_client GRPCWalletClient].
  unfold GRPCWalletClient_CreditWallet. cbn [conn_CreditWallet conn wallet_server_conn].
  unfold served. change (AuthInterceptor _ _ _) with (Ok tt : res unit).
  unfold GRPCServer_CreditWallet. cbn [mv_Metadata mv_UserId mv_Currency mv_Amount mv_ReferenceId].
  unfold mbind, M_bind, of_res, map_err.
  destruct (parseMetadataJSON (Marshal md)) as [ms|e|p] eqn:Hp; [|by eexists|].
  - by destruct (Hms ms).
  - exfalso. revert Hp. apply parseMetadata_runs.
Qed.

(** The wallet store's calls return, and time does not go back. *)
Lemma debit_runs u c a r ms (v : World memoryStore) :
  (forall p, (memoryStore_DebitWallet u c a r ms v).1 <> Panic p) /\
  (w_tick v <= w_tick (memoryStore_DebitWallet u c a r ms v).2)%nat.
Proof.
  destruct v as [n s]. destruct (existing_by_ref r s) as [t|] eqn:Hex.
  - by rewrite (debit_existing _ _ _ _ _ _ _ _ Hex).
  - rewrite (debit_new _ _ _ _ _ _ _ Hex). repeat case_match; cbn; split; try done; lia.
Qed.

Lemma addDecimal_runs a b p : addDecimal a b <> Panic p.
Proof.
  unfold addDecimal, NewFromString. destruct (ParseDecimal a); [|done].
  by destruct (ParseDecimal b).
Qed.

Lemma credit_runs u c a r ms (v : World memoryStore) :
  (forall p, (memoryStore_CreditWallet u c a r ms v).1 <> Panic p) /\
  (w_tick v <= w_tick (memoryStore_CreditWallet u c a r ms v).2)%nat.
Proof.
  destruct v as [n s]. destruct (existing_by_ref r s) as [t|] eqn:Hex.
  - by rewrite (credit_existing _ _ _ _ _ _ _ _ Hex).
  - assert (exists x n' s', memoryStore_createWallet u c (mkWorld n s) = (Ok x, mkWorld n' s') /\
      (n <= n')%nat) as (x & n' & s' & Hc & Hn).
    { destruct (createWallet_cases u c n s) as [(x & _ & Hc)|(_ & Hc)]; do 3 eexists;
        (split; [exact Hc|lia]). }
    rewrite (credit_new _ _ _ _ _ _ _ _ _ _ Hex Hc).
    pose proof (addDecimal_runs (wallet_Balance x) a) as Hp.
    destruct (addDecimal (wallet_Balance x) a); cbn; (split; [|lia]); try done.
    by destruct (Hp msg).
Qed.

Lemma outside_answer (m : World memoryStore -> res Transaction * World memoryStore)
    (f : M S string) :
  (forall v, (forall p, (m v).1 <> Panic p) /\ (w_tick v <= w_tick (m v).2)%nat) ->
  (forall w, f w = answer w (m (wallet_of w)) \/ exists e, f w = (Err e, w)) ->
  outside (L := LB) f.
Proof.
  intros Hs Hf. constructor; intros w; destruct (Hf w) as [->|[e ->]]; try done.
  - unfold part. cbn. apply disjoint_l.
  - cbn. apply (Hs (wallet_of w)).
  - intros p. pose proof (proj1 (Hs (wallet_of w))) as H. unfold answer.
    destruct (m (wallet_of w)) as [[t|e|q] v]; cbn in *; [done|done|]. by destruct (H q).
Qed.

(** The wallet keeps its promise to the sportsbook. *)
#[local] Instance wallet_outside : ClientsOutside wallet_client OF.
Proof.
  constructor; [| |exact OB]; intros u c a r md.
  - destruct (parseMetadataJSON (Marshal md)) as [ms|e|p] eqn:Hp.
    + apply (outside_answer (memoryStore_DebitWallet u c a r ms)); [apply debit_runs|].
      intros w. left. by apply debit_eq.
    + apply (outside_answer (memoryStore_DebitWallet u c a r ∅)); [apply debit_runs|].
      intros w. right. apply debit_bad_metadata. congruence.
    + exfalso. revert Hp. apply parseMetadata_runs.
  - destruct (parseMetadataJSON (Marshal md)) as [ms|e|p] eqn:Hp.
    + apply (outside_answer (memoryStore_CreditWallet u c a r ms)); [apply credit_runs|].
      intros w. left. by apply credit_eq.
    + apply (outside_answer (memoryStore_CreditWallet u c a r ∅)); [apply credit_runs|].
      intros w. right. apply credit_bad_metadata. congruence.
    + exfalso. revert Hp. apply parseMetadata_runs.
Qed.

(** Before the wallet is asked, its store is as it was. *)
Lemma odds_money e m o w : money (current_odds e m o w).2 = money w /\
  (w_tick w <= w_tick (current_odds e m o w).2)%nat.
Proof. split; apply (current_odds_outside LW). Qed.

Lemma money_with_bets s w n : money (mkWorld n (lset (Lens := LB) s (w_st w))) = money w.
Proof. apply disjoint_r. Qed.

(** C18.  No bet without its stake: when PlaceBet answers a new reference that the ledger
    does not know either, the bet is on record as pending, the user could pay, the stake
    and nothing else left the user's balance, and the bet carries the ledger entry that
    books it; when PlaceBet fails, no money has moved. *)
Theorem stake_is_taken u e m o stake c ref w :
  svc_reachable w -> wallet_reachable (wallet_of w) ->
  valid_request u e m o stake c ref -> ~ has_reference u ref (bets_of w) ->
  existing_by_ref ref (money w) = None ->
  let '(r, w') := PlaceBet u e m o stake c ref w in
  match r with
  | Ok b => (exists b0, bets_of w' !! bet_ID b = Some b0 /\ bet_Status b0 = StatusPending /\
        bet_terms b0 = bet_terms b /\ bet_Stake b = stake) /\
      (amt stake <= balance_of (money w) u c)%Q /\
      (balance_of (money w') u c == balance_of (money w) u c - amt stake)%Q /\
      others_same (walletKey u c) (money w) (money w') /\
      exists t, booked "withdrawal" u c stake ref (money w) (money w') t /\
        bet_DebitTransactionID b = tx_ID t
  | Err _ => money w' = money w
  | Panic _ => False
  end.
Proof.
  intros Hr Hwr Hv Hno Hex. pose proof (svc_reachable_inv w Hr) as Hi.
  destruct (odds_money e m o (next w)) as [Hm1 Ht1].
  pose proof (outside_runs _ (current_odds_outside LW e m o) (next w)) as Hrun.
  destruct (existing_eq u ref w Hi) as [(id & b & Hb & Hu & Hrf & _)|[_ He]].
  { exfalso. apply Hno. by exists id, b. }
  destruct (current_odds e m o (next w)) as [r w1] eqn:Ho. cbn [fst snd] in *.
  destruct r as [odds|er|p]; [| |by destruct (Hrun p)].
  2: { rewrite PlaceBet_unfold by done. unfold mbind, M_bind. by rewrite He, Ho. }
  destruct (multiplyDecimal stake odds) as [payout|er|p] eqn:Hmul.
  2: { rewrite PlaceBet_unfold by done. unfold mbind, M_bind, wrapped, of_res.
       by rewrite He, Ho, Hmul. }
  2: { by destruct (multiplyDecimal_runs stake odds p). }
  destruct (PlaceBet_new u e m o stake c ref w w1 odds payout Hi Hv Hno Ho Hmul)
    as (id & k & t & w2 & Hid & Hk & Hw2 & ->).
  set (b := new_bet _ _ _ _ _ _ _ _ _ _ _) in *.
  assert (bets_of w2 !! bet_ID b = Some (created_bet b id t)) as Hl.
  { unfold bets_of, part. rewrite Hw2, lget_lset. apply lookup_insert_eq. }
  assert (money w2 = money w) as Hm2.
  { rewrite <- (money_with_bets (<[id := created_bet b id t]> (bets_of w)) w1 (w_tick w2))
      in Hm1. destruct w2 as [n2 s2]. cbn in Hw2 |- *. by rewrite Hw2. }
  assert (ledger_inv (wallet_of w2)) as Hli.
  { apply reachable_inv. apply (wallet_wait (w_tick w)); [cbn; lia|].
    unfold wallet_of in Hwr. by rewrite Hm2. }
  rewrite (debit_stake_eq b _ w2 Hl). unfold stake_debit.
  destruct (stake_metadata_strings (bet_EventID b) (bet_MarketID b) (bet_OutcomeID b)
    (bet_Odds b) (bet_ReferenceID b)) as [ms Hms].
  rewrite Hms, (debit_eq _ _ _ _ _ _ w2 (parseMetadata_strings ms)).
  pose proof (debit_result (bet_UserID b) (bet_Currency b) (bet_Stake b) (bet_ReferenceID b)
    (JStr <$> ms) (wallet_of w2) Hli) as Hres.
  cbn [w_st wallet_of] in Hres. rewrite Hm2 in Hres. specialize (Hres Hex).
  destruct (memoryStore_DebitWallet _ _ _ _ _ (wallet_of w2)) as [[tx|er|p] v];
    unfold answer; cbn [fst snd]; [| |done].
  - destruct Hres as (Hle & Hbal & Hbk & Hoth).
    assert (money (with_bets (<[bet_ID b := confirmed (tx_ID tx) (created_bet b id t)]>
      (bets_of (with_money w2 v))) (with_money w2 v)) = w_st v) as Hmv.
    { unfold with_bets. rewrite money_with_bets. apply lget_lset. }
    rewrite Hmv. split; [|split_and!; try done; by exists tx].
    exists (confirmed (tx_ID tx) (created_bet b id t)).
    change (bet_ID (confirmed (tx_ID tx) b)) with (bet_ID b).
    rewrite bets_with, lookup_insert_eq. split_and!; try done.
    unfold created_bet. cbv zeta. by destruct (IsZero _).
  - unfold with_bets. rewrite money_with_bets.
    change (money (with_money w2 v) = money w). unfold with_money.
    replace (money _) with (w_st v) by (symmetry; apply lget_lset). rewrite Hres. exact Hm2.
Qed.
End System.

(** ** A concrete system *)
Module SystemDemo.
Import Demo.

(** The two stores and the cache of rates; Redis and the network are not used. *)
Record State : Type := mkState { st_bets : InMemoryStore; st_money : memoryStore; st_cache : Cache }.
#[export] Instance bets_lens : Lens State InMemoryStore :=
  { lget := st_bets; lset b s := mkState b (st_money s) (st_cache s) }.
#[export] Instance money_lens : Lens State memoryStore :=
  { lget := st_money; lset m s := mkState (st_bets s) m (st_cache s) }.
#[export] Instance cache_lens : Lens State Cache :=
  { lget := st_cache; lset c s := mkState (st_bets s) (st_money s) c }.
#[export] Instance bets_laws : LensLaws bets_lens.
Proof. constructor; intros; cbn; by try destruct s. Qed.
#[export] Instance money_laws : LensLaws money_lens.
Proof. constructor; intros; cbn; by try destruct s. Qed.
#[export] Instance bets_money_disjoint : Disjoint bets_lens money_lens.
Proof. by constructor. Qed.
#[export] Instance hmac : Hmac := { Sign m k := k +:+ m }.
#[export] Instance no_redis : Redis State :=
  { redis_SetNX _ _ _ := mthrow (ErrNew "no redis"); redis_expiry _ _ := 0 }.
#[export] Instance no_http : HttpTransport State :=
  { http_Do _ := mthrow (ErrNew "no network") }.

(** One event with one market and one outcome, which [status ""] reports as won. *)
#[export] Instance the_odds : OddsFeedClient State := {|
  ofc_GetEvent id := mret (Some (mkPbEvent id "l" "s" "h" "a" "" "upcoming" "" "" ""));
  ofc_ListMarkets e st _ _ := mret [mkPbMarket "m" e "1x2" "Winner" "" "active"];
  ofc_ListOutcomes m st _ _ := mret [mkPbOutcome "o" m "Home" "1.5"
    (if decide (st = "active") then "active" else StatusWon)];
  ofc_ListEvents _ _ _ _ _ := mret [];
|}.
#[export] Instance odds_bets : OddsOutside bets_lens the_odds.
Proof. constructor; intros; by constructor. Qed.
#[export] Instance odds_money : OddsOutside money_lens the_odds.
Proof. constructor; intros; by constructor. Qed.

Definition server : GRPCServer (S := State) :=
  mkGRPCServer (NewService (NewClient "" "" "") (NewWebhookValidator "key") ["USDT:tron"]) None.
#[export] Existing Instance lens_BetStore.
#[export] Existing Instance lens_Store.
#[export] Instance the_wallet : WalletClient State := wallet_client server.

Definition on_money (m : M memoryStore unit) (w : World State) : World State :=
  (zoom m w).2.
Definition empty : World State :=
  mkWorld 0 (mkState NewBetMemory NewInMemoryStore (NewCache 0)).

(** A deposit of 100 for [v]. *)
Definition funded : World State :=
  on_money (run_op (OpCredit "v" "USDT" "100" "dep-1" ∅)) empty.

Lemma funded_bets : svc_reachable (LB := bets_lens) funded.
Proof. exists funded. split; [vm_compute; reflexivity|apply rtc_refl]. Qed.
Lemma funded_money : wallet_reachable (wallet_of funded).
Proof.
  replace (wallet_of funded) with
    (run_op (OpCredit "v" "USDT" "100" "dep-1" ∅) (mkWorld 0 NewInMemoryStore)).2
    by (vm_compute; reflexivity).
  apply wallet_step, wallet_init.
Qed.
Lemma bet_request : valid_request "v" "e" "m" "o" "30" "USDT" "bet-1".
Proof.
  split; [|vm_compute; reflexivity].
  intros H. repeat (destruct H as [H|H]; [discriminate H|]). discriminate H.
Qed.
Lemma funded_no_bets u ref : ~ has_reference u ref (bets_of funded).
Proof.
  intros (id & b & H & _). change (NewBetMemory !! id = Some b) in H.
  by rewrite NewBetMemory_empty in H.
Qed.

Lemma stake_is_taken_witness :
  exists b w', PlaceBet "v" "e" "m" "o" "30" "USDT" "bet-1" funded = (Ok b, w') /\
    (balance_of (money w') "v" "USDT" == balance_of (money funded) "v" "USDT" - 30)%Q.
Proof.
  pose proof (stake_is_taken server "v" "e" "m" "o" "30" "USDT" "bet-1" funded funded_bets
    funded_money bet_request (funded_no_bets "v" "bet-1") eq_refl) as H.
  change (wallet_client server) with the_wallet in H.
  destruct (PlaceBet "v" "e" "m" "o" "30" "USDT" "bet-1" funded) as [[b|e|p] w'] eqn:Hp.
  - exists b, w'. split; [reflexivity|]. exact (proj1 (proj2 (proj2 H))).
  - apply (f_equal fst) in Hp. vm_compute in Hp. discriminate Hp.
  - destruct H.
Defined.

(** References are one name space for all users and all operations: a bet whose
    reference some other entry of the ledger already has is pending without its stake
    ever being taken, and is paid when it wins.  Here [u], who has no money, bets 1000
    under the reference of [v]'s deposit and is credited 1500. *)
Theorem reference_collision_free_bet :
  let '(r, w1) := PlaceBet "u" "e" "m" "o" "1000" "USDT" "dep-1" funded in
  exists b, r = Ok b /\ bet_Status b = StatusPending /\ bet_Stake b = "1000" /\
    money w1 = money funded /\ (balance_of (money w1) "u" "USDT" == 0)%Q /\
    let w2 := (AutoSettleFromEvents 1 w1).2 in
    (balance_of (money w2) "u" "USDT" == 1500)%Q /\
    (balance_of (money w2) "v" "USDT" == 100)%Q.
Proof. vm_compute. eexists. repeat split. Qed.
End SystemDemo.
