(* ===== verification/OddsClient.v ===== *)
(** * OddsClient: the odds feed as the sportsbook sees it

    The sportsbook's gRPC client of the odds feed, whose server keeps its records in the
    in-memory store, as one component of a larger state: what the client's queries answer
    in terms of the stored records, and that they leave every other component alone. *)

From S2P Require Import Prelude GoStd Decimal OddsModels OddsStore OddsService OddsServer WalletServer.
From S2P Require Import BetStore BetStoreProps BetService BetLifecycle BetServer.

(** ** First pages *)

Definition values {V} (m : gmap string V) : list V := (map_to_list m).*2.

Lemma paginate_first {A} (l : list A) : paginate l 1 100 = Ok (take 100 l).
Proof.
  unfold paginate. change (1 <=? 0) with false. change (100 <=? 0) with false. cbv iota zeta.
  assert (int64 (int64 (1 - 1) * 100) = 0) as -> by done. assert (int64 (0 + 100) = 100) as -> by done.
  destruct l as [|x l]; [done|].
  destruct (Z.leb_spec (Z.of_nat (length (x :: l))) 0) as [H|_]; [cbn in H; lia|].
  unfold slice. destruct (Z.ltb_spec (Z.of_nat (length (x :: l))) 100) as [H|H];
    rewrite decide_True, Z.sub_0_r by lia; change (drop (Z.to_nat 0) (x :: l)) with (x :: l); [|done].
  rewrite Nat2Z.id. by rewrite !take_ge by lia.
Qed.

Lemma paginate_runs {A} (l : list A) page pageSize p :
  in_int32 page -> in_int32 pageSize -> paginate l page pageSize <> Panic p.
Proof.
  unfold in_int32, paginate. intros Hp Hn. cbv zeta.
  set (page' := if page <=? 0 then 1 else page). set (n := if pageSize <=? 0 then 20 else pageSize).
  assert (1 <= page' < 2 ^ 31) as Hp' by (unfold page'; destruct (Z.leb_spec page 0); lia).
  assert (1 <= n < 2 ^ 31) as Hn' by (unfold n; destruct (Z.leb_spec pageSize 0); lia).
  rewrite (int64_id (page' - 1)) by (unfold in_int64; lia).
  assert (0 <= (page' - 1) * n < 2 ^ 62) as Hs by nia.
  rewrite (int64_id ((page' - 1) * n)) by (unfold in_int64; lia).
  destruct (Z.leb_spec (Z.of_nat (length l)) ((page' - 1) * n)) as [|Hlt]; [done|].
  rewrite int64_id by (unfold in_int64; lia). unfold slice. rewrite decide_True; [done|].
  destruct (Z.ltb_spec (Z.of_nat (length l)) ((page' - 1) * n + n)); lia.
Qed.

(** ** Records a query finds *)
Section Reads.
Context `{E : GoEnv, EL : !GoEnvLaws E}.
Implicit Types (s : oddsMemory) (n : nat).

Lemma oddsMemory_ListMarkets_eq e st n s : exists l,
  oddsMemory_ListMarkets e st 1 100 (mkWorld n s) = (Ok (take 100 l), mkWorld (S n) s) /\
  l ≡ₚ filter (fun m => market_EventID m = e /\ matches st (market_Status m)) (values (om_markets s)).
Proof.
  unfold oddsMemory_ListMarkets. unmonad. rewrite paginate_first. eexists. split; [done|].
  rewrite sort_perm. by rewrite range_values.
Qed.
Lemma oddsMemory_ListOutcomes_eq m st n s : exists l,
  oddsMemory_ListOutcomes m st 1 100 (mkWorld n s) = (Ok (take 100 l), mkWorld (S n) s) /\
  l ≡ₚ filter (fun o => outcome_MarketID o = m /\ matches st (outcome_Status o)) (values (om_outcomes s)).
Proof.
  unfold oddsMemory_ListOutcomes. unmonad. rewrite paginate_first. eexists. split; [done|].
  rewrite sort_perm. by rewrite range_values.
Qed.
Lemma oddsMemory_GetEvent_eq e n s : exists r,
  oddsMemory_GetEvent e (mkWorld n s) = (Ok r, mkWorld (S n) s) /\
  (forall ev, r = Some ev -> ev ∈ values (om_events s) /\ event_ID ev = e) /\
  ((exists ev, ev ∈ values (om_events s) /\ event_ID ev = e) -> is_Some r).
Proof.
  unfold oddsMemory_GetEvent. unmonad. eexists. split; [done|]. split.
  - unfold values. intros ev ([i x] & (Hi & Hx & _)%list_find_Some & ->)%fmap_Some. cbn. split; [|done].
    rewrite <-(range_values n). by eapply list_elem_of_lookup_2.
  - unfold values. intros (ev & Hin & Hid). apply fmap_is_Some. rewrite <-(range_values n) in Hin.
    match goal with |- is_Some ?f => destruct f as [p|] eqn:Hf; [by eexists|] end.
    apply list_find_None in Hf. rewrite list.Forall_forall in Hf. by destruct (Hf ev Hin).
Qed.
End Reads.

(** ** The sportsbook's client *)
Section Client.
Context {S : Type} `{LO : Lens S oddsMemory, LLO : !LensLaws LO}.
Context `{E : GoEnv, EL : !GoEnvLaws E, D : Decimal, GT : GrpcText}.
Implicit Types (w : World S).

Definition odds_store : OddsStore S := lens_OddsStore.
Definition odds_client : OddsFeedClient S :=
  GRPCOddsFeedClient (OCn := odds_server_conn (OS := odds_store)).

Definition odds_of (w : World S) : oddsMemory := part (L := LO) w.
(** The same state, [k] readings later. *)
Definition later (k : nat) (w : World S) : World S := mkWorld (k + w_tick w) (w_st w).

Lemma zoom_odds {A} (m : M oddsMemory A) w r :
  m (mkWorld (w_tick w) (odds_of w)) = (r, mkWorld (Datatypes.S (w_tick w)) (odds_of w)) ->
  zoom m w = (r, later 1 w).
Proof.
  intros H. unfold zoom. change (lget (w_st w)) with (odds_of w). rewrite H. cbn. unfold later, odds_of, part.
  by rewrite lset_lget.
Qed.

Lemma ofc_GetEvent_eq e w : exists r,
  ofc_GetEvent (OddsFeedClient := odds_client) e w = (Ok (toProtoEvent <$> r), later 1 w) /\
  (forall ev, r = Some ev -> ev ∈ values (om_events (odds_of w)) /\ event_ID ev = e) /\
  ((exists ev, ev ∈ values (om_events (odds_of w)) /\ event_ID ev = e) -> is_Some r).
Proof.
  destruct (oddsMemory_GetEvent_eq e (w_tick w) (odds_of w)) as (r & Hr & H1 & H2). exists r. split; [|by split].
  cbn. unfold GRPCOddsFeedClient_GetEvent. cbn. unfold map_err, GRPCServer_GetEvent, wrapped, Odds_GetEvent. unmonad.
  change (odds_GetEvent e w) with (zoom (oddsMemory_GetEvent e) w). by rewrite (zoom_odds _ _ _ Hr).
Qed.
Lemma ofc_ListMarkets_eq e st w : exists l,
  ofc_ListMarkets (OddsFeedClient := odds_client) e st 1 100 w = (Ok (toProtoMarket <$> take 100 l), later 1 w) /\
  l ≡ₚ filter (fun m => market_EventID m = e /\ matches st (market_Status m)) (values (om_markets (odds_of w))).
Proof.
  destruct (oddsMemory_ListMarkets_eq e st (w_tick w) (odds_of w)) as (l & Hl & Hp). exists l. split; [|done].
  cbn. unfold GRPCOddsFeedClient_ListMarkets. cbn. unfold map_err, GRPCServer_ListMarkets, wrapped, Odds_ListMarkets.
  unmonad. change (odds_ListMarkets e st (int32 1) (int32 100) w) with (zoom (oddsMemory_ListMarkets e st 1 100) w).
  by rewrite (zoom_odds _ _ _ Hl).
Qed.
Lemma ofc_ListOutcomes_eq m st w : exists l,
  ofc_ListOutcomes (OddsFeedClient := odds_client) m st 1 100 w = (Ok (toProtoOutcome <$> take 100 l), later 1 w) /\
  l ≡ₚ filter (fun o => outcome_MarketID o = m /\ matches st (outcome_Status o)) (values (om_outcomes (odds_of w))).
Proof.
  destruct (oddsMemory_ListOutcomes_eq m st (w_tick w) (odds_of w)) as (l & Hl & Hp). exists l. split; [|done].
  cbn. unfold GRPCOddsFeedClient_ListOutcomes. cbn. unfold map_err, GRPCServer_ListOutcomes, wrapped, Odds_ListOutcomes.
  unmonad. change (odds_ListOutcomes m st (int32 1) (int32 100) w) with (zoom (oddsMemory_ListOutcomes m st 1 100) w).
  by rewrite (zoom_odds _ _ _ Hl).
Qed.

(** The queries leave every other component alone. *)
Lemma outside_map_err {T A} (LT : Lens S T) f (m : M S A) : outside (L := LT) m -> outside (L := LT) (map_err f m).
Proof.
  intros [Hb Ht Hr]. constructor; intros w; unfold map_err; specialize (Hb w);
    specialize (Ht w); specialize (Hr w); by destruct (m w) as [[a|e|q] w'].
Qed.
Lemma outside_query {T A B} (LT : Lens S T) `{!Disjoint LT LO} p (m : M oddsMemory A) (f : A -> B) :
  (forall v, w_tick (m v).2 = Datatypes.S (w_tick v)) -> (forall v q, (m v).1 <> Panic q) ->
  outside (L := LT) (map_err wire_error (x ← wrapped p (zoom m); mret (f x))).
Proof.
  intros Ht Hr. apply outside_map_err, outside_bind; [|intros x; apply outside_ret].
  apply outside_wrapped, outside_zoom; [done| |done]. intros v. rewrite Ht. lia.
Qed.

#[export] Instance odds_client_outside {T} (LT : Lens S T) `{!Disjoint LT LO} : OddsOutside LT odds_client.
Proof.
  constructor.
  - intros e. exact (outside_query LT "get event" (oddsMemory_GetEvent e) (fmap toProtoEvent)
      (fun v => eq_refl) ltac:(done)).
  - intros e st p n. refine (outside_query LT "list markets" (oddsMemory_ListMarkets e st (int32 p) (int32 n))
      (fmap toProtoMarket) (fun v => eq_refl) _).
    intros v q. unfold oddsMemory_ListMarkets. unmonad. apply paginate_runs; apply int32_range.
  - intros m st p n. refine (outside_query LT "list outcomes" (oddsMemory_ListOutcomes m st (int32 p) (int32 n))
      (fmap toProtoOutcome) (fun v => eq_refl) _).
    intros v q. unfold oddsMemory_ListOutcomes. unmonad. apply paginate_runs; apply int32_range.
Qed.

(** ** What the sportsbook learns *)

(** The odds are those of a stored, active outcome of a stored, active market of a stored
    event. *)
Definition priced (s : oddsMemory) (e m o odds : string) : Prop :=
  (exists ev, ev ∈ values (om_events s) /\ event_ID ev = e) /\
  (exists mk, mk ∈ values (om_markets s) /\ market_ID mk = m /\ market_EventID mk = e /\
     market_Status mk = "active") /\
  (exists oc, oc ∈ values (om_outcomes s) /\ outcome_ID oc = o /\ outcome_MarketID oc = m /\
     outcome_Status oc = "active" /\ outcome_Odds oc = odds).

Lemma take_filter {A} (P : A -> Prop) `{forall x, Decision (P x)} l l0 x k :
  l ≡ₚ filter P l0 -> x ∈ take k l -> P x /\ x ∈ l0.
Proof.
  intros Hp (i & Hi%list_elem_of_lookup_2 & _)%elem_of_take. rewrite Hp in Hi.
  by apply list_elem_of_filter in Hi.
Qed.

Lemma current_odds_priced e m o odds w w' :
  current_odds (OF := odds_client) e m o w = (Ok odds, w') -> priced (odds_of w) e m o odds.
Proof.
  unfold current_odds, wrapped, mbind, M_bind.
  destruct (ofc_GetEvent_eq e w) as (r & -> & Hr & _). cbn [wrap_res].
  destruct r as [ev|]; cbn [fmap option_fmap option_map]; [|done]. specialize (Hr ev eq_refl).
  case_decide; [done|]. destruct (ofc_ListMarkets_eq e "active" (later 1 w)) as (lm & -> & Hm). cbn [wrap_res].
  destruct (list_find _ (toProtoMarket <$> take 100 lm)) as [[i mk]|] eqn:Hf; [|done].
  apply list_find_Some in Hf as (Hi & Hid & _). rewrite list_lookup_fmap in Hi.
  apply fmap_Some in Hi as (mk0 & Hmk%list_elem_of_lookup_2 & ->).
  apply (take_filter _ _ _ _ _ Hm) in Hmk as [[He Hst] Hmk].
  destruct (ofc_ListOutcomes_eq m "active" (later 1 (later 1 w))) as (lo & -> & Ho). cbn [wrap_res].
  destruct (list_find _ (toProtoOutcome <$> take 100 lo)) as [[j oc]|] eqn:Hf; [|done].
  apply list_find_Some in Hf as (Hj & Hoid & _). rewrite list_lookup_fmap in Hj.
  apply fmap_Some in Hj as (oc0 & Hoc%list_elem_of_lookup_2 & ->).
  apply (take_filter _ _ _ _ _ Ho) in Hoc as [[Hom Host] Hoc].
  unfold of_res. destruct (parseDecimal _) as [d|er|q]; cbn [wrap_res]; [|done..]. unfold mret, M_ret.
  intros [= <- <-]. split; [by exists ev|]. split.
  - exists mk0. split_and!; [done|exact Hid|done|]. by destruct Hst.
  - exists oc0. split_and!; [done|exact Hoid|done| |done]. by destruct Host.
Qed.

(** The stored outcome that a bet is on, among the first hundred of its market, and its
    market among the first hundred of its event. *)
Record bet_on (s : oddsMemory) (e m o : string) (x : Outcome) : Prop := {
  bo_event : exists ev, ev ∈ values (om_events s) /\ event_ID ev = e;
  bo_market : exists mk, mk ∈ values (om_markets s) /\ market_ID mk = m /\ market_EventID mk = e;
  bo_outcome : x ∈ values (om_outcomes s) /\ outcome_ID x = o /\ outcome_MarketID x = m;
  bo_unique : forall y, y ∈ values (om_outcomes s) -> outcome_ID y = o -> outcome_MarketID y = m -> y = x;
  bo_markets : (length (filter (fun mk => market_EventID mk = e) (values (om_markets s))) <= 100)%nat;
  bo_outcomes : (length (filter (fun oc => outcome_MarketID oc = m) (values (om_outcomes s))) <= 100)%nat;
}.

(** The decision that the record holds. *)
Definition decision_of (x : Outcome) : string :=
  if decide (outcome_Status x = StatusWon \/ outcome_Status x = StatusLost \/
             outcome_Status x = StatusCancelled) then outcome_Status x else "".

Lemma whole_page {A} (P Q : A -> Prop) `{forall x, Decision (P x), forall x, Decision (Q x)} l l0 :
  (forall x, Q x <-> P x) -> l ≡ₚ filter Q l0 -> (length (filter P l0) <= 100)%nat ->
  take 100 l = l /\ forall x, x ∈ l <-> P x /\ x ∈ l0.
Proof.
  intros HPQ Hp Hlen. assert (filter Q l0 = filter P l0) as Heq by (apply list_filter_iff, HPQ).
  rewrite Heq in Hp. split; [apply take_ge; by rewrite Hp|]. intros x. by rewrite Hp, list_elem_of_filter.
Qed.

Lemma any_status (P : Prop) st : (P /\ matches "" st) <-> P.
Proof. unfold matches. naive_solver. Qed.

Lemma resolve_stored e m o x w : bet_on (odds_of w) e m o x ->
  resolveOutcomeStatus (OF := odds_client) e m o w = (Ok (decision_of x), later 3 w).
Proof.
  intros [Hev (mk & Hmk & Hmid & Hme) (Hx & Hid & Hxm) Hu Hnm Hno].
  unfold resolveOutcomeStatus, mbind, M_bind.
  destruct (ofc_GetEvent_eq e w) as (r & -> & _ & Hr). destruct (Hr Hev) as [ev ->]. cbn [fmap option_fmap option_map].
  destruct (ofc_ListMarkets_eq e "" (later 1 w)) as (lm & -> & Hm).
  destruct (whole_page _ _ lm _ (fun mk => any_status (market_EventID mk = e) _) Hm Hnm) as [-> Hlm].
  assert (existsb (fun m' => bool_decide (pmk_Id m' = m)) (toProtoMarket <$> lm) = true) as ->.
  { apply existsb_exists. exists (toProtoMarket mk). split; [|by apply bool_decide_eq_true].
    apply list_elem_of_In, list_elem_of_fmap_2, Hlm. done. }
  cbn [negb]. destruct (ofc_ListOutcomes_eq m "" (later 1 (later 1 w))) as (lo & -> & Ho).
  destruct (whole_page _ _ lo _ (fun oc => any_status (outcome_MarketID oc = m) _) Ho Hno) as [-> Hlo].
  destruct (list_find _ (toProtoOutcome <$> lo)) as [[j oc]|] eqn:Hf.
  - apply list_find_Some in Hf as (Hj & Hoid & _). rewrite list_lookup_fmap in Hj.
    apply fmap_Some in Hj as (oc0 & Hoc%list_elem_of_lookup_2 & ->). apply Hlo in Hoc as [Hom Hoc].
    assert (oc0 = x) as -> by (by apply Hu). unfold decision_of, mret, M_ret. cbn [poc_Status toProtoOutcome].
    by case_decide.
  - exfalso. apply list_find_None in Hf. rewrite list.Forall_forall in Hf.
    apply (Hf (toProtoOutcome x)); [|done]. by apply list_elem_of_fmap_2, Hlo.
Qed.
End Client.
