(* ===== verification/SettleSystem.v ===== *)
(** * SettleSystem: sportsbook, wallet and odds feed together

    One state holds the bet store, the wallet store and the odds store; the sportsbook calls
    the two other services through their gRPC servers.  A bet is placed at odds that are
    stored, and settled by the outcome's record, down to the ledger entry that pays it.
    [run_settles] says what a run of the settlement loop does to all three stores; runs
    compose, and so the scheduler does the same, tick after tick. *)

From S2P Require Import Prelude GoStd Decimal GoJson JsonProps Demo WalletModels.
From S2P Require Import WalletStore WalletLedger WalletProps Xcash Rates WalletService.
From S2P Require Import WalletServer OddsModels OddsStore OddsService OddsServer BetStore BetStoreProps BetService BetLifecycle.
From S2P Require Import BetServiceProps SettlementProps BetServer SystemProps OddsClient.

Section Together.
Context {S : Type} `{LB : Lens S InMemoryStore, LLB : !LensLaws LB,
  LW : Lens S memoryStore, LLW : !LensLaws LW, LO : Lens S oddsMemory, LLO : !LensLaws LO}.
Context `{DBW : !Disjoint LB LW, DBO : !Disjoint LB LO, DWO : !Disjoint LW LO}.
Context `{E : GoEnv, EL : !GoEnvLaws E, L : DecimalLaws, GT : GrpcText}.
Context `{Hm : Hmac, R : Redis S, HT : HttpTransport S, LC : Lens S Cache}.
#[local] Existing Instance lens_BetStore.
#[local] Existing Instance lens_Store.
Context (gs : GRPCServer (S := S)).
#[local] Instance feed : OddsFeedClient S := odds_client.
#[local] Instance bank : WalletClient S := wallet_client gs.
#[local] Instance bank_outside : ClientsOutside bank feed := wallet_outside gs.
Implicit Types w : World S.

Lemma later_bets k w : bets_of (later k w) = bets_of w.
Proof. done. Qed.
Lemma later_inv k w : svc_inv w -> svc_inv (later k w).
Proof. intros Hi. apply (evolves_same w (later k w)); [done|cbn; lia|done]. Qed.

Lemma odds_with_bets s w n : odds_of (mkWorld n (lset (Lens := LB) s (w_st w))) = odds_of w.
Proof. apply disjoint_r. Qed.
Lemma odds_with_money w v : odds_of (with_money w v) = odds_of w.
Proof. apply disjoint_r. Qed.

(** A credit by the sportsbook, as the wallet books it. *)
Lemma settle_credit_eq o b w : exists ms,
  settle_credit o b w = answer w (memoryStore_CreditWallet (bet_UserID b) (bet_Currency b)
    (settle_amount o b) (settle_prefix o +:+ bet_ReferenceID b) ms (wallet_of w)).
Proof.
  destruct (settle_metadata_strings (bet_ID b) o (settle_key o) (settle_amount o b)) as [ms Hms].
  exists (JStr <$> ms). unfold settle_credit. rewrite Hms. apply (credit_eq gs), parseMetadata_strings.
Qed.

(** What a settlement leaves in the ledger. *)
Definition paid (o : string) (b b' : Bet) (s s' : memoryStore) : Prop :=
  let a := settle_amount o b in
  let ref := settle_prefix o +:+ bet_ReferenceID b in
  exists t, booked "deposit" (bet_UserID b) (bet_Currency b) a ref s s' t /\
    (balance_of s' (bet_UserID b) (bet_Currency b) ==
     balance_of s (bet_UserID b) (bet_Currency b) + amt a)%Q /\
    others_same (walletKey (bet_UserID b) (bet_Currency b)) s s' /\
    bet_CreditTransactionID b' = tx_ID t.

(** A credit books nothing under another reference. *)
Lemma credit_other_refs u c a ref md (v : World memoryStore) : wallet_reachable v ->
  forall r, r <> ref -> existing_by_ref r (w_st v) = None ->
  existing_by_ref r (w_st (memoryStore_CreditWallet u c a ref md v).2) = None.
Proof.
  destruct v as [n s]. intros Hi%reachable_inv r Hne Hr. cbn [w_st] in *.
  destruct (existing_by_ref ref s) as [t|] eqn:Hex; [by rewrite (credit_existing _ _ _ _ _ _ _ t)|].
  destruct (memoryStore_createWallet u c (mkWorld n s)) as [x [n' s']] eqn:Hc.
  destruct (createWallet_spec _ _ _ _ _ Hc) as (y & -> & _ & Href & Hh & Hi'). cbn [w_st] in *.
  rewrite (credit_new _ _ _ _ _ _ _ _ _ _ Hex Hc).
  destruct (existing_None r n s Hi Hr) as [->|Hn]; [done|].
  assert (existing_by_ref r s' = None) as Hr'.
  { unfold existing_by_ref, lookup_ref. by rewrite Href, Hn; case_decide. }
  destruct (addDecimal (wallet_Balance y) a) as [nb|e|p]; [|exact Hr'..].
  unfold existing_by_ref, lookup_ref, recorded. cbn. case_decide; [done|].
  case_decide; [|rewrite lookup_insert_ne by done]; by rewrite Href, Hn.
Qed.

Lemma SettleBet_pays o b w : svc_inv w -> wallet_reachable (wallet_of w) ->
  bets_of w !! bet_ID b = Some b -> bet_Status b = StatusPending -> outcome_arg o ->
  (o <> StatusLost -> existing_by_ref (settle_prefix o +:+ bet_ReferenceID b) (money w) = None /\
     exists d, ParseDecimal (settle_amount o b) = inl d) ->
  exists b' w', SettleBet (bet_ID b) o w = (Ok b', w') /\ odds_of w' = odds_of w /\
    bets_of w' = <[bet_ID b := b']> (bets_of w) /\ bet_Status b' = o /\ bet_terms b' = bet_terms b /\
    (wallet_reachable (wallet_of w') /\
     forall r, r <> settle_prefix o +:+ bet_ReferenceID b -> existing_by_ref r (money w) = None ->
       existing_by_ref r (money w') = None) /\
    if decide (o = StatusLost) then money w' = money w else paid o b b' (money w) (money w').
Proof.
  intros Hi Hwr Hb Hp Ho Hpay.
  assert (bet_ID b <> "") as Hne.
  { destruct (proj2 Hi (bet_ID b) ltac:(by exists b)) as (k & _ & ->). apply uuid_nonempty. }
  pose proof (SettleBet_eq (bet_ID b) o w b Hi Hne Ho Hb Hp) as Heq. cbv zeta in Heq.
  set (b1 := marked o (time_at (w_tick w)) b) in *.
  set (w1 := mkWorld (Datatypes.S (w_tick w)) (lset (<[bet_ID b := b1]> (bets_of w)) (w_st w))) in *.
  assert (money w1 = money w) as Hm1 by apply money_with_bets.
  assert (odds_of w1 = odds_of w) as Ho1 by apply odds_with_bets.
  assert (bets_of w1 = <[bet_ID b := b1]> (bets_of w)) as Hb1 by apply lget_lset.
  assert (bet_terms b1 = bet_terms b) as Ht1 by (unfold b1, marked; by rewrite bet_terms_settled).
  destruct (decide (o = StatusLost)) as [Hl|Hl].
  { exists b1, w1. rewrite Hm1. split_and!; try done; [apply marked_status|].
    unfold wallet_of. rewrite Hm1. eapply wallet_wait; [|exact Hwr]. cbn; lia. }
  destruct (Hpay Hl) as [Hex [d Hd]]. destruct (settle_credit_eq o b w1) as [ms Hc].
  rewrite Hc in Heq.
  assert (wallet_reachable (wallet_of w1)) as Hwr1.
  { unfold wallet_of. rewrite Hm1. unfold wallet_of in Hwr. eapply wallet_wait; [|exact Hwr]. cbn; lia. }
  pose proof (credit_other_refs (bet_UserID b) (bet_Currency b) (settle_amount o b)
    (settle_prefix o +:+ bet_ReferenceID b) ms (wallet_of w1) Hwr1) as Hrefs.
  pose proof (wallet_step _ (OpCredit (bet_UserID b) (bet_Currency b) (settle_amount o b)
    (settle_prefix o +:+ bet_ReferenceID b) ms) Hwr1) as Hwr2. cbn [run_op] in Hwr2.
  pose proof (CreditWallet_spec (bet_UserID b) (bet_Currency b) (settle_amount o b)
    (settle_prefix o +:+ bet_ReferenceID b) ms (wallet_of w1) Hwr1) as Hspec.
  change (w_st (wallet_of w1)) with (money w1) in Hspec. rewrite Hm1, Hd in Hspec.
  destruct (Hspec Hex) as (t & v & Hv & Hbal & Hbk & Hoth). unfold answer in Heq.
  rewrite ignore_snd, Hv in Hwr2. rewrite Hv in Heq, Hrefs.
  cbn [fst snd] in Heq. cbv zeta in Heq. set (w2 := with_money w1 v) in *.
  assert (bets_of w2 = bets_of w1) as Hb2 by apply disjoint_l.
  assert (money w2 = w_st v) as Hm2 by apply lget_lset.
  exists (bet_set_CreditTx (tx_ID t) b1), (with_bets (<[bet_ID b := bet_set_CreditTx (tx_ID t) b1]> (bets_of w2)) w2).
  split; [exact Heq|]. unfold with_bets. rewrite odds_with_bets, money_with_bets, Hm2.
  split_and!.
  - unfold w2. by rewrite odds_with_money.
  - unfold bets_of at 1, part at 1. cbn [w_st]. rewrite lget_lset, Hb2, Hb1. apply insert_insert_eq.
  - apply marked_status.
  - exact Ht1.
  - unfold wallet_of. rewrite money_with_bets, Hm2. eapply (wallet_wait (w_tick v)); [|by destruct v].
    unfold w2, with_money. cbn. lia.
  - intros r Hr Hex'. apply (Hrefs r Hr). change (existing_by_ref r (money w1) = None). by rewrite Hm1.
  - exists t. split_and!; try done. by rewrite (amt_parse _ _ Hd).
Qed.

(** C19.  Settled by the record: when the settlement loop comes to a pending bet, the odds
    store alone decides.  While the outcome's record is undecided nothing happens.  Once it
    says won, lost or cancelled the bet takes that status, its terms unchanged; a won bet is
    paid its potential payout and a cancelled one its stake, by exactly one ledger entry that
    the bet carries, provided the payout is a number and its reference is unused; a lost bet
    moves no money; and the odds stay as they are. *)
Theorem stored_outcome_pays b x w :
  svc_reachable w -> wallet_reachable (wallet_of w) ->
  bets_of w !! bet_ID b = Some b -> bet_Status b = StatusPending ->
  bet_on (odds_of w) (bet_EventID b) (bet_MarketID b) (bet_OutcomeID b) x ->
  let o := decision_of x in
  (o <> "" -> o <> StatusLost ->
     existing_by_ref (settle_prefix o +:+ bet_ReferenceID b) (money w) = None /\
     exists d, ParseDecimal (settle_amount o b) = inl d) ->
  exists w', auto_settle_one b w = (Ok tt, w') /\ odds_of w' = odds_of w /\
    if decide (o = "") then bets_of w' = bets_of w /\ money w' = money w
    else exists b', bets_of w' = <[bet_ID b := b']> (bets_of w) /\ bet_Status b' = o /\
      bet_terms b' = bet_terms b /\
      if decide (o = StatusLost) then money w' = money w else paid o b b' (money w) (money w').
Proof.
  intros Hi%svc_reachable_inv Hwr Hb Hp Hon o Hpay. unfold auto_settle_one, attempt at 1, mbind, M_bind.
  pose proof (resolve_stored _ _ _ x w Hon) as Hres. change odds_client with feed in Hres.
  rewrite Hres. fold o.
  destruct (decide (o = "")) as [Hu|Hd]; [by exists (later 3 w)|].
  assert (outcome_arg o) as Ho.
  { unfold o, decision_of in *. by case_decide. }
  destruct (SettleBet_pays o b (later 3 w) (later_inv 3 w Hi)
    ltac:(eapply wallet_wait; [|exact Hwr]; cbn; lia) Hb Hp Ho (Hpay Hd)) as (b' & w' & Heq & Hrest).
  destruct Hrest as (Hod & Hbe & Hst & Ht & _ & Hmo).
  exists w'. split; [|split; [exact Hod|exists b'; by split_and!]].
  unfold ignore, attempt, mbind, M_bind, mret, M_ret. by rewrite Heq.
Qed.

(** ** A whole run of the settlement loop *)

(** A bet as it was pending, and the status it was given. *)
Definition settlement : Type := Bet * string.
Definition paying (p : settlement) : Prop := p.2 <> StatusLost.
#[local] Instance paying_dec p : Decision (paying p) := not_dec _.
Definition settled_ids (l : list settlement) : list string := (fun p : settlement => bet_ID p.1) <$> l.

(** What a settlement adds to the wallet under a key, and what a run adds. *)
Definition credit_of (k : string) (p : settlement) : Q :=
  if decide (paying p /\ walletKey (bet_UserID p.1) (bet_Currency p.1) = k)
  then amt (settle_amount p.2 p.1) else 0%Q.
Definition credits (k : string) (l : list settlement) : Q :=
  foldr (fun p q => (credit_of k p + q)%Q) 0%Q l.

(** The ledger entry of a settlement. *)
Definition entry_for (p : settlement) (t : Transaction) : Prop :=
  tx_Type t = "deposit" /\ tx_UserID t = bet_UserID p.1 /\ tx_Currency t = bet_Currency p.1 /\
  tx_Amount t = settle_amount p.2 p.1 /\
  tx_ReferenceID t = settle_prefix p.2 +:+ bet_ReferenceID p.1.

(** A run from [w] to [w'] that settled [l], in this order. *)
Record run_settles (w : World S) (l : list settlement) (w' : World S) : Prop := {
  rs_odds : odds_of w' = odds_of w;
  rs_pending : forall b o, (b, o) ∈ l ->
    bets_of w !! bet_ID b = Some b /\ bet_Status b = StatusPending /\ outcome_arg o;
  rs_record : forall b o x, (b, o) ∈ l ->
    bet_on (odds_of w) (bet_EventID b) (bet_MarketID b) (bet_OutcomeID b) x -> o = decision_of x;
  rs_once : NoDup (settled_ids l);
  rs_settled : forall b o, (b, o) ∈ l -> exists b', bets_of w' !! bet_ID b = Some b' /\
    bet_Status b' = o /\ bet_terms b' = bet_terms b;
  rs_others : forall id, id ∉ settled_ids l -> bets_of w' !! id = bets_of w !! id;
  rs_ledger : exists ts, ms_heap (money w') = ms_heap (money w) ++ ts /\
    Forall2 (fun p t => entry_for p t /\ exists b', bets_of w' !! bet_ID p.1 = Some b' /\
      bet_CreditTransactionID b' = tx_ID t) (filter paying l) ts;
  rs_money : forall u c, (balance_of (money w') u c ==
    balance_of (money w) u c + credits (walletKey u c) l)%Q;
}.

(** No two pending bets share a reference, and what they would be paid can be paid: the amount
    is a number and the payment's reference is unused. *)
Record payable w : Prop := {
  py_distinct : forall i j b b', bets_of w !! i = Some b -> bets_of w !! j = Some b' ->
    bet_Status b = StatusPending -> bet_Status b' = StatusPending ->
    bet_ReferenceID b = bet_ReferenceID b' -> i = j;
  py_free : forall i b o, bets_of w !! i = Some b -> bet_Status b = StatusPending ->
    outcome_arg o -> o <> StatusLost ->
    existing_by_ref (settle_prefix o +:+ bet_ReferenceID b) (money w) = None /\
    exists d, ParseDecimal (settle_amount o b) = inl d;
}.
Record run_inv w : Prop := {
  ri_bets : svc_inv w;
  ri_wallet : wallet_reachable (wallet_of w);
  ri_payable : payable w;
}.

Lemma credits_cons k p l : credits k (p :: l) = (credit_of k p + credits k l)%Q.
Proof. reflexivity. Qed.
Lemma credits_app k l l' : (credits k (l ++ l') == credits k l + credits k l')%Q.
Proof.
  induction l as [|p l IH].
  - change (credits k []) with 0%Q. cbn [app]. ring.
  - rewrite <- app_comm_cons, !credits_cons, IH. ring.
Qed.
Lemma elem_of_ids b o l : (b, o) ∈ l -> bet_ID b ∈ settled_ids l.
Proof. intros H. unfold settled_ids. apply list_elem_of_fmap. by exists (b, o). Qed.

Lemma run_settles_nil w w' : bets_of w' = bets_of w -> money w' = money w -> odds_of w' = odds_of w ->
  run_settles w [] w'.
Proof.
  intros Hb Hmo Ho. constructor.
  - done.
  - by intros b o H%not_elem_of_nil.
  - by intros b o x H%not_elem_of_nil.
  - constructor.
  - by intros b o H%not_elem_of_nil.
  - intros id _. by rewrite Hb.
  - exists []. rewrite Hmo, app_nil_r. split; [done|constructor].
  - intros u c. rewrite Hmo. cbn. ring.
Qed.

Lemma run_settles_app w1 w2 w3 l l' : run_settles w1 l w2 -> run_settles w2 l' w3 ->
  run_settles w1 (l ++ l') w3.
Proof.
  intros H1 H2.
  assert (forall b o, (b, o) ∈ l' -> bet_ID b ∉ settled_ids l) as Hnew.
  { intros b o Hin Hid. apply list_elem_of_fmap in Hid as ([b0 o0] & Hid & Hin0). cbn in Hid.
    destruct (rs_pending _ _ _ H2 b o Hin) as (Hb & Hp & _).
    destruct (rs_settled _ _ _ H1 b0 o0 Hin0) as (b' & Hb' & Hs & _).
    destruct (rs_pending _ _ _ H1 b0 o0 Hin0) as (_ & _ & Ho).
    rewrite Hid in Hb. rewrite Hb' in Hb. injection Hb as ->. rewrite Hs in Hp. subst o0.
    by destruct (final_not_pending StatusPending). }
  assert (forall b o, (b, o) ∈ l -> bet_ID b ∉ settled_ids l') as Hnot.
  { intros b o Hin ([b0 o0] & Hid & Hin0)%list_elem_of_fmap. cbn in Hid.
    apply (Hnew b0 o0 Hin0). rewrite <- Hid. by eapply elem_of_ids. }
  constructor.
  - by rewrite (rs_odds _ _ _ H2), (rs_odds _ _ _ H1).
  - intros b o [Hin|Hin]%elem_of_app; [by apply (rs_pending _ _ _ H1)|].
    rewrite <- (rs_others _ _ _ H1) by (by eapply Hnew). by apply (rs_pending _ _ _ H2).
  - intros b o x [Hin|Hin]%elem_of_app; [by apply (rs_record _ _ _ H1)|].
    rewrite <- (rs_odds _ _ _ H1). by apply (rs_record _ _ _ H2).
  - unfold settled_ids. rewrite fmap_app. apply list.NoDup_app. split_and!; [apply H1| |apply H2].
    intros id Hid ([b o] & -> & Hin)%list_elem_of_fmap. by apply (Hnew b o Hin).
  - intros b o [Hin|Hin]%elem_of_app; [|by apply (rs_settled _ _ _ H2)].
    destruct (rs_settled _ _ _ H1 b o Hin) as (b' & Hb' & Hrest). exists b'. split; [|done].
    rewrite (rs_others _ _ _ H2); [done|by eapply Hnot].
  - intros id. unfold settled_ids. rewrite fmap_app, not_elem_of_app. intros [Hi Hj].
    by rewrite (rs_others _ _ _ H2), (rs_others _ _ _ H1).
  - destruct (rs_ledger _ _ _ H1) as (ts & Hh & Hf). destruct (rs_ledger _ _ _ H2) as (ts' & Hh' & Hf').
    exists (ts ++ ts'). rewrite Hh', Hh, app_assoc. split; [done|]. rewrite list.filter_app.
    apply Forall2_app; [|done]. eapply Forall2_impl_l; [exact Hf|].
    intros [b o] t Hin [He (b' & Hb' & Ht)]. split; [done|]. exists b'. split; [|done].
    rewrite (rs_others _ _ _ H2); [done|]. apply list_elem_of_filter in Hin as [_ Hin].
    by eapply Hnot.
  - intros u c. rewrite (rs_money _ _ _ H2), (rs_money _ _ _ H1), credits_app. ring.
Qed.

(** What the odds feed answers about any outcome; the query leaves everything as it is. *)
Lemma resolve_any e m o w : exists r k, resolveOutcomeStatus e m o w = (r, later k w) /\
  (forall p, r <> Panic p) /\ forall a, r = Ok a -> a <> "" -> outcome_arg a.
Proof.
  change feed with odds_client. unfold resolveOutcomeStatus, mbind, M_bind.
  destruct (ofc_GetEvent_eq e w) as (ev & -> & _ & _).
  destruct (toProtoEvent <$> ev) as [pev|]; [|by do 2 eexists].
  destruct (ofc_ListMarkets_eq e "" (later 1 w)) as (lm & -> & _).
  destruct (negb _); [by eexists _, 2%nat|].
  destruct (ofc_ListOutcomes_eq m "" (later 1 (later 1 w))) as (lo & -> & _).
  destruct (list_find _ _) as [[j oc]|]; [|by eexists _, 3%nat].
  case_decide as Hd; eexists _, 3%nat; (split_and!; [done|done|]); by intros a [= <-].
Qed.

Lemma payable_later k w : payable w -> payable (later k w).
Proof. intros [H1 H2]. by constructor. Qed.
Lemma run_inv_later k w : run_inv w -> run_inv (later k w).
Proof.
  intros [Hi Hw Hp]. constructor; [by apply later_inv|eapply wallet_wait; [|exact Hw]; cbn; lia|].
  by apply payable_later.
Qed.
Lemma run_settles_later k w : run_settles w [] (later k w).
Proof. by apply run_settles_nil. Qed.

(** One bet settled with the status [o]. *)
Lemma settle_one b o w : run_inv w -> bets_of w !! bet_ID b = Some b -> bet_Status b = StatusPending ->
  outcome_arg o ->
  (forall x, bet_on (odds_of w) (bet_EventID b) (bet_MarketID b) (bet_OutcomeID b) x -> o = decision_of x) ->
  exists b' w', SettleBet (bet_ID b) o w = (Ok b', w') /\
    wallet_reachable (wallet_of w') /\ payable w' /\ run_settles w [(b, o)] w'.
Proof.
  intros [Hi Hwr Hpy] Hb Hp Ho Hrec.
  destruct (SettleBet_pays o b w Hi Hwr Hb Hp Ho (py_free _ Hpy _ b o Hb Hp Ho))
    as (b' & w' & Heq & Hod & Hbe & Hst & Ht & (Hwr' & Hrefs) & Hmo).
  exists b', w'. split_and!; [done|done|..].
  - assert (forall i c, bets_of w' !! i = Some c -> bet_Status c = StatusPending ->
      i <> bet_ID b /\ bets_of w !! i = Some c) as Hold.
    { intros i c. rewrite Hbe. intros [[<- <-]|[Hne Hc]]%lookup_insert_Some Hs; [|by split].
      exfalso. apply (final_not_pending o Ho). congruence. }
    constructor.
    + intros i j c c' Hc Hc' Hs Hs'. apply Hold in Hc as [_ Hc]; [|done].
      apply Hold in Hc' as [_ Hc']; [|done]. by apply (py_distinct _ Hpy).
    + intros i c o' Hc Hs Ho' Hl'. apply Hold in Hc as [Hne Hc]; [|done].
      destruct (py_free _ Hpy i c o' Hc Hs Ho' Hl') as [Hfree Hd]. split; [|done].
      apply Hrefs; [|done]. intros Href. apply Hne.
      apply (py_distinct _ Hpy i (bet_ID b) c b Hc Hb Hs Hp).
      unfold settle_prefix in Href. by repeat case_decide; injection Href.
  - assert (forall b0 o0, (b0, o0) ∈ [(b, o)] -> b0 = b /\ o0 = o) as Hone.
    { intros b0 o0 [= -> ->]%list_elem_of_singleton. done. }
    constructor.
    + done.
    + by intros b0 o0 [-> ->]%Hone.
    + intros b0 o0 x [-> ->]%Hone. apply Hrec.
    + apply list.NoDup_singleton.
    + intros b0 o0 [-> ->]%Hone. exists b'. rewrite Hbe, lookup_insert_eq. by split_and!.
    + intros id Hid. rewrite Hbe, lookup_insert_ne; [done|]. intros <-. apply Hid. by left.
    + destruct (decide (o = StatusLost)) as [Hl|Hl].
      * exists []. rewrite Hmo, app_nil_r, filter_cons_False by (intros Hn; by apply Hn).
        split; [done|]. constructor.
      * destruct Hmo as (t & (H1 & H2 & H3 & H4 & H5 & _ & _ & _ & Hh & _) & _ & _ & Hct).
        exists [t]. rewrite filter_cons_True by done. split; [done|]. constructor; [|constructor].
        split; [by split_and!|]. exists b'. by rewrite Hbe, lookup_insert_eq.
    + intros u c. rewrite credits_cons. change (credits _ []) with 0%Q. unfold credit_of, paying. cbn [fst snd].
      destruct (decide (o = StatusLost)) as [Hl|Hl].
      * rewrite decide_False by tauto. rewrite Hmo. ring.
      * destruct Hmo as (t & _ & Hbal & Hoth & _).
        destruct (decide (walletKey (bet_UserID b) (bet_Currency b) = walletKey u c)) as [Hk|Hk].
        -- rewrite decide_True by done. unfold balance_of in *. rewrite <- Hk. rewrite Hbal. ring.
        -- rewrite decide_False by tauto. unfold balance_of. rewrite Hoth by congruence. ring.
Qed.

(** The loop comes to a bet. *)
Lemma auto_settle_run b w : run_inv w -> bets_of w !! bet_ID b = Some b -> bet_Status b = StatusPending ->
  exists l w', auto_settle_one b w = (Ok tt, w') /\ run_inv w' /\ run_settles w l w' /\
    (forall p, p ∈ l -> p.1 = b) /\
    forall x, bet_on (odds_of w) (bet_EventID b) (bet_MarketID b) (bet_OutcomeID b) x ->
      decision_of x <> "" -> (b, decision_of x) ∈ l.
Proof.
  intros Hri Hb Hp. pose proof (ri_bets _ Hri) as Hi.
  pose proof (auto_settle_one_moves b w Hi) as (Hi' & _ & _). specialize (Hi' Hi).
  unfold auto_settle_one in *. unfold attempt at 1 in Hi'. unfold attempt at 1. unfold mbind, M_bind in *.
  destruct (resolve_any (bet_EventID b) (bet_MarketID b) (bet_OutcomeID b) w) as (r & k & Hr & Hnp & Hout).
  change odds_client with feed in Hr. rewrite Hr in *.
  assert (forall x, bet_on (odds_of w) (bet_EventID b) (bet_MarketID b) (bet_OutcomeID b) x ->
    r = Ok (decision_of x)) as Hdec.
  { intros x Hx. pose proof (resolve_stored _ _ _ x w Hx) as Hs. change odds_client with feed in Hs.
    rewrite Hr in Hs. by injection Hs. }
  destruct r as [o|e|p]; [|exists [], (later k w)|by destruct (Hnp p)].
  2: { split_and!; [done|by apply run_inv_later|apply run_settles_later|by intros p H%not_elem_of_nil|].
       intros x Hx. by specialize (Hdec x Hx). }
  destruct (decide (o = "")) as [->|Hne].
  { exists [], (later k w). split_and!; [done|by apply run_inv_later|apply run_settles_later|by intros p H%not_elem_of_nil|].
    intros x Hx Hd. specialize (Hdec x Hx). congruence. }
  pose proof (Hout o eq_refl Hne) as Ho.
  destruct (settle_one b o (later k w) (run_inv_later k w Hri) Hb Hp Ho) as (b' & w' & Heq & Hwr & Hpy & Hrs).
  { intros x Hx. specialize (Hdec x Hx). congruence. }
  rewrite ignore_snd, Heq in Hi'. exists [(b, o)], w'. split_and!.
  - unfold ignore, attempt, mbind, M_bind, mret, M_ret. by rewrite Heq.
  - by constructor.
  - exact (run_settles_app _ _ _ [] _ (run_settles_later k w) Hrs).
  - by intros p ->%list_elem_of_singleton.
  - intros x Hx _. specialize (Hdec x Hx). injection Hdec as ->. by left.
Qed.

(** A page of bets, all still as listed. *)
Lemma page_run bs : forall w, run_inv w -> NoDup (bet_ID <$> bs) ->
  (forall b, b ∈ bs -> bets_of w !! bet_ID b = Some b /\ bet_Status b = StatusPending) ->
  exists l w', for_each bs auto_settle_one w = (Ok tt, w') /\ run_inv w' /\ run_settles w l w' /\
    forall b x, b ∈ bs -> bet_on (odds_of w) (bet_EventID b) (bet_MarketID b) (bet_OutcomeID b) x ->
      decision_of x <> "" -> (b, decision_of x) ∈ l.
Proof.
  induction bs as [|b bs IH]; intros w Hri Hnd Hbs; cbn [for_each].
  { exists [], w. split_and!; [done|done|by apply run_settles_nil|]. by intros b x H%not_elem_of_nil. }
  apply list.NoDup_cons in Hnd as [Hb Hnd].
  destruct (Hbs b ltac:(by left)) as [Hst Hp].
  destruct (auto_settle_run b w Hri Hst Hp) as (l & w1 & Heq & Hri1 & Hrs1 & Hl & Hx1).
  destruct (IH w1 Hri1 Hnd) as (l' & w2 & Heq2 & Hri2 & Hrs2 & Hx2).
  { intros c Hc. rewrite (rs_others _ _ _ Hrs1); [apply Hbs; by right|].
    intros ([b0 o0] & Hid & Hin)%list_elem_of_fmap. cbn in Hid. apply Hl in Hin. cbn in Hin. subst b0.
    apply Hb. rewrite <- Hid. by apply list_elem_of_fmap_2. }
  exists (l ++ l'), w2. unfold mbind, M_bind. rewrite Heq.
  split_and!; [done|done|by eapply run_settles_app|].
  intros c x [->|Hc]%elem_of_cons Hx Hd; apply elem_of_app; [left; by apply Hx1|right].
  apply Hx2; [done| |done]. by rewrite (rs_odds _ _ _ Hrs1).
Qed.

(** The pages, from the [k]-th on. *)
Lemma pages_run fuel : forall k w, run_inv w -> small_store w -> (0 < fuel)%nat ->
  (npend (bets_of w) < 100 * (k + fuel))%nat -> Z.of_nat (k + fuel) < 2 ^ 50 ->
  exists l w', auto_settle_pages fuel (Z.of_nat k + 1) w = (Ok tt, w') /\ run_settles w l w' /\
    run_inv w' /\ size (bets_of w') = size (bets_of w) /\
    forall b x, b ∈ window (Z.of_nat k + 1) settlePageSize (pending_bets (bets_of w)) ->
      bet_on (odds_of w) (bet_EventID b) (bet_MarketID b) (bet_OutcomeID b) x ->
      decision_of x <> "" -> (b, decision_of x) ∈ l.
Proof.
  induction fuel as [|fuel IH]; intros k w Hri Hs Hf Hn Hk; [lia|].
  pose proof (ri_bets _ Hri) as Hi.
  cbn [auto_settle_pages]. unfold mbind, M_bind, wrapped.
  rewrite list_pending_eq by (try done; lia). cbn [wrap_res]. set (page := window _ _ _).
  assert (length page = min 100 (npend (bets_of w) - k * 100)) as Hlen.
  { unfold page, settlePageSize. rewrite <- npend_pending. apply (window_length k 100). }
  pose proof (run_inv_later 1 w Hri) as Hri'. pose proof (run_settles_later 1 w) as Hnext.
  change (later 1 w) with (next w) in *.
  destruct (decide (page = [])) as [He|_].
  { exists [], (next w). split_and!; [done|done|done|done|]. intros b x. rewrite He. by intros H%not_elem_of_nil. }
  destruct (for_each_shrinks page (next w) (next_inv w Hi)) as (w1 & Hw1 & _ & Hsh & Hsz).
  destruct (page_run page (next w) Hri') as (l & w1' & Hrun & Hri1 & Hrs & Hx).
  { unfold page, window. rewrite fmap_take, fmap_drop.
    eapply sublist_NoDup; [apply pending_bets_ids, Hi|].
    etrans; [apply sublist_take|apply sublist_drop]. }
  { intros b Hb. apply pending_bets_stored; [apply Hi|]. unfold page, window in Hb.
    by eapply (sublist_subseteq _ _ (transitivity (sublist_take _ _) (sublist_drop _ _))). }
  rewrite Hw1 in Hrun. injection Hrun as <-. rewrite Hw1.
  pose proof (run_settles_app _ _ _ _ _ Hnext Hrs) as Hrs1.
  change (bets_of (next w)) with (bets_of w) in *.
  destruct (Z.of_nat (length page) <? settlePageSize) eqn:Hlt; [by eexists l, w1|].
  apply Z.ltb_ge in Hlt. unfold settlePageSize in Hlt.
  rewrite int64_id by (unfold in_int64; lia).
  replace (Z.of_nat k + 1 + 1) with (Z.of_nat (Datatypes.S k) + 1) by lia.
  destruct (IH (Datatypes.S k) w1 Hri1) as (l' & w2 & Hw2 & Hrs2 & Hri2 & Hsz2 & _);
    [unfold small_store in *; by rewrite Hsz|lia|lia|lia|].
  exists (l ++ l'), w2.
  split_and!; [done|exact (run_settles_app _ _ _ _ _ Hrs1 Hrs2)|done|congruence|].
  intros b x Hb Hon Hd. apply elem_of_app. left. by apply Hx.
Qed.

(** ** The scheduler: runs at its ticks *)

(** The odds store has decided on every pending bet. *)
Definition decided w : Prop :=
  forall i b, bets_of w !! i = Some b -> bet_Status b = StatusPending ->
    exists x, bet_on (odds_of w) (bet_EventID b) (bet_MarketID b) (bet_OutcomeID b) x /\ decision_of x <> "".

Definition pending_ids (s : InMemoryStore) : list string := bet_ID <$> pending_bets s.
Lemma elem_of_pending_ids s id : bets_inv s ->
  id ∈ pending_ids s <-> exists b, s !! id = Some b /\ bet_Status b = StatusPending.
Proof.
  intros Hi. unfold pending_ids. split.
  - intros (b & -> & Hb)%list_elem_of_fmap. exists b. by apply pending_bets_stored.
  - intros (b & Hb & Hp). apply list_elem_of_fmap. exists b. split; [by rewrite (bi_id _ Hi id b Hb)|].
    unfold pending_bets, sortBetsByCreatedAsc. rewrite (insertion_sort_perm before_asc).
    apply list_elem_of_filter. split; [done|]. apply elem_of_values. by exists id.
Qed.

(** A run takes the bets it settles off the pending ones, and no others. *)
Lemma pending_left w l w' : run_settles w l w' -> svc_inv w -> svc_inv w' ->
  pending_ids (bets_of w) ≡ₚ settled_ids l ++ pending_ids (bets_of w').
Proof.
  intros H [Hi _] [Hi' _].
  assert (forall id, id ∈ settled_ids l -> id ∉ pending_ids (bets_of w')) as Hgone.
  { intros id ([b o] & -> & Hin)%list_elem_of_fmap (c & Hc & Hp)%elem_of_pending_ids; [|done].
    destruct (rs_settled _ _ _ H b o Hin) as (b' & Hb' & Hs & _).
    destruct (rs_pending _ _ _ H b o Hin) as (_ & _ & Ho). apply (final_not_pending o Ho).
    cbn in Hc. congruence. }
  apply NoDup_Permutation.
  - by apply pending_bets_ids.
  - apply list.NoDup_app. split_and!; [apply H|done|by apply pending_bets_ids].
  - intros id. rewrite elem_of_app, !elem_of_pending_ids by done. split.
    + intros Hb. destruct (decide (id ∈ settled_ids l)) as [Hl|Hl]; [by left|right].
      by rewrite (rs_others _ _ _ H).
    + intros [([b o] & -> & Hin)%list_elem_of_fmap|Hb].
      * destruct (rs_pending _ _ _ H b o Hin) as (Hb & Hp & _). by exists b.
      * rewrite <- (rs_others _ _ _ H); [done|]. intros Hl. apply (Hgone id Hl).
        by apply elem_of_pending_ids.
Qed.
Lemma decided_kept w l w' : run_settles w l w' -> svc_inv w' -> decided w -> decided w'.
Proof.
  intros H [Hi' _] Hd i b Hb Hp. rewrite (rs_odds _ _ _ H). apply (Hd i b); [|done].
  rewrite <- (rs_others _ _ _ H); [done|]. intros ([c o] & -> & Hin)%list_elem_of_fmap.
  destruct (rs_settled _ _ _ H c o Hin) as (b' & Hb' & Hs & _).
  destruct (rs_pending _ _ _ H c o Hin) as (_ & _ & Ho). apply (final_not_pending o Ho).
  cbn in Hb. congruence.
Qed.

(** One run of the scheduler. *)
Lemma runOnce_run fuel w : run_inv w -> small_store w ->
  (npend (bets_of w) < 100 * fuel)%nat -> Z.of_nat fuel < 2 ^ 50 ->
  exists logs l w', runOnce fuel w = (Ok logs, w') /\ run_settles w l w' /\ run_inv w' /\ small_store w' /\
    (forall b x, b ∈ take 100 (pending_bets (bets_of w)) ->
       bet_on (odds_of w) (bet_EventID b) (bet_MarketID b) (bet_OutcomeID b) x ->
       decision_of x <> "" -> (b, decision_of x) ∈ l) /\
    (npend (bets_of w') <= npend (bets_of w))%nat /\
    (decided w -> (npend (bets_of w') <= npend (bets_of w) - 100)%nat).
Proof.
  intros Hri Hs Hn Hf.
  destruct (pages_run fuel 0 w Hri Hs) as (l & w' & Hw & Hrs & Hri' & Hsz & Hl); [lia|lia|lia|].
  destruct (runOnce_pages_Ok fuel _ _ _ Hw) as [logs Hlogs]. change (Z.of_nat 0 + 1) with 1 in *.
  pose proof (Permutation_length (pending_left _ _ _ Hrs (ri_bets _ Hri) (ri_bets _ Hri'))) as Hlen.
  unfold pending_ids, settled_ids in Hlen. rewrite length_app, !length_fmap, !npend_pending in Hlen.
  exists logs, l, w'. split_and!; [done|done|done|by unfold small_store in *; rewrite Hsz|done|lia|].
  intros Hd. destruct (ri_bets _ Hri) as [Hi _].
  set (page := take 100 (pending_bets (bets_of w))) in *.
  assert (length (bet_ID <$> page) <= length (settled_ids l))%nat as Hle.
  { apply submseteq_length, NoDup_submseteq.
    - unfold page. rewrite fmap_take. eapply sublist_NoDup; [by apply pending_bets_ids|apply sublist_take].
    - intros id (b & -> & Hb)%list_elem_of_fmap.
      destruct (pending_bets_stored _ b Hi) as [Hst Hp].
      { by apply (sublist_subseteq _ _ (sublist_take _ _)) in Hb. }
      destruct (Hd _ b Hst Hp) as (x & Hx & Hdx). eapply elem_of_ids, (Hl b x); done. }
  unfold page, settled_ids in Hle. rewrite !length_fmap, length_take, npend_pending in Hle. lia.
Qed.

Lemma loop_run fuel ticks : forall w, run_inv w -> small_store w ->
  (npend (bets_of w) < 100 * fuel)%nat -> Z.of_nat fuel < 2 ^ 50 ->
  exists logs l w', scheduler_loop fuel ticks w = (Ok logs, w') /\ run_settles w l w' /\
    (decided w -> (npend (bets_of w') <= npend (bets_of w) - 100 * length ticks)%nat).
Proof.
  induction ticks as [|d ticks IH]; intros w Hri Hs Hn Hf; cbn [scheduler_loop length].
  { exists [], [], w. split_and!; [done|by apply run_settles_nil|]. intros _. lia. }
  unfold mbind, M_bind. change (sleep d w) with (Ok tt : res unit, later d w).
  destruct (runOnce_run fuel (later d w)) as (logs & l & w1 & -> & Hrs & Hri1 & Hs1 & _ & Hle & Hd1);
    [by apply run_inv_later|done|done|done|].
  change (bets_of (later d w)) with (bets_of w) in *.
  destruct (IH w1 Hri1 Hs1) as (logs' & l' & w2 & -> & Hrs2 & Hd2); [lia|done|].
  pose proof (run_settles_app _ _ _ _ _ (run_settles_later d w) Hrs) as Hrs1.
  exists (logs ++ logs'), (l ++ l'), w2.
  split_and!; [done|exact (run_settles_app _ _ _ _ _ Hrs1 Hrs2)|]. intros Hd.
  specialize (Hd1 Hd). specialize (Hd2 (decided_kept _ _ _ Hrs (ri_bets _ Hri1) Hd)). lia.
Qed.

(** C19.  The scheduler settles by the record: Start, for any number of ticks, goes through and
    has settled a list of bets, each once.  Each was pending and takes a final status, the one
    the odds store records for its outcome, its terms kept; all other bets and the odds stay as
    they are.  The ledger grows by exactly one entry per won or cancelled bet of the list, in
    this order, over the payout or the stake, and the bet carries the entry; every balance
    grows by exactly these amounts.  Each of the hundred oldest pending bets whose outcome is
    decided is in the list; and when all outcomes are decided, a tick for every hundred
    pending bets leaves none pending.  It is assumed that pending bets have references of their
    own, that what they can be paid is a number and that the payment was not booked before. *)
Theorem scheduler_settles fuel ticks w :
  svc_reachable w -> wallet_reachable (wallet_of w) -> payable w -> small_store w ->
  (npend (bets_of w) < 100 * fuel)%nat -> Z.of_nat fuel < 2 ^ 50 ->
  exists logs l w', Scheduler_Start fuel ticks w = (Ok logs, w') /\ run_settles w l w' /\
    (forall b x, b ∈ take 100 (pending_bets (bets_of w)) ->
      bet_on (odds_of w) (bet_EventID b) (bet_MarketID b) (bet_OutcomeID b) x ->
      decision_of x <> "" -> (b, decision_of x) ∈ l) /\
    (decided w -> (npend (bets_of w) <= 100 * (1 + length ticks))%nat ->
      pending_bets (bets_of w') = []).
Proof.
  intros Hi%svc_reachable_inv Hwr Hpy Hs Hn Hf.
  assert (run_inv w) as Hri by by constructor.
  destruct (runOnce_run fuel w Hri Hs Hn Hf) as (logs & l & w1 & Hw1 & Hrs & Hri1 & Hs1 & Hl & Hle & Hd1).
  destruct (loop_run fuel ticks w1 Hri1 Hs1) as (logs' & l' & w2 & Hw2 & Hrs2 & Hd2); [lia|done|].
  exists (logs ++ logs'), (l ++ l'), w2. unfold Scheduler_Start, mbind, M_bind. rewrite Hw1, Hw2.
  split_and!; [done|exact (run_settles_app _ _ _ _ _ Hrs Hrs2)|..].
  - intros b x Hb Hx Hd. apply elem_of_app. left. by apply Hl.
  - intros Hd Hnt. specialize (Hd1 Hd). specialize (Hd2 (decided_kept _ _ _ Hrs (ri_bets _ Hri1) Hd)).
    apply length_zero_iff_nil. rewrite npend_pending. lia.
Qed.

(** C20.  Bets are struck at stored odds: when PlaceBet answers a request under a new reference
    with a bet, the odds store held at that moment the event, an active market of it, and an
    active outcome of that market with the bet's odds; the bet's payout is its stake times
    these odds, and it is on record as pending on that very outcome. *)
Theorem bet_at_stored_odds u e m o stake c ref w b w' :
  svc_reachable w -> valid_request u e m o stake c ref -> ~ has_reference u ref (bets_of w) ->
  PlaceBet u e m o stake c ref w = (Ok b, w') ->
  priced (odds_of w) e m o (bet_Odds b) /\
  multiplyDecimal stake (bet_Odds b) = Ok (bet_PotentialPayout b) /\
  exists b0, bets_of w' !! bet_ID b = Some b0 /\ bet_Status b0 = StatusPending /\
    bet_terms b0 = [bet_ID b; u; e; m; o; bet_Odds b; stake; bet_PotentialPayout b; c; ref].
Proof.
  intros Hi%svc_reachable_inv Hv Hno Hpl.
  destruct (current_odds e m o (next w)) as [r w1] eqn:Ho.
  destruct (existing_eq u ref w Hi) as [(id & b' & Hb & Hu & Hrf & _)|[_ He]].
  { exfalso. apply Hno. by exists id, b'. }
  destruct r as [odds|er|p].
  2,3: rewrite PlaceBet_unfold in Hpl by done; unfold mbind, M_bind in Hpl; by rewrite He, Ho in Hpl.
  destruct (multiplyDecimal stake odds) as [payout|er|p] eqn:Hmul.
  2,3: rewrite PlaceBet_unfold in Hpl by done; unfold mbind, M_bind, wrapped, of_res in Hpl;
    by rewrite He, Ho, Hmul in Hpl.
  destruct (PlaceBet_new u e m o stake c ref w w1 odds payout Hi Hv Hno Ho Hmul)
    as (id & k & t & w2 & Hid & Hk & Hw2 & Heq).
  rewrite Heq in Hpl. set (nb := new_bet _ _ _ _ _ _ _ _ _ _ _) in *.
  assert (bets_of w2 !! bet_ID nb = Some (created_bet nb id t)) as Hl.
  { unfold bets_of, part. rewrite Hw2, lget_lset. apply lookup_insert_eq. }
  rewrite (debit_stake_eq nb _ w2 Hl) in Hpl.
  destruct (stake_debit nb w2) as [[tx|er|p] w3]; [|discriminate Hpl..]. injection Hpl as <- <-.
  split; [|split; [exact Hmul|]].
  - change feed with odds_client in Ho. by apply (current_odds_priced _ _ _ _ (next w) w1).
  - exists (confirmed tx (created_bet nb id t)).
    change (bet_ID (confirmed tx nb)) with (bet_ID nb). rewrite bets_with, lookup_insert_eq.
    split; [reflexivity|]. unfold created_bet. cbv zeta. destruct (IsZero _); split; reflexivity.
Qed.
End Together.

(** ** A bet from the price to the payout *)
Module TogetherDemo.
Import Demo.

Record State : Type := mkState {
  st_bets : InMemoryStore; st_money : memoryStore; st_odds : oddsMemory; st_cache : Cache }.
#[export] Instance bets_lens : Lens State InMemoryStore :=
  { lget := st_bets; lset b s := mkState b (st_money s) (st_odds s) (st_cache s) }.
#[export] Instance money_lens : Lens State memoryStore :=
  { lget := st_money; lset m s := mkState (st_bets s) m (st_odds s) (st_cache s) }.
#[export] Instance odds_lens : Lens State oddsMemory :=
  { lget := st_odds; lset o s := mkState (st_bets s) (st_money s) o (st_cache s) }.
#[export] Instance cache_lens : Lens State Cache :=
  { lget := st_cache; lset c s := mkState (st_bets s) (st_money s) (st_odds s) c }.
#[export] Instance bets_laws : LensLaws bets_lens.
Proof. constructor; intros; cbn; by try destruct s. Qed.
#[export] Instance money_laws : LensLaws money_lens.
Proof. constructor; intros; cbn; by try destruct s. Qed.
#[export] Instance odds_laws : LensLaws odds_lens.
Proof. constructor; intros; cbn; by try destruct s. Qed.
#[export] Instance bets_money : Disjoint bets_lens money_lens.
Proof. by constructor. Qed.
#[export] Instance bets_odds : Disjoint bets_lens odds_lens.
Proof. by constructor. Qed.
#[export] Instance money_odds : Disjoint money_lens odds_lens.
Proof. by constructor. Qed.
#[export] Instance hmac : Hmac := { Sign m k := k +:+ m }.
#[export] Instance no_redis : Redis State :=
  { redis_SetNX _ _ _ := mthrow (ErrNew "no redis"); redis_expiry _ _ := 0 }.
#[export] Instance no_http : HttpTransport State := { http_Do _ := mthrow (ErrNew "no network") }.

(** One event with one market, whose one outcome has a status. *)
Definition home (status : string) : Outcome := mkOutcome "o" "mock" "o" "m" "Home" "1.5" status ∅ 0 0.
Definition feed_store (status : string) : oddsMemory :=
  mkOddsMemory ∅ ∅
    {["mock:e" := mkEvent "e" "mock" "e" "l" "s" "h" "a" 0 "upcoming" "" "" 0 ∅ 0 0]}
    {["mock:m" := mkMarket "m" "mock" "m" "e" "1x2" "Winner" "" "active" ∅ 0 0]}
    {["mock:o" := home status]}.

Definition server : GRPCServer (S := State) :=
  mkGRPCServer (NewService (NewClient "" "" "") (NewWebhookValidator "key") ["USDT:tron"]) None.
#[export] Existing Instance lens_BetStore.
#[export] Existing Instance lens_Store.
#[export] Instance the_bank : WalletClient State := wallet_client server.
#[export] Instance the_feed : OddsFeedClient State := odds_client.

(** A deposit of 100; then a bet of 30; and the bet when its outcome has won. *)
Definition purse : World memoryStore :=
  (run_op (OpCredit "v" "USDT" "100" "dep-1" ∅) (mkWorld 0 NewInMemoryStore)).2.
Definition funded : World State :=
  mkWorld (w_tick purse) (mkState NewBetMemory (w_st purse) (feed_store "active") (NewCache 0)).
Definition placed : World State := (run_svc (SvcPlace "v" "e" "m" "o" "30" "USDT" "bet-1") funded).2.
Definition won : World State :=
  mkWorld (w_tick placed) (mkState (st_bets (w_st placed)) (w_st purse) (feed_store StatusWon) (NewCache 0)).

Lemma funded_reachable : svc_reachable funded.
Proof. exists funded. split; [reflexivity|apply rtc_refl]. Qed.
Lemma request : valid_request "v" "e" "m" "o" "30" "USDT" "bet-1".
Proof.
  split; [|vm_compute; reflexivity].
  intros H. repeat (destruct H as [H|H]; [discriminate H|]). discriminate H.
Qed.
Lemma no_bets : ~ has_reference "v" "bet-1" (bets_of funded).
Proof.
  intros (id & b & H & _). change (NewBetMemory !! id = Some b) in H. by rewrite NewBetMemory_empty in H.
Qed.

Lemma bet_at_stored_odds_witness :
  exists b w', PlaceBet "v" "e" "m" "o" "30" "USDT" "bet-1" funded = (Ok b, w') /\
    priced (feed_store "active") "e" "m" "o" (bet_Odds b).
Proof.
  destruct (PlaceBet "v" "e" "m" "o" "30" "USDT" "bet-1" funded) as [[b|e|p] w'] eqn:Hp.
  - exists b, w'. split; [reflexivity|].
    exact (proj1 (bet_at_stored_odds server "v" "e" "m" "o" "30" "USDT" "bet-1" funded b w'
      funded_reachable request no_bets Hp)).
  - apply (f_equal fst) in Hp. vm_compute in Hp. discriminate Hp.
  - apply (f_equal fst) in Hp. vm_compute in Hp. discriminate Hp.
Defined.

Lemma rest_step w m o c : svc_step w (mkWorld (w_tick w) (mkState (st_bets (w_st w)) m o c)).
Proof. by apply svc_other. Qed.
Lemma won_reachable : svc_reachable won.
Proof.
  pose proof (rest_step placed (w_st purse) (feed_store StatusWon) (NewCache 0)) as Hw.
  exists funded. split; [reflexivity|].
  eapply rtc_l; [exact (svc_call (SvcPlace "v" "e" "m" "o" "30" "USDT" "bet-1") funded)|].
  exact (rtc_once _ _ Hw).
Qed.
Lemma purse_reachable : wallet_reachable (wallet_of won).
Proof.
  apply (wallet_wait (w_tick purse)); [vm_compute; lia|].
  replace (mkWorld (w_tick purse) (money won)) with purse by (vm_compute; reflexivity).
  apply wallet_step, wallet_init.
Qed.

Definition the_bet : Bet :=
  mkBet (tally 12) "v" "e" "m" "o" "1.5" "30" "45" "USDT" StatusPending "bet-1" (tally 13) ""
    10000000000 None.
Lemma the_bet_placed : bets_of won !! bet_ID the_bet = Some the_bet.
Proof. vm_compute. reflexivity. Qed.

Lemma values_singleton {V} k (x : V) : values {[k := x]} = [x].
Proof. unfold values. by rewrite map_to_list_singleton. Qed.
Lemma bet_on_home st : bet_on (feed_store st) "e" "m" "o" (home st).
Proof.
  constructor; cbn [om_events om_markets om_outcomes feed_store]; rewrite ?values_singleton.
  - eexists. split; [left|reflexivity].
  - eexists. split; [left|split; reflexivity].
  - split; [left|split; reflexivity].
  - intros y Hy _ _. by apply list_elem_of_singleton in Hy.
  - vm_compute. lia.
  - vm_compute. lia.
Qed.

Lemma stored_outcome_pays_witness :
  exists w', auto_settle_one the_bet won = (Ok tt, w') /\
    (balance_of (money w') "v" "USDT" == balance_of (money won) "v" "USDT" + 45)%Q.
Proof.
  destruct (stored_outcome_pays server the_bet (home StatusWon) won won_reachable purse_reachable
    the_bet_placed eq_refl (bet_on_home StatusWon)) as (w' & Hw & _ & H).
  - intros _ _. split; [vm_compute; reflexivity|]. eexists. vm_compute. reflexivity.
  - exists w'. split; [exact Hw|].
    destruct (decide (decision_of (home StatusWon) = "")) as [He|_]; [discriminate He|].
    destruct H as (b' & _ & _ & _ & H).
    destruct (decide (decision_of (home StatusWon) = StatusLost)) as [He|_]; [discriminate He|].
    destruct H as (t & _ & Hbal & _). exact Hbal.
Defined.
Lemma settled_refs o : outcome_arg o -> o <> StatusLost ->
  existing_by_ref (settle_prefix o +:+ bet_ReferenceID the_bet) (money won) = None /\
  exists d, ParseDecimal (settle_amount o the_bet) = inl d.
Proof.
  intros [->|[->| ->]] Hl; [|done|];
    (split; [vm_compute; reflexivity|eexists; vm_compute; reflexivity]).
Qed.
Lemma won_bets i b : bets_of won !! i = Some b -> i = bet_ID the_bet /\ b = the_bet.
Proof.
  assert (bets_of won = {[bet_ID the_bet := the_bet]}) as -> by (vm_compute; reflexivity).
  intros H. apply lookup_singleton_Some in H. destruct H. by split.
Qed.
Lemma won_payable : payable won.
Proof.
  constructor.
  - intros i j b b' [-> _]%won_bets [-> _]%won_bets _ _ _. reflexivity.
  - intros i b o [_ ->]%won_bets _. apply settled_refs.
Qed.

Lemma won_decided : decided won.
Proof.
  intros i b [_ ->]%won_bets _. exists (home StatusWon). split; [exact (bet_on_home StatusWon)|discriminate].
Qed.

Lemma scheduler_settles_witness :
  exists logs l w', Scheduler_Start 1 [5%nat] won = (Ok logs, w') /\ run_settles won l w' /\
    (the_bet, StatusWon) ∈ l /\ pending_bets (bets_of w') = [].
Proof.
  destruct (scheduler_settles server 1 [5%nat] won won_reachable purse_reachable won_payable)
    as (logs & l & w' & Hw & Hrs & Hl & Hend).
  - vm_compute. reflexivity.
  - vm_compute. lia.
  - vm_compute. reflexivity.
  - exists logs, l, w'. split; [exact Hw|]. split; [exact Hrs|]. split.
    + apply (Hl the_bet (home StatusWon)).
      * replace (take 100 (pending_bets (bets_of won))) with [the_bet] by (vm_compute; reflexivity). left.
      * exact (bet_on_home StatusWon).
      * discriminate.
    + apply Hend; [exact won_decided|vm_compute; lia].
Defined.
End TogetherDemo.
