(* ===== verification/RateLimit.v ===== *)
(** * RateLimit: the gateway's limits, its HTTP plumbing and its rate limiter

    [internal/gateway/limits.go], [ratelimit.go], and the requests, replies and handlers the gateway
    is written in.  The Lua script that Redis runs is [token_bucket]; Redis drops a
    bucket 120 seconds after its last write, by its own clock.  The in-process limiter
    is [golang.org/x/time/rate], the class [Limiter]. *)

From S2P Require Import Prelude GoStd Decimal GoJson GoTime Xcash.

(** ** limits.go: bounds on one deposit or withdrawal; an empty text is no bound. *)
Record Limits : Type := mkLimits {
  lim_MinDeposit : string;
  lim_MaxDeposit : string;
  lim_DailyDeposit : string;
  lim_MinWithdrawal : string;
  lim_MaxWithdrawal : string;
  lim_DailyWithdrawal : string;
}.

Section Validate.
Context `{D : Decimal}.

(** [if text != "" { m, err := NewFromString(text); ...; if bad(d, m) { return msg } }] *)
Definition check_bound (text : string) (bad : dec -> bool) (op name msg : string) : res unit :=
  if decide (text = "") then Ok tt
  else
    m ← wrap_res ("invalid " +:+ op +:+ " " +:+ name +:+ " limit") (NewFromString text);
    if bad m then Err (ErrNew (op +:+ msg)) else Ok tt.

Definition Limits_validate (amount min max daily op : string) : res unit :=
  if decide (amount = "") then Err (ErrNew (op +:+ " amount is required"))
  else
    d ← wrap_res ("invalid " +:+ op +:+ " amount") (NewFromString amount);
    if negb (dec_IsPositive d) then Err (ErrNew (op +:+ " amount must be positive"))
    else
      check_bound min (fun m => dec_LessThan d m) op "minimum" " below minimum";;
      check_bound max (fun m => dec_GreaterThan d m) op "maximum" " above maximum";;
      check_bound daily (fun m => dec_GreaterThan d m) op "daily" " above daily limit".

Definition ValidateDeposit (l : Limits) (amount : string) : res unit :=
  Limits_validate amount (lim_MinDeposit l) (lim_MaxDeposit l) (lim_DailyDeposit l) "deposit".

Definition ValidateWithdrawal (l : Limits) (amount : string) : res unit :=
  Limits_validate amount (lim_MinWithdrawal l) (lim_MaxWithdrawal l) (lim_DailyWithdrawal l)
    "withdrawal".
End Validate.

(** ** Requests and replies *)
Record User : Type := mkUser { user_ID : string; user_Email : string; user_Name : string }.

(** Header and query parameters have one value each; the last three fields are the values of
    [UserContextKey], [RequestIDKey] and [RoutePatternKey] in the request's context. *)
Record HttpReq : Type := mkHttpReq {
  rq_Method : string;
  rq_Path : string;
  rq_Header : gmap string string;
  rq_RemoteAddr : string;
  rq_Query : gmap string string;
  rq_PathValue : gmap string string;
  rq_Body : string;
  rq_User : option User;
  rq_RequestID : option string;
  rq_RoutePattern : option string;
}.

Definition Header_Get (r : HttpReq) (name : string) : string := default "" (rq_Header r !! name).
Definition Query_Get (r : HttpReq) (name : string) : string := default "" (rq_Query r !! name).
Definition PathValue (r : HttpReq) (name : string) : string := default "" (rq_PathValue r !! name).
Definition with_user (u : User) (r : HttpReq) : HttpReq :=
  mkHttpReq (rq_Method r) (rq_Path r) (rq_Header r) (rq_RemoteAddr r) (rq_Query r)
    (rq_PathValue r) (rq_Body r) (Some u) (rq_RequestID r) (rq_RoutePattern r).

(** A body: text, a JSON value, or a protobuf message, which protojson prints. *)
Inductive reply_body (P : Type) : Type :=
| BodyText (s : string)
| BodyJSON (v : any)
| BodyProto (p : P).
Arguments BodyText {P} s.
Arguments BodyJSON {P} v.
Arguments BodyProto {P} p.

Record HttpReply (P : Type) : Type := mkHttpReply {
  rp_Status : Z;
  rp_Header : gmap string string;
  rp_Body : reply_body P;
}.
Arguments mkHttpReply {P} _ _ _.
Arguments rp_Status {P} _.
Arguments rp_Header {P} _.
Arguments rp_Body {P} _.

(** Headers set before the inner handler runs: its own settings win. *)
Definition with_headers {P} (h : gmap string string) (r : HttpReply P) : HttpReply P :=
  mkHttpReply (rp_Status r) (rp_Header r ∪ h) (rp_Body r).

Definition Handler (S P : Type) : Type := HttpReq -> M S (HttpReply P).

(** ** The key of a request *)

(** [strings.LastIndex]-style cut: the parts before and after the last [sep]. *)
Definition CutLast (s : string) (sep : ascii) : option (string * string) :=
  match Cut (string_rev s) sep with
  | Some (b, a) => Some (string_rev a, string_rev b)
  | None => None
  end.
Definition contains (s : string) (c : ascii) : bool :=
  match Cut s c with Some _ => true | None => false end.

(** The host of [net.SplitHostPort(s)], [None] when it returns an error. *)
Definition SplitHostPort (s : string) : option string :=
  match s with
  | String c rest =>
      if decide (c = "["%char) then
        match Cut rest "]"%char with
        | Some (h, String colon port) =>
            if bool_decide (colon = ":"%char) && negb (contains port ":"%char) &&
               negb (contains rest "["%char) && negb (contains port "]"%char)
            then Some h else None
        | _ => None
        end
      else
        match CutLast s ":"%char with
        | Some (h, _) =>
            if contains h ":"%char || contains s "["%char || contains s "]"%char
            then None else Some h
        | None => None
        end
  | "" => None
  end.

Definition clientIP (r : HttpReq) : string :=
  let direct := default (rq_RemoteAddr r) (SplitHostPort (rq_RemoteAddr r)) in
  let fwd := Header_Get r "X-Forwarded-For" in
  if decide (fwd = "") then direct
  else
    let lastp := TrimSpace (default "" (list.last (Split fwd ","%char))) in
    if decide (lastp = "") then direct else lastp.

Definition limiter_key (r : HttpReq) : string :=
  let ip := clientIP r in
  match rq_User r with
  | Some u => ip +:+ ":" +:+ user_ID u
  | None => ip
  end.

(** ** Token buckets *)
Definition windowSeconds : Z := 60.

(** The Lua script: [state] is what HMGET finds; the answer and the state HSET writes. *)
Definition token_bucket (now rate burst : Z) (state : option (Z * Z)) : bool * (Z * Z) :=
  let tokens := match state with
                | None => burst
                | Some (tokens, ts) => Z.min burst (tokens + (now - ts) * rate)
                end in
  if 1 <=? tokens then (true, (tokens - 1, now)) else (false, (tokens, now)).

Record Bucket : Type := mkBucket { bk_tokens : Z; bk_ts : Z; bk_expire : Z }.

(** A limiter of [golang.org/x/time/rate] and its [Allow], at a time. *)
Class Limiter : Type := {
  limiter : Type;
  NewLimiter : Z -> Z -> limiter;
  limiter_Allow : Z -> limiter -> bool * limiter;
}.

Record RateLimiter : Type := mkRateLimiter {
  rl_backend : string;
  rl_rate : Z;
  rl_burst : Z;
}.

Definition NewRateLimiter (backend : string) (rps burst : Z) : RateLimiter :=
  let rps := if rps <=? 0 then 100 else rps in
  let burst := if burst <=? 0 then rps else burst in
  mkRateLimiter backend rps burst.

(** What the limiter keeps: in process, and in Redis. *)
Record LimiterState `{Limiter} : Type := mkLimiterState {
  ls_limiters : gmap string limiter;
  ls_buckets : gmap string Bucket;
}.

Arguments mkLimiterState {_} _ _.

(** Redis may be out of reach. *)
Class RedisLink (S : Type) : Type := { redis_reach : M S unit }.

Section RateLimiting.
Context {S P : Type} `{E : GoEnv, L : Limiter, LS : Lens S LimiterState, RL : RedisLink S}.

Definition getLimiter (rl : RateLimiter) (key : string) : M LimiterState limiter :=
  s ← get;
  match ls_limiters s !! key with
  | Some lim => mret lim
  | None =>
      let lim := NewLimiter (rl_rate rl) (rl_burst rl) in
      modify (fun s => mkLimiterState (<[key := lim]> (ls_limiters s)) (ls_buckets s));;
      mret lim
  end.

Definition allowMemory (rl : RateLimiter) (key : string) : M LimiterState bool :=
  lim ← getLimiter rl key;
  now ← time_now;
  let '(ok, lim') := limiter_Allow now lim in
  modify (fun s => mkLimiterState (<[key := lim']> (ls_limiters s)) (ls_buckets s));;
  mret ok.

(** The script, run by Redis: an expired bucket is not found. *)
Definition eval_bucket (key : string) (now rate burst : Z) : M LimiterState bool :=
  clock ← time_now;
  s ← get;
  let state := match ls_buckets s !! key with
               | Some b => if bk_expire b <=? clock then None else Some (bk_tokens b, bk_ts b)
               | None => None
               end in
  let '(ok, (tokens, ts)) := token_bucket now rate burst state in
  modify (fun s => mkLimiterState (ls_limiters s)
    (<[key := mkBucket tokens ts (clock + 120 * second)]> (ls_buckets s)));;
  mret ok.

Definition allowRedis (rl : RateLimiter) (key : string) : M S bool :=
  now ← time_now;
  redis_reach;;
  zoom (eval_bucket key (Unix now) (rl_rate rl) (rl_burst rl)).

Definition allow (rl : RateLimiter) (key : string) : M S bool :=
  if decide (rl_backend rl = "redis") then allowRedis rl key else zoom (allowMemory rl key).

(** [http.Error(w, msg, code)] *)
Definition http_Error (msg : string) (code : Z) : HttpReply P :=
  mkHttpReply code
    (<["X-Content-Type-Options" := "nosniff"]> {["Content-Type" := "text/plain; charset=utf-8"]})
    (BodyText (msg +:+ String "010" "")).

Definition RateLimiter_Middleware (rl : RateLimiter) (next : Handler S P) : Handler S P :=
  fun r =>
    allowed ← attempt (allow rl (limiter_key r));
    match allowed with
    | Ok true => next r
    | Ok false =>
        mret (with_headers {["Retry-After" := Itoa windowSeconds]}
                (http_Error "rate limit exceeded" 429))
    | Err _ =>
        mret (with_headers {["Retry-After" := Itoa windowSeconds]}
                (http_Error "rate limiter unavailable" 429))
    | Panic p => panic p
    end.
End RateLimiting.
