(* ===== verification/RatesProps.v ===== *)
(** * RatesProps: fiat values, exchange rates and amount limits

    The rounding of a fiat value, what GetRate serves during an outage of its providers,
    and the gateway's bounds on one deposit or withdrawal. *)

From Stdlib Require Import Qabs.
From S2P Require Import Prelude GoStd GoJson GoTime Decimal Demo Xcash Rates RateLimit.

(** ** Rounding *)
Section Rounding.
Context `{L : DecimalLaws}.

Lemma IndexByte_bound s c : -1 <= IndexByte s c < Z.of_nat (String.length s) \/
  (s = "" /\ IndexByte s c = -1).
Proof.
  induction s as [|d s IH]; cbn [IndexByte String.length]; [by right|left].
  destruct (decide (d = c)); [lia|]. destruct IH as [IH|[-> ->]]; case_decide; cbn; lia.
Qed.

(** Under two gigabytes: the code converts the number of places to an int32. *)
Definition short (s : string) : Prop := Z.of_nat (String.length s) < 2 ^ 31.

Lemma decimalPlaces_range s : short s -> 0 <= decimalPlaces s < 2 ^ 31.
Proof.
  unfold short, decimalPlaces. intros H. case_decide as Hi; [lia|].
  destruct (IndexByte_bound s ".") as [Hb|[_ ?]]; [|done].
  rewrite int64_id by (unfold in_int64; lia). lia.
Qed.

(** C21.  The product of two decimal texts (of less than two gigabytes) is rounded to as
    many places as the longer of the two has: it is a whole number [z] of units of that
    place, the nearest one to the exact product, and the even one when the product lies
    halfway.  It fails only when one of the texts is not a number. *)
Theorem MulDecimalStrings_rounds a b : short a -> short b ->
  let scale := Z.max (decimalPlaces a) (decimalPlaces b) in
  match ParseDecimal a, ParseDecimal b with
  | inl x, inl y => exists c z, MulDecimalStrings a b = Ok c /\
      (amt c * inject_Z (10 ^ scale) == inject_Z z)%Q /\
      (Qabs (dval x * dval y * inject_Z (10 ^ scale) - inject_Z z) <= 1 # 2)%Q /\
      ((Qabs (dval x * dval y * inject_Z (10 ^ scale) - inject_Z z) == 1 # 2)%Q -> Z.Even z)
  | _, _ => exists e, MulDecimalStrings a b = Err e
  end.
Proof.
  intros Ha Hb scale. unfold MulDecimalStrings, NewFromString.
  destruct (ParseDecimal a) as [x|e]; [|by eexists].
  destruct (ParseDecimal b) as [y|e]; [|by eexists]. cbn [mbind res_bind].
  pose proof (decimalPlaces_range a Ha). pose proof (decimalPlaces_range b Hb).
  destruct (FixedBank_parse (dec_Mul x y) scale) as (d & z & Hd & Hz & Hr); [lia|].
  eexists _, z. split; [done|]. fold scale. rewrite int32_id by (unfold in_int32; lia).
  unfold rounds_to in Hr. rewrite dval_Mul in Hr. by rewrite (amt_parse _ _ Hd).
Qed.
End Rounding.

(** ** Limits *)
Section Limits.
Context `{L : DecimalLaws}.

(** What a limit's text allows: nothing forbidden when it is empty. *)
Definition at_least (text : string) (q : Q) : Prop :=
  text = "" \/ exists m, ParseDecimal text = inl m /\ (dval m <= q)%Q.
Definition at_most (text : string) (q : Q) : Prop :=
  text = "" \/ exists m, ParseDecimal text = inl m /\ (q <= dval m)%Q.

Lemma check_bound_ok text bad op name msg :
  check_bound text bad op name msg = Ok tt <->
  text = "" \/ exists m, ParseDecimal text = inl m /\ bad m = false.
Proof.
  unfold check_bound, NewFromString. case_decide as Ht; [naive_solver|].
  destruct (ParseDecimal text) as [m|e]; cbn; [|naive_solver].
  destruct (bad m) eqn:Hb.
  - split; [done|]. intros [?|(m' & [= <-] & ?)]; [done|congruence].
  - split; [|done]. intros _. right. by exists m.
Qed.

Lemma res_bind_ok {A} (m : res unit) (f : unit -> res A) a :
  (m ≫= f) = Ok a <-> m = Ok tt /\ f tt = Ok a.
Proof. destruct m as [[]|e|p]; cbn; naive_solver. Qed.

(** An amount passes the limits exactly when it is a number greater than zero, not
    below the minimum, and not above the maximum nor the daily limit, whichever of
    these are set; a limit that is not a number lets nothing pass. *)
Theorem Limits_validate_iff amount min max daily op :
  Limits_validate amount min max daily op = Ok tt <->
  exists d, ParseDecimal amount = inl d /\ (0 < dval d)%Q /\
    at_least min (dval d) /\ at_most max (dval d) /\ at_most daily (dval d).
Proof.
  unfold Limits_validate. case_decide as He.
  { subst amount. split; [done|]. intros (d & Hd & _). destruct parse_empty as [e He].
    congruence. }
  unfold NewFromString. destruct (ParseDecimal amount) as [d|e] eqn:Hd; cbn [wrap_res mbind res_bind].
  2: { split; [done|]. by intros (d & ? & _). }
  destruct (dec_IsPositive d) eqn:Hp; cbn [negb].
  2: { split; [done|]. intros (d' & [= <-] & Hpos & _). apply not_IsPositive in Hp. lra. }
  apply IsPositive_spec in Hp.
  change (res_bind unit unit ?f ?m) with (m ≫= f).
  rewrite !res_bind_ok, !check_bound_ok. unfold at_least, at_most.
  setoid_rewrite not_LessThan. setoid_rewrite not_GreaterThan.
  split.
  - intros (H1 & H2 & H3). exists d. split_and!; naive_solver.
  - intros (d' & [= <-] & _ & H1 & H2 & H3). naive_solver.
Qed.
End Limits.

(** ** Exchange rates during an outage *)
Section Outage.
Context {S : Type} `{LC : Lens S Cache, LL : !LensLaws LC}.
Context `{E : GoEnv, D : Decimal}.
Implicit Types w : World S.

Definition cache_of (w : World S) : Cache := part (L := LC) w.

(** A provider that answers with an error, whenever it is asked. *)
Definition down {A} (m : M S A) : Prop := forall w, exists e w',
  m w = (Err e, w') /\ cache_of w' = cache_of w /\ (w_tick w <= w_tick w')%nat.

Lemma first_ok_down {A} (calls : list (M S A)) : Forall down calls -> forall w,
  exists w', first_ok calls w = (Ok None, w') /\ cache_of w' = cache_of w /\
    (w_tick w <= w_tick w')%nat.
Proof.
  induction 1 as [|m calls Hm _ IH]; intros w; [by exists w|]. cbn [first_ok].
  destruct (Hm w) as (e & w1 & Heq & Hc & Ht). unfold mbind, M_bind, attempt. rewrite Heq.
  destruct (IH w1) as (w2 & -> & Hc2 & Ht2). exists w2. split; [done|].
  split; [congruence|lia].
Qed.

(** No entry under the key that is still fresh at tick [t]. *)
Definition lapsed (key : string) (t : nat) (c : Cache) : Prop :=
  forall cr, cache_values c !! key = Some cr -> cache_ttl c < time_at t - cr_cached cr.

Lemma Cache_Get_lapsed key w : lapsed key (w_tick w) (cache_of w) ->
  exists w', zoom (Cache_Get key) w = (Ok None, w') /\ cache_of w' = cache_of w /\
    (w_tick w <= w_tick w')%nat.
Proof.
  intros Hl. unfold zoom, Cache_Get. unmonad. change (lget (w_st w)) with (cache_of w).
  destruct (cache_values (cache_of w) !! key) as [cr|] eqn:Hk;
    cbn [w_tick w_st].
  - specialize (Hl cr Hk). rewrite (proj2 (Z.ltb_lt _ _) Hl).
    eexists. split; [done|]. unfold cache_of, part. cbn. rewrite lget_lset. split; [done|lia].
  - eexists. split; [done|]. unfold cache_of, part. cbn. rewrite lget_lset. split; [done|lia].
Qed.

Lemma stale_or_eq key e w : exists w', cache_of w' = cache_of w /\
  stale_or key e w =
    (match cache_values (cache_of w) !! key with
     | Some cr => if decide (time_at (w_tick w) - cr_cached cr <= 5 * minute)
                  then Ok (cr_value cr) else Err e
     | None => Err e
     end, w').
Proof.
  unfold stale_or, zoom, Cache_StaleValue. unmonad.
  change (lget (w_st w)) with (cache_of w).
  destruct (cache_values (cache_of w) !! key) as [cr|] eqn:Hk;
    cbn [w_tick w_st].
  - destruct (5 * minute <? _) eqn:H5; [apply Z.ltb_lt in H5|apply Z.ltb_ge in H5];
      eexists; (split; [|rewrite ?decide_True, ?decide_False by lia; reflexivity]);
      unfold cache_of, part; cbn; by rewrite lget_lset.
  - eexists. split; [|done]. unfold cache_of, part. cbn. by rewrite lget_lset.
Qed.

(** C22.  When every provider fails, GetRate of a coin without a manual rate serves the
    last rate it cached while that is at most five minutes old, and fails after that;
    it never invents a rate, and it leaves the cache as it is. *)
Theorem GetRate_outage a f c w :
  let fiat := ToUpper f in let crypto := ToUpper c in let key := crypto +:+ ":" +:+ fiat in
  let err := ErrNew ("all providers failed for " +:+ crypto +:+ "/" +:+ fiat) in
  (forall i j, (i <= j)%nat -> time_at i <= time_at j) ->
  IsSupportedFiat fiat = true -> isStablecoin crypto = false -> ag_manual a !! crypto = None ->
  Forall (fun p : RateProvider S => forall fi cr, down (p fi cr)) (ag_providers a) ->
  lapsed key (w_tick w) (cache_of w) -> lapsed (crypto +:+ ":USD") (w_tick w) (cache_of w) ->
  exists t w', (w_tick w <= t)%nat /\ cache_of w' = cache_of w /\
    Aggregator_GetRate a f c w =
      (match cache_values (cache_of w) !! key with
       | Some cr => if decide (time_at t - cr_cached cr <= 5 * minute)
                    then Ok (cr_value cr) else Err err
       | None => Err err
       end, w').
Proof.
  intros fiat crypto key err Hclock Hf Hs Hm Hp Hl Hl'.
  unfold Aggregator_GetRate. fold fiat crypto. cbv zeta. rewrite Hf. cbn [negb].
  rewrite Hs, andb_false_r. fold key.
  destruct (Cache_Get_lapsed key w Hl) as (w1 & H1 & Hc1 & Ht1).
  unfold mbind at 1, M_bind at 1. rewrite H1, Hm.
  assert (forall fi cr, Forall down ((fun p : RateProvider S => p fi cr) <$> ag_providers a)) as Hd.
  { intros fi cr. apply Forall_fmap. eapply list.Forall_impl; [exact Hp|]. intros p H. apply H. }
  destruct (first_ok_down _ (Hd fiat crypto) w1) as (w2 & H2 & Hc2 & Ht2).
  unfold mbind at 1, M_bind at 1. rewrite H2.
  assert (exists e w3, cryptoToUSD a crypto w2 = (Err e, w3) /\ cache_of w3 = cache_of w2 /\
    (w_tick w2 <= w_tick w3)%nat) as (e & w3 & H3 & Hc3 & Ht3).
  { unfold cryptoToUSD. rewrite Hs.
    destruct (Cache_Get_lapsed (crypto +:+ ":USD") w2) as (v1 & Hv1 & Hcv1 & Htv1).
    { intros cr Hcr. rewrite Hc2, Hc1 in Hcr. specialize (Hl' cr Hcr).
      rewrite Hc2, Hc1. pose proof (Hclock (w_tick w) (w_tick w2) ltac:(lia)). lia. }
    unfold mbind at 1, M_bind at 1. rewrite Hv1.
    destruct (first_ok_down _ (Hd "USD" crypto) v1) as (v2 & Hv2 & Hcv2 & Htv2).
    unfold mbind, M_bind. rewrite Hv2. do 2 eexists. split; [done|].
    split; [congruence|lia]. }
  unfold mbind, M_bind, attempt. rewrite H3.
  destruct (stale_or_eq key err w3) as (w4 & Hc4 & H4). exists (w_tick w3), w4.
  fold err. rewrite H4, Hc3, Hc2, Hc1. split_and!; [lia|congruence|done].
Qed.
End Outage.

(** ** Witnesses *)
Module RatesDemo.
Import Demo.

(** 10.5 times 1.25 is 13.125, halfway between 13.12 and 13.13. *)
Lemma MulDecimalStrings_rounds_witness :
  exists c, MulDecimalStrings "10.5" "1.25" = Ok c /\ (amt c == 1312 # 100)%Q.
Proof.
  destruct (MulDecimalStrings_rounds "10.5" "1.25") as (c & z & Hc & Hz & Hn & He);
    [vm_compute; reflexivity|vm_compute; reflexivity|].
  exists c. split; [exact Hc|].
  assert (c = "13.12") as -> by (vm_compute in Hc; injection Hc as <-; reflexivity).
  vm_compute. reflexivity.
Defined.

(** The state is the cache alone. *)
#[export] Instance cache_lens : Lens Cache Cache := { lget s := s; lset t _ := t }.
#[export] Instance cache_laws : LensLaws cache_lens.
Proof. by constructor. Qed.

Definition broken : RateProvider Cache := fun _ _ => mthrow (ErrNew "down").
Definition aggregator : Aggregator Cache := mkAggregator [broken; broken] (mkForexChain [] ∅) ∅.
(** A rate cached at second 10 for a minute, asked for at second 100. *)
Definition cached : Cache :=
  mkCache {["BTC:USD" := mkCachedRate "50000" (10 * second)]} minute.

Lemma GetRate_outage_witness :
  exists t w', (100 <= t)%nat /\
    Aggregator_GetRate aggregator "usd" "btc" (mkWorld 100 cached) =
      (if decide (time_at t - 10 * second <= 5 * minute) then Ok "50000"
       else Err (ErrNew "all providers failed for BTC/USD"), w').
Proof.
  destruct (GetRate_outage aggregator "usd" "btc" (mkWorld 100 cached)) as (t & w' & Ht & _ & H).
  - intros i j H. cbn. lia.
  - vm_compute. reflexivity.
  - vm_compute. reflexivity.
  - vm_compute. reflexivity.
  - assert (forall fi cr, down (broken fi cr)) as Hb.
    { intros fi cr w. exists (ErrNew "down"), w. split; [reflexivity|]. split; [reflexivity|lia]. }
    repeat constructor; exact Hb.
  - intros cr Hcr. vm_compute in Hcr. injection Hcr as <-. vm_compute. reflexivity.
  - intros cr Hcr. vm_compute in Hcr. injection Hcr as <-. vm_compute. reflexivity.
  - exists t, w'. split; [exact Ht|].
    assert (cache_values (cache_of (mkWorld 100 cached)) !!
      (ToUpper "btc" +:+ ":" +:+ ToUpper "usd") = Some (mkCachedRate "50000" (10 * second))) as Hk
      by (vm_compute; reflexivity).
    rewrite Hk in H. exact H.
Defined.
End RatesDemo.
