(* ===== verification/Middleware.v ===== *)
(** * Middleware: response writers and the shared HTTP middleware

    [internal/shared/server].  A handler calls methods of an [http.ResponseWriter]: the
    connection's own, by the rules of net/http, or a [responseRecorder] around another one,
    which is a pointer into a heap of recorders.  The Prometheus registry and the log are
    part of the state; the client library is the class [Prometheus]. *)

From S2P Require Import Prelude GoStd GoJson RateLimit.

(** ** The state *)

(** A response on a connection: the header map, what was sent of it with the status, the
    body, and the informational statuses that were sent before. *)
Record Conn : Type := mkConn {
  cn_Header : gmap string string;
  cn_Sent : option (Z * gmap string string);
  cn_Body : string;
  cn_Informational : list Z;
}.
Definition new_conn : Conn := mkConn ∅ None "" [].

Record Recorder : Type := mkRecorder { rec_statusCode : Z; rec_wrote : bool }.

Record LogEntry : Type := mkLogEntry {
  le_requestID : string;
  le_statusCode : Z;
  le_method : string;
  le_path : string;
  le_userAgent : string;
  le_remoteAddr : string;
  le_duration : Z;
}.

(** [T] is the state of the handlers.  Observed durations are nanoseconds. *)
Record Http (T : Type) : Type := mkHttp {
  h_app : T;
  h_conn : Conn;
  h_recorders : list Recorder;
  h_requests : gmap (string * string * string) Z;
  h_durations : gmap (string * string) (list Z);
  h_log : list LogEntry;
}.
Arguments mkHttp {T} _ _ _ _ _ _.
Arguments h_app {T} _.
Arguments h_conn {T} _.
Arguments h_recorders {T} _.
Arguments h_requests {T} _.
Arguments h_durations {T} _.
Arguments h_log {T} _.

Definition h_set_app {T} (a : T) (h : Http T) : Http T :=
  mkHttp a (h_conn h) (h_recorders h) (h_requests h) (h_durations h) (h_log h).
Definition h_set_conn {T} (c : Conn) (h : Http T) : Http T :=
  mkHttp (h_app h) c (h_recorders h) (h_requests h) (h_durations h) (h_log h).
Definition h_set_recorders {T} (l : list Recorder) (h : Http T) : Http T :=
  mkHttp (h_app h) (h_conn h) l (h_requests h) (h_durations h) (h_log h).
Definition h_count {T} (k : string * string * string) (h : Http T) : Http T :=
  mkHttp (h_app h) (h_conn h) (h_recorders h)
    (<[k := default 0 (h_requests h !! k) + 1]> (h_requests h)) (h_durations h) (h_log h).
Definition h_observe {T} (k : string * string) (d : Z) (h : Http T) : Http T :=
  mkHttp (h_app h) (h_conn h) (h_recorders h) (h_requests h)
    (<[k := default [] (h_durations h !! k) ++ [d]]> (h_durations h)) (h_log h).
Definition h_Info {T} (e : LogEntry) (h : Http T) : Http T :=
  mkHttp (h_app h) (h_conn h) (h_recorders h) (h_requests h) (h_durations h) (h_log h ++ [e]).

(** The Prometheus client: which texts it takes as label values (valid UTF-8), and what its
    handler prints. *)
Class Prometheus : Type := {
  valid_label : string -> bool;
  exposition : nat -> HttpReq -> gmap string string * string;
}.

(** The context's request id and route pattern. *)
Definition with_RequestID (id : string) (r : HttpReq) : HttpReq :=
  mkHttpReq (rq_Method r) (rq_Path r) (rq_Header r) (rq_RemoteAddr r) (rq_Query r)
    (rq_PathValue r) (rq_Body r) (rq_User r) (Some id) (rq_RoutePattern r).
Definition with_RoutePattern (pattern : string) (r : HttpReq) : HttpReq :=
  mkHttpReq (rq_Method r) (rq_Path r) (rq_Header r) (rq_RemoteAddr r) (rq_Query r)
    (rq_PathValue r) (rq_Body r) (rq_User r) (rq_RequestID r) (Some pattern).
Definition GetRequestID (r : HttpReq) : string := default "" (rq_RequestID r).
Definition GetRoutePattern (r : HttpReq) : string := default "" (rq_RoutePattern r).

Definition WithRoutePattern {S P} (pattern : string) (next : Handler S P) : Handler S P :=
  fun r => next (with_RoutePattern pattern r).
Definition MetricsHandler {S P} `{Pm : Prometheus} : Handler S P := fun r =>
  t ← tick; mret (mkHttpReply 200 (exposition t r).1 (BodyText (exposition t r).2)).

(** ** Response writers *)

(** A writer: the connection's, or a recorder around another writer. *)
Inductive ResponseWriter : Type :=
| ConnWriter
| responseRecorder (ptr : nat) (inner : ResponseWriter).

(** Statuses that net/http sends at once without ending the header. *)
Definition informational (code : Z) : bool :=
  (100 <=? code) && (code <=? 199) && negb (code =? 101).
Definition bodyAllowedForStatus (status : Z) : bool :=
  negb ((100 <=? status) && (status <=? 199)) && negb (status =? 204) && negb (status =? 304).

Section Writers.
Context {T : Type} `{E : GoEnv, Pm : Prometheus}.
#[local] Abbreviation MH := (M (Http T)).

Definition conn_SetHeader (name value : string) : MH unit :=
  modify (fun h => let c := h_conn h in h_set_conn
    (mkConn (<[name := value]> (cn_Header c)) (cn_Sent c) (cn_Body c) (cn_Informational c)) h).

Definition conn_WriteHeader (code : Z) : MH unit :=
  h ← get;
  let c := h_conn h in
  match cn_Sent c with
  | Some _ => mret tt
  | None =>
      if (code <? 100) || (999 <? code) then panic ("invalid WriteHeader code " +:+ Itoa code)
      else if informational code
      then put (h_set_conn (mkConn (cn_Header c) None (cn_Body c) (cn_Informational c ++ [code])) h)
      else put (h_set_conn (mkConn (cn_Header c) (Some (code, cn_Header c)) (cn_Body c)
             (cn_Informational c)) h)
  end.

Definition conn_Write (b : string) : MH unit :=
  h ← get;
  (if cn_Sent (h_conn h) is Some _ then mret tt else conn_WriteHeader 200);;
  modify (fun h =>
    let c := h_conn h in
    match cn_Sent c with
    | Some (status, _) =>
        if bodyAllowedForStatus status
        then h_set_conn (mkConn (cn_Header c) (cn_Sent c) (cn_Body c +:+ b) (cn_Informational c)) h
        else h
    | None => h
    end).

(** Fields of the recorder behind a pointer. *)
Definition load_recorder (p : nat) : MH Recorder :=
  h ← get;
  match h_recorders h !! p with
  | Some rec => mret rec
  | None => panic "invalid memory address or nil pointer dereference"
  end.
Definition store_recorder (p : nat) (rec : Recorder) : MH unit :=
  modify (fun h => h_set_recorders (<[p := rec]> (h_recorders h)) h).

Definition newResponseRecorder (w : ResponseWriter) : MH (nat * ResponseWriter) :=
  h ← get;
  let p := length (h_recorders h) in
  put (h_set_recorders (h_recorders h ++ [mkRecorder 200 false]) h);;
  mret (p, responseRecorder p w).

(** The methods; a recorder has [Header] from the writer it embeds. *)
Fixpoint Header_Set (w : ResponseWriter) (name value : string) : MH unit :=
  match w with
  | ConnWriter => conn_SetHeader name value
  | responseRecorder _ inner => Header_Set inner name value
  end.

Fixpoint WriteHeader (w : ResponseWriter) (statusCode : Z) : MH unit :=
  match w with
  | ConnWriter => conn_WriteHeader statusCode
  | responseRecorder p inner =>
      rec ← load_recorder p;
      if rec_wrote rec then mret tt
      else
        WriteHeader inner statusCode;;
        store_recorder p (mkRecorder statusCode true)
  end.

Fixpoint Write (w : ResponseWriter) (b : string) : MH unit :=
  match w with
  | ConnWriter => conn_Write b
  | responseRecorder p inner =>
      rec ← load_recorder p;
      (if rec_wrote rec then mret tt else WriteHeader w 200);;
      Write inner b
  end.

(** ** The middleware *)
Definition HttpHandler : Type := ResponseWriter -> HttpReq -> MH unit.

Definition RequestID (next : HttpHandler) : HttpHandler := fun w r =>
  let id := Header_Get r "X-Request-ID" in
  id ← (if decide (id = "") then new_uuid else mret id);
  Header_Set w "X-Request-ID" id;;
  next w (with_RequestID id r).

Definition Logging (next : HttpHandler) : HttpHandler := fun w r =>
  start ← time_now;
  let id := GetRequestID r in
  '(p, rec) ← newResponseRecorder w;
  next rec r;;
  rec ← load_recorder p;
  now ← time_now;
  modify (h_Info (mkLogEntry id (rec_statusCode rec) (rq_Method r) (rq_Path r)
    (Header_Get r "User-Agent") (rq_RemoteAddr r) (now - start))).

Definition http_requests_total_Inc (method route status : string) : MH unit :=
  if forallb valid_label [method; route; status] then modify (h_count (method, route, status))
  else panic "label value is not valid UTF-8".
Definition http_request_duration_Observe (method route : string) (d : Z) : MH unit :=
  if forallb valid_label [method; route] then modify (h_observe (method, route) d)
  else panic "label value is not valid UTF-8".

Definition Metrics (next : HttpHandler) : HttpHandler := fun w r =>
  start ← time_now;
  '(p, rec) ← newResponseRecorder w;
  next rec r;;
  rec ← load_recorder p;
  let status := Itoa (rec_statusCode rec) in
  let route := GetRoutePattern r in
  let route := if decide (route = "") then rq_Path r else route in
  http_requests_total_Inc (rq_Method r) route status;;
  now ← time_now;
  http_request_duration_Observe (rq_Method r) route (now - start).

(** ** Handlers *)

(** A handler's code: it works on its own state, and calls methods of its writer. *)
Inductive hprog : Type :=
| HEnd
| HApp {A : Type} (m : M T A) (k : A -> hprog)
| HSetHeader (name value : string) (k : hprog)
| HWriteHeader (statusCode : Z) (k : hprog)
| HWrite (b : string) (k : hprog).

Definition on_app {A} (m : M T A) : MH A := fun x =>
  let (r, y) := m (mkWorld (w_tick x) (h_app (w_st x))) in
  (r, mkWorld (w_tick y) (h_set_app (w_st y) (w_st x))).

Fixpoint run_handler (p : hprog) (w : ResponseWriter) : MH unit :=
  match p with
  | HEnd => mret tt
  | HApp m k => a ← on_app m; run_handler (k a) w
  | HSetHeader n v k => Header_Set w n v;; run_handler k w
  | HWriteHeader c k => WriteHeader w c;; run_handler k w
  | HWrite b k => Write w b;; run_handler k w
  end.
Definition HandlerFunc (f : HttpReq -> hprog) : HttpHandler := fun w r => run_handler (f r) w.

(** What net/http does when the handler has returned. *)
Definition finishRequest : MH unit := WriteHeader ConnWriter 200.

(** The calls that write a reply; [protojson] prints a message. *)
Context {P : Type} (protojson : P -> string).
Definition write_body (b : reply_body P) : hprog :=
  match b with
  | BodyText "" => HEnd
  | BodyText s => HWrite s HEnd
  | BodyJSON v => HWrite (marshal v +:+ String "010" "") HEnd
  | BodyProto m => HWrite (protojson m) HEnd
  end.
Definition write_reply (reply : HttpReply P) : hprog :=
  foldr (fun kv k => HSetHeader kv.1 kv.2 k)
    (HWriteHeader (rp_Status reply) (write_body (rp_Body reply)))
    (map_to_list (rp_Header reply)).
Definition reply_handler (h : Handler T P) : HttpReq -> hprog :=
  fun r => HApp (h r) write_reply.
End Writers.
Arguments hprog T : clear implicits.
