(* ===== verification/MiddlewareProps.v ===== *)
(** * MiddlewareProps: the shared middleware observes and changes nothing *)

From S2P Require Import Prelude GoStd GoJson RateLimit Middleware.

Section Transparent.
Context {T : Type} `{E : GoEnv, Pm : Prometheus}.
#[local] Abbreviation MH := (M (Http T)).
#[local] Abbreviation W := (World (Http T)).
Implicit Types (x y : W) (w : ResponseWriter) (h : Http T) (m : MH unit).

(** A world without its recorders. *)
Definition bare x : W := mkWorld (w_tick x) (h_set_recorders [] (w_st x)).
Definition conn_of x : Conn := h_conn (w_st x).

Fixpoint ptrs w : list nat :=
  match w with ConnWriter => [] | responseRecorder p inner => p :: ptrs inner end.

(** A recorder that knows what was sent. *)
Definition rec_of (c : Conn) : Recorder :=
  match cn_Sent c with Some (st, _) => mkRecorder st true | None => mkRecorder 200 false end.
Record agrees w x : Prop := {
  ag_nodup : NoDup (ptrs w);
  ag_rec : forall p, p ∈ ptrs w -> h_recorders (w_st x) !! p = Some (rec_of (conn_of x));
}.

(** A call on [w] does what the call on the connection does, and tells the recorders. *)
Record alike {A} w (m m0 : M (Http T) A) x : Prop := {
  al_res : (m x).1 = (m0 (bare x)).1;
  al_world : bare (m x).2 = (m0 (bare x)).2;
  al_agrees : agrees w (m x).2;
  al_other : forall q rec, q ∉ ptrs w -> h_recorders (w_st x) !! q = Some rec ->
    h_recorders (w_st (m x).2) !! q = Some rec;
}.

Lemma conn_of_bare x : conn_of (bare x) = conn_of x.
Proof. done. Qed.
Lemma bare_eq x y : bare x = bare y -> conn_of x = conn_of y.
Proof. intros H. by rewrite <-(conn_of_bare x), H. Qed.

Lemma agrees_inner p inner x : agrees (responseRecorder p inner) x -> agrees inner x /\ p ∉ ptrs inner.
Proof.
  intros [[Hp Hnd]%list.NoDup_cons Hr]. split; [|done]. constructor; [done|]. intros q Hq.
  apply Hr. by right.
Qed.
Lemma agrees_load p inner x : agrees (responseRecorder p inner) x ->
  load_recorder p x = (Ok (rec_of (conn_of x)), x).
Proof. intros H. unfold load_recorder. unmonad. rewrite (ag_rec _ _ H p ltac:(left)). done. Qed.

(** The recorders that a call leaves alone, when what was sent stays the same. *)
Lemma agrees_step p inner x y : agrees (responseRecorder p inner) x -> agrees inner y ->
  h_recorders (w_st y) !! p = Some (rec_of (conn_of x)) ->
  rec_of (conn_of y) = rec_of (conn_of x) -> agrees (responseRecorder p inner) y.
Proof.
  intros H Hy Hp Hc. destruct (agrees_inner _ _ _ H) as [_ Hnp]. constructor.
  - apply list.NoDup_cons. split; [done|apply Hy].
  - intros q [->|Hq]%elem_of_cons; [|by apply Hy]. by rewrite Hp, Hc.
Qed.

(** ** The connection's methods *)

Lemma conn_WriteHeader_sent c x s : cn_Sent (conn_of x) = Some s -> conn_WriteHeader c x = (Ok tt, x).
Proof. intros H. unfold conn_WriteHeader, conn_of in *. unmonad. by rewrite H. Qed.

Lemma conn_WriteHeader_new c x : cn_Sent (conn_of x) = None -> informational c = false ->
  (exists msg, conn_WriteHeader c x = (Panic msg, x)) \/
  exists y, conn_WriteHeader c x = (Ok tt, y) /\ rec_of (conn_of y) = mkRecorder c true.
Proof.
  intros H Hi. unfold conn_WriteHeader, conn_of in *. unmonad. rewrite H, Hi.
  destruct ((c <? 100) || (999 <? c)); [left; by eexists|]. right. eexists. by split.
Qed.

Lemma conn_Write_sent b x s : cn_Sent (conn_of x) = Some s ->
  (conn_Write b x).1 = Ok tt /\ cn_Sent (conn_of (conn_Write b x).2) = Some s.
Proof.
  intros H. unfold conn_Write, conn_of in *. unmonad. rewrite H. cbn. rewrite H.
  destruct s as [st hd]. split; [done|]. by case_match.
Qed.

Lemma conn_bare m : (forall l x, m (mkWorld (w_tick x) (h_set_recorders l (w_st x))) =
    ((m x).1, mkWorld (w_tick (m x).2) (h_set_recorders l (w_st (m x).2)))) ->
  (forall x, h_recorders (w_st (m x).2) = h_recorders (w_st x)) -> forall x, alike ConnWriter m m x.
Proof.
  intros Hm Hr x. assert (m (bare x) = ((m x).1, bare (m x).2)) as Hb by apply Hm.
  constructor; [by rewrite Hb..| |].
  - constructor; [constructor|]. intros p Hp%elem_of_nil. done.
  - intros q rec _. by rewrite Hr.
Qed.

#[local] Ltac conn_method := intros; apply conn_bare;
  unfold conn_SetHeader, conn_Write, conn_WriteHeader; intros; unmonad;
  cbn [h_conn h_set_recorders]; repeat (case_match; simplify_eq/=); done.
Lemma conn_SetHeader_alike n v x : alike ConnWriter (conn_SetHeader n v) (conn_SetHeader n v) x.
Proof. conn_method. Qed.
Lemma conn_WriteHeader_alike c x : alike ConnWriter (conn_WriteHeader c) (conn_WriteHeader c) x.
Proof. conn_method. Qed.
Lemma conn_Write_alike b x : alike ConnWriter (conn_Write b) (conn_Write b) x.
Proof. conn_method. Qed.

(** ** The methods of a chain of recorders *)

Lemma Header_Set_alike w n v x : agrees w x -> alike w (Header_Set w n v) (Header_Set ConnWriter n v) x.
Proof.
  revert x. induction w as [|p inner IH]; intros x H; [by apply conn_SetHeader_alike|].
  cbn [Header_Set]. destruct (agrees_inner _ _ _ H) as [Hin Hnp].
  destruct (IH x Hin) as [Hr Hw Ha Ho]. constructor; [done..| |].
  - eapply agrees_step; [exact H|exact Ha|apply Ho; [done|apply (ag_rec _ _ H); left]|].
    assert (conn_of (Header_Set inner n v x).2 = conn_of (conn_SetHeader n v x).2) as ->; [|done].
    by rewrite <-conn_of_bare, Hw.
  - intros q rec Hq. apply Ho. intros Hin'. apply Hq. by right.
Qed.

(** ** Compositions *)

Lemma alike_bind {A B} w (m m0 : M (Http T) A) (f g : A -> M (Http T) B) x :
  alike w m m0 x -> (forall a, m x = (Ok a, (m x).2) -> alike w (f a) (g a) (m x).2) ->
  alike w (m ≫= f) (m0 ≫= g) x.
Proof.
  intros [Hr Hw Ha Ho] Hf. destruct (m x) as [r y] eqn:Hm, (m0 (bare x)) as [r0 y0] eqn:Hm0.
  cbn [fst snd] in *. subst r0 y0. destruct r as [a|e|msg].
  - specialize (Hf a eq_refl) as [Hr' Hw' Ha' Ho'].
    constructor; unfold mbind, M_bind; rewrite Hm, ?Hm0; [done..|].
    intros q rec Hq Hrec. apply Ho'; [done|]. by apply Ho.
  - constructor; unfold mbind, M_bind; rewrite Hm, ?Hm0; done.
  - constructor; unfold mbind, M_bind; rewrite Hm, ?Hm0; done.
Qed.

Lemma alike_ext {A} w (m m' m0 m0' : M (Http T) A) x :
  m x = m' x -> m0 (bare x) = m0' (bare x) -> alike w m' m0' x -> alike w m m0 x.
Proof. intros Hm H0 [? ? ? ?]. constructor; rewrite ?Hm, ?H0; done. Qed.

Lemma alike_ret w x : agrees w x -> alike w (mret tt) (mret tt) x.
Proof. intros H. by constructor. Qed.

(** A call of the inner writer that leaves what was sent. *)
Lemma alike_inner p inner x m m0 : agrees (responseRecorder p inner) x -> alike inner m m0 x ->
  rec_of (conn_of (m x).2) = rec_of (conn_of x) -> alike (responseRecorder p inner) m m0 x.
Proof.
  intros H [Hr Hw Ha Ho] Hc. constructor; [done..| |].
  - eapply agrees_step; [exact H|exact Ha| |exact Hc]. apply Ho; [by apply (agrees_inner p inner x)|apply (ag_rec _ _ H); left].
  - intros q rec Hq. apply Ho. intros Hin. apply Hq. by right.
Qed.

Lemma alike_conn {A} w (m m0 : M (Http T) A) x : alike w m m0 x -> conn_of (m x).2 = conn_of (m0 (bare x)).2.
Proof. intros H. by rewrite <-conn_of_bare, (al_world _ _ _ _ H). Qed.

(** A call of the inner writer that sends, noted in the recorder. *)
Lemma alike_store p inner x m m0 rec : agrees (responseRecorder p inner) x -> alike inner m m0 x ->
  (m0 (bare x)).1 = Ok tt -> rec_of (conn_of (m0 (bare x)).2) = rec ->
  alike (responseRecorder p inner) (m;; store_recorder p rec) m0 x.
Proof.
  intros H Hal H0 Hrec. destruct (agrees_inner _ _ _ H) as [_ Hnp].
  pose proof (alike_conn _ _ _ _ Hal) as Hcy. destruct Hal as [Hr Hw Ha Ho].
  assert ((m;; store_recorder p rec) x = (Ok tt, mkWorld (w_tick (m x).2)
    (h_set_recorders (<[p := rec]> (h_recorders (w_st (m x).2))) (w_st (m x).2)))) as Hm.
  { unfold store_recorder. unmonad. rewrite H0 in Hr. destruct (m x) as [r y]. cbn in Hr. by subst r. }
  set (y := (m x).2) in *. clearbody y. rewrite <-Hcy in Hrec.
  constructor; rewrite Hm; cbn [fst snd w_st h_set_recorders h_recorders ptrs].
  - by rewrite H0.
  - by rewrite <-Hw.
  - constructor; [apply H|]. cbn [w_st h_set_recorders h_recorders]. intros q Hq.
    change (conn_of _) with (conn_of y). rewrite Hrec. destruct (decide (q = p)) as [->|Hqp].
    + apply list_lookup_insert_eq, lookup_lt_is_Some.
      eexists. apply (Ho p _ Hnp), (ag_rec _ _ H). left.
    + rewrite list_lookup_insert_ne by done. rewrite (ag_rec _ _ Ha q), Hrec; [done|].
      by apply elem_of_cons in Hq as [->|?].
  - intros q rec' Hq. rewrite list_lookup_insert_ne by (intros ->; apply Hq; left).
    apply Ho. intros ?. apply Hq. by right.
Qed.

Lemma WriteHeader_alike w c x : agrees w x -> informational c = false ->
  alike w (WriteHeader w c) (WriteHeader ConnWriter c) x.
Proof.
  intros H Hc. revert x H. induction w as [|p inner IH]; intros x H; [apply conn_WriteHeader_alike|].
  destruct (agrees_inner _ _ _ H) as [Hin _]. specialize (IH x Hin). cbn [WriteHeader] in *.
  assert (forall f : Recorder -> MH unit, (load_recorder p ≫= f) x = f (rec_of (conn_of x)) x) as Hload
    by (intros f; unfold mbind, M_bind; by rewrite (agrees_load _ _ _ H)).
  destruct (cn_Sent (conn_of x)) as [s|] eqn:Hs.
  { eapply alike_ext; [| |by apply alike_ret].
    - rewrite Hload. unfold rec_of. rewrite Hs. by destruct s.
    - exact (conn_WriteHeader_sent c (bare x) s Hs). }
  assert (rec_wrote (rec_of (conn_of x)) = false) as Hw by (unfold rec_of; by rewrite Hs).
  eapply alike_ext; [rewrite Hload, Hw; reflexivity|reflexivity|].
  destruct (conn_WriteHeader_new c (bare x) Hs Hc) as [[msg H0]|(y0 & H0 & Hy0)].
  - eapply alike_ext; [|reflexivity|apply alike_inner; [done|exact IH|]].
    + pose proof (al_res _ _ _ _ IH) as Hr. rewrite H0 in Hr. unfold mbind, M_bind.
      destruct (WriteHeader inner c x) as [r y]. cbn in Hr. by subst r.
    + by rewrite (alike_conn _ _ _ _ IH), H0.
  - apply alike_store; [done..| |]; by rewrite H0.
Qed.

Lemma conn_Write_header b x : cn_Sent (conn_of x) = None ->
  conn_Write b x = (conn_WriteHeader 200;; conn_Write b) x.
Proof.
  intros H. unfold conn_Write, conn_WriteHeader, conn_of in *. unmonad. rewrite H. cbn. by rewrite ?H.
Qed.

Lemma Write_alike w b x : agrees w x -> alike w (Write w b) (Write ConnWriter b) x.
Proof.
  revert x. induction w as [|p inner IH]; intros x H; [apply conn_Write_alike|].
  assert (forall x' s, agrees (responseRecorder p inner) x' -> cn_Sent (conn_of x') = Some s ->
    alike (responseRecorder p inner) (Write inner b) (conn_Write b) x') as Hsent.
  { intros x' s H' Hs. pose proof (IH x' (proj1 (agrees_inner _ _ _ H'))) as Hi.
    apply alike_inner; [done..|]. rewrite (alike_conn _ _ _ _ Hi). cbn [Write].
    unfold rec_of. rewrite (proj2 (conn_Write_sent b (bare x') s Hs)), Hs. done. }
  assert (Write (responseRecorder p inner) b x =
    ((if rec_wrote (rec_of (conn_of x)) then mret tt else WriteHeader (responseRecorder p inner) 200);;
     Write inner b) x) as Hm.
  { cbn [Write]. unfold mbind at 1, M_bind at 1. by rewrite (agrees_load _ _ _ H). }
  destruct (cn_Sent (conn_of x)) as [s|] eqn:Hs.
  { eapply alike_ext; [|reflexivity|by eapply Hsent]. rewrite Hm. unfold rec_of. rewrite Hs. by destruct s. }
  assert (Write (responseRecorder p inner) b x = (WriteHeader (responseRecorder p inner) 200;; Write inner b) x)
    as Hm' by (rewrite Hm; unfold rec_of; by rewrite Hs).
  eapply alike_ext; [exact Hm'|exact (conn_Write_header b (bare x) Hs)|]. clear Hm Hm'.
  pose proof (WriteHeader_alike _ 200 x H eq_refl) as Hh. apply alike_bind; [exact Hh|].
  intros [] Hok. destruct (conn_WriteHeader_new 200 (bare x) Hs eq_refl) as [[msg H0]|(y0 & H0 & Hy0)].
  - pose proof (al_res _ _ _ _ Hh) as Hr. rewrite Hok in Hr. cbn [WriteHeader] in Hr. by rewrite H0 in Hr.
  - pose proof (alike_conn _ _ _ _ Hh) as Hc. cbn [WriteHeader] in Hc. rewrite H0 in Hc.
    destruct (cn_Sent (conn_of (WriteHeader (responseRecorder p inner) 200 x).2)) as [s|] eqn:Hs'.
    + by eapply Hsent; [apply Hh|].
    + unfold rec_of in Hy0. cbn [snd] in Hc. rewrite <-Hc in Hy0. cbn [WriteHeader] in *. by rewrite Hs' in Hy0.
Qed.

(** ** Handlers *)

(** The handler sends no informational status: by itself, not by what its own code answers. *)
Fixpoint final_only (p : hprog T) : Prop :=
  match p with
  | HEnd => True
  | HApp m k => forall z a z', m z = (Ok a, z') -> final_only (k a)
  | HSetHeader _ _ k | HWrite _ k => final_only k
  | HWriteHeader c k => informational c = false /\ final_only k
  end.

Lemma on_app_alike {A} w (m : M T A) x : agrees w x -> alike w (on_app m) (on_app m) x.
Proof.
  intros H. unfold on_app. constructor; unfold bare; cbn [w_tick w_st h_app h_set_recorders];
    destruct (m _) as [r z]; [done..| |].
  - constructor; apply H.
  - intros q rec _. done.
Qed.

Lemma on_app_ok {A} (m : M T A) x a y : on_app m x = (Ok a, y) -> exists z z', m z = (Ok a, z').
Proof.
  unfold on_app. destruct (m _) as [r z] eqn:Hm. intros [= -> _]. by eexists _, z.
Qed.

Lemma run_handler_alike p w x : final_only p -> agrees w x ->
  alike w (run_handler p w) (run_handler p ConnWriter) x.
Proof.
  revert x. induction p as [|A m k IH|n v k IH|c k IH|b k IH]; intros x Hf H; cbn [run_handler].
  - by apply alike_ret.
  - pose proof (on_app_alike w m x H) as Hm. apply alike_bind; [done|]. intros a Ha.
    destruct (on_app_ok _ _ _ _ Ha) as (z & z' & Hz). apply IH; [by eapply Hf|apply Hm].
  - pose proof (Header_Set_alike w n v x H) as Hm. apply alike_bind; [done|]. intros [] _.
    apply IH; [done|apply Hm].
  - destruct Hf as [Hc Hf]. pose proof (WriteHeader_alike w c x H Hc) as Hm.
    apply alike_bind; [done|]. intros [] _. apply IH; [done|apply Hm].
  - pose proof (Write_alike w b x H) as Hm. apply alike_bind; [done|]. intros [] _.
    apply IH; [done|apply Hm].
Qed.

(** A handler on the connection neither counts nor logs. *)
Definition same_records h h' : Prop :=
  h_requests h' = h_requests h /\ h_durations h' = h_durations h /\ h_log h' = h_log h.
Lemma then_records {A B} (m : M (Http T) A) (f : A -> M (Http T) B) x :
  (forall y, same_records (w_st y) (w_st (m y).2)) ->
  (forall a y, same_records (w_st y) (w_st (f a y).2)) -> same_records (w_st x) (w_st ((m ≫= f) x).2).
Proof.
  intros Hm Hf. unfold mbind, M_bind. pose proof (Hm x) as Hx. destruct (m x) as [[a|e|p] y]; [|done..].
  destruct Hx as (H1 & H2 & H3), (Hf a y) as (? & ? & ?). cbn [snd] in *. split_and!; congruence.
Qed.
Lemma conn_records n v c b x : same_records (w_st x) (w_st (conn_SetHeader n v x).2) /\
  same_records (w_st x) (w_st (conn_WriteHeader c x).2) /\ same_records (w_st x) (w_st (conn_Write b x).2).
Proof.
  unfold conn_SetHeader, conn_Write, conn_WriteHeader. unmonad.
  split_and!; repeat (case_match; simplify_eq/=); by split_and!.
Qed.
Lemma run_handler_records p x : same_records (w_st x) (w_st (run_handler p ConnWriter x).2).
Proof.
  revert x. induction p as [|A m k IH|n v k IH|c k IH|b k IH]; intros x; cbn [run_handler];
    [by split_and!|apply then_records; [|intros ?; apply IH]..]; intros y.
  - unfold on_app. destruct (m _). by split_and!.
  - apply (conn_records n v 0 "").
  - apply (conn_records "" "" c "").
  - apply (conn_records "" "" 0 b).
Qed.

(** ** The middleware without recorders *)

(** The status that a connection has, or gets when the handler returns. *)
Definition status_of (h : Http T) : Z := rec_statusCode (rec_of (h_conn h)).

Definition route_label (r : HttpReq) : string :=
  if decide (GetRoutePattern r = "") then rq_Path r else GetRoutePattern r.

Definition metered (r : HttpReq) m : MH unit :=
  start ← time_now;
  m;;
  h ← get;
  http_requests_total_Inc (rq_Method r) (route_label r) (Itoa (status_of h));;
  now ← time_now;
  http_request_duration_Observe (rq_Method r) (route_label r) (now - start).

Definition logged (r : HttpReq) m : MH unit :=
  start ← time_now;
  m;;
  h ← get;
  now ← time_now;
  modify (h_Info (mkLogEntry (GetRequestID r) (status_of h) (rq_Method r) (rq_Path r)
    (Header_Get r "User-Agent") (rq_RemoteAddr r) (now - start))).

(** A handler that does the same on every writer. *)
Definition uniform (next : HttpHandler (T := T)) (r : HttpReq) m0 : Prop :=
  forall w x, agrees w x -> cn_Sent (conn_of x) = None -> alike w (next w r) m0 x.

(** Steps that only read the clock, count and log. *)
Lemma alike_time_now w x : agrees w x -> alike w time_now time_now x.
Proof. intros H. constructor; [done..| |done]. constructor; apply H. Qed.
Lemma alike_panic w x msg : agrees w x -> alike w (panic msg : MH unit) (panic msg) x.
Proof. intros H. by constructor. Qed.
Lemma alike_modify w x g : agrees w x ->
  (forall h, h_conn (g h) = h_conn h) -> (forall h, h_recorders (g h) = h_recorders h) ->
  (forall h, g (h_set_recorders [] h) = h_set_recorders [] (g h)) ->
  alike w (modify g) (modify g) x.
Proof.
  intros H Hc Hr Hb. unfold modify. constructor; cbn [fst snd].
  - done.
  - unfold bare. cbn [w_tick w_st]. by rewrite Hb.
  - constructor; [apply H|]. cbn [w_st]. rewrite Hr. unfold conn_of. cbn [w_st]. rewrite Hc. apply H.
  - intros q rec _. cbn [w_st]. by rewrite Hr.
Qed.

Lemma alike_total w x a b c : agrees w x ->
  alike w (http_requests_total_Inc a b c) (http_requests_total_Inc a b c) x.
Proof.
  intros H. unfold http_requests_total_Inc. case_match; [by apply alike_modify|by apply alike_panic].
Qed.
Lemma alike_duration w x a b d : agrees w x ->
  alike w (http_request_duration_Observe a b d) (http_request_duration_Observe a b d) x.
Proof.
  intros H. unfold http_request_duration_Observe. case_match; [by apply alike_modify|by apply alike_panic].
Qed.

Lemma agrees_new w x : agrees w x -> cn_Sent (conn_of x) = None ->
  let q := length (h_recorders (w_st x)) in
  agrees (responseRecorder q w) (newResponseRecorder w x).2 /\
  (forall p rec, h_recorders (w_st x) !! p = Some rec ->
     p <> q /\ h_recorders (w_st (newResponseRecorder w x).2) !! p = Some rec).
Proof.
  intros H Hs q. unfold newResponseRecorder. unmonad. cbn [snd w_st h_set_recorders h_recorders].
  assert (forall p rec, h_recorders (w_st x) !! p = Some rec ->
    p <> q /\ (h_recorders (w_st x) ++ [mkRecorder 200 false]) !! p = Some rec) as Hold.
  { intros p rec Hp. split; [|by apply lookup_app_l_Some]. intros ->. apply lookup_lt_Some in Hp. lia. }
  split; [|done]. constructor.
  - apply list.NoDup_cons. split; [|apply H]. intros Hin. by destruct (Hold q _ (ag_rec _ _ H q Hin)).
  - intros p [->|Hp]%elem_of_cons; cbn [w_st h_recorders].
    + cbn [h_set_recorders h_recorders]. change (conn_of _) with (conn_of x). unfold rec_of. rewrite Hs.
      by rewrite lookup_app_r, Nat.sub_diag by done.
    + apply Hold, (ag_rec _ _ H p Hp).
Qed.

Lemma status_alike w q (k : Z -> MH unit) y :
  (forall st y, agrees w y -> alike w (k st) (k st) y) -> agrees (responseRecorder q w) y ->
  alike w (rec ← load_recorder q; k (rec_statusCode rec)) (h ← get; k (status_of h)) y.
Proof.
  intros Hk Hy. eapply (alike_ext w _ (k (rec_statusCode (rec_of (conn_of y)))) _
    (k (rec_statusCode (rec_of (conn_of y))))); [|done|by apply Hk, (agrees_inner q w)].
  unfold mbind, M_bind. by rewrite (agrees_load _ _ _ Hy).
Qed.

(** A handler behind a new recorder, whose status is read afterwards. *)
Lemma recorded_alike w next r m0 (k : Z -> MH unit) x :
  uniform next r m0 -> (forall st y, agrees w y -> alike w (k st) (k st) y) ->
  agrees w x -> cn_Sent (conn_of x) = None ->
  alike w ('(p, rec) ← newResponseRecorder w; next rec r;; rec ← load_recorder p; k (rec_statusCode rec))
    (m0;; h ← get; k (status_of h)) x.
Proof.
  intros Hn Hk H Hs. destruct (agrees_new w x H Hs) as [Hnew Hold].
  set (q := length (h_recorders (w_st x))) in *. set (x2 := (newResponseRecorder w x).2) in *.
  assert (newResponseRecorder w x = (Ok (q, responseRecorder q w), x2)) as Halloc by done.
  assert (bare x2 = bare x) as Hb by done. clearbody x2.
  pose proof (Hn (responseRecorder q w) x2 Hnew ltac:(by rewrite (bare_eq _ _ Hb))) as Hnext.
  set (rest := fun _ : unit => rec ← load_recorder q; k (rec_statusCode rec)).
  set (rest0 := fun _ : unit => h ← get; k (status_of h)).
  assert (forall y, agrees (responseRecorder q w) y -> alike w (rest tt) (rest0 tt) y) as Hrest
    by (intros y Hy; by apply status_alike).
  assert (forall p rec, p ∉ ptrs w -> h_recorders (w_st x) !! p = Some rec ->
    h_recorders (w_st (next (responseRecorder q w) r x2).2) !! p = Some rec) as Hkeep.
  { intros p rec Hp Hrec. destruct (Hold p rec Hrec) as [Hpq Hp2].
    apply (al_other _ _ _ _ Hnext); [|done]. cbn. by intros [?|?]%elem_of_cons. }
  match goal with |- alike w ?m _ _ =>
    assert (m x = (next (responseRecorder q w) r ≫= rest) x2) as Hm
      by (unfold mbind at 1, M_bind at 1; by rewrite Halloc);
    set (all := m) in *; clearbody all end.
  change (m0;; h ← get; k (status_of h)) with (m0 ≫= rest0). clearbody rest rest0. pose proof (agrees_inner q w _ (al_agrees _ _ _ _ Hnext)) as [Hin _].
  destruct Hnext as [Hr Hw Ha _]. rewrite Hb in Hr, Hw.
  destruct (next (responseRecorder q w) r x2) as [r1 y] eqn:Hy, (m0 (bare x)) as [r0 y0] eqn:Hy0.
  cbn [fst snd] in *. subst r0 y0.
  assert ((next (responseRecorder q w) r ≫= rest) x2 =
    match r1 with Ok a => rest a y | Err e => (Err e, y) | Panic msg => (Panic msg, y) end) as Hl
    by (unfold mbind, M_bind; by rewrite Hy).
  assert ((m0 ≫= rest0) (bare x) =
    match r1 with Ok a => rest0 a (bare y) | Err e => (Err e, bare y) | Panic msg => (Panic msg, bare y) end)
    as Hl0 by (unfold mbind, M_bind; by rewrite Hy0).
  destruct r1 as [[]|e|msg].
  - destruct (Hrest y Ha) as [Hr' Hw' Ha' Ho']. constructor; rewrite ?Hm, ?Hl, ?Hl0; [done..|].
    intros p rec Hp Hrec. apply Ho'; [done|]. by apply Hkeep.
  - constructor; rewrite Hm, Hl, ?Hl0; done.
  - constructor; rewrite Hm, Hl, ?Hl0; done.
Qed.

Lemma Metrics_uniform next r m0 : uniform next r m0 -> uniform (Metrics next) r (metered r m0).
Proof.
  intros Hn w x H Hs. unfold Metrics, metered. apply alike_bind; [by apply alike_time_now|].
  intros start Hst. assert (agrees w (time_now x).2 /\ cn_Sent (conn_of (time_now x).2) = None) as [H' Hs']
    by (split; [apply alike_time_now; exact H|exact Hs]).
  apply (recorded_alike w next r m0 (fun st => http_requests_total_Inc (rq_Method r) (route_label r) (Itoa st);;
    now ← time_now; http_request_duration_Observe (rq_Method r) (route_label r) (now - start))); [done| |done..].
  intros st y Hy. pose proof (alike_total w y (rq_Method r) (route_label r) (Itoa st) Hy) as Ht.
  apply alike_bind; [exact Ht|]. intros [] _. pose proof (alike_time_now w _ (al_agrees _ _ _ _ Ht)) as Hn'.
  apply alike_bind; [exact Hn'|]. intros now _. apply alike_duration, Hn'.
Qed.

Lemma Logging_uniform next r m0 : uniform next r m0 -> uniform (Logging next) r (logged r m0).
Proof.
  intros Hn w x H Hs. unfold Logging, logged. apply alike_bind; [by apply alike_time_now|].
  intros start Hst. assert (agrees w (time_now x).2 /\ cn_Sent (conn_of (time_now x).2) = None) as [H' Hs']
    by (split; [apply alike_time_now; exact H|exact Hs]).
  apply (recorded_alike w next r m0 (fun st => now ← time_now;
    modify (h_Info (mkLogEntry (GetRequestID r) st (rq_Method r) (rq_Path r)
      (Header_Get r "User-Agent") (rq_RemoteAddr r) (now - start))))); [done| |done..].
  intros st y Hy. pose proof (alike_time_now w _ Hy) as Hn'. apply alike_bind; [exact Hn'|].
  intros now _. by apply alike_modify; [apply Hn'|..].
Qed.

Lemma HandlerFunc_uniform f r : final_only (f r) -> uniform (HandlerFunc f) r (run_handler (f r) ConnWriter).
Proof. intros Hf w x H _. by apply run_handler_alike. Qed.

(** ** What a request leaves *)

(** The id of a request, and the world in which its handler starts: the id's header is set,
    and the two clocks are read. *)
Definition request_id (r : HttpReq) x : string :=
  if decide (Header_Get r "X-Request-ID" = "") then uuid_at (w_tick x)
  else Header_Get r "X-Request-ID".
Definition id_tick (r : HttpReq) x : nat :=
  if decide (Header_Get r "X-Request-ID" = "") then S (w_tick x) else w_tick x.
Definition entered (r : HttpReq) x : W :=
  mkWorld (2 + id_tick r x)
    (w_st (Header_Set ConnWriter "X-Request-ID" (request_id r x) (bare x)).2).

(** The world [y] a handler left, counted, timed and logged. *)
Definition observed (r : HttpReq) x y : W :=
  let t := id_tick r x in
  let now := w_tick y in
  let st := status_of (w_st y) in
  mkWorld (2 + now)
    (h_Info (mkLogEntry (request_id r x) st (rq_Method r) (rq_Path r) (Header_Get r "User-Agent")
       (rq_RemoteAddr r) (time_at (1 + now) - time_at t))
    (h_observe (rq_Method r, route_label r) (time_at now - time_at (1 + t))
    (h_count (rq_Method r, route_label r, Itoa st) (w_st y)))).

(** The shared middleware changes nothing of a response.  A request under RequestID,
    Logging and Metrics does what its handler alone does on the connection, after the request
    id's header was set; once the handler has returned, it is counted once under its method,
    route and the status that the client gets, timed and logged.  A handler that panics is
    neither counted nor logged; and labels that Prometheus refuses make the middleware panic. *)
Lemma middleware_spec (f : HttpReq -> hprog T) r x :
  cn_Sent (h_conn (w_st x)) = None -> (forall r', final_only (f r')) ->
  let direct := run_handler (f (with_RequestID (request_id r x) r)) ConnWriter (entered r x) in
  let served := RequestID (Logging (Metrics (HandlerFunc f))) ConnWriter r x in
  match direct with
  | (Ok _, y) =>
      if forallb valid_label [rq_Method r; route_label r; Itoa (status_of (w_st y))]
      then served.1 = Ok tt /\ bare served.2 = observed r x y
      else (exists msg, served.1 = Panic msg) /\ bare served.2 = y
  | (bad, y) => served.1 = bad /\ bare served.2 = y
  end.
Proof.
  intros Hs Hf direct served. set (r1 := with_RequestID (request_id r x) r).
  assert (exists x1, served = Logging (Metrics (HandlerFunc f)) ConnWriter r1 x1 /\
    w_tick x1 = id_tick r x /\ bare x1 = mkWorld (id_tick r x) (w_st (entered r x)) /\
    cn_Sent (conn_of x1) = None) as (x1 & Hserved & Ht & Hb & Hs1).
  { unfold r1, served, RequestID, entered, id_tick, request_id. unfold Header_Set, conn_SetHeader.
    unmonad. destruct (decide _); eexists; (split_and!; [reflexivity|reflexivity|reflexivity|exact Hs]). }
  pose proof (Logging_uniform _ r1 _ (Metrics_uniform _ r1 _ (HandlerFunc_uniform f r1 (Hf r1)))
    ConnWriter x1 ltac:(by constructor; [constructor|intros p ?%elem_of_nil]) Hs1) as [Hr Hw _ _].
  rewrite <-Hserved in Hr, Hw. rewrite Hb in Hr, Hw. clearbody served. clear Hserved Hb Hs1 x1 Ht.
  unfold logged, metered in Hr, Hw. unmonad.
  change (mkWorld (S (S (id_tick r x))) (w_st (entered r x))) with (entered r x) in Hr, Hw.
  change (run_handler (f r1) ConnWriter (entered r x)) with direct in Hr, Hw.
  change (route_label r1) with (route_label r) in Hr, Hw.
  change (rq_Method r1) with (rq_Method r) in Hr, Hw.
  destruct direct as [[[]|e|msg] y]; [|done..]. cbn [fst snd] in *.
  unfold http_requests_total_Inc, http_request_duration_Observe in Hr, Hw.
  destruct (forallb valid_label [rq_Method r; route_label r; _]) eqn:Hl.
  2: { unfold panic in Hr, Hw. split; [by eexists|exact Hw]. }
  assert (forallb valid_label [rq_Method r; route_label r] = true) as Hl2.
  { cbn in Hl |- *. by repeat destruct (valid_label _). }
  rewrite Hl2 in Hr, Hw. done.
Qed.

End Transparent.
