(* ===== verification/Gateway.v ===== *)
(** * Gateway: the HTTP front of the system

    [internal/gateway/server.go] and its clients of the three services.  JWT validation
    is the class [Jwks], which Auth implements.  A handler is a function to a reply, which
    [Router] writes under the shared middleware.  The routes match a path against the
    registered patterns; the redirects of [http.ServeMux] for unclean paths are not modelled. *)

From S2P Require Import Prelude GoStd GoJson Decimal OddsModels WalletService WalletServer.
From S2P Require Import OddsServer BetServer RateLimit Middleware.

(** ** Messages the gateway prints *)
Inductive gw_message : Type :=
| PbBalance (r : GetBalanceResponse)
| PbTransactions (l : list pbTransaction)
| PbDepositAddress (address chain currency : string)
| PbWithdrawalRequested (id status : string)
| PbPendingWithdrawals (l : list pbWithdrawal)
| PbReview (status : string)
| PbSports (l : list pbSport)
| PbLeagues (l : list pbLeague)
| PbEvents (l : list pbEvent)
| PbEvent (e : pbEvent)
| PbMarkets (l : list pbMarket)
| PbOutcomes (l : list pbOutcome)
| PbBet (b : pbBet)
| PbBets (l : list pbBet).

Definition Reply : Type := HttpReply gw_message.

Class Jwks (S : Type) : Type := { jwks_UserFromRequest : HttpReq -> M S User }.

(** ** Configuration *)
Definition comma : ascii := ","%char.

Definition splitTrim (s : string) : list string :=
  filter (fun p => p <> "") (TrimSpace <$> Split s comma).

Definition parsePairs (s : string) : gmap string unit :=
  foldl (fun out p => match parse_pair p with
                      | Some (currency, chain) => <[pair_key currency chain := tt]> out
                      | None => out
                      end) ∅ (Split s comma).

(** [parts[0]], [parts[1]] of [SplitN(pair, ":", 2)]. *)
Definition pair_parts (p : string) : res (string * string) :=
  match SplitN2 p colon with
  | [a; b] => Ok (a, b)
  | _ => Panic "index out of range"
  end.

Fixpoint collect_pairs (pairs : list (string * unit)) (curSet chainSet : gmap string unit) :
    res (gmap string unit * gmap string unit) :=
  match pairs with
  | [] => Ok (curSet, chainSet)
  | (p, _) :: pairs =>
      '(a, b) ← pair_parts p;
      collect_pairs pairs (<[a := tt]> curSet) (<[b := tt]> chainSet)
  end.

Record Server : Type := mkServer {
  gw_adminUserIDs : gmap string unit;
  gw_corsAllowedOrigins : gmap string unit;
  gw_corsAllowAll : bool;
  gw_supportedCurrencies : list string;
  gw_supportedChains : list string;
  gw_supportedPairs : gmap string unit;
  gw_limits : Limits;
}.

Definition isSupportedCurrency (s : Server) (c : string) : bool :=
  existsb (fun c2 => bool_decide (c2 = c)) (gw_supportedCurrencies s).
Definition isSupportedChain (s : Server) (c : string) : bool :=
  existsb (fun c2 => bool_decide (c2 = c)) (gw_supportedChains s).
Definition gw_isSupportedPair (s : Server) (currency chain : string) : bool :=
  if decide (size (gw_supportedPairs s) = 0%nat)
  then isSupportedCurrency s currency && isSupportedChain s chain
  else bool_decide (is_Some (gw_supportedPairs s !! pair_key currency chain)).

Definition firstOrEmpty (parts : list string) : string :=
  match parts with [] => "" | p :: _ => p end.

(** ** Replies *)
Definition json_header : gmap string string := {["Content-Type" := "application/json"]}.
Definition write_any (status : Z) (v : any) : Reply := mkHttpReply status json_header (BodyJSON v).
Definition write_proto (status : Z) (m : gw_message) : Reply :=
  mkHttpReply status json_header (BodyProto m).

Section Gateway.
Context {S : Type} `{E : GoEnv, GT : GrpcText, D : Decimal, Lim : Limiter,
  LS : Lens S LimiterState, RL : RedisLink S, JW : Jwks S, WCn : WalletConn S,
  SCn : SportsbookConn S, OCn : OddsFeedConn S, Pm : Prometheus}.

Definition writeError (status : Z) (err : option goerr) : Reply :=
  let msg := match err with Some e => Error e | None => "internal error" end in
  write_any status (JObj [("error", JStr msg)]).

Definition deriveLists (pairs : gmap string unit) (currencies chains : list string) :
    M S (list string * list string) :=
  ps ← range pairs;
  '(curSet, chainSet) ← of_res (collect_pairs ps ∅ ∅);
  cs ← (if decide (currencies = []) then l ← range curSet; mret l.*1 else mret currencies);
  hs ← (if decide (chains = []) then l ← range chainSet; mret l.*1 else mret chains);
  mret (cs, hs).

Definition set_of (l : list string) : gmap string unit :=
  foldl (fun m x => <[x := tt]> m) ∅ l.

Definition NewServer (adminUserIDs corsAllowedOrigins supportedCurrencies supportedChains
    supportedPairs : string) (limits : Limits) : M S Server :=
  let admins := set_of (splitTrim adminUserIDs) in
  let origins := splitTrim corsAllowedOrigins in
  let allowAll := existsb (fun o => bool_decide (o = "*")) origins in
  let pairs := parsePairs supportedPairs in
  let currencies := splitTrim supportedCurrencies in
  let chains := splitTrim supportedChains in
  '(currencies, chains) ← (if decide (size pairs = 0%nat) then mret (currencies, chains)
                           else deriveLists pairs currencies chains);
  mret (mkServer admins (set_of (filter (fun o => o <> "*") origins)) allowAll currencies
          chains pairs limits).

(** ** The clients *)
Definition user_md (userID : string) : MD := {[UserIDHeader := [userID]]}.
Definition admin_md (userID : string) : MD :=
  <[UserIDHeader := [userID]]> {[IsAdminHeader := ["true"]]}.

Definition WalletClient_GetRates (fiat : string) : M S (string * gmap string string) :=
  conn_GetRates (user_md gatewayCallerID) fiat.
Definition WalletClient_GetBalance (userID currency fiat : string) : M S GetBalanceResponse :=
  conn_GetBalance (user_md userID) userID currency fiat.
Definition WalletClient_ListTransactions (userID fiat : string) (page pageSize : Z) :
    M S (list pbTransaction) :=
  conn_ListTransactions (user_md userID) userID (int32 page) (int32 pageSize) fiat.
Definition WalletClient_GetDepositAddress (userID currency chain : string) :
    M S (string * string * string) :=
  conn_GetDepositAddress (user_md userID) userID currency chain.
Definition WalletClient_RequestWithdrawal
    (userID currency amount destinationAddress chain : string) : M S (string * string) :=
  conn_RequestWithdrawal (user_md userID) userID currency amount destinationAddress chain.
Definition WalletClient_ProcessDepositWebhook (body : string) (headers : gmap string string) :
    M S string :=
  conn_ProcessDepositWebhook (user_md gatewayCallerID) body headers.
Definition WalletClient_ListPendingWithdrawals (page pageSize : Z) : M S (list pbWithdrawal) :=
  conn_ListPendingWithdrawals (admin_md gatewayCallerID) (int32 page) (int32 pageSize).
Definition WalletClient_ReviewWithdrawal (id action txHash reviewedBy : string) : M S string :=
  conn_ReviewWithdrawal (admin_md reviewedBy) id action txHash reviewedBy.
Definition WalletClient_DebitWallet (userID currency amount referenceID metadataJSON : string) :
    M S (string * string) :=
  conn_DebitWallet (admin_md gatewayCallerID)
    (mkMoveRequest userID currency amount referenceID metadataJSON).
Definition WalletClient_CreditWallet (userID currency amount referenceID metadataJSON : string) :
    M S (string * string) :=
  conn_CreditWallet (admin_md gatewayCallerID)
    (mkMoveRequest userID currency amount referenceID metadataJSON).

Definition SportsbookClient_PlaceBet (req : PlaceBetRequest) : M S pbBet :=
  conn_PlaceBet (user_md gatewayCallerID) req.
Definition SportsbookClient_GetBet (id : string) : M S pbBet :=
  conn_GetBet (user_md gatewayCallerID) id.
Definition SportsbookClient_ListBets (userID status : string) (page pageSize : Z) :
    M S (list pbBet) :=
  conn_ListBets (user_md gatewayCallerID) userID status (int32 page) (int32 pageSize).
Definition SportsbookClient_SettleBet (betID outcome : string) : M S pbBet :=
  conn_SettleBet (admin_md gatewayCallerID) betID outcome.

Definition OddsFeedClient_ListSports (page pageSize : Z) : M S (list pbSport) :=
  conn_ListSports (int32 page) (int32 pageSize).
Definition OddsFeedClient_ListLeagues (sportID : string) (page pageSize : Z) :
    M S (list pbLeague) := conn_ListLeagues sportID (int32 page) (int32 pageSize).
Definition OddsFeedClient_ListEvents (sportID leagueID status : string) (page pageSize : Z) :
    M S (list pbEvent) := conn_ListEvents sportID leagueID status (int32 page) (int32 pageSize).
Definition OddsFeedClient_GetEvent (id : string) : M S (option pbEvent) := conn_GetEvent id.
Definition OddsFeedClient_ListMarkets (eventID status : string) (page pageSize : Z) :
    M S (list pbMarket) := conn_ListMarkets eventID status (int32 page) (int32 pageSize).
Definition OddsFeedClient_ListOutcomes (marketID status : string) (page pageSize : Z) :
    M S (list pbOutcome) := conn_ListOutcomes marketID status (int32 page) (int32 pageSize).
Definition OddsFeedClient_ListLiveScores (sportID leagueID : string) (page pageSize : Z) :
    M S (list pbEvent) := conn_ListLiveScores sportID leagueID (int32 page) (int32 pageSize).

(** ** Handlers *)

(** [resp, err := call; if err != nil { writeError(status(err), err) } else { ... }] *)
Definition reply_or {A} (status : goerr -> Z) (call : M S A) (k : A -> Reply) : M S Reply :=
  r ← attempt call;
  match r with
  | Ok a => mret (k a)
  | Err e => mret (writeError (status e) (Some e))
  | Panic p => panic p
  end.
Definition always (code : Z) : goerr -> Z := fun _ => code.

Definition grpcStatusToHTTP (err : goerr) : Z :=
  match status_FromError err with
  | None => 500
  | Some InvalidArgument => 400
  | Some NotFound => 404
  | Some AlreadyExists => 409
  | Some Unauthenticated => 401
  | Some PermissionDenied => 403
  | Some FailedPrecondition => 409
  | Some _ => 500
  end.

Definition cors (s : Server) (next : Handler S gw_message) : Handler S gw_message := fun r =>
  let origin := Header_Get r "Origin" in
  let allowedOrigin :=
    if gw_corsAllowAll s then Some "*"
    else if decide (origin = "") then None
    else if decide (is_Some (gw_corsAllowedOrigins s !! origin)) then Some origin else None in
  let h := match allowedOrigin with
           | Some o =>
               <["Access-Control-Allow-Origin" := o]>
               (<["Access-Control-Allow-Methods" := "GET, POST, PUT, PATCH, DELETE, OPTIONS"]>
               (<["Access-Control-Allow-Headers" := "Authorization, Content-Type"]>
               {["Access-Control-Max-Age" := "86400"]}))
           | None => ∅
           end in
  if decide (rq_Method r = "OPTIONS")
  then mret (with_headers h (mkHttpReply 204 ∅ (BodyText "")))
  else reply ← next r; mret (with_headers h reply).

Definition auth (next : Handler S gw_message) : Handler S gw_message := fun r =>
  u ← attempt (jwks_UserFromRequest r);
  match u with
  | Ok user => next (with_user user r)
  | Err err => mret (writeError 401 (Some err))
  | Panic p => panic p
  end.

Definition admin (s : Server) (next : Handler S gw_message) : Handler S gw_message := fun r =>
  match rq_User r with
  | None => mret (writeError 401 None)
  | Some user =>
      if decide (is_Some (gw_adminUserIDs s !! user_ID user)) then next r
      else mret (mkHttpReply 403 ∅ (BodyText ""))
  end.

(** [user, ok := s.userFromContext(w, r); if !ok { return }] *)
Definition userFromContext (r : HttpReq) (k : User -> M S Reply) : M S Reply :=
  match rq_User r with
  | None => mret (writeError 401 None)
  | Some user => k user
  end.

Definition handleHealth : Handler S gw_message := fun r =>
  mret (mkHttpReply 200 json_header
    (BodyText (marshal (JObj [("status", JStr "healthy"); ("service", JStr "gateway")])))).

Definition handleSupported (s : Server) : Handler S gw_message := fun r =>
  pairs ← range (gw_supportedPairs s);
  let strings l := JArr (JStr <$> l) in
  mret (write_any 200 (JObj [("currencies", strings (gw_supportedCurrencies s));
    ("chains", strings (gw_supportedChains s)); ("pairs", strings pairs.*1)])).

Definition handleRates : Handler S gw_message := fun r =>
  reply_or (always 500) (WalletClient_GetRates (Query_Get r "fiat_currency")) (fun resp =>
    write_any 200 (JObj [("fiat_currency", JStr resp.1);
      ("rates", JObj ((fun kv => (kv.1, JStr kv.2)) <$> map_to_list resp.2))])).

Definition handleBalance (s : Server) : Handler S gw_message := fun r =>
  userFromContext r (fun user =>
    let fiat := Query_Get r "fiat_currency" in
    let currency := Query_Get r "currency" in
    let currency := if decide (currency = "") then firstOrEmpty (gw_supportedCurrencies s)
                    else currency in
    if negb (isSupportedCurrency s currency)
    then mret (writeError 400 (Some (ErrNew ("unsupported currency: " +:+ currency))))
    else reply_or (always 500) (WalletClient_GetBalance (user_ID user) currency fiat)
           (fun resp => write_proto 200 (PbBalance resp))).

Definition handleTransactions : Handler S gw_message := fun r =>
  userFromContext r (fun user =>
    reply_or (always 500)
      (WalletClient_ListTransactions (user_ID user) (Query_Get r "fiat_currency") 1 20)
      (fun resp => write_proto 200 (PbTransactions resp))).

(** [if x == "" { x = firstOrEmpty(list) }] *)
Definition or_first (x : string) (l : list string) : string :=
  if decide (x = "") then firstOrEmpty l else x.

Definition unsupported_pair (currency chain : string) : goerr :=
  ErrNew ("unsupported currency-chain pair: " +:+ currency +:+ ":" +:+ chain).

Definition handleDepositAddress (s : Server) : Handler S gw_message := fun r =>
  userFromContext r (fun user =>
    let currency := or_first (Query_Get r "currency") (gw_supportedCurrencies s) in
    let chain := or_first (Query_Get r "chain") (gw_supportedChains s) in
    if negb (gw_isSupportedPair s currency chain)
    then mret (writeError 400 (Some (unsupported_pair currency chain)))
    else reply_or (always 500) (WalletClient_GetDepositAddress (user_ID user) currency chain)
           (fun '(address, chain, currency) =>
              write_proto 200 (PbDepositAddress address chain currency))).

Record withdraw_body : Type := mkWithdrawBody {
  wb_Currency : string;
  wb_Amount : string;
  wb_DestinationAddress : string;
  wb_Chain : string;
}.
Definition decode_withdraw (body : string) : res withdraw_body :=
  kvs ← first_document body;
  currency ← field_string "currency" kvs;
  amount ← field_string "amount" kvs;
  dest ← field_string "destinationAddress" kvs;
  chain ← field_string "chain" kvs;
  Ok (mkWithdrawBody currency amount dest chain).

(** [if err := decode; err != nil { writeError(400, err); return }] *)
Definition decoding {A} (r : res A) (k : A -> M S Reply) : M S Reply :=
  match r with
  | Ok a => k a
  | Err e => mret (writeError 400 (Some e))
  | Panic p => panic p
  end.

Definition handleWithdraw (s : Server) : Handler S gw_message := fun r =>
  userFromContext r (fun user =>
    decoding (decode_withdraw (rq_Body r)) (fun body =>
      let currency := or_first (wb_Currency body) (gw_supportedCurrencies s) in
      let chain := or_first (wb_Chain body) (gw_supportedChains s) in
      if negb (gw_isSupportedPair s currency chain)
      then mret (writeError 400 (Some (unsupported_pair currency chain)))
      else
        decoding (ValidateWithdrawal (gw_limits s) (wb_Amount body)) (fun _ =>
          reply_or (always 500)
            (WalletClient_RequestWithdrawal (user_ID user) currency (wb_Amount body)
               (wb_DestinationAddress body) chain)
            (fun resp => write_proto 200 (PbWithdrawalRequested resp.1 resp.2))))).

Definition handleListPendingWithdrawals : Handler S gw_message := fun r =>
  reply_or (always 500) (WalletClient_ListPendingWithdrawals 1 20)
    (fun resp => write_proto 200 (PbPendingWithdrawals resp)).

Definition decode_review (body : string) : res (string * string * string) :=
  kvs ← first_document body;
  id ← field_string "withdrawalId" kvs;
  action ← field_string "action" kvs;
  txHash ← field_string "txHash" kvs;
  Ok (id, action, txHash).

Definition handleReviewWithdrawal : Handler S gw_message := fun r =>
  decoding (decode_review (rq_Body r)) (fun '(id, action, txHash) =>
    userFromContext r (fun user =>
      reply_or (always 500) (WalletClient_ReviewWithdrawal id action txHash (user_ID user))
        (fun st => write_proto 200 (PbReview st)))).

(** The amount of a webhook body: the nested member "data"."amount". *)
Definition decode_deposit_amount (body : string) : res string :=
  top ← document body;
  data ← nested "data" top;
  field_string "amount" data.

Definition webhook_headers (r : HttpReq) : gmap string string :=
  <["XC-Nonce" := Header_Get r "XC-Nonce"]>
    (<["XC-Timestamp" := Header_Get r "XC-Timestamp"]>
      {["XC-Signature" := Header_Get r "XC-Signature"]}).

Definition handleXcashWebhook (s : Server) : Handler S gw_message := fun r =>
  decoding (decode_deposit_amount (rq_Body r)) (fun amount =>
    decoding (ValidateDeposit (gw_limits s) amount) (fun _ =>
      reply_or (always 400) (WalletClient_ProcessDepositWebhook (rq_Body r) (webhook_headers r))
        (fun body => mkHttpReply 200 {["Content-Type" := "text/plain"]} (BodyText body)))).

(** One query parameter of [pagination]. *)
Definition page_param (r : HttpReq) (name : string) (def : Z) : Z :=
  match Atoi (Query_Get r name) with
  | Ok v => if 0 <? v then v else def
  | _ => def
  end.
Definition pagination (r : HttpReq) : Z * Z :=
  (page_param r "page" 1, page_param r "page_size" 20).

Definition handleListSports : Handler S gw_message := fun r =>
  let '(page, pageSize) := pagination r in
  reply_or (always 500) (OddsFeedClient_ListSports page pageSize)
    (fun resp => write_proto 200 (PbSports resp)).
Definition handleListLeagues : Handler S gw_message := fun r =>
  let '(page, pageSize) := pagination r in
  reply_or (always 500) (OddsFeedClient_ListLeagues (PathValue r "sport_id") page pageSize)
    (fun resp => write_proto 200 (PbLeagues resp)).
Definition handleListEvents : Handler S gw_message := fun r =>
  let '(page, pageSize) := pagination r in
  reply_or (always 500)
    (OddsFeedClient_ListEvents (Query_Get r "sport_id") (Query_Get r "league_id")
       (Query_Get r "status") page pageSize)
    (fun resp => write_proto 200 (PbEvents resp)).
Definition handleGetEvent : Handler S gw_message := fun r =>
  reply_or (always 500) (OddsFeedClient_GetEvent (PathValue r "event_id")) (fun resp =>
    match resp with
    | None => writeError 404 (Some (ErrNew "event not found"))
    | Some e => write_proto 200 (PbEvent e)
    end).
Definition handleListMarkets : Handler S gw_message := fun r =>
  let '(page, pageSize) := pagination r in
  reply_or (always 500)
    (OddsFeedClient_ListMarkets (PathValue r "event_id") (Query_Get r "status") page pageSize)
    (fun resp => write_proto 200 (PbMarkets resp)).
Definition handleListOutcomes : Handler S gw_message := fun r =>
  let '(page, pageSize) := pagination r in
  reply_or (always 500)
    (OddsFeedClient_ListOutcomes (PathValue r "market_id") (Query_Get r "status") page pageSize)
    (fun resp => write_proto 200 (PbOutcomes resp)).
Definition handleListLiveEvents : Handler S gw_message := fun r =>
  let '(page, pageSize) := pagination r in
  reply_or (always 500)
    (OddsFeedClient_ListLiveScores (Query_Get r "sport_id") (Query_Get r "league_id") page pageSize)
    (fun resp => write_proto 200 (PbEvents resp)).

Definition decode_place_bet (userID body : string) : res PlaceBetRequest :=
  kvs ← first_document body;
  eventID ← field_string "eventId" kvs;
  marketID ← field_string "marketId" kvs;
  outcomeID ← field_string "outcomeId" kvs;
  stake ← field_string "stake" kvs;
  currency ← field_string "currency" kvs;
  referenceID ← field_string "referenceId" kvs;
  Ok (mkPlaceBetRequest userID eventID marketID outcomeID stake currency referenceID).

Definition handlePlaceBet : Handler S gw_message := fun r =>
  userFromContext r (fun user =>
    decoding (decode_place_bet (user_ID user) (rq_Body r)) (fun req =>
      reply_or grpcStatusToHTTP (SportsbookClient_PlaceBet req)
        (fun resp => write_proto 201 (PbBet resp)))).

Definition handleListBets : Handler S gw_message := fun r =>
  userFromContext r (fun user =>
    let '(page, pageSize) := pagination r in
    reply_or grpcStatusToHTTP
      (SportsbookClient_ListBets (user_ID user) (Query_Get r "status") page pageSize)
      (fun resp => write_proto 200 (PbBets resp))).

Definition handleBets : Handler S gw_message := fun r =>
  if decide (rq_Method r = "POST") then handlePlaceBet r
  else if decide (rq_Method r = "GET") then handleListBets r
  else mret (writeError 405 None).

(** Another user's bet is reported as missing. *)
Definition handleGetBet : Handler S gw_message := fun r =>
  userFromContext r (fun user =>
    reply_or grpcStatusToHTTP (SportsbookClient_GetBet (PathValue r "bet_id")) (fun bet =>
      if decide (pbet_UserId bet <> user_ID user)
      then writeError 404 (Some (ErrNew "bet not found"))
      else write_proto 200 (PbBet bet))).

Definition decode_settle (body : string) : res (string * string) :=
  kvs ← first_document body;
  betID ← field_string "betId" kvs;
  outcome ← field_string "outcome" kvs;
  Ok (betID, outcome).

Definition handleSettleBet : Handler S gw_message := fun r =>
  decoding (decode_settle (rq_Body r)) (fun '(betID, outcome) =>
    reply_or grpcStatusToHTTP (SportsbookClient_SettleBet betID outcome)
      (fun resp => write_proto 200 (PbBet resp))).

(** ** Routing *)
Inductive segment : Type := Lit (s : string) | Var (name : string).

(** The path values when the pattern matches; a wildcard takes one non-empty segment. *)
Fixpoint match_segments (pattern : list segment) (path : list string)
    (values : gmap string string) : option (gmap string string) :=
  match pattern, path with
  | [], [] => Some values
  | Lit s :: pattern, x :: path =>
      if decide (s = x) then match_segments pattern path values else None
  | Var n :: pattern, x :: path =>
      if decide (x = "") then None else match_segments pattern path (<[n := x]> values)
  | _, _ => None
  end.

(** [mux.Handle(pattern, server.WithRoutePattern(pattern, next))]; a segment in braces is a
    wildcard. *)
Definition segment_of (x : string) : segment :=
  match x with
  | String c rest =>
      if decide (c = "{"%char)
      then Var (match Cut rest "}"%char with Some (name, _) => name | None => rest end)
      else Lit x
  | EmptyString => Lit x
  end.
Definition route (pattern : string) (next : Handler S gw_message) :
    list segment * Handler S gw_message :=
  (segment_of <$> drop 1 (Split pattern "/"%char), WithRoutePattern pattern next).

Definition routes (s : Server) : list (list segment * Handler S gw_message) :=
  [ route "/health" handleHealth;
    route "/metrics" MetricsHandler;
    route "/api/wallet/supported" (handleSupported s);
    route "/api/wallet/rates" handleRates;
    route "/api/wallet/balance" (auth (handleBalance s));
    route "/api/wallet/transactions" (auth handleTransactions);
    route "/api/wallet/deposit-address" (auth (handleDepositAddress s));
    route "/api/wallet/withdraw" (auth (handleWithdraw s));
    route "/api/admin/withdrawals" (auth (admin s handleListPendingWithdrawals));
    route "/api/admin/withdrawals/review" (auth (admin s handleReviewWithdrawal));
    route "/webhooks/xcash/deposit" (handleXcashWebhook s);
    route "/api/sports" handleListSports;
    route "/api/sports/{sport_id}/leagues" handleListLeagues;
    route "/api/events" handleListEvents;
    route "/api/events/{event_id}" handleGetEvent;
    route "/api/events/{event_id}/markets" handleListMarkets;
    route "/api/markets/{market_id}/outcomes" handleListOutcomes;
    route "/api/live/events" handleListLiveEvents;
    route "/api/bets" (auth handleBets);
    route "/api/bets/{bet_id}" (auth handleGetBet);
    route "/api/admin/bets/settle" (auth (admin s handleSettleBet)) ].

Definition with_path_values (values : gmap string string) (r : HttpReq) : HttpReq :=
  mkHttpReq (rq_Method r) (rq_Path r) (rq_Header r) (rq_RemoteAddr r) (rq_Query r)
    values (rq_Body r) (rq_User r) (rq_RequestID r) (rq_RoutePattern r).

Fixpoint dispatch (table : list (list segment * Handler S gw_message)) (path : list string) :
    Handler S gw_message := fun r =>
  match table with
  | [] => mret (http_Error "404 page not found" 404)
  | (pattern, h) :: table =>
      match match_segments pattern path ∅ with
      | Some values => h (with_path_values values r)
      | None => dispatch table path r
      end
  end.

Definition mux (s : Server) : Handler S gw_message := fun r =>
  match Split (rq_Path r) "/"%char with
  | "" :: path => dispatch (routes s) path r
  | _ => mret (http_Error "404 page not found" 404)
  end.

Definition Router_mux (s : Server) (rl : RateLimiter) : Handler S gw_message :=
  RateLimiter_Middleware rl (cors s (mux s)).
Definition Router (protojson : gw_message -> string) (s : Server) (rl : RateLimiter) :
    HttpHandler (T := S) :=
  RequestID (Logging (Metrics (HandlerFunc (reply_handler protojson (Router_mux s rl))))).
End Gateway.
