(* ===== verification/GatewayProps.v ===== *)
(** * GatewayProps: who may make the gateway call what, and how often *)

From S2P Require Import Prelude GoStd GoJson Decimal OddsModels Xcash WalletService WalletServer.
From S2P Require Import OddsServer BetServer GoTime RateLimit Middleware Gateway Demo.

(** ** Access *)
Section Access.
Context {S : Type} `{E : GoEnv, GT : GrpcText, D : Decimal, Lim : Limiter,
  LS : Lens S LimiterState, RL : RedisLink S, JW : Jwks S, WCn : WalletConn S,
  SCn : SportsbookConn S, OCn : OddsFeedConn S, Pm : Prometheus}.
Context (s : Server).
Implicit Types (r : HttpReq) (w : World S) (o : option User).

Definition is_admin (u : User) : Prop := is_Some (gw_adminUserIDs s !! user_ID u).

(** The calls that a caller, anonymous or authenticated, may cause. *)
Inductive permits : option User -> forall A, M S A -> Prop :=
(* anyone *)
| permits_range o (m : gmap string unit) : permits o _ (range m)
| permits_metrics o r : permits o Reply (MetricsHandler r)
| permits_rates o fiat : permits o _ (WalletClient_GetRates fiat)
| permits_webhook o body headers amount :
    decode_deposit_amount body = Ok amount -> ValidateDeposit (gw_limits s) amount = Ok tt ->
    permits o _ (WalletClient_ProcessDepositWebhook body headers)
| permits_sports o p n : permits o _ (OddsFeedClient_ListSports p n)
| permits_leagues o x p n : permits o _ (OddsFeedClient_ListLeagues x p n)
| permits_events o x y st p n : permits o _ (OddsFeedClient_ListEvents x y st p n)
| permits_event o x : permits o _ (OddsFeedClient_GetEvent x)
| permits_markets o x st p n : permits o _ (OddsFeedClient_ListMarkets x st p n)
| permits_outcomes o x st p n : permits o _ (OddsFeedClient_ListOutcomes x st p n)
| permits_live o x y p n : permits o _ (OddsFeedClient_ListLiveScores x y p n)
(* a user, on the user's own account *)
| permits_balance u c fiat : isSupportedCurrency s c = true ->
    permits (Some u) _ (WalletClient_GetBalance (user_ID u) c fiat)
| permits_transactions u fiat p n :
    permits (Some u) _ (WalletClient_ListTransactions (user_ID u) fiat p n)
| permits_address u c chain : gw_isSupportedPair s c chain = true ->
    permits (Some u) _ (WalletClient_GetDepositAddress (user_ID u) c chain)
| permits_withdraw u c amount dest chain : gw_isSupportedPair s c chain = true ->
    ValidateWithdrawal (gw_limits s) amount = Ok tt ->
    permits (Some u) _ (WalletClient_RequestWithdrawal (user_ID u) c amount dest chain)
| permits_place u req : pbr_UserId req = user_ID u ->
    permits (Some u) _ (SportsbookClient_PlaceBet req)
| permits_bets u st p n : permits (Some u) _ (SportsbookClient_ListBets (user_ID u) st p n)
| permits_bet u id : permits (Some u) _ (SportsbookClient_GetBet id)
(* an administrator, under the administrator's own name *)
| permits_pending u p n : is_admin u ->
    permits (Some u) _ (WalletClient_ListPendingWithdrawals p n)
| permits_review u id action tx : is_admin u ->
    permits (Some u) _ (WalletClient_ReviewWithdrawal id action tx (user_ID u))
| permits_settle u id outcome : is_admin u ->
    permits (Some u) _ (SportsbookClient_SettleBet id outcome).

(** Nothing but at most one permitted call. *)
Definition one_call o w w' : Prop :=
  w' = w \/ exists A (m : M S A), permits o A m /\ w' = (m w).2.

(** A request's effect: a call open to anyone, or the check of its token followed by a
    call open to its owner. *)
Definition served r w w' : Prop :=
  one_call None w w' \/
  match jwks_UserFromRequest r w with
  | (Ok u, w1) => one_call (Some u) w1 w'
  | (_, w1) => w' = w1
  end.

Definition uses o (h : Handler S gw_message) : Prop :=
  forall r w, rq_User r = o -> one_call o w (h r w).2.

Lemma one_call_here o w : one_call o w w.
Proof. by left. Qed.

Lemma one_call_reply {A} o st (m : M S A) k w :
  permits o A m -> one_call o w (reply_or st m k w).2.
Proof.
  intros H. right. exists A, m. split; [done|].
  unfold reply_or, attempt, mbind, M_bind, mret, M_ret, panic.
  by destruct (m w) as [[a|e|p] w'].
Qed.

Lemma one_call_user r o (k : User -> M S Reply) w : rq_User r = o ->
  (forall u, o = Some u -> one_call o w (k u w).2) -> one_call o w (userFromContext r k w).2.
Proof.
  intros <- H. unfold userFromContext. destruct (rq_User r) as [u|]; [by apply H|apply one_call_here].
Qed.

Lemma one_call_decoding {A} o (d : res A) (k : A -> M S Reply) w :
  (forall a, d = Ok a -> one_call o w (k a w).2) -> one_call o w (decoding d k w).2.
Proof. intros H. destruct d as [a|e|p]; cbn; [by apply H|apply one_call_here..]. Qed.

Lemma one_call_if o (b : bool) (m m' : M S Reply) w :
  (b = true -> one_call o w (m w).2) -> (b = false -> one_call o w (m' w).2) ->
  one_call o w ((if b then m else m') w).2.
Proof. destruct b; auto. Qed.

Create HintDb gateway.
#[local] Hint Constructors permits : gateway.
#[local] Hint Resolve one_call_here one_call_reply : gateway.

(** Steps through a handler: its guards, then its one call. *)
Ltac handler :=
  let r := fresh "r" in let w := fresh "w" in let Hr := fresh "Hr" in
  intros r w Hr;
  repeat match goal with
    | |- one_call _ _ (userFromContext _ _ _).2 =>
        apply one_call_user; [exact Hr|]; intros ? [= ->]; clear Hr; intros
    | |- one_call _ _ (decoding _ _ _).2 =>
        apply one_call_decoding; let a := fresh "a" in intros a ?;
        repeat match type of a with prod _ _ => destruct a as [a ?] | unit => destruct a end
    | |- one_call _ _ ((if negb ?b then _ else _) _).2 =>
        let H := fresh "H" in apply one_call_if; intros H;
        [|apply negb_false_iff in H]
    end;
  eauto 6 with gateway.

Lemma uses_public o : Forall (uses o)
  [handleHealth; handleSupported s; handleRates; handleXcashWebhook s; handleListSports;
   handleListLeagues; handleListEvents; handleGetEvent; handleListMarkets;
   handleListOutcomes; handleListLiveEvents; MetricsHandler].
Proof.
  each;
    unfold handleHealth, handleSupported, handleRates, handleXcashWebhook, handleListSports,
      handleListLeagues, handleListEvents, handleGetEvent, handleListMarkets,
      handleListOutcomes, handleListLiveEvents, pagination; handler.
  - right. exists _, (range (gw_supportedPairs s)). split; [constructor|reflexivity].
  - right. exists Reply, (MetricsHandler r). split; [constructor|done].
Qed.

Lemma uses_user u : Forall (uses (Some u))
  [handleBalance s; handleTransactions; handleDepositAddress s; handleWithdraw s; handleBets;
   handleGetBet].
Proof.
  assert (uses (Some u) handlePlaceBet) as Hp.
  { unfold handlePlaceBet. handler. apply one_call_reply. constructor.
    unfold decode_place_bet in *. unmonad.
    repeat (case_match; simplify_eq/=). done. }
  assert (uses (Some u) handleListBets) as Hl by (unfold handleListBets, pagination; handler).
  each;
    unfold handleBalance, handleTransactions, handleDepositAddress, handleWithdraw,
      handleGetBet; [handler..| |handler].
  intros r w Hr. unfold handleBets. repeat case_decide; [by apply Hp|by apply Hl|by left].
Qed.

Lemma uses_admin u : is_admin u -> Forall (uses (Some u))
  [handleListPendingWithdrawals; handleReviewWithdrawal; handleSettleBet].
Proof.
  intros Ha. each;
    unfold handleListPendingWithdrawals, handleReviewWithdrawal, handleSettleBet; handler.
Qed.

(** A route serves each request in one of the two ways. *)
Definition serves (h : Handler S gw_message) : Prop :=
  forall r w, rq_User r = None -> served r w (h r w).2.

Lemma serves_public h : uses None h -> serves h.
Proof. intros H r w Hr. left. by apply H. Qed.

Lemma serves_auth h : (forall u, uses (Some u) h) -> serves (auth h).
Proof.
  intros H r w Hr. right. unfold auth, attempt, mbind, M_bind.
  destruct (jwks_UserFromRequest r w) as [[u|e|p] w1]; [|done..]. by apply H.
Qed.

Lemma uses_guard u h : (is_admin u -> uses (Some u) h) -> uses (Some u) (admin s h).
Proof.
  intros H r w Hr. unfold admin. rewrite Hr. case_decide as Ha; [by apply H|apply one_call_here].
Qed.

(** What a route's handler gets of a request. *)
Definition reaches r r' : Prop :=
  r' = r \/ exists pattern values, r' = with_RoutePattern pattern (with_path_values values r).
Definition route_serves (p : list segment * Handler S gw_message) : Prop :=
  exists pattern h, p.2 = WithRoutePattern pattern h /\ serves h.

Lemma routes_serve : Forall route_serves (routes s).
Proof.
  pose proof (uses_public None) as Hp.
  assert (forall pattern h, uses None h -> route_serves (route pattern h)) as Ho
    by (intros pattern h H; exists pattern, h; split; [done|by apply serves_public]).
  assert (forall pattern h, (forall u, uses (Some u) h) -> route_serves (route pattern (auth h))) as Hu
    by (intros pattern h H; exists pattern, (auth h); split; [done|by apply serves_auth]).
  assert (forall pattern h, (forall u, is_admin u -> uses (Some u) h) ->
    route_serves (route pattern (auth (admin s h)))) as Ha
    by (intros pattern h H; apply Hu; intros u; apply uses_guard, H).
  repeat match type of Hp with Forall _ (_ :: _) =>
    let H := fresh "H" in inversion_clear Hp as [|? ? H Hp']; rename Hp' into Hp end.
  unfold routes. each;
    try (apply Ho; assumption);
    try (apply Ha; intros u Hadm; pose proof (uses_admin u Hadm) as HF;
         rewrite !list.Forall_cons in HF; tauto);
    try (apply Hu; intros u; pose proof (uses_user u) as HF;
         rewrite !list.Forall_cons in HF; tauto).
Qed.

Lemma dispatch_serves table path r w :
  Forall route_serves table -> rq_User r = None ->
  exists r', reaches r r' /\ served r' w (dispatch table path r w).2.
Proof.
  induction 1 as [|[pattern h] table (p & h' & Hh & Hs) _ IH]; intros Hr; cbn [dispatch].
  - exists r. split; [by left|]. left. by left.
  - destruct (match_segments pattern path ∅) as [values|]; [|by apply IH].
    exists (with_RoutePattern p (with_path_values values r)). split; [right; by exists p, values|].
    cbn in Hh. subst h. by apply Hs.
Qed.

Lemma cors_serves r w : rq_User r = None ->
  exists r', reaches r r' /\ served r' w (cors s (mux s) r w).2.
Proof.
  intros Hr. assert (exists r', reaches r r' /\ served r' w w) as Hnone
    by (exists r; split; [by left|left; by left]).
  unfold cors. case_decide; [exact Hnone|].
  assert (exists r', reaches r r' /\ served r' w (mux s r w).2) as Hm.
  { unfold mux. destruct (Split (rq_Path r) "/"%char) as [|[|c x] path];
      [exact Hnone|by apply dispatch_serves; [apply routes_serve|]|exact Hnone]. }
  unfold mbind, M_bind, mret, M_ret. destruct (mux s r w) as [[a|e|p] w']; exact Hm.
Qed.

(** C29.  Every request, whatever its path, method and body: when the limiter does not let it
    through it is answered with 429 and makes no call.  Otherwise it causes at most one
    call to a service: one open to anyone, or, after its token was accepted, one on the
    account of the token's owner; withdrawals and deposits only with an amount within
    the limits, reviews and settlements only for a configured administrator. *)
Theorem gateway_access_control rl r w : rq_User r = None ->
  match attempt (allow rl (limiter_key r)) w with
  | (Ok (Ok true), w1) =>
      exists r', reaches r r' /\ served r' w1 (Router_mux s rl r w).2
  | (Ok _, w1) => exists reply, Router_mux s rl r w = (Ok reply, w1) /\ rp_Status reply = 429
  | (_, w1) => (Router_mux s rl r w).2 = w1
  end.
Proof.
  intros Hr. unfold Router_mux, RateLimiter_Middleware, mbind, M_bind.
  unfold attempt. destruct (allow rl (limiter_key r) w) as [[[]|e|p] w1].
  - by apply cors_serves.
  - eexists. split; reflexivity.
  - eexists. split; reflexivity.
  - done.
Qed.
End Access.

(** ** The rate *)
Section Rate.
Context {S : Type} `{E : GoEnv, Lim : Limiter, LS : Lens S LimiterState, LSL : !LensLaws LS,
  RL : RedisLink S}.
Context (time_mono : forall n m, (n <= m)%nat -> time_at n <= time_at m).
Implicit Types (rl : RateLimiter) (w : World S).

Definition buckets (w : World S) : gmap string Bucket := ls_buckets (part (L := LS) w).
(** The second in which a world's next reading of the clock falls. *)
Definition at_second (w : World S) : Z := Unix (time_at (w_tick w)).

Definition granted (r : res bool) : bool := match r with Ok b => b | _ => false end.

(** Calls of the limiter for any keys, one after the other, with anything else that leaves
    the limiter alone and any time in between; the number counts those for [key] that
    were let through. *)
Inductive traffic rl (key : string) : World S -> nat -> World S -> Prop :=
| traffic_none w : traffic rl key w 0 w
| traffic_call w n w1 k r w2 : traffic rl key w n w1 -> allowRedis rl k w1 = (r, w2) ->
    traffic rl key w (n + (if bool_decide (k = key) && granted r then 1 else 0)) w2
| traffic_other w n w1 w2 : traffic rl key w n w1 ->
    part (L := LS) w2 = part (L := LS) w1 -> (w_tick w1 <= w_tick w2)%nat ->
    traffic rl key w n w2.

(** A Redis that answers does so within [delay] seconds of the reading of the clock, and
    being asked does not touch the limiter. *)
Record prompt (delay : Z) : Prop := {
  prompt_outside : outside (L := LS) redis_reach;
  prompt_delay : forall n s w', redis_reach (mkWorld (Datatypes.S n) s) = (Ok tt, w') ->
    time_at (w_tick w') <= time_at n + delay * second;
}.

(** The tokens that [key] has when the clock is next read. *)
Definition credit rl (key : string) w : Z :=
  match buckets w !! key with
  | Some b => Z.min (rl_burst rl) (bk_tokens b + (at_second w - bk_ts b) * rl_rate rl)
  | None => rl_burst rl
  end.

(** A bucket holds at most the burst and was written 120 seconds before it expires. *)
Definition bucket_ok rl w (b : Bucket) : Prop :=
  0 <= bk_tokens b <= rl_burst rl /\ bk_ts b <= Unix (bk_expire b - 120 * second) /\
  bk_ts b <= at_second w.
Definition buckets_ok rl w : Prop := forall k b, buckets w !! k = Some b -> bucket_ok rl w b.

Lemma Unix_mono t t' : t <= t' -> Unix t <= Unix t'.
Proof. intros H. unfold Unix, second. pose proof (Z.div_le_mono t t' 1000000000). lia. Qed.
Lemma Unix_seconds t d : Unix (t + d * second) = Unix t + d.
Proof. unfold Unix, second. rewrite Z.div_add; lia. Qed.

Lemma at_second_mono w w' : (w_tick w <= w_tick w')%nat -> at_second w <= at_second w'.
Proof. intros H. by apply Unix_mono, time_mono. Qed.

(** The script: what is granted is taken from what the bucket holds, at most the burst. *)
Lemma token_bucket_spec now rate burst st ok tokens ts :
  1 <= burst -> 0 <= rate -> token_bucket now rate burst st = (ok, (tokens, ts)) ->
  match st with Some (t, ts0) => 0 <= t <= burst /\ ts0 <= now | None => True end ->
  ts = now /\ 0 <= tokens <= burst /\
  tokens + (if ok then 1 else 0) =
    match st with Some (t, ts0) => Z.min burst (t + (now - ts0) * rate) | None => burst end.
Proof.
  intros Hb Hr H Hst. unfold token_bucket in H.
  set (x := match st with Some _ => _ | None => _ end) in *.
  assert (0 <= x <= burst) as Hx.
  { destruct st as [[t ts0]|]; unfold x; [|lia]. nia. }
  replace (match st with Some (t, ts0) => _ | None => burst end) with x
    by (unfold x; by destruct st as [[]|]).
  destruct (Z.leb_spec 1 x); simplify_eq; lia.
Qed.

(** Waiting earns [rate] tokens a second at most. *)
Lemma credit_wait rl key w w' : 0 <= rl_rate rl ->
  buckets w' !! key = buckets w !! key -> (w_tick w <= w_tick w')%nat ->
  credit rl key w' <= credit rl key w + rl_rate rl * (at_second w' - at_second w).
Proof.
  intros Hr Hb Ht. pose proof (at_second_mono w w' Ht). unfold credit. rewrite Hb.
  destruct (buckets w !! key) as [b|]; nia.
Qed.

(** A bucket that has expired would have been full. *)
Lemma credit_expired rl delay key w b clock :
  1 <= rl_rate rl -> rl_burst rl <= (120 - delay) * rl_rate rl ->
  buckets w !! key = Some b -> bucket_ok rl w b ->
  bk_expire b <= clock -> clock <= time_at (w_tick w) + delay * second ->
  credit rl key w = rl_burst rl.
Proof.
  intros Hr Hd Hb (Ht & Hts & _) He Hc. unfold credit. rewrite Hb.
  assert (bk_ts b <= at_second w + (delay - 120)) as Hlate.
  { etrans; [exact Hts|]. unfold at_second. rewrite <- Unix_seconds. apply Unix_mono. lia. }
  nia.
Qed.

(** The script when it runs at [clock] for a world whose clock was read before. *)
Lemma eval_bucket_spec rl delay k w clock m s :
  1 <= rl_rate rl -> 1 <= rl_burst rl -> rl_burst rl <= (120 - delay) * rl_rate rl ->
  buckets_ok rl w -> ls_buckets s = buckets w ->
  clock = time_at m -> time_at (w_tick w) <= clock ->
  clock <= time_at (w_tick w) + delay * second ->
  exists ok tokens,
    eval_bucket k (at_second w) (rl_rate rl) (rl_burst rl) (mkWorld m s) =
      (Ok ok, mkWorld (Datatypes.S m) (mkLimiterState (ls_limiters s)
        (<[k := mkBucket tokens (at_second w) (clock + 120 * second)]> (buckets w)))) /\
    0 <= tokens <= rl_burst rl /\ tokens + (if ok then 1 else 0) = credit rl k w.
Proof.
  intros Hr Hb Hd Hok Hs -> Hlo Hhi. unfold eval_bucket. unmonad. rewrite Hs.
  set (st := match buckets w !! k with Some _ => _ | None => None end).
  destruct (token_bucket (at_second w) (rl_rate rl) (rl_burst rl) st) as [ok [tokens ts]] eqn:Ht.
  apply token_bucket_spec in Ht as (-> & Hrange & Hsum); [|lia|lia|].
  - exists ok, tokens. cbn [w_tick w_st]. rewrite Hs. split; [reflexivity|].
    split; [exact Hrange|]. rewrite Hsum.
    unfold st. destruct (buckets w !! k) as [b|] eqn:Hbk.
    + destruct (Z.leb_spec (bk_expire b) (time_at m)).
      * symmetry. eapply credit_expired; eauto.
      * unfold credit. by rewrite Hbk.
    + unfold credit. by rewrite Hbk.
  - unfold st. destruct (buckets w !! k) as [b|] eqn:Hbk; [|done].
    destruct (bk_expire b <=? time_at m); [done|]. destruct (Hok k b Hbk) as (? & _ & ?). done.
Qed.

Section Bound.
Context (rl : RateLimiter) (delay : Z) (redis_prompt : prompt delay).
Context (rate_pos : 1 <= rl_rate rl) (burst_pos : 1 <= rl_burst rl).
Context (burst_refills : rl_burst rl <= (120 - delay) * rl_rate rl).

Lemma buckets_ok_mono w w' : buckets w' = buckets w -> (w_tick w <= w_tick w')%nat ->
  buckets_ok rl w -> buckets_ok rl w'.
Proof.
  intros Hb Ht Hok k b Hk. rewrite Hb in Hk. destruct (Hok k b Hk) as (?&?&?).
  pose proof (at_second_mono w w' Ht). split_and!; [lia..|done|lia].
Qed.

(** What one call of the limiter does: a failed one takes nothing. *)
Lemma allowRedis_spec k w r w2 : buckets_ok rl w -> allowRedis rl k w = (r, w2) ->
  (w_tick w <= w_tick w2)%nat /\
  ((granted r = false /\ buckets w2 = buckets w) \/
   exists tokens expire, buckets w2 = <[k := mkBucket tokens (at_second w) expire]> (buckets w) /\
     at_second w <= Unix (expire - 120 * second) /\ 0 <= tokens <= rl_burst rl /\
     tokens + (if granted r then 1 else 0) = credit rl k w).
Proof.
  intros Hok. unfold allowRedis. unfold time_now, tick, mbind, M_bind, mret, M_ret.
  destruct (redis_reach (mkWorld (Datatypes.S (w_tick w)) (w_st w))) as [rr w1] eqn:Hr.
  destruct redis_prompt as [[Hp Ht Hnp] Hd].
  specialize (Hp (mkWorld (Datatypes.S (w_tick w)) (w_st w))).
  specialize (Ht (mkWorld (Datatypes.S (w_tick w)) (w_st w))).
  specialize (Hnp (mkWorld (Datatypes.S (w_tick w)) (w_st w))).
  rewrite Hr in Hp, Ht, Hnp. cbn [fst snd w_tick] in *.
  assert (buckets w1 = buckets w) as Hb by (unfold buckets; by rewrite Hp).
  destruct rr as [[]|e|p]; [|intros [= <- <-]; split; [lia|by left]|by destruct (Hnp p)].
  apply Hd in Hr. unfold zoom. change (Unix (time_at (w_tick w))) with (at_second w).
  destruct (eval_bucket_spec rl delay k w (time_at (w_tick w1)) (w_tick w1) (lget (w_st w1))
    rate_pos burst_pos burst_refills Hok Hb eq_refl) as (ok & tokens & -> & Hrange & Hsum);
    [apply time_mono; lia|exact Hr|].
  intros [= <- <-]. cbn [w_tick w_st granted]. split; [lia|]. right.
  exists tokens, (time_at (w_tick w1) + 120 * second). split_and!; [|..|exact Hsum]; try lia.
  - unfold buckets at 1, part. cbn [w_st]. by rewrite lget_lset.
  - unfold at_second. replace (_ + _ - _) with (time_at (w_tick w1)) by lia.
    apply Unix_mono, time_mono. lia.
Qed.

Lemma call_spec key k w r w2 : buckets_ok rl w -> allowRedis rl k w = (r, w2) ->
  buckets_ok rl w2 /\ at_second w <= at_second w2 /\
  (if bool_decide (k = key) && granted r then 1 else 0) + credit rl key w2 <=
    credit rl key w + rl_rate rl * (at_second w2 - at_second w).
Proof.
  intros Hok H. destruct (allowRedis_spec k w r w2 Hok H) as [Ht Hcase].
  pose proof (at_second_mono w w2 Ht) as Hs.
  destruct Hcase as [[-> Hb]|(tokens & expire & Hb & He & Hrange & Hsum)].
  - rewrite andb_false_r. split_and!; [by apply (buckets_ok_mono w)|done|].
    assert (buckets w2 !! key = buckets w !! key) as Hk by (by rewrite Hb).
    pose proof (credit_wait rl key w w2 ltac:(lia) Hk Ht). lia.
  - split; [|split; [done|]].
    + intros k' b Hk. rewrite Hb in Hk. apply lookup_insert_Some in Hk as [[<- <-]|[_ Hk]].
      * split_and!; cbn; lia.
      * destruct (Hok k' b Hk) as (? & ? & ?). split_and!; [lia..|done|lia].
    + case_bool_decide as Hk.
      * subst k. cbn [andb]. unfold credit at 1. rewrite Hb, lookup_insert_eq. cbn. nia.
      * cbn [andb].
        assert (buckets w2 !! key = buckets w !! key) as Hk' by (by rewrite Hb, lookup_insert_ne).
        pose proof (credit_wait rl key w w2 ltac:(lia) Hk' Ht). lia.
Qed.

Lemma traffic_spec key w n w' : buckets_ok rl w -> traffic rl key w n w' ->
  buckets_ok rl w' /\ at_second w <= at_second w' /\
  Z.of_nat n + credit rl key w' <=
    credit rl key w + rl_rate rl * (at_second w' - at_second w).
Proof.
  intros Hok. induction 1 as [w|w n w1 k r w2 _ IH H|w n w1 w2 _ IH Hp Ht].
  - split_and!; [done|lia..].
  - destruct (IH Hok) as (Hok1 & Hs1 & Hc1).
    destruct (call_spec key k w1 r w2 Hok1 H) as (Hok2 & Hs2 & Hc2). split_and!; [done|lia|].
    rewrite Nat2Z.inj_add. destruct (bool_decide (k = key) && granted r); cbn in *; lia.
  - destruct (IH Hok) as (Hok1 & Hs1 & Hc1).
    assert (buckets w2 = buckets w1) as Hb by (unfold buckets; by rewrite Hp).
    pose proof (at_second_mono w1 w2 Ht) as Hs.
    assert (buckets w2 !! key = buckets w1 !! key) as Hk by (by rewrite Hb).
    pose proof (credit_wait rl key w1 w2 ltac:(lia) Hk Ht).
    split_and!; [by apply (buckets_ok_mono w1)|lia|lia].
Qed.

(** C32.  In any stretch of time a key gets at most the burst and then [rate] requests a
    second through the Redis limiter, however its calls mix with others' and even though
    Redis drops idle buckets, provided Redis answers promptly and the burst refills
    before a bucket can expire. *)
Theorem redis_rate_bound key w0 m w n w' :
  buckets w0 = ∅ -> traffic rl key w0 m w -> traffic rl key w n w' ->
  Z.of_nat n <= rl_burst rl + rl_rate rl * (at_second w' - at_second w).
Proof.
  intros H0 Hm Hn.
  assert (buckets_ok rl w0) as Hok0 by (intros k b Hk; by rewrite H0, lookup_empty in Hk).
  destruct (traffic_spec key w0 m w Hok0 Hm) as (Hok & _ & _).
  destruct (traffic_spec key w n w' Hok Hn) as (Hok' & Hs & Hc).
  assert (credit rl key w <= rl_burst rl) as Hup by (unfold credit; case_match; lia).
  assert (0 <= credit rl key w') as Hlow.
  { unfold credit. destruct (buckets w' !! key) as [b|] eqn:Hb; [|lia].
    destruct (Hok' key b Hb) as (? & _ & ?). nia. }
  lia.
Qed.
End Bound.
End Rate.

(** ** Configuration *)
Section Config.
Context {S : Type} `{E : GoEnv, EL : !GoEnvLaws E}.

Lemma set_of_lookup l x : is_Some (set_of l !! x) <-> x ∈ l.
Proof.
  unfold set_of. rewrite (foldl_insert_is_Some (fun x => x) (fun _ => tt)), lookup_empty, list_fmap_id.
  split; [intros [[? ?]|?]; done|by right].
Qed.

Lemma member_In (l : list string) c : existsb (fun c2 => bool_decide (c2 = c)) l = true <-> c ∈ l.
Proof.
  rewrite existsb_exists. split.
  - intros (x & Hx%list_elem_of_In & ->%bool_decide_eq_true). done.
  - intros H. exists c. split; [by apply list_elem_of_In|by apply bool_decide_eq_true].
Qed.

Lemma collect_pairs_spec ps : forall cs hs,
  Forall (fun p => exists c d, p.1 = pair_key c d /\ colon_free c) ps ->
  exists cs' hs', collect_pairs ps cs hs = Ok (cs', hs') /\
    (forall x, is_Some (cs' !! x) <-> is_Some (cs !! x) \/
       exists d, colon_free x /\ pair_key x d ∈ ps.*1) /\
    (forall x, is_Some (hs' !! x) <-> is_Some (hs !! x) \/
       exists c, colon_free c /\ pair_key c x ∈ ps.*1).
Proof.
  induction ps as [|[p []] ps IH]; intros cs hs; cbn.
  - intros _. exists cs, hs. split; [done|]. split; intros x; (split; [by left|]);
      intros [H|(d & _ & H%elem_of_nil)]; done.
  - intros [(c & d & Hp & Hc) Hps]%list.Forall_cons. cbn in Hp. subst p.
    unfold pair_parts. rewrite SplitN2_pair by done. cbn.
    destruct (IH (<[c := tt]> cs) (<[d := tt]> hs) Hps) as (cs' & hs' & -> & Hcs & Hhs).
    exists cs', hs'. split; [done|]. split; intros x.
    + rewrite Hcs, lookup_insert_is_Some'. setoid_rewrite elem_of_cons. split.
      * intros [[->|H]|(d' & Hf & H)]; [right; by exists d; auto|by left|right; by exists d'; auto].
      * intros [H|(d' & Hf & [Heq|H])]; [by auto| |right; by exists d'].
        apply pair_key_inj in Heq as [-> _]; auto.
    + rewrite Hhs, lookup_insert_is_Some'. setoid_rewrite elem_of_cons. split.
      * intros [[->|H]|(c' & Hf & H)]; [right; by exists c; auto|by left|right; by exists c'; auto].
      * intros [H|(c' & Hf & [Heq|H])]; [by auto| |right; by exists c'].
        apply pair_key_inj in Heq as [_ ->]; auto.
Qed.

(** The text lists the pair, up to surrounding blanks. *)
Definition lists_pair (pairs c d : string) : Prop :=
  (c, d) ∈ omap parse_pair (Split pairs comma).

Lemma parsePairs_lookup pairs c d : colon_free c ->
  is_Some (parsePairs pairs !! pair_key c d) <-> lists_pair pairs c d.
Proof. exact (supported_lookup (NewClient "" "" "") (NewWebhookValidator "") (Split pairs comma) c d). Qed.

Lemma parsePairs_keys pairs k : is_Some (parsePairs pairs !! k) ->
  exists c d, k = pair_key c d /\ colon_free c /\ lists_pair pairs c d.
Proof. exact (supported_keys (NewClient "" "" "") (NewWebhookValidator "") (Split pairs comma) k). Qed.

Lemma lists_pair_colon_free pairs c d : lists_pair pairs c d -> colon_free c.
Proof. intros (p & _ & Hp)%list_elem_of_omap. by apply parse_pair_spec in Hp as (_&_&?&_). Qed.

Lemma parsePairs_empty pairs : size (parsePairs pairs) = 0%nat <-> forall c d, ~ lists_pair pairs c d.
Proof.
  rewrite map_size_empty_iff. split.
  - intros He c d H. pose proof (lists_pair_colon_free _ _ _ H) as Hc.
    apply parsePairs_lookup in H; [|done]. rewrite He, lookup_empty in H. by destruct H.
  - intros Hn. apply map_empty. intros k. destruct (parsePairs pairs !! k) eqn:Hk; [|done].
    destruct (parsePairs_keys pairs k) as (c & d & _ & _ & H); [by eexists|]. by destruct (Hn c d).
Qed.

Lemma deriveLists_spec pairs cs hs (w : World S) : exists cs' hs' w',
  deriveLists (parsePairs pairs) cs hs w = (Ok (cs', hs'), w') /\ w_st w' = w_st w /\
  (if decide (cs = []) then NoDup cs' /\ forall c, c ∈ cs' <-> exists d, lists_pair pairs c d
   else cs' = cs) /\
  (if decide (hs = []) then NoDup hs' /\ forall d, d ∈ hs' <-> exists c, lists_pair pairs c d
   else hs' = hs).
Proof.
  unfold deriveLists, of_res. unfold range, tick, mbind, M_bind, mret, M_ret.
  set (ps := range_at (w_tick w) (parsePairs pairs)).
  destruct (range_keys (w_tick w) (parsePairs pairs)) as [_ Hps]. fold ps in Hps.
  destruct (collect_pairs_spec ps ∅ ∅) as (cset & hset & -> & Hc & Hh).
  { apply list.Forall_forall. intros p Hp.
    destruct (parsePairs_keys pairs p.1) as (c & d & ? & ? & _); [|by exists c, d].
    apply Hps. by apply list_elem_of_fmap_2. }
  assert (forall c, is_Some (cset !! c) <-> exists d, lists_pair pairs c d) as Hcs.
  { intros c. rewrite Hc, lookup_empty. setoid_rewrite Hps. split.
    - intros [[? ?]|(d & Hf & H)]; [done|]. exists d. by apply parsePairs_lookup in H.
    - intros (d & H). right. exists d. pose proof (lists_pair_colon_free _ _ _ H).
      split; [done|]. by apply parsePairs_lookup. }
  assert (forall d, is_Some (hset !! d) <-> exists c, lists_pair pairs c d) as Hhs.
  { intros d. rewrite Hh, lookup_empty. setoid_rewrite Hps. split.
    - intros [[? ?]|(c & Hf & H)]; [done|]. exists c. by apply parsePairs_lookup in H.
    - intros (c & H). right. exists c. pose proof (lists_pair_colon_free _ _ _ H).
      split; [done|]. by apply parsePairs_lookup. }
  destruct (decide (cs = [])), (decide (hs = [])); do 3 eexists;
    (split; [reflexivity|]); (split; [reflexivity|]); split; try reflexivity;
    match goal with |- NoDup (range_at ?t ?m).*1 /\ _ => destruct (range_keys t m) as [? Hk] end;
    (split; [done|]); intros x; rewrite Hk; auto.
Qed.

(** The gateway always starts: splitting the configured pairs never panics.  Its
    administrators are exactly those listed; it accepts exactly the configured pairs,
    or, when no pair is configured, any listed currency on any listed chain; and lists
    left empty are filled with the currencies and chains of the pairs, each once. *)
Theorem NewServer_spec adm org cur chn prs lim (w : World S) : exists s w',
  NewServer adm org cur chn prs lim w = (Ok s, w') /\ w_st w' = w_st w /\ gw_limits s = lim /\
  (forall u, is_Some (gw_adminUserIDs s !! u) <-> u ∈ splitTrim adm) /\
  (forall c d, colon_free c -> (gw_isSupportedPair s c d = true <->
     lists_pair prs c d \/
     (forall c d, ~ lists_pair prs c d) /\ c ∈ splitTrim cur /\ d ∈ splitTrim chn)) /\
  ((exists c d, lists_pair prs c d) -> splitTrim cur = [] -> splitTrim chn = [] ->
     NoDup (gw_supportedCurrencies s) /\ NoDup (gw_supportedChains s) /\
     (forall c, c ∈ gw_supportedCurrencies s <-> exists d, lists_pair prs c d) /\
     (forall d, d ∈ gw_supportedChains s <-> exists c, lists_pair prs c d)).
Proof.
  unfold NewServer. unfold mbind at 1, M_bind at 1.
  destruct (decide (size (parsePairs prs) = 0%nat)) as [Hz|Hz].
  - do 2 eexists. split; [reflexivity|]. cbn. split_and!; try done.
    + intros u. apply set_of_lookup.
    + intros c d Hc. unfold gw_isSupportedPair. cbn. rewrite decide_True by done.
      unfold isSupportedCurrency, isSupportedChain. cbn.
      rewrite andb_true_iff, !member_In. pose proof (proj1 (parsePairs_empty prs) Hz) as Hn.
      split; [intros H; by right|]. intros [H|[_ H]]; [by destruct (Hn c d)|done].
    + intros (c & d & H). by apply (proj1 (parsePairs_empty prs) Hz) in H.
  - destruct (deriveLists_spec prs (splitTrim cur) (splitTrim chn) w)
      as (cs & hs & w' & -> & Hw & Hcs & Hhs).
    do 2 eexists. split; [reflexivity|]. cbn. split_and!; try done.
    + intros u. apply set_of_lookup.
    + intros c d Hc. unfold gw_isSupportedPair. cbn. rewrite decide_False by done.
      rewrite bool_decide_eq_true, parsePairs_lookup by done. split; [by left|].
      intros [H|[H _]]; [done|]. by apply parsePairs_empty in H.
    + intros _ Hc Hh. rewrite decide_True in Hcs by done.
      rewrite decide_True in Hhs by done. tauto.
Qed.
End Config.

(** ** A gateway whose services are down, and a Redis that answers within a second *)
Module GatewayDemo.
Import Demo.

#[export] Instance bucket : Limiter := {
  limiter := Z;
  NewLimiter rate burst := burst;
  limiter_Allow now tokens := if 1 <=? tokens then (true, tokens - 1) else (false, tokens);
}.
#[export] Instance limiter_lens : Lens LimiterState LimiterState := { lget s := s; lset t _ := t }.
#[export] Instance limiter_laws : LensLaws limiter_lens.
Proof. by constructor. Qed.
#[export] Instance redis : RedisLink LimiterState := { redis_reach := mret tt }.
#[export] Instance jwks : Jwks LimiterState := {
  jwks_UserFromRequest r :=
    if decide (Header_Get r "Authorization" = "Bearer alice") then mret (mkUser "alice" "" "")
    else mthrow (ErrNew "bad token");
}.
Definition down {A} : M LimiterState A := mthrow (ErrStatus Unknown "down").
#[export] Instance wallet : WalletConn LimiterState := {
  conn_GetRates _ _ := down; conn_GetBalance _ _ _ _ := down;
  conn_ListTransactions _ _ _ _ _ := down; conn_GetDepositAddress _ _ _ _ := down;
  conn_RequestWithdrawal _ _ _ _ _ _ := mret ("w1", "pending");
  conn_ProcessDepositWebhook _ _ _ := down; conn_ListPendingWithdrawals _ _ _ := down;
  conn_ReviewWithdrawal _ _ _ _ _ := down; conn_DebitWallet _ _ := down;
  conn_CreditWallet _ _ := down;
}.
#[export] Instance prometheus : Prometheus := {
  valid_label := fun _ => true;
  exposition := fun _ _ => (∅, "");
}.
#[export] Instance sportsbook : SportsbookConn LimiterState := {
  conn_PlaceBet _ _ := down; conn_GetBet _ _ := down; conn_ListBets _ _ _ _ _ := down;
  conn_SettleBet _ _ _ := down;
}.
#[export] Instance oddsfeed : OddsFeedConn LimiterState := {
  conn_ListSports _ _ := down; conn_ListLeagues _ _ _ := down;
  conn_ListEvents _ _ _ _ _ := down; conn_GetEvent _ := down;
  conn_ListMarkets _ _ _ _ := down; conn_ListOutcomes _ _ _ _ := down;
  conn_ListLiveScores _ _ _ _ := down;
}.

Definition empty : World LimiterState := mkWorld 0 (mkLimiterState ∅ ∅).
Definition gateway : Server :=
  mkServer ∅ ∅ true ["USDT"] ["tron"] ∅ (mkLimits "" "" "" "1" "100" "").
Definition limiter : RateLimiter := NewRateLimiter "redis" 5 10.
Definition withdrawal : HttpReq :=
  mkHttpReq "POST" "/api/wallet/withdraw" {["Authorization" := "Bearer alice"]} "10.0.0.1:80" ∅ ∅
    (marshal (JObj [("amount", JStr "20"); ("destinationAddress", JStr "T1")])) None None None.

Example withdrawal_reply :
  (Router_mux gateway limiter withdrawal empty).1 =
    Ok (mkHttpReply 200 (json_header ∪
      <["Access-Control-Allow-Origin" := "*"]>
      (<["Access-Control-Allow-Methods" := "GET, POST, PUT, PATCH, DELETE, OPTIONS"]>
      (<["Access-Control-Allow-Headers" := "Authorization, Content-Type"]>
      {["Access-Control-Max-Age" := "86400"]})))
      (BodyProto (PbWithdrawalRequested "w1" "pending"))).
Proof. vm_compute. reflexivity. Qed.

Lemma gateway_access_control_witness :
  exists r', reaches withdrawal r' /\ served gateway r'
    (allow limiter "10.0.0.1" empty).2 (Router_mux gateway limiter withdrawal empty).2.
Proof. exact (gateway_access_control gateway limiter withdrawal empty eq_refl). Defined.

Lemma redis_prompt : prompt (LS := limiter_lens) 1.
Proof.
  constructor; [apply outside_ret|]. intros n s w' [= <-]. unfold second. cbn. lia.
Qed.

Lemma redis_rate_bound_witness :
  let w1 := (allowRedis limiter "10.0.0.1" empty).2 in
  traffic limiter "10.0.0.1" empty 1 w1 /\ 1 <= 10 + 5 * (at_second w1 - at_second empty).
Proof.
  assert (traffic limiter "10.0.0.1" empty 1 (allowRedis limiter "10.0.0.1" empty).2) as H.
  { eapply (traffic_call limiter "10.0.0.1" empty 0 empty "10.0.0.1" (Ok true)); [constructor|].
    vm_compute. reflexivity. }
  split; [exact H|].
  refine (redis_rate_bound _ limiter 1 redis_prompt _ _ _ "10.0.0.1" empty 0 empty 1 _
    eq_refl (traffic_none _ _ _) H); cbn; lia.
Defined.

Lemma NewServer_spec_witness : exists s w',
  NewServer "root" "*" "" "" "USDT:tron,USDT:eth" (gw_limits gateway) empty = (Ok s, w') /\
  NoDup (gw_supportedCurrencies s) /\ gw_isSupportedPair s "USDT" "eth" = true.
Proof.
  destruct (NewServer_spec "root" "*" "" "" "USDT:tron,USDT:eth" (gw_limits gateway) empty)
    as (s & w' & H & _ & _ & _ & Hp & Hl).
  exists s, w'. split; [exact H|]. split.
  - apply Hl; [|vm_compute; reflexivity..]. exists "USDT", "tron". vm_compute. left.
  - apply Hp; [reflexivity|]. left. vm_compute. right. left.
Defined.
End GatewayDemo.
