(* ===== verification/GatewayHttpProps.v ===== *)
(** * GatewayHttpProps: the gateway's handlers under the shared middleware *)

From S2P Require Import Prelude GoStd GoJson Decimal OddsModels Xcash WalletService WalletServer.
From S2P Require Import OddsServer BetServer GoTime RateLimit Middleware MiddlewareProps Gateway GatewayProps Demo.

(** ** Every reply of the gateway ends the header *)
Section Final.
Context {S : Type} `{E : GoEnv, GT : GrpcText, D : Decimal, Lim : Limiter,
  LS : Lens S LimiterState, RL : RedisLink S, JW : Jwks S, WCn : WalletConn S,
  SCn : SportsbookConn S, OCn : OddsFeedConn S, Pm : Prometheus}.
Context (s : Server) (rl : RateLimiter) (protojson : gw_message -> string).

Definition good_code (c : Z) : bool := (200 <=? c) && (c <=? 599).
Definition final_status (reply : Reply) : Prop := good_code (rp_Status reply) = true.
Lemma good_final c : good_code c = true -> informational c = false.
Proof.
  unfold good_code, informational. intros [H1%Z.leb_le H2%Z.leb_le]%andb_true_iff.
  rewrite (proj2 (Z.leb_gt c 199)) by lia. by rewrite andb_false_r.
Qed.
Definition finals (m : M S Reply) : Prop :=
  forall z reply z', m z = (Ok reply, z') -> final_status reply.
Definition final_handler (h : Handler S gw_message) : Prop := forall r, finals (h r).

Lemma finals_ret reply : final_status reply -> finals (mret reply).
Proof. by intros H z ? ? [= <- _]. Qed.
Lemma finals_panic p : finals (panic p).
Proof. by intros z reply z' [=]. Qed.
Lemma finals_bind {A} (m : M S A) (f : A -> M S Reply) : (forall a, finals (f a)) -> finals (m ≫= f).
Proof.
  intros H z reply z'. unfold mbind, M_bind. destruct (m z) as [[a|e|p] z1]; [apply H|done..].
Qed.
Lemma finals_if {A} (d : {A} + {~ A}) m m' : finals m -> finals m' -> finals (if d then m else m').
Proof. by destruct d. Qed.
Lemma finals_ifb (b : bool) m m' : finals m -> finals m' -> finals (if b then m else m').
Proof. by destruct b. Qed.
Lemma finals_reply {A} st (m : M S A) k : (forall e, good_code (st e) = true) ->
  (forall a, final_status (k a)) -> finals (reply_or st m k).
Proof.
  intros Hst Hk. apply finals_bind. intros [a|e|p]; [by apply finals_ret|by apply finals_ret, Hst|apply finals_panic].
Qed.
Lemma finals_user r k : (forall u, finals (k u)) -> finals (userFromContext r k).
Proof. intros H. unfold userFromContext. destruct (rq_User r); [apply H|by apply finals_ret]. Qed.
Lemma finals_decoding {A} (d : res A) k : (forall a, finals (k a)) -> finals (decoding d k).
Proof. intros H. destruct d; [apply H|by apply finals_ret|apply finals_panic]. Qed.

Lemma always_final code e : good_code code = true -> good_code (always code e) = true.
Proof. done. Qed.
Lemma grpc_final e : good_code (grpcStatusToHTTP e) = true.
Proof. unfold grpcStatusToHTTP. destruct (status_FromError e) as [[]|]; done. Qed.

Ltac finals := repeat first
  [ apply finals_user; intros ? | apply finals_decoding; intros ? | apply finals_if | apply finals_ifb
  | apply finals_ret; done
  | apply finals_reply; [intros ?; first [apply grpc_final | by apply always_final]|intros ?; repeat case_match; done]
  | case_match ].

Lemma final_auth h : final_handler h -> final_handler (auth h).
Proof. intros H r. apply finals_bind. intros [u|e|p]; [apply H|by apply finals_ret|apply finals_panic]. Qed.
Lemma final_admin h : final_handler h -> final_handler (admin s h).
Proof. intros H r. unfold admin. destruct (rq_User r); [|by apply finals_ret]. case_decide; [apply H|by apply finals_ret]. Qed.

Lemma routes_final : Forall (fun p => final_handler p.2) (routes s).
Proof.
  unfold routes. repeat apply list.Forall_cons_2; [..|constructor]; cbn [route snd]; intros r;
    unfold WithRoutePattern; try (apply final_auth; try apply final_admin; clear r; intros r);
    unfold handleHealth, handleRates, handleBalance, handleTransactions,
      handleDepositAddress, handleWithdraw, handleListPendingWithdrawals, handleReviewWithdrawal,
      handleXcashWebhook, handleListSports, handleListLeagues, handleListEvents, handleGetEvent,
      handleListMarkets, handleListOutcomes, handleListLiveEvents, handleBets, handlePlaceBet,
      handleListBets, handleGetBet, handleSettleBet, pagination; finals.
  all: apply finals_bind; intros ?; by apply finals_ret.
Qed.

Lemma final_dispatch table path : Forall (fun p => final_handler p.2) table ->
  final_handler (dispatch table path).
Proof.
  induction 1 as [|[pattern h] table Hh _ IH]; intros r; cbn [dispatch]; [by apply finals_ret|].
  destruct (match_segments pattern path ∅); [apply Hh|apply IH].
Qed.

Lemma Router_mux_final : final_handler (Router_mux s rl).
Proof.
  intros r. apply finals_bind. intros [[]|e|p]; [|by apply finals_ret..|apply finals_panic].
  unfold cors. case_decide; [by apply finals_ret|]. 
  assert (finals (mux s r)) as Hm.
  { unfold mux. destruct (Split _ _) as [|[|] path]; [by apply finals_ret|apply final_dispatch, routes_final|by apply finals_ret]. }
  intros z reply z'. unfold mbind, M_bind, mret, M_ret. destruct (mux s r z) as [[a|e|p] z1] eqn:Hz; [|done..].
  intros [= <- _]. exact (Hm z a z1 Hz).
Qed.

Lemma write_reply_final reply : final_status reply -> final_only (T := S) (write_reply protojson reply).
Proof.
  intros H. unfold write_reply. induction (map_to_list _) as [|kv l IH]; cbn; [|exact IH].
  split; [by apply good_final|]. unfold write_body. repeat case_match; done.
Qed.
Lemma gateway_final r : final_only (reply_handler protojson (Router_mux s rl) r).
Proof. intros z reply z' Hz. apply write_reply_final. by apply (Router_mux_final r z reply z'). Qed.

(** ** What a client receives *)

(** The text that is written of a body; [json.Encoder] ends a value with a newline. *)
Definition body_text (b : reply_body gw_message) : string :=
  match b with
  | BodyText t => t
  | BodyJSON v => marshal v +:+ String "010" ""
  | BodyProto m => protojson m
  end.
Definition sent_reply (id : string) (reply : Reply) : Conn :=
  let header := rp_Header reply ∪ {["X-Request-ID" := id]} in
  mkConn header (Some (rp_Status reply, header))
    (if bodyAllowedForStatus (rp_Status reply) then body_text (rp_Body reply) else "") [].

Lemma run_headers l k x : NoDup l.*1 ->
  run_handler (T := S) (foldr (fun kv k => HSetHeader kv.1 kv.2 k) k l) ConnWriter x =
  run_handler k ConnWriter (mkWorld (w_tick x)
    (let c := h_conn (w_st x) in h_set_conn (mkConn (list_to_map l ∪ cn_Header c) (cn_Sent c)
       (cn_Body c) (cn_Informational c)) (w_st x))).
Proof.
  revert x. induction l as [|[n v] l IH]; intros x Hnd.
  - cbn. f_equal. destruct x as [t [a [h sent b i] rs q d lg]]. cbn. by rewrite (left_id_L ∅ (∪) h).
  - apply list.NoDup_cons in Hnd as [Hn Hnd]. cbn [foldr run_handler]. unfold mbind, M_bind.
    assert (forall H : gmap string string, list_to_map ((n, v) :: l) ∪ H = list_to_map l ∪ <[n := v]> H) as Hl.
    { intros H. rewrite list_to_map_cons, <-insert_union_l. apply insert_union_r.
      by apply not_elem_of_list_to_map_1. }
    unfold Header_Set, conn_SetHeader, modify. cbv beta iota. rewrite IH by done. by rewrite Hl.
Qed.

Lemma write_reply_sends reply id t h : final_status reply ->
  h_conn h = mkConn {["X-Request-ID" := id]} None "" [] ->
  run_handler (T := S) (write_reply protojson reply) ConnWriter (mkWorld t h) =
    (Ok tt, mkWorld t (h_set_conn (sent_reply id reply) h)).
Proof.
  intros Hf Hc. unfold write_reply. rewrite run_headers by apply NoDup_fst_map_to_list.
  rewrite list_to_map_to_list. cbn [w_tick w_st]. rewrite Hc. cbn [cn_Header cn_Sent cn_Body cn_Informational].
  assert ((rp_Status reply <? 100) || (999 <? rp_Status reply) = false) as Hcode.
  { unfold final_status, good_code in Hf. apply andb_true_iff in Hf as [?%Z.leb_le ?%Z.leb_le].
    apply orb_false_iff. split; apply Z.ltb_ge; lia. }
  cbn [run_handler]. unfold WriteHeader, conn_WriteHeader. unmonad. cbn [h_conn h_set_conn cn_Sent].
  rewrite Hcode, (good_final _ Hf). unfold sent_reply, write_body, body_text.
  destruct (rp_Body reply) as [[|c b]|v|m]; cbn; [by destruct (bodyAllowedForStatus _)|..];
    unfold conn_Write; unmonad; cbn; by destruct (bodyAllowedForStatus _).
Qed.

(** A request as net/http hands it over, on a connection of its own. *)
Definition incoming (r : HttpReq) : Prop :=
  rq_RequestID r = None /\ rq_RoutePattern r = None.
Definition accepted (x : World (Http S)) : World (Http S) :=
  mkWorld (w_tick x) (h_set_conn new_conn (w_st x)).
Definition serve_request (r : HttpReq) (x : World (Http S)) : res () * World (Http S) :=
  Router protojson s rl ConnWriter r (accepted x).

Lemma label_is_path r : incoming r -> route_label r = rq_Path r.
Proof. intros [_ Hr]. unfold route_label, GetRoutePattern. by rewrite Hr. Qed.

(** The request's log entry. *)
Definition entry (r : HttpReq) (x : World (Http S)) (status : Z) (n : nat) : LogEntry :=
  mkLogEntry (request_id r x) status (rq_Method r) (rq_Path r) (Header_Get r "User-Agent")
    (rq_RemoteAddr r) (time_at (1 + n) - time_at (id_tick r x)).

(** C31.  What a client of the gateway receives is the reply that the routes, under CORS and
    the rate limit, made for its request with the request's id in the context: its status, its
    headers and the id's, its body.  The services are called by nothing else.  The request is
    then counted once under its method, its path and the status sent, and logged with them.
    When a handler panics, nothing was sent, counted or logged. *)
Theorem Router_serves r x : incoming r ->
  let id := request_id r x in
  let h := w_st x in
  let out := serve_request r x in
  let y := w_st out.2 in
  match Router_mux s rl (with_RequestID id r) (mkWorld (2 + id_tick r x) (h_app h)) with
  | (Ok reply, z) =>
      let labels := [rq_Method r; rq_Path r; Itoa (rp_Status reply)] in
      let k := (rq_Method r, rq_Path r, Itoa (rp_Status reply)) in
      h_app y = w_st z /\ h_conn y = sent_reply id reply /\
      if forallb valid_label labels
      then out.1 = Ok tt /\ h_requests y = <[k := default 0 (h_requests h !! k) + 1]> (h_requests h) /\
           h_log y = h_log h ++ [entry r x (rp_Status reply) (w_tick z)]
      else (exists msg, out.1 = Panic msg) /\ h_requests y = h_requests h /\ h_log y = h_log h
  | (_, z) =>
      out.1 <> Ok tt /\ h_app y = w_st z /\ cn_Sent (h_conn y) = None /\
      h_requests y = h_requests h /\ h_log y = h_log h
  end.
Proof.
  intros Hr id h out y.
  pose proof (middleware_spec (reply_handler protojson (Router_mux s rl)) r (accepted x) eq_refl gateway_final) as Hs.
  change (RequestID _ ConnWriter r (accepted x)) with out in Hs. unfold observed in Hs. cbv zeta in Hs.
  rewrite (label_is_path r Hr) in Hs. unfold reply_handler in Hs. cbn [run_handler] in Hs.
  unfold mbind, M_bind, on_app in Hs. cbn [w_tick w_st entered accepted] in Hs.
  change (request_id r (accepted x)) with id in Hs. change (id_tick r (accepted x)) with (id_tick r x) in Hs.
  change (h_app (w_st (Header_Set ConnWriter "X-Request-ID" id (bare (accepted x))).2)) with (h_app h) in Hs.
  assert (forall v, bare out.2 = v -> h_app y = h_app (w_st v) /\ h_conn y = h_conn (w_st v) /\
    h_requests y = h_requests (w_st v) /\ h_log y = h_log (w_st v)) as Hb
    by (intros v <-; by split_and!).
  destruct (Router_mux s rl (with_RequestID id r) _) as [[reply|e|msg] z] eqn:Hz.
  - rewrite (write_reply_sends reply id) in Hs; [|by eapply Router_mux_final|done].
    repeat change (status_of _) with (rp_Status reply) in Hs. cbv zeta.
    destruct (forallb valid_label _); destruct Hs as [Hs1 Hs2];
      destruct (Hb _ Hs2) as (Ha & Hc & Hq & Hl); rewrite Ha, Hc, Hq, Hl; by split_and!.
  - destruct Hs as [Hs1 Hs2]. destruct (Hb _ Hs2) as (Ha & Hc & Hq & Hl). rewrite Hs1, Ha, Hc, Hq, Hl. by split_and!.
  - destruct Hs as [Hs1 Hs2]. destruct (Hb _ Hs2) as (Ha & Hc & Hq & Hl). rewrite Hs1, Ha, Hc, Hq, Hl. by split_and!.
Qed.

(** ** Counters and log agree *)

Definition entry_key (e : LogEntry) : string * string * string :=
  (le_method e, le_path e, Itoa (le_statusCode e)).
Definition tally (k : string * string * string) (l : list LogEntry) : Z :=
  Z.of_nat (length (filter (fun e => entry_key e = k) l)).
Definition tallied (h : Http S) : Prop :=
  forall k, default 0 (h_requests h !! k) = tally k (h_log h).

Lemma tally_snoc k l e : tally k (l ++ [e]) = tally k l + (if decide (entry_key e = k) then 1 else 0).
Proof.
  unfold tally. rewrite list.filter_app, length_app, filter_cons, filter_nil. case_decide; cbn; lia.
Qed.

Lemma serve_tallied r x : incoming r -> tallied (w_st x) -> tallied (w_st (serve_request r x).2).
Proof.
  intros Hr Hx. pose proof (label_is_path r Hr) as Hp.
  pose proof (middleware_spec (reply_handler protojson (Router_mux s rl)) r (accepted x) eq_refl gateway_final) as Hs.
  change (RequestID _ ConnWriter r (accepted x)) with (serve_request r x) in Hs.
  pose proof (run_handler_records (reply_handler protojson (Router_mux s rl)
    (with_RequestID (request_id r (accepted x)) r)) (entered r (accepted x))) as (Hq & _ & Hl).
  assert (forall y, bare (serve_request r x).2 = y -> tallied (w_st y) -> tallied (w_st (serve_request r x).2)) as Hb
    by (intros y <-; done).
  destruct (run_handler _ ConnWriter (entered r (accepted x))) as [res y]. cbn [snd] in Hq, Hl.
  assert (tallied (w_st y)) as Hy by (intros k; rewrite Hq, Hl; apply Hx).
  destruct res as [[]|e|msg]; [|by destruct Hs as [_ Hs]; apply (Hb _ Hs)..].
  cbv beta iota zeta in Hs. destruct (forallb valid_label _); destruct Hs as [_ Hs]; apply (Hb _ Hs); [|done].
  intros k. unfold observed. cbn [w_st h_Info h_observe h_count h_requests h_log].
  rewrite tally_snoc. unfold entry_key at 1. cbn [le_method le_path le_statusCode]. rewrite Hp.
  case_decide as Hk.
  - subst k. rewrite lookup_insert_eq. cbn. by rewrite Hy.
  - rewrite lookup_insert_ne by done. rewrite Hy. lia.
Qed.

(** In every run of the gateway a counter of Prometheus is the number of log entries with its
    method, status and _path_: the patterns that the routes carry label nothing. *)
Lemma requests_tallied rs x : Forall incoming rs -> tallied (w_st x) ->
  tallied (w_st (foldl (fun x r => (serve_request r x).2) x rs)).
Proof.
  intros H. revert x. induction H as [|r rs Hr _ IH]; intros x Hx; [done|]. cbn. by apply IH, serve_tallied.
Qed.
End Final.

(** ** A request *)
Module HttpDemo.
Import Demo GatewayDemo.
#[local] Existing Instances Demo.env.

Definition pj (m : gw_message) : string := "{}".
Definition start : World (Http LimiterState) :=
  mkWorld 0 (mkHttp (w_st empty) new_conn [] ∅ ∅ []).
(** Two requests on one route with different path values. *)
Definition event (id : string) : HttpReq :=
  mkHttpReq "GET" ("/api/events/" +:+ id) {["X-Request-ID" := "r-1"]} "10.0.0.1:80" ∅ ∅ "" None None None.

Lemma event_reply : exists reply z,
  Router_mux gateway limiter (with_RequestID (request_id (event "7") start) (event "7"))
    (mkWorld (2 + id_tick (event "7") start) (h_app (w_st start))) = (Ok reply, z) /\
  rp_Status reply = 500.
Proof. eexists _, _. split; [vm_compute; reflexivity|reflexivity]. Qed.

Lemma Router_serves_witness :
  exists reply, rp_Status reply = 500 /\
    let out := serve_request gateway limiter pj (event "7") start in
    out.1 = Ok tt /\ h_conn (w_st out.2) = sent_reply pj "r-1" reply.
Proof.
  destruct event_reply as (reply & z & Hz & H500). exists reply. split; [exact H500|].
  assert (incoming (event "7")) as Hi by (split; reflexivity).
  pose proof (Router_serves gateway limiter pj (event "7") start Hi) as H. cbv zeta in H.
  rewrite Hz in H. destruct H as (_ & Hc & Ho & _). split; [exact Ho|exact Hc].
Defined.

(** One route, as many labels as path values: the counters grow with the clients' paths. *)
Example label_per_path :
  let h := w_st (foldl (fun x r => (serve_request gateway limiter pj r x).2) start [event "7"; event "8"]) in
  h_requests h !! ("GET", "/api/events/7", "500") = Some 1 /\
  h_requests h !! ("GET", "/api/events/8", "500") = Some 1.
Proof. vm_compute. split; reflexivity. Qed.
End HttpDemo.
