(* ===== verification/Sql.v ===== *)
(** * Sql: transactions against PostgreSQL through database/sql

    The database server is not part of the repository; the SQL statements are.  A
    statement is a function on the tables, written out where it occurs; this file says
    how [database/sql] and PostgreSQL run statements: alone, each in a transaction of its
    own, or inside [BeginTx] ... [Commit] with the deferred [Rollback].  A statement that
    fails aborts its transaction: every later statement fails too, and [Commit] rolls
    back.  The connection can break at any statement, and the answer to a commit can get
    lost after the commit took effect; [SqlFaults] decides, at each tick. *)

From S2P Require Import Prelude GoStd GoJson.

(** [sql.ErrNoRows], and the server's errors by SQLSTATE code. *)
Definition ErrNoRows : goerr := ErrVar "sql.ErrNoRows" "sql: no rows in result set".
Definition ErrPg (code : string) : goerr :=
  ErrVar ("pgconn.PgError " +:+ code) ("ERROR (SQLSTATE " +:+ code +:+ ")").
Definition UniqueViolation : string := "23505".
Definition ForeignKeyViolation : string := "23503".
Definition CheckViolation : string := "23514".
Definition NumericOutOfRange : string := "22003".
Definition InFailedTransaction : string := "25P02".

(** What becomes of a commit: it takes effect and is confirmed, it does not take effect,
    or it takes effect and the confirmation is lost. *)
Inductive commit_result : Type :=
| Committed
| CommitRefused (msg : string)
| CommitLost (msg : string).

Class SqlFaults : Type := {
  stmt_fault : nat -> option string;
  commit_fault : nat -> commit_result;
}.

(** A database that is always reached. *)
Definition no_faults : SqlFaults :=
  {| stmt_fault _ := None; commit_fault _ := Committed |}.

(** The server's answer: a value, or an error with its code. *)
Inductive answer (A : Type) : Type :=
| Done (a : A)
| Refused (code : string).
Arguments Done {A} a.
Arguments Refused {A} code.
#[export] Instance answer_ret : MRet answer := fun A a => Done a.
#[export] Instance answer_bind : MBind answer := fun A B f r =>
  match r with Done a => f a | Refused code => Refused code end.

(** The value of a parameter as its column reads it. *)
Definition InvalidText : string := "22P02".
Definition read_in {A} (o : option A) : answer A :=
  match o with Some a => Done a | None => Refused InvalidText end.

(** A statement: from [NOW()], the value of [gen_random_uuid()] and the tables to an
    answer and the new tables. *)
Definition statement (T A : Type) : Type := Z -> string -> T -> answer (A * T).

(** A statement that only reads. *)
Definition select {T A} (f : T -> A) : statement T A := fun _ _ db => Done (f db, db).

(** ** Columns and rows *)

(** How PostgreSQL reads a parameter into a column of the type, and prints it again. *)
Class PgTypes : Type := {
  numeric_in : string -> option string;
  uuid_in : string -> option string;
  jsonb_in : Metadata -> option (option string);
  timestamptz_in : Z -> option Z;
}.

(** The first row of a table that satisfies [P]. *)
Definition first_row {A} (P : A -> bool) (l : list A) : option A :=
  snd <$> list_find (fun x => P x = true) l.

(** ORDER BY created_at ... LIMIT $n OFFSET $m: rows of one time come in any order. *)
Definition select_page `{GoEnv} {T R} (rows : T -> list R) (less : R -> R -> bool) (limit offset : Z) :
    statement T (list R) := fun now fresh db =>
  if offset <? 0 then Refused "2201X"
  else if limit <? 0 then Refused "2201W"
  else Done (take (Z.to_nat limit) (drop (Z.to_nat offset) (sort_Slice less (rows db))), db).

(** [row.Scan(...)] of a query for at most one row. *)
Definition scan {S A} (q : M S (option A)) : M S A :=
  r ← q;
  match r with Some a => mret a | None => mthrow ErrNoRows end.

Lemma first_row_Some {A} (Q : A -> bool) l x : first_row Q l = Some x -> x ∈ l /\ Q x = true.
Proof.
  unfold first_row. destruct (list_find _ l) as [[i y]|] eqn:Hf; [|done]. intros [= <-].
  apply list_find_Some in Hf as (Hl & Hq & _). split; [by eapply list_elem_of_lookup_2|done].
Qed.
Lemma first_row_None {A} (Q : A -> bool) l : first_row Q l = None <-> forall x, x ∈ l -> Q x = false.
Proof.
  unfold first_row. destruct (list_find _ l) as [[i y]|] eqn:Hf; cbn.
  - split; [done|]. intros H. apply list_find_Some in Hf as (Hl & Hq & _).
    rewrite H in Hq; [done|]. by eapply list_elem_of_lookup_2.
  - split; [intros _|done]. intros x Hx. apply list_find_None in Hf.
    rewrite list.Forall_forall in Hf. apply not_true_iff_false. by apply Hf.
Qed.
Lemma existsb_false {A} (Q : A -> bool) l : existsb Q l = false <-> forall x, x ∈ l -> Q x = false.
Proof.
  rewrite <- not_true_iff_false, existsb_exists. split.
  - intros H x Hx. apply not_true_iff_false. intros Hq. apply H. exists x.
    split; [by apply list_elem_of_In|done].
  - intros H (x & Hx%list_elem_of_In & Hq). rewrite H in Hq; done.
Qed.

Lemma first_row_cons {A} (Q : A -> bool) x l :
  first_row Q (x :: l) = if Q x then Some x else first_row Q l.
Proof.
  unfold first_row. cbn. destruct (Q x); [by rewrite decide_True|].
  rewrite decide_False by done. by destruct (list_find _ l) as [[]|].
Qed.

Lemma first_row_fmap {A} (Q : A -> bool) (f : A -> A) l : (forall x, Q (f x) = Q x) ->
  first_row Q (f <$> l) = f <$> first_row Q l.
Proof.
  intros Hf. induction l as [|x l IH]; [done|].
  change (f <$> x :: l) with (f x :: (f <$> l)). rewrite !first_row_cons, Hf, IH.
  by destruct (Q x).
Qed.

Lemma first_row_app {A} (Q : A -> bool) l1 l2 :
  first_row Q (l1 ++ l2) = match first_row Q l1 with Some x => Some x | None => first_row Q l2 end.
Proof.
  induction l1 as [|x l1 IH]; [done|]. cbn [app]. rewrite !first_row_cons, IH. by destruct (Q x).
Qed.

(** The call answered an error. *)
Definition failed {S A} (m : M S A) (w : World S) : Prop :=
  match (m w).1 with Ok _ => False | _ => True end.

(** An open transaction: the tables as it sees them, its [NOW()], whether it is aborted,
    and, once committed, the tables it leaves. *)
Record Tx (T : Type) : Type := mkTx {
  tx_work : T;
  tx_now : Z;
  tx_failed : bool;
  tx_done : option T;
}.
Arguments mkTx {T} _ _ _ _.
Arguments tx_work {T} _.
Arguments tx_now {T} _.
Arguments tx_failed {T} _.
Arguments tx_done {T} _.

Definition tx_fail {T} (x : Tx T) : Tx T := mkTx (tx_work x) (tx_now x) true (tx_done x).
Definition tx_write {T} (db : T) (x : Tx T) : Tx T :=
  mkTx db (tx_now x) (tx_failed x) (tx_done x).
Definition tx_finish {T} (x : Tx T) : Tx T :=
  mkTx (tx_work x) (tx_now x) (tx_failed x) (Some (tx_work x)).

Section Sql.
Context {T : Type} `{E : GoEnv, F : SqlFaults}.

(** A statement outside a transaction. *)
Definition db_stmt {A} (f : statement T A) : M T A := fun w =>
  let t := w_tick w in
  let next db := mkWorld (Datatypes.S t) db in
  match stmt_fault t with
  | Some msg => (Err (ErrNew msg), next (w_st w))
  | None =>
      match f (time_at t) (uuid_at t) (w_st w) with
      | Done (a, db) =>
          match commit_fault t with
          | Committed => (Ok a, next db)
          | CommitRefused msg => (Err (ErrNew msg), next (w_st w))
          | CommitLost msg => (Err (ErrNew msg), next db)
          end
      | Refused code => (Err (ErrPg code), next (w_st w))
      end
  end.

(** A statement inside one. *)
Definition tx_stmt {A} (f : statement T A) : M (Tx T) A := fun w =>
  let t := w_tick w in
  let x := w_st w in
  let next x := mkWorld (Datatypes.S t) x in
  if tx_failed x then (Err (ErrPg InFailedTransaction), next x)
  else
    match stmt_fault t with
    | Some msg => (Err (ErrNew msg), next (tx_fail x))
    | None =>
        match f (tx_now x) (uuid_at t) (tx_work x) with
        | Done (a, db) => (Ok a, next (tx_write db x))
        | Refused code => (Err (ErrPg code), next (tx_fail x))
        end
    end.

(** [tx.Commit()]: of an aborted transaction it is a rollback and an error. *)
Definition tx_commit : M (Tx T) unit := fun w =>
  let t := w_tick w in
  let x := w_st w in
  let next x := mkWorld (Datatypes.S t) x in
  if tx_failed x
  then (Err (ErrNew "commit unexpectedly resulted in rollback"), next x)
  else
    match commit_fault t with
    | Committed => (Ok tt, next (tx_finish x))
    | CommitRefused msg => (Err (ErrNew msg), next x)
    | CommitLost msg => (Err (ErrNew msg), next (tx_finish x))
    end.

(** [tx, err := db.BeginTx(ctx, nil); ...; defer tx.Rollback()]: the tables are those of
    the commit, or as before. *)
Definition in_tx {A} (body : M (Tx T) A) : M T A := fun w =>
  let t := w_tick w in
  match stmt_fault t with
  | Some msg => (Err (ErrWrap "begin tx" (ErrNew msg)), mkWorld (Datatypes.S t) (w_st w))
  | None =>
      let (r, w') := body (mkWorld (Datatypes.S t) (mkTx (w_st w) (time_at t) false None)) in
      (r, mkWorld (w_tick w') (default (w_st w) (tx_done (w_st w'))))
  end.

(** ** Reasoning about transactions

    [tx_ok m n db now Q]: from an open transaction that sees [db], at tick [n], the steps
    [m] either fail without a commit or go on with an answer and tables that satisfy [Q].
    [tx_fails m]: in an aborted transaction [m] fails without a commit.  [tx_ends]: the
    whole body either fails without a commit, or commits tables and an answer that
    satisfy [R]; the answer is returned unless the confirmation got lost. *)
Definition opened (db : T) (now : Z) : Tx T := mkTx db now false None.

Definition tx_ok {A} (m : M (Tx T) A) n db now (Q : A -> nat -> T -> Prop) : Prop :=
  forall r w', m (mkWorld n (opened db now)) = (r, w') ->
    (n <= w_tick w')%nat /\
    match r with
    | Ok a => exists db', w_st w' = opened db' now /\ Q a (w_tick w') db'
    | Err _ => tx_done (w_st w') = None
    | Panic _ => False
    end.

Definition tx_fails {A} (m : M (Tx T) A) : Prop :=
  forall w r w', tx_failed (w_st w) = true -> tx_done (w_st w) = None -> m w = (r, w') ->
    (w_tick w <= w_tick w')%nat /\ tx_failed (w_st w') = true /\ tx_done (w_st w') = None /\
    exists e, r = Err e.

Definition tx_ends {A} (m : M (Tx T) A) n db now (R : A -> nat -> T -> Prop) : Prop :=
  forall r w', m (mkWorld n (opened db now)) = (r, w') ->
    (n <= w_tick w')%nat /\
    match tx_done (w_st w') with
    | None => exists e, r = Err e
    | Some db' => exists a, R a (w_tick w') db' /\ (r = Ok a \/ exists e, r = Err e)
    end.

Lemma in_tx_ends {A} (body : M (Tx T) A) (w : World T) R r w' :
  tx_ends body (Datatypes.S (w_tick w)) (w_st w) (time_at (w_tick w)) R ->
  in_tx body w = (r, w') ->
  (w_tick w < w_tick w')%nat /\
  ((exists e, r = Err e) /\ w_st w' = w_st w \/
   exists a, R a (w_tick w') (w_st w') /\ (r = Ok a \/ exists e, r = Err e)).
Proof.
  intros H. unfold in_tx. destruct (stmt_fault _).
  { intros [= <- <-]. split; [cbn; lia|]. left. split; [by eexists|done]. }
  destruct (body _) as [r0 w0] eqn:Hb. intros [= <- <-]. apply H in Hb as [Ht Hd].
  cbn [w_tick w_st]. split; [lia|]. destruct (tx_done (w_st w0)); cbn [default]; [by right|by left].
Qed.

Lemma tx_ok_stmt {A} (f : statement T A) n db now (Q : A -> nat -> T -> Prop) :
  (forall a db', f now (uuid_at n) db = Done (a, db') -> Q a (Datatypes.S n) db') ->
  tx_ok (tx_stmt f) n db now Q.
Proof.
  intros H r w'. unfold tx_stmt. cbn [w_tick w_st opened tx_failed tx_now tx_work].
  destruct (stmt_fault n); [intros [= <- <-]; split; [cbn; lia|done]|].
  destruct (f _ _ _) as [[a db']|code] eqn:Hf; intros [= <- <-]; (split; [cbn; lia|]);
    [|done]. exists db'. split; [done|]. by apply H.
Qed.

Lemma tx_ok_ret {A} (a : A) n db now (Q : A -> nat -> T -> Prop) :
  Q a n db -> tx_ok (mret a) n db now Q.
Proof. intros H r w' [= <- <-]. split; [cbn; lia|]. by exists db. Qed.

Lemma tx_ok_throw {A} (e : goerr) n db now (Q : A -> nat -> T -> Prop) :
  tx_ok (mthrow e) n db now Q.
Proof. intros r w' [= <- <-]. split; [cbn; lia|done]. Qed.

Lemma tx_ok_of_res {A} (x : res A) n db now (Q : A -> nat -> T -> Prop) :
  (forall p, x <> Panic p) -> (forall a, x = Ok a -> Q a n db) -> tx_ok (of_res x) n db now Q.
Proof.
  intros Hp H r w' [= <- <-]. split; [cbn; lia|].
  destruct x as [a|e|p]; [exists db; auto|done|by destruct (Hp p)].
Qed.

Lemma tx_ok_wrapped {A} what (m : M (Tx T) A) n db now Q :
  tx_ok m n db now Q -> tx_ok (wrapped what m) n db now Q.
Proof.
  intros H r w'. unfold wrapped. destruct (m _) as [r0 w0] eqn:Hm.
  intros [= <- <-]. apply H in Hm as [Ht Hm]. split; [done|]. by destruct r0.
Qed.

Lemma tx_ok_bind {A B} (m : M (Tx T) A) (f : A -> M (Tx T) B) n db now Q R :
  tx_ok m n db now Q ->
  (forall a n' db', (n <= n')%nat -> Q a n' db' -> tx_ok (f a) n' db' now R) ->
  tx_ok (m ≫= f) n db now R.
Proof.
  intros Hm Hf r w'. unfold mbind, M_bind. destruct (m _) as [r0 w0] eqn:H0.
  apply Hm in H0 as [Ht H0]. destruct r0 as [a|e|p]; [|by intros [= <- <-]|done].
  destruct H0 as (db' & Hw & HQ). destruct w0 as [n0 x0]. cbn in Hw. subst x0. intros Hr.
  destruct (Hf a n0 db' Ht HQ r w' Hr) as [Ht' H']. split; [cbn in *; lia|done].
Qed.

Lemma tx_ok_scan {A} (m : M (Tx T) (option A)) n db now (Q : A -> nat -> T -> Prop) :
  tx_ok m n db now (fun o n' db' => match o with Some a => Q a n' db' | None => True end) ->
  tx_ok (scan m) n db now Q.
Proof.
  intros H. unfold scan. eapply tx_ok_bind; [exact H|]. intros [a|] n' db' _ HQ;
    [by apply tx_ok_ret|apply tx_ok_throw].
Qed.

Lemma tx_ends_bind {A B} (m : M (Tx T) A) (f : A -> M (Tx T) B) n db now Q R :
  tx_ok m n db now Q ->
  (forall a n' db', (n <= n')%nat -> Q a n' db' -> tx_ends (f a) n' db' now R) ->
  tx_ends (m ≫= f) n db now R.
Proof.
  intros Hm Hf r w'. unfold mbind, M_bind. destruct (m _) as [r0 w0] eqn:H0.
  apply Hm in H0 as [Ht H0]. destruct r0 as [a|e|p]; [|intros [= <- <-]|done].
  - destruct H0 as (db' & Hw & HQ). destruct w0 as [n0 x0]. cbn in Hw. subst x0. intros Hr.
    destruct (Hf a n0 db' Ht HQ r w' Hr) as [Ht' H']. split; [cbn in *; lia|done].
  - split; [done|]. rewrite H0. by eexists.
Qed.

Lemma tx_ends_throw {A} (e : goerr) n db now (R : A -> nat -> T -> Prop) :
  tx_ends (mthrow e) n db now R.
Proof. intros r w' [= <- <-]. split; [cbn; lia|]. by eexists. Qed.

(** [tx.Commit()], and the answer. *)
Lemma tx_ends_commit {A} what (a : A) n db now (R : A -> nat -> T -> Prop) :
  R a (Datatypes.S n) db -> tx_ends (wrapped what tx_commit;; mret a) n db now R.
Proof.
  intros HR r w'. unfold mbind, M_bind, wrapped, tx_commit, mret, M_ret.
  cbn [w_tick w_st opened tx_failed].
  destruct (commit_fault n); intros [= <- <-]; (split; [cbn; lia|]); cbn;
    [exists a; auto|by eexists|exists a; split; [done|right; by eexists]].
Qed.

Lemma tx_fails_stmt {A} (f : statement T A) : tx_fails (tx_stmt f).
Proof.
  intros w r w' Hf Hd. unfold tx_stmt. rewrite Hf. intros [= <- <-].
  split; [cbn; lia|]. split_and!; [done|done|by eexists].
Qed.
Lemma tx_fails_throw {A} (e : goerr) : tx_fails (mthrow e : M (Tx T) A).
Proof. intros w r w' Hf Hd [= <- <-]. split; [lia|]. split_and!; [done|done|by eexists]. Qed.
Lemma tx_fails_bind {A B} (m : M (Tx T) A) (f : A -> M (Tx T) B) : tx_fails m -> tx_fails (m ≫= f).
Proof.
  intros H w r w' Hf Hd. unfold mbind, M_bind. destruct (m w) as [r0 w0] eqn:Hm.
  destruct (H w r0 w0 Hf Hd Hm) as (Ht & Hf' & Hd' & e & ->).
  intros [= <- <-]. split_and!; [done|done|done|by eexists].
Qed.
Lemma tx_fails_wrapped {A} what (m : M (Tx T) A) : tx_fails m -> tx_fails (wrapped what m).
Proof.
  intros H w r w' Hf Hd. unfold wrapped. destruct (m w) as [r0 w0] eqn:Hm.
  destruct (H w r0 w0 Hf Hd Hm) as (Ht & Hf' & Hd' & e & ->).
  intros [= <- <-]. split_and!; [done|done|done|by eexists].
Qed.

(** A query for at most one row whose error the code inspects: a row, no row, or a
    failure that has aborted the transaction and is not [ErrNoRows]. *)
Lemma query_cases {A} (f : statement T (option A)) n db now :
  let next x := mkWorld (Datatypes.S n) x in
  (exists a db', f now (uuid_at n) db = Done (Some a, db') /\
     attempt (scan (tx_stmt f)) (mkWorld n (opened db now)) = (Ok (Ok a), next (opened db' now))) \/
  (exists db', f now (uuid_at n) db = Done (None, db') /\
     attempt (scan (tx_stmt f)) (mkWorld n (opened db now)) =
       (Ok (Err ErrNoRows), next (opened db' now))) \/
  exists e, e <> ErrNoRows /\ errors_Is e ErrNoRows = false /\
     attempt (scan (tx_stmt f)) (mkWorld n (opened db now)) =
       (Ok (Err e), next (tx_fail (opened db now))).
Proof.
  intros next. unfold attempt, scan, mbind, M_bind, tx_stmt.
  cbn [w_tick w_st opened tx_failed tx_now tx_work].
  destruct (stmt_fault n) as [msg|]; [right; right; by exists (ErrNew msg)|].
  destruct (f _ _ _) as [[[a|] db']|code]; [left; by exists a, db'|right; left; by exists db'|].
  right; right. exists (ErrPg code). split_and!; [done| |done].
  unfold ErrPg, ErrNoRows, errors_Is. by rewrite bool_decide_eq_false_2 by done.
Qed.

Lemma tx_ends_query {A B} (f : statement T (option A)) (k : res A -> M (Tx T) B) n db now R :
  (forall a db', f now (uuid_at n) db = Done (Some a, db') ->
     tx_ends (k (Ok a)) (Datatypes.S n) db' now R) ->
  (forall db', f now (uuid_at n) db = Done (None, db') ->
     tx_ends (k (Err ErrNoRows)) (Datatypes.S n) db' now R) ->
  (forall e, e <> ErrNoRows -> errors_Is e ErrNoRows = false -> tx_fails (k (Err e))) ->
  tx_ends (attempt (scan (tx_stmt f)) ≫= k) n db now R.
Proof.
  intros Hrow Hnone Herr r w'. unfold mbind at 1, M_bind at 1.
  destruct (query_cases f n db now) as [(a & db' & Hf & ->)|[(db' & Hf & ->)|(e & He & Hi & ->)]].
  - intros H. apply (Hrow a db' Hf) in H as [? ?]. split; [lia|done].
  - intros H. apply (Hnone db' Hf) in H as [? ?]. split; [lia|done].
  - intros H. apply (Herr e He Hi) in H as (Ht & _ & Hd & Hr); [|done|done].
    split; [cbn in *; lia|]. by rewrite Hd.
Qed.

Lemma tx_ok_query {A B} (f : statement T (option A)) (k : res A -> M (Tx T) B) n db now Q :
  (forall a db', f now (uuid_at n) db = Done (Some a, db') ->
     tx_ok (k (Ok a)) (Datatypes.S n) db' now Q) ->
  (forall db', f now (uuid_at n) db = Done (None, db') ->
     tx_ok (k (Err ErrNoRows)) (Datatypes.S n) db' now Q) ->
  (forall e, e <> ErrNoRows -> errors_Is e ErrNoRows = false -> tx_fails (k (Err e))) ->
  tx_ok (attempt (scan (tx_stmt f)) ≫= k) n db now Q.
Proof.
  intros Hrow Hnone Herr r w'. unfold mbind at 1, M_bind at 1.
  destruct (query_cases f n db now) as [(a & db' & Hf & ->)|[(db' & Hf & ->)|(e & He & Hi & ->)]].
  - intros H. apply (Hrow a db' Hf) in H as [? ?]. split; [lia|done].
  - intros H. apply (Hnone db' Hf) in H as [? ?]. split; [lia|done].
  - intros H. apply (Herr e He Hi) in H as (Ht & _ & Hd & er & ->); [|done|done].
    split; [cbn in *; lia|done].
Qed.

(** From tick [n] on the database is reached and confirms every commit. *)
Definition online (n : nat) : Prop :=
  forall k, (n <= k)%nat -> stmt_fault k = None /\ commit_fault k = Committed.

(** A statement outside a transaction fails without an effect, or takes effect and is
    answered or not. *)
Lemma db_stmt_cases {A} (f : statement T A) (w : World T) :
  let n := w_tick w in
  (exists e, db_stmt f w = (Err e, mkWorld (Datatypes.S n) (w_st w))) \/
  exists a db', f (time_at n) (uuid_at n) (w_st w) = Done (a, db') /\
    (db_stmt f w = (Ok a, mkWorld (Datatypes.S n) db') \/
     exists e, db_stmt f w = (Err e, mkWorld (Datatypes.S n) db')).
Proof.
  intros n. unfold db_stmt. fold n. destruct (stmt_fault n); [left; by eexists|].
  destruct (f _ _ _) as [[a db']|code] eqn:Hf; [|left; by eexists].
  destruct (commit_fault n); [right|left|right].
  - exists a, db'. split; [done|]. by left.
  - by eexists.
  - exists a, db'. split; [done|]. right. by eexists.
Qed.

Lemma db_stmt_online {A} (f : statement T A) n db : online n ->
  db_stmt f (mkWorld n db) =
  match f (time_at n) (uuid_at n) db with
  | Done (a, db') => (Ok a, mkWorld (Datatypes.S n) db')
  | Refused code => (Err (ErrPg code), mkWorld (Datatypes.S n) db)
  end.
Proof.
  intros H. destruct (H n ltac:(lia)) as [Hs Hc]. unfold db_stmt. cbn [w_tick w_st].
  rewrite Hs, Hc. by destruct (f _ _ _) as [[a db']|code].
Qed.

Lemma tx_stmt_online {A} (f : statement T A) n db now a db' : stmt_fault n = None ->
  f now (uuid_at n) db = Done (a, db') ->
  tx_stmt f (mkWorld n (opened db now)) = (Ok a, mkWorld (Datatypes.S n) (opened db' now)).
Proof.
  intros Hn Hf. unfold tx_stmt. cbn [w_tick w_st opened tx_failed tx_now tx_work].
  by rewrite Hn, Hf.
Qed.

Lemma scan_snd {S A} (q : M S (option A)) (w : World S) : (scan q w).2 = (q w).2.
Proof. unfold scan, mbind, M_bind. by destruct (q w) as [[[a|]|e|p] w']. Qed.

Lemma tx_ends_assoc {A B C} (m : M (Tx T) A) (f : A -> M (Tx T) B) (g : B -> M (Tx T) C) n db now R :
  tx_ends (m ≫= fun x => f x ≫= g) n db now R -> tx_ends ((m ≫= f) ≫= g) n db now R.
Proof. intros H r w'. rewrite bind_assoc. apply H. Qed.

Lemma tx_fails_attempt {A B} (m : M (Tx T) A) (k : res A -> M (Tx T) B) :
  tx_fails m -> (forall e, tx_fails (k (Err e))) -> tx_fails (attempt m ≫= k).
Proof.
  intros Hm Hk w r w' Hf Hd. unfold attempt, mbind, M_bind.
  destruct (m w) as [r0 w0] eqn:H0. destruct (Hm w r0 w0 Hf Hd H0) as (Ht & Hf0 & Hd0 & e & ->).
  intros Hr. destruct (Hk e w0 r w' Hf0 Hd0 Hr) as (? & ? & ? & ?). split_and!; [lia|done..].
Qed.
End Sql.

Create HintDb sql.
#[export] Hint Resolve tx_ok_ret tx_ok_throw tx_ok_stmt tx_ok_wrapped tx_ok_scan tx_ends_throw
  tx_fails_stmt tx_fails_throw tx_fails_bind tx_fails_wrapped : sql.
