(* ===== verification/TxProg.v ===== *)
(** * TxProg: transactions and handlers as programs

    [M (Tx T) A] runs a body in one go.  To interleave transactions, their bodies are
    programs here: a statement, the answer the code gets, and how it goes on.  [run] is the
    program in one go again.  Then the same for handlers: programs of calls of the clock, the
    stores and other services, each of which can fail or have its answer lost. *)

From S2P Require Import Prelude GoStd GoJson Sql.

(** [sql.ErrTxDone]: the answer to a statement after Commit or Rollback. *)
Definition ErrTxDone : goerr :=
  ErrVar "sql.ErrTxDone" "sql: transaction has already been committed or rolled back".

(** [St B] are the statements whose answer is a [B]. *)
Inductive prog (St : Type -> Type) (A : Type) : Type :=
| End (r : res A)
| Exec {B : Type} (s : St B) (k : res B -> prog St A)
| Commit (k : res unit -> prog St A).
Arguments End {St A} r.
Arguments Exec {St A B} s k.
Arguments Commit {St A} k.

Section Prog.
Context {St : Type -> Type}.

#[export] Instance prog_ret : MRet (prog St) := fun A a => End (Ok a).
#[export] Instance prog_throw : MThrow goerr (prog St) := fun A e => End (Err e).
Fixpoint prog_then {A B} (f : A -> prog St B) (p : prog St A) : prog St B :=
  match p with
  | End (Ok a) => f a
  | End (Err e) => End (Err e)
  | End (Panic m) => End (Panic m)
  | Exec s k => Exec s (fun r => prog_then f (k r))
  | Commit k => Commit (fun r => prog_then f (k r))
  end.
#[export] Instance prog_bind : MBind (prog St) := fun A B f p => prog_then f p.

(** The program's result, changed where it ends: [attempt] and [wrapped]. *)
Fixpoint at_end {A B} (f : res A -> res B) (p : prog St A) : prog St B :=
  match p with
  | End r => End (f r)
  | Exec s k => Exec s (fun r => at_end f (k r))
  | Commit k => Commit (fun r => at_end f (k r))
  end.
Definition tried {A} (r : res A) : res (res A) :=
  match r with Panic m => Panic m | r => Ok r end.
Definition p_attempt {A} (p : prog St A) : prog St (res A) := at_end tried p.
Definition p_wrapped {A} (prefix : string) (p : prog St A) : prog St A :=
  at_end (wrap_res prefix) p.
Definition p_exec {A} (s : St A) : prog St A := Exec s End.
Definition p_commit : prog St unit := Commit End.
Definition p_scan {A} (p : prog St (option A)) : prog St A :=
  r ← p; match r with Some a => mret a | None => mthrow ErrNoRows end.
Definition p_or_no_rows {A} (p none : prog St A) : prog St A :=
  r ← p_attempt p;
  match r with
  | Ok a => mret a
  | Err e => if decide (e = ErrNoRows) then none else mthrow e
  | Panic m => End (Panic m)
  end.

(** What the code answers when the transaction is over. *)
Fixpoint after_done {A} (p : prog St A) : res A :=
  match p with
  | End r => r
  | Exec s k => after_done (k (Err ErrTxDone))
  | Commit k => after_done (k (Err ErrTxDone))
  end.
End Prog.

(** ** In one go *)

(** Computations that are equal in every state. *)
Definition meq {S A} (m m' : M S A) : Prop := forall w, m w = m' w.
#[export] Instance meq_equiv {S A} : Equivalence (@meq S A).
Proof.
  split; [done| |].
  - intros m m' H w. by rewrite H.
  - intros m1 m2 m3 H1 H2 w. by rewrite H1, H2.
Qed.

Lemma meq_bind {S A B} (m m' : M S A) (f f' : A -> M S B) :
  meq m m' -> (forall a, meq (f a) (f' a)) -> meq (m ≫= f) (m' ≫= f').
Proof.
  intros Hm Hf w. unfold mbind, M_bind. rewrite Hm. destruct (m' w) as [[a|e|p] w']; [apply Hf|done..].
Qed.
Lemma meq_attempt {S A} (m m' : M S A) : meq m m' -> meq (attempt m) (attempt m').
Proof. intros Hm w. unfold attempt. by rewrite Hm. Qed.
Lemma meq_wrapped {S A} p (m m' : M S A) : meq m m' -> meq (wrapped p m) (wrapped p m').
Proof. intros Hm w. unfold wrapped. by rewrite Hm. Qed.

Lemma attempt_never_errs {S A} (m : M S A) w e w' : attempt m w <> (Err e, w').
Proof. unfold attempt. by destruct (m w) as [[?|?|?] ?]. Qed.

Section Run.
Context {T : Type} `{F : SqlFaults, E : GoEnv} {St : Type -> Type}.
Context (sem : forall B, St B -> statement T B).

Fixpoint run {A} (p : prog St A) : M (Tx T) A :=
  match p with
  | End r => of_res r
  | Exec s k => r ← attempt (tx_stmt (sem _ s)); run (k r)
  | Commit k => r ← attempt tx_commit; run (k r)
  end.

Lemma run_then {A B} (p : prog St A) (f : A -> prog St B) :
  meq (run (p ≫= f)) (run p ≫= fun a => run (f a)).
Proof.
  induction p as [[a|e|m]|C s k IH|k IH]; intros w; [done..| |];
    cbn; rewrite bind_assoc; apply meq_bind; try done; intros r; apply IH.
Qed.

Lemma run_at_end {A B} (f : res A -> res B) (p : prog St A) :
  (forall m, f (Panic m) = Panic m) ->
  meq (run (at_end f p)) (fun w => let (r, w') := run p w in (f r, w')).
Proof.
  intros Hf. induction p as [r|C s k IH|k IH]; intros w; [done| |];
    cbn; unfold mbind, M_bind; destruct (attempt _ w) as [[r|e|m] w'] eqn:Ha.
  all: first [apply IH|by rewrite Hf|by apply attempt_never_errs in Ha].
Qed.

Lemma run_attempt {A} (p : prog St A) : meq (run (p_attempt p)) (attempt (run p)).
Proof.
  intros w. unfold p_attempt. rewrite run_at_end by done. unfold attempt.
  by destruct (run p w) as [[?|?|?] ?].
Qed.
Lemma run_wrapped {A} s (p : prog St A) : meq (run (p_wrapped s p)) (wrapped s (run p)).
Proof. intros w. unfold p_wrapped. by rewrite run_at_end. Qed.

Lemma run_exec {A} (s : St A) : meq (run (p_exec s)) (tx_stmt (sem _ s)).
Proof.
  intros w. unfold p_exec. cbn. unfold mbind, M_bind, attempt.
  unfold tx_stmt. destruct (tx_failed (w_st w)); [done|]. destruct (stmt_fault _); [done|].
  by destruct (sem A s _ _ _) as [[]|].
Qed.
Lemma run_commit : meq (run p_commit) tx_commit.
Proof.
  intros w. unfold p_commit. cbn. unfold mbind, M_bind, attempt, tx_commit.
  destruct (tx_failed (w_st w)); [done|]. by destruct (commit_fault _).
Qed.
Lemma run_scan {A} (p : prog St (option A)) m : meq (run p) m -> meq (run (p_scan p)) (scan m).
Proof.
  intros H. unfold p_scan, scan. etrans; [apply run_then|]. apply meq_bind; [done|].
  by intros [a|].
Qed.
End Run.

(** ** Handlers as programs of calls

    [M S A] runs a handler in one go.  To interleave handlers, they are programs too: a
    call of the store or of another service, its answer, and how the code goes on.
    [perform] is the program in one go again. *)

(** [C B] are the calls whose answer is a [B]. *)
Inductive calls (C : Type -> Type) (A : Type) : Type :=
| Return (r : res A)
| Call {B : Type} (c : C B) (k : res B -> calls C A).
Arguments Return {C A} r.
Arguments Call {C A B} c k.

Section Calls.
Context {C : Type -> Type}.

#[export] Instance calls_ret : MRet (calls C) := fun A a => Return (Ok a).
#[export] Instance calls_throw : MThrow goerr (calls C) := fun A e => Return (Err e).
Fixpoint calls_then {A B} (f : A -> calls C B) (p : calls C A) : calls C B :=
  match p with
  | Return (Ok a) => f a
  | Return (Err e) => Return (Err e)
  | Return (Panic m) => Return (Panic m)
  | Call c k => Call c (fun r => calls_then f (k r))
  end.
#[export] Instance calls_bind : MBind (calls C) := fun A B f p => calls_then f p.

Definition c_call {A} (c : C A) : calls C A := Call c Return.
Definition c_res {A} (r : res A) : calls C A := Return r.

(** The result changed where the program ends. *)
Fixpoint c_end {A B} (f : res A -> res B) (p : calls C A) : calls C B :=
  match p with
  | Return r => Return (f r)
  | Call c k => Call c (fun r => c_end f (k r))
  end.
Definition c_attempt {A} (p : calls C A) : calls C (res A) := c_end tried p.
Definition c_wrapped {A} (prefix : string) (p : calls C A) : calls C A :=
  c_end (wrap_res prefix) p.
Definition c_ignore {A} (p : calls C A) : calls C unit := c_attempt p ≫= fun _ => mret tt.
Fixpoint c_for_each {A} (xs : list A) (body : A -> calls C unit) : calls C unit :=
  match xs with
  | [] => mret tt
  | x :: xs => body x;; c_for_each xs body
  end.
End Calls.

(** How a call goes: it is answered, its answer is lost, or it is not carried out. *)
Inductive fate : Type :=
| Answered
| AnswerLost (e : goerr)
| NotDone (e : goerr).

(** ** In one go *)
Section Perform.
Context {S : Type} {C : Type -> Type} (sem : forall B, C B -> M S B).

Fixpoint perform {A} (p : calls C A) : M S A :=
  match p with
  | Return r => of_res r
  | Call c k => r ← attempt (sem _ c); perform (k r)
  end.

Lemma perform_then {A B} (p : calls C A) (f : A -> calls C B) :
  meq (perform (p ≫= f)) (perform p ≫= fun a => perform (f a)).
Proof.
  induction p as [[a|e|m]|D c k IH]; intros w; [done..|].
  cbn. rewrite bind_assoc. apply meq_bind; [done|]. intros r. apply IH.
Qed.
Lemma perform_bind {A B} (p : calls C A) (f : A -> calls C B) m g :
  meq (perform p) m -> (forall a, meq (perform (f a)) (g a)) -> meq (perform (p ≫= f)) (m ≫= g).
Proof. intros Hp Hf. etrans; [apply perform_then|]. by apply meq_bind. Qed.

Lemma perform_end {A B} (f : res A -> res B) (p : calls C A) :
  (forall m, f (Panic m) = Panic m) ->
  meq (perform (c_end f p)) (fun w => let (r, w') := perform p w in (f r, w')).
Proof.
  intros Hf. induction p as [r|D c k IH]; intros w; [done|].
  cbn. unfold mbind, M_bind. destruct (attempt _ w) as [[r|e|m] w'] eqn:Ha.
  - apply IH.
  - by apply attempt_never_errs in Ha.
  - by rewrite Hf.
Qed.
Lemma perform_attempt {A} (p : calls C A) m : meq (perform p) m -> meq (perform (c_attempt p)) (attempt m).
Proof.
  intros H w. unfold c_attempt. rewrite perform_end by done. unfold attempt. rewrite H.
  by destruct (m w) as [[?|?|?] ?].
Qed.
Lemma perform_wrapped {A} s (p : calls C A) m : meq (perform p) m ->
  meq (perform (c_wrapped s p)) (wrapped s m).
Proof. intros H w. unfold c_wrapped. rewrite perform_end by done. unfold wrapped. by rewrite H. Qed.
Lemma perform_ignore {A} (p : calls C A) m : meq (perform p) m -> meq (perform (c_ignore p)) (ignore m).
Proof. intros H. apply perform_bind; [by apply perform_attempt|done]. Qed.
Lemma perform_call {A} (c : C A) : meq (perform (c_call c)) (sem _ c).
Proof. intros w. cbn. unfold mbind, M_bind, attempt. by destruct (sem _ c w) as [[a|e|m] w']. Qed.
Lemma perform_for_each {A} (xs : list A) body body' : (forall x, meq (perform (body x)) (body' x)) ->
  meq (perform (c_for_each xs body)) (for_each xs body').
Proof. intros H. induction xs as [|x xs IH]; [done|]. cbn. apply perform_bind; [done|]. by intros _. Qed.
End Perform.
