(* ===== verification/WalletPg.v ===== *)
(** * WalletPg: the wallet's Postgres store

    [internal/wallet/pgstore.go] and the tables of [internal/wallet/migrations].  A table
    is the list of its rows in the order of insertion; a SELECT for one row takes the
    first that fits.  How PostgreSQL reads numbers, UUIDs and JSON is the class
    [PgTypes]: a NUMERIC(28,8) column holds the text it is read back as.  Here
    transactions run one after the other; WalletTx and WalletConc run them side by side. *)

From S2P Require Import Prelude GoStd GoJson Decimal WalletModels Sql.

(** ** Column types *)

(** [version INTEGER] *)
Definition in_int4 (z : Z) : bool := (- 2 ^ 31 <=? z) && (z <? 2 ^ 31).

(** ** Tables *)
Record TxnRow : Type := mkTxnRow {
  tr_ID : string;
  tr_UserID : string;
  tr_WalletID : string;
  tr_Currency : string;
  tr_Type : string;
  tr_Amount : string;
  tr_BalanceBefore : string;
  tr_BalanceAfter : string;
  tr_Status : string;
  tr_ReferenceID : option string;
  tr_Metadata : option string;
  tr_CreatedAt : Z;
}.

Record RequestRow : Type := mkRequestRow {
  rr_ID : string;
  rr_UserID : string;
  rr_WalletID : string;
  rr_Amount : string;
  rr_Currency : string;
  rr_DestinationAddress : string;
  rr_Chain : string;
  rr_Status : string;
  rr_TxHash : option string;
  rr_ReviewedBy : option string;
  rr_CreatedAt : Z;
}.

(** The rows of wallets and deposit_addresses have the fields of [Wallet] and
    [DepositAddress]. *)
Record wallet_db : Type := mkWalletDb {
  wd_wallets : list Wallet;
  wd_transactions : list TxnRow;
  wd_addresses : list DepositAddress;
  wd_requests : list RequestRow;
}.

Definition empty_wallet_db : wallet_db := mkWalletDb [] [] [] [].

Definition wd_set_wallets (l : list Wallet) (db : wallet_db) : wallet_db :=
  mkWalletDb l (wd_transactions db) (wd_addresses db) (wd_requests db).
Definition wd_set_transactions (l : list TxnRow) (db : wallet_db) : wallet_db :=
  mkWalletDb (wd_wallets db) l (wd_addresses db) (wd_requests db).
Definition wd_set_addresses (l : list DepositAddress) (db : wallet_db) : wallet_db :=
  mkWalletDb (wd_wallets db) (wd_transactions db) l (wd_requests db).
Definition wd_set_requests (l : list RequestRow) (db : wallet_db) : wallet_db :=
  mkWalletDb (wd_wallets db) (wd_transactions db) (wd_addresses db) l.

(** [sql.NullString] assigned to a string field when valid. *)
Definition null_string (o : option string) : string := default "" o.

Definition scan_txn (r : TxnRow) : Transaction :=
  mkTransaction (tr_ID r) (tr_UserID r) (tr_WalletID r) (tr_Currency r) (tr_Type r)
    (tr_Amount r) (tr_BalanceBefore r) (tr_BalanceAfter r) (tr_Status r)
    (null_string (tr_ReferenceID r)) (null_string (tr_Metadata r)) (tr_CreatedAt r).
Definition scan_request (r : RequestRow) : WithdrawalRequest :=
  mkWithdrawalRequest (rr_ID r) (rr_UserID r) (rr_WalletID r) (rr_Amount r) (rr_Currency r)
    (rr_DestinationAddress r) (rr_Chain r) (rr_Status r) (null_string (rr_TxHash r))
    (null_string (rr_ReviewedBy r)) (rr_CreatedAt r).

Definition same_wallet (userID currency : string) (w : Wallet) : bool :=
  bool_decide (wallet_UserID w = userID) && bool_decide (wallet_Currency w = currency).
Definition has_ref (ref : string) (r : TxnRow) : bool :=
  bool_decide (tr_ReferenceID r = Some ref).

Section Statements.
Context `{D : Decimal, P : PgTypes}.
#[local] Abbreviation stmt := (statement wallet_db).

(** SELECT ... FROM wallets WHERE user_id = $1 AND currency = $2 [FOR UPDATE] *)
Definition select_wallet (userID currency : string) : stmt (option Wallet) :=
  select (fun db => first_row (same_wallet userID currency) (wd_wallets db)).

(** SELECT ... FROM wallets WHERE id = $1 FOR UPDATE *)
Definition select_wallet_by_id (id : string) : stmt (option Wallet) := fun now fresh db =>
  id ← read_in (uuid_in id);
  Done (first_row (fun w => bool_decide (wallet_ID w = id)) (wd_wallets db), db).

(** INSERT INTO wallets (user_id, currency, balance, version) VALUES ($1, $2, 0, 0)
    RETURNING ..., with the UNIQUE (user_id, currency) *)
Definition insert_wallet (userID currency : string) : stmt (option Wallet) :=
  fun now fresh db =>
    balance ← read_in (numeric_in "0");
    if existsb (same_wallet userID currency) (wd_wallets db) then Refused UniqueViolation
    else
      let w := mkWallet fresh userID currency balance 0 now now in
      Done (Some w, wd_set_wallets (wd_wallets db ++ [w]) db).

(** ... ON CONFLICT (user_id, currency) DO UPDATE SET updated_at = NOW() RETURNING ... *)
Definition touch (now : Z) (w : Wallet) : Wallet :=
  mkWallet (wallet_ID w) (wallet_UserID w) (wallet_Currency w) (wallet_Balance w)
    (wallet_Version w) (wallet_CreatedAt w) now.
Definition upsert_wallet (userID currency : string) : stmt (option Wallet) :=
  fun now fresh db =>
    match first_row (same_wallet userID currency) (wd_wallets db) with
    | Some w =>
        Done (Some (touch now w), wd_set_wallets
          ((fun x => if same_wallet userID currency x then touch now x else x) <$> wd_wallets db) db)
    | None => insert_wallet userID currency now fresh db
    end.

(** UPDATE wallets SET balance = $1, version = version + 1, updated_at = NOW()
    WHERE id = $2 AND version = $3, and the number of rows it changed *)
Definition write_balance (balance : string) (now : Z) (w : Wallet) : Wallet :=
  mkWallet (wallet_ID w) (wallet_UserID w) (wallet_Currency w) balance (wallet_Version w + 1)
    (wallet_CreatedAt w) now.
Definition update_wallet (balance id : string) (version : Z) : stmt nat := fun now fresh db =>
  balance ← read_in (numeric_in balance);
  let hit w := bool_decide (wallet_ID w = id) && bool_decide (wallet_Version w = version) in
  let n := length (filter (fun w => hit w = true) (wd_wallets db)) in
  if (0 <? Z.of_nat n) && negb (in_int4 (version + 1)) then Refused NumericOutOfRange
  else Done (n, wd_set_wallets
         ((fun w => if hit w then write_balance balance now w else w) <$> wd_wallets db) db).

(** SELECT id FROM transactions WHERE reference_id = $1 *)
Definition select_txn_by_ref (ref : string) : stmt (option string) :=
  select (fun db => tr_ID <$> first_row (has_ref ref) (wd_transactions db)).

(** SELECT ... FROM transactions WHERE id = $1 *)
Definition select_txn (id : string) : stmt (option Transaction) := fun now fresh db =>
  id ← read_in (uuid_in id);
  Done (scan_txn <$> first_row (fun r => bool_decide (tr_ID r = id)) (wd_transactions db), db).

(** INSERT INTO transactions (...) VALUES (...) RETURNING id, created_at, with the
    reference to wallets and the UNIQUE reference_id.  The types and statuses the code
    inserts are those the CHECKs allow. *)
Definition insert_txn (userID walletID currency type amount before after status : string)
    (ref : option string) (metadata : option (option string)) : stmt (option (string * Z)) :=
  fun now fresh db =>
  metadata ← read_in metadata;
  amount ← read_in (numeric_in amount);
  before ← read_in (numeric_in before);
  after ← read_in (numeric_in after);
  if negb (existsb (fun w => bool_decide (wallet_ID w = walletID)) (wd_wallets db))
  then Refused ForeignKeyViolation
  else if match ref with Some r => existsb (has_ref r) (wd_transactions db) | None => false end
  then Refused UniqueViolation
  else Done (Some (fresh, now), wd_set_transactions (wd_transactions db ++
         [mkTxnRow fresh userID walletID currency type amount before after status ref metadata
            now]) db).

(** UPDATE transactions SET status = $status, updated_at = NOW() WHERE reference_id = $1 *)
Definition tr_set_status (status : string) (r : TxnRow) : TxnRow :=
  mkTxnRow (tr_ID r) (tr_UserID r) (tr_WalletID r) (tr_Currency r) (tr_Type r) (tr_Amount r)
    (tr_BalanceBefore r) (tr_BalanceAfter r) status (tr_ReferenceID r) (tr_Metadata r)
    (tr_CreatedAt r).
Definition update_txn_status (status ref : string) : stmt unit := fun now fresh db =>
  Done (tt, wd_set_transactions
    ((fun r => if has_ref ref r then tr_set_status status r else r) <$> wd_transactions db) db).

(** INSERT INTO withdrawal_requests (...) VALUES (..., 'pending')
    RETURNING id, status, created_at *)
Definition insert_request (userID walletID amount currency destinationAddress chain : string) :
    stmt (option (string * string * Z)) := fun now fresh db =>
  amount ← read_in (numeric_in amount);
  if negb (existsb (fun w => bool_decide (wallet_ID w = walletID)) (wd_wallets db))
  then Refused ForeignKeyViolation
  else Done (Some (fresh, "pending", now), wd_set_requests (wd_requests db ++
         [mkRequestRow fresh userID walletID amount currency destinationAddress chain "pending"
            None None now]) db).

(** UPDATE withdrawal_requests SET status = ..., reviewed_by = ..., updated_at = NOW()
    WHERE id = ... AND status = 'pending' RETURNING ...; [txHash] is [None] where the
    statement does not set it *)
Definition review_row (status : string) (txHash : option string) (reviewedBy : string)
    (r : RequestRow) : RequestRow :=
  mkRequestRow (rr_ID r) (rr_UserID r) (rr_WalletID r) (rr_Amount r) (rr_Currency r)
    (rr_DestinationAddress r) (rr_Chain r) status
    (match txHash with Some h => Some h | None => rr_TxHash r end) (Some reviewedBy)
    (rr_CreatedAt r).
Definition is_pending_request (id : string) (r : RequestRow) : bool :=
  bool_decide (rr_ID r = id) && bool_decide (rr_Status r = "pending").
Definition review_request (status : string) (txHash : option string) (reviewedBy id : string) :
    stmt (option WithdrawalRequest) := fun now fresh db =>
  id ← read_in (uuid_in id);
  Done ((fun r => scan_request (review_row status txHash reviewedBy r)) <$>
        first_row (is_pending_request id) (wd_requests db),
      wd_set_requests
        ((fun r => if is_pending_request id r then review_row status txHash reviewedBy r else r)
           <$> wd_requests db) db).

(** SELECT ... FROM deposit_addresses WHERE ... AND status = 'active' LIMIT 1 *)
Definition active_address (userID currency chain : string) (a : DepositAddress) : bool :=
  bool_decide (da_UserID a = userID) && bool_decide (da_Currency a = currency) &&
  bool_decide (da_Chain a = chain) && bool_decide (da_Status a = "active").
Definition select_address (userID currency chain : string) : stmt (option DepositAddress) :=
  select (fun db => first_row (active_address userID currency chain) (wd_addresses db)).

(** INSERT INTO deposit_addresses (...) VALUES (..., 'active') RETURNING id, created_at,
    with the unique index on the active addresses *)
Definition insert_address (userID currency chain address xcashID : string) :
    stmt (option (string * Z)) := fun now fresh db =>
  if existsb (active_address userID currency chain) (wd_addresses db)
  then Refused UniqueViolation
  else Done (Some (fresh, now), wd_set_addresses (wd_addresses db ++
         [mkDepositAddress fresh userID currency chain address xcashID "active" now]) db).
End Statements.

(** ** Operations *)
Section PGStore.
Context `{E : GoEnv, D : Decimal, P : PgTypes, F : SqlFaults}.
#[local] Abbreviation tx := (M (Tx wallet_db)).

(** [if err == sql.ErrNoRows { ... }] *)
Definition or_no_rows {S A} (m : M S A) (none : M S A) : M S A :=
  r ← attempt m;
  match r with
  | Ok a => mret a
  | Err e => if decide (e = ErrNoRows) then none else mthrow e
  | Panic p => panic p
  end.

Definition PGStore_CreateWallet (userID currency : string) : M wallet_db Wallet :=
  wrapped "create wallet" (scan (db_stmt (upsert_wallet userID currency))).

Definition PGStore_GetWallet (userID currency : string) : M wallet_db Wallet :=
  r ← attempt (scan (db_stmt (select_wallet userID currency)));
  match r with
  | Ok w => mret w
  | Err e => if decide (e = ErrNoRows) then mthrow ErrWalletNotFound
             else mthrow (ErrWrap "get wallet" e)
  | Panic p => panic p
  end.

Definition getTransactionByID (id : string) : tx Transaction := scan (tx_stmt (select_txn id)).

(** The transaction recorded under the reference, if any, after committing; [what] is the
    context of an error of the look-up. *)
Definition pg_existing (what referenceID : string) : tx (option Transaction) :=
  r ← attempt (scan (tx_stmt (select_txn_by_ref referenceID)));
  match r with
  | Ok existingID =>
      txn ← wrapped "get existing transaction" (getTransactionByID existingID);
      wrapped "commit" tx_commit;;
      mret (Some txn)
  | Err e => if errors_Is e ErrNoRows then mret None else mthrow (ErrWrap what e)
  | Panic p => panic p
  end.

(** [if referenceID != "" { ... }] *)
Definition pg_by_ref (what referenceID : string) : tx (option Transaction) :=
  if decide (referenceID = "") then mret None else pg_existing what referenceID.

(** UPDATE wallets and the check of the number of rows. *)
Definition pg_write_balance (newBalance : string) (w : Wallet) : tx unit :=
  rows ← wrapped "update wallet"
    (tx_stmt (update_wallet newBalance (wallet_ID w) (wallet_Version w)));
  if decide (rows = 0%nat) then mthrow ErrWalletConflict else mret tt.

(** The common tail of CreditWallet and DebitWallet: INSERT INTO transactions, and the
    look-up of the reference again when it fails. *)
Definition pg_record (typ userID currency amount newBalance referenceID : string)
    (metadata : Metadata) (w : Wallet) : tx Transaction :=
  let refID := if decide (referenceID = "") then None else Some referenceID in
  r ← attempt (scan (tx_stmt (insert_txn userID (wallet_ID w) currency typ amount
        (wallet_Balance w) newBalance "completed" refID (jsonb_in metadata))));
  match r with
  | Ok (id, created) =>
      wrapped "commit" tx_commit;;
      mret (mkTransaction id userID (wallet_ID w) currency typ amount (wallet_Balance w)
              newBalance "completed" referenceID "" created)
  | Err e =>
      existing ← pg_by_ref "check reference id after insert failure" referenceID;
      match existing with
      | Some txn => mret txn
      | None => mthrow (ErrWrap "insert transaction" e)
      end
  | Panic p => panic p
  end.

Definition pg_credit_body (userID currency amount referenceID : string) (metadata : Metadata) :
    tx Transaction :=
  existing ← pg_by_ref "check reference id" referenceID;
  match existing with
  | Some txn => mret txn
  | None =>
      w ← wrapped "get wallet" (or_no_rows (scan (tx_stmt (select_wallet userID currency)))
                                  (scan (tx_stmt (insert_wallet userID currency))));
      newBalance ← wrapped "credit wallet" (of_res (addDecimal (wallet_Balance w) amount));
      pg_write_balance newBalance w;;
      pg_record "deposit" userID currency amount newBalance referenceID metadata w
  end.

Definition PGStore_CreditWallet (userID currency amount referenceID : string)
    (metadata : Metadata) : M wallet_db Transaction :=
  in_tx (pg_credit_body userID currency amount referenceID metadata).

(** SELECT ... FOR UPDATE, the comparison of balance and amount, and the UPDATE; [what]
    is the context of an error of the subtraction. *)
Definition pg_draw (what userID currency amount : string) : tx (Wallet * string) :=
  r ← attempt (scan (tx_stmt (select_wallet userID currency)));
  w ← match r with
      | Ok w => mret w
      | Err e => if decide (e = ErrNoRows) then mthrow ErrWalletNotFound
                 else mthrow (ErrWrap "get wallet" e)
      | Panic p => panic p
      end;
  currentBalance ← wrapped "parse balance" (of_res (NewFromString (wallet_Balance w)));
  drawn ← wrapped "parse amount" (of_res (NewFromString amount));
  if dec_LessThan currentBalance drawn then mthrow ErrInsufficientBalance
  else
    newBalance ← wrapped what (of_res (subDecimal (wallet_Balance w) amount));
    pg_write_balance newBalance w;;
    mret (w, newBalance).

Definition pg_debit_body (userID currency amount referenceID : string) (metadata : Metadata) :
    tx Transaction :=
  existing ← pg_by_ref "check reference id" referenceID;
  match existing with
  | Some txn => mret txn
  | None =>
      '(w, newBalance) ← pg_draw "debit wallet" userID currency amount;
      pg_record "withdrawal" userID currency amount newBalance referenceID metadata w
  end.

Definition PGStore_DebitWallet (userID currency amount referenceID : string)
    (metadata : Metadata) : M wallet_db Transaction :=
  in_tx (pg_debit_body userID currency amount referenceID metadata).

Definition PGStore_ReverseDebit (transactionID : string) : M wallet_db Transaction :=
  mthrow ErrNotImplemented.

Definition PGStore_GetDepositAddress (userID currency chain : string) :
    M wallet_db DepositAddress :=
  r ← attempt (scan (db_stmt (select_address userID currency chain)));
  match r with
  | Ok a => mret a
  | Err e => if decide (e = ErrNoRows) then mthrow (ErrNew "deposit address not found")
             else mthrow (ErrWrap "get deposit address" e)
  | Panic p => panic p
  end.

Definition PGStore_CreateDepositAddress (addr : DepositAddress) : M wallet_db DepositAddress :=
  '(id, created) ← wrapped "create deposit address"
    (scan (db_stmt (insert_address (da_UserID addr) (da_Currency addr) (da_Chain addr)
       (da_Address addr) (da_XCashDepositID addr))));
  mret (mkDepositAddress id (da_UserID addr) (da_Currency addr) (da_Chain addr)
          (da_Address addr) (da_XCashDepositID addr) "active" created).

Definition pg_request_body (userID currency amount destinationAddress chain : string) :
    tx WithdrawalRequest :=
  '(w, newBalance) ← pg_draw "debit wallet for withdrawal" userID currency amount;
  '(id, status, created) ← wrapped "create withdrawal request"
    (scan (tx_stmt (insert_request userID (wallet_ID w) amount currency destinationAddress chain)));
  wrapped "insert transaction"
    (tx_stmt (insert_txn userID (wallet_ID w) currency "withdrawal" amount (wallet_Balance w)
       newBalance "pending" (Some id) (Some None)));;
  wrapped "commit" tx_commit;;
  mret (mkWithdrawalRequest id userID (wallet_ID w) amount currency destinationAddress chain
          status "" "" created).

Definition PGStore_RequestWithdrawal
    (userID currency amount destinationAddress chain : string) : M wallet_db WithdrawalRequest :=
  in_tx (pg_request_body userID currency amount destinationAddress chain).

(** The UPDATE that reviews a pending request. *)
Definition pg_review (what status : string) (txHash : option string) (reviewedBy id : string) :
    tx WithdrawalRequest :=
  r ← attempt (scan (tx_stmt (review_request status txHash reviewedBy id)));
  match r with
  | Ok w => mret w
  | Err e => if decide (e = ErrNoRows)
             then mthrow (ErrNew "withdrawal request not found or not pending")
             else mthrow (ErrWrap what e)
  | Panic p => panic p
  end.

Definition pg_approve_body (id txHash reviewedBy : string) : tx WithdrawalRequest :=
  w ← pg_review "approve withdrawal" "approved" (Some txHash) reviewedBy id;
  wrapped "update transaction" (tx_stmt (update_txn_status "completed" id));;
  wrapped "commit" tx_commit;;
  mret w.

Definition PGStore_ApproveWithdrawal (id txHash reviewedBy : string) :
    M wallet_db WithdrawalRequest := in_tx (pg_approve_body id txHash reviewedBy).

Definition pg_reject_body (id reviewedBy : string) : tx WithdrawalRequest :=
  req ← pg_review "reject withdrawal" "rejected" None reviewedBy id;
  w ← wrapped "get wallet" (scan (tx_stmt (select_wallet_by_id (wr_WalletID req))));
  reversedBalance ← wrapped "reverse withdrawal debit"
    (of_res (addDecimal (wallet_Balance w) (wr_Amount req)));
  pg_write_balance reversedBalance w;;
  wrapped "update transaction" (tx_stmt (update_txn_status "reversed" id));;
  wrapped "insert reversal transaction"
    (tx_stmt (insert_txn (wr_UserID req) (wallet_ID w) (wr_Currency req) "adjustment"
       (wr_Amount req) (wallet_Balance w) reversedBalance "completed" (Some (id +:+ "-reversal"))
       (Some None)));;
  wrapped "commit" tx_commit;;
  mret req.

Definition PGStore_RejectWithdrawal (id reviewedBy : string) : M wallet_db WithdrawalRequest :=
  in_tx (pg_reject_body id reviewedBy).

(** ** Listings *)

(** [if x <= 0 { x = def }] *)
Definition page_default (x def : Z) : Z := if x <=? 0 then def else x.

Definition PGStore_ListPendingWithdrawals (page pageSize : Z) :
    M wallet_db (list WithdrawalRequest) :=
  let page := page_default page 1 in
  let pageSize := page_default pageSize 20 in
  let offset := int64 (int64 (page - 1) * pageSize) in
  rows ← wrapped "list pending withdrawals" (db_stmt (select_page
    (fun db => filter (fun r => rr_Status r = "pending") (wd_requests db))
    (fun a b => rr_CreatedAt a <? rr_CreatedAt b) pageSize offset));
  mret (scan_request <$> rows).

Definition PGStore_ListTransactions (userID : string) (page pageSize : Z) :
    M wallet_db (list Transaction) :=
  let page := page_default page 1 in
  let pageSize := page_default pageSize 20 in
  let offset := int64 (int64 (page - 1) * pageSize) in
  rows ← wrapped "list transactions" (db_stmt (select_page
    (fun db => filter (fun r => tr_UserID r = userID) (wd_transactions db))
    (fun a b => tr_CreatedAt b <? tr_CreatedAt a) pageSize offset));
  mret (scan_txn <$> rows).

#[export] Instance PGStore_Store : Store wallet_db := {
  store_GetWallet := PGStore_GetWallet;
  store_CreateWallet := PGStore_CreateWallet;
  store_CreditWallet := PGStore_CreditWallet;
  store_DebitWallet := PGStore_DebitWallet;
  store_ReverseDebit := PGStore_ReverseDebit;
  store_GetDepositAddress := PGStore_GetDepositAddress;
  store_CreateDepositAddress := PGStore_CreateDepositAddress;
  store_RequestWithdrawal := PGStore_RequestWithdrawal;
  store_ApproveWithdrawal := PGStore_ApproveWithdrawal;
  store_RejectWithdrawal := PGStore_RejectWithdrawal;
  store_ListPendingWithdrawals := PGStore_ListPendingWithdrawals;
  store_ListTransactions := PGStore_ListTransactions;
}.
End PGStore.
