(* ===== verification/WalletPgLedger.v ===== *)
(** * WalletPgLedger: the ledger invariant of the Postgres wallet store

    What PostgreSQL's types promise, the invariant of the tables, and that each kind of
    write keeps it. *)

From Stdlib Require Import Qround Qabs.
From S2P Require Import Prelude GoStd GoJson Decimal WalletModels WalletStore WalletLedger.
From S2P Require Import Sql WalletPg.

(** ** NUMERIC(28,8) *)

(** A number with at most eight decimal places. *)
Definition Eight (q : Q) : Prop := exists z, (q == z # 100000000)%Q.

(** Rounding to eight places, halves away from zero. *)
Definition round8_pos (q : Q) : Q := Qfloor (q * 100000000 + (1 # 2)) # 100000000.
Definition round8 (q : Q) : Q :=
  if Qle_bool 0 q then round8_pos q else (- round8_pos (- q))%Q.

Lemma Eight_proper p q : (p == q)%Q -> Eight p -> Eight q.
Proof. intros H [z Hz]. exists z. by rewrite <- H. Qed.

Lemma Eight_0 : Eight 0.
Proof. by exists 0. Qed.
Lemma Eight_add p q : Eight p -> Eight q -> Eight (p + q).
Proof.
  intros [a Ha] [b Hb]. exists (a + b). rewrite Ha, Hb. unfold Qeq, Qplus. cbn. lia.
Qed.
Lemma Eight_opp p : Eight p -> Eight (- p).
Proof. intros [a Ha]. exists (- a). rewrite Ha. reflexivity. Qed.
Lemma Eight_sub p q : Eight p -> Eight q -> Eight (p - q).
Proof. intros Hp Hq. by apply Eight_add, Eight_opp. Qed.

Lemma round8_pos_Eight q : Eight (round8_pos q).
Proof. by exists (Qfloor (q * 100000000 + (1 # 2))). Qed.
Lemma round8_Eight q : Eight (round8 q).
Proof.
  unfold round8. destruct (Qle_bool 0 q);
    [apply round8_pos_Eight|apply Eight_opp, round8_pos_Eight].
Qed.

Lemma round8_pos_id q : Eight q -> (round8_pos q == q)%Q.
Proof.
  intros [z Hz]. unfold round8_pos.
  rewrite (Qfloor_comp _ (inject_Z z + (1 # 2)))
    by (rewrite Hz; unfold Qeq, Qplus, Qmult, inject_Z; cbn; lia).
  assert (Qfloor (inject_Z z + (1 # 2)) = z) as ->; [|by symmetry].
  apply Z.le_antisymm.
  - apply Z.lt_succ_r. rewrite Zlt_Qlt.
    eapply Qle_lt_trans; [apply Qfloor_le|]. unfold Z.succ. rewrite inject_Z_plus. change (inject_Z 1) with 1%Q. lra.
  - rewrite Zle_Qle. 
    assert (inject_Z z < inject_Z (Qfloor (inject_Z z + (1 # 2)) + 1))%Q as Hlt.
    { eapply Qlt_trans; [|apply Qlt_floor]. lra. }
    rewrite <- Zlt_Qlt in Hlt. rewrite <- Zle_Qle. lia.
Qed.

Lemma round8_id q : Eight q -> (round8 q == q)%Q.
Proof.
  intros H. unfold round8. destruct (Qle_bool 0 q); [by apply round8_pos_id|].
  rewrite round8_pos_id by (by apply Eight_opp). ring.
Qed.

(** Rounding keeps a number on its side of zero. *)
Lemma round8_nonneg q : (0 <= q)%Q -> (0 <= round8 q)%Q.
Proof.
  intros H. unfold round8. rewrite (proj2 (Qle_bool_iff 0 q)) by done. unfold round8_pos.
  assert (0 <= Qfloor (q * 100000000 + (1 # 2))) as Hf.
  { change 0 with (Qfloor (1 # 2)). apply Qfloor_resp_le. lra. }
  set (z := Qfloor _) in *. unfold Qle. cbn [Qnum Qden]. lia.
Qed.

(** It moves a number by half a unit of the last place at most. *)
Lemma round8_pos_near q : (Qabs (round8_pos q - q) <= 1 # 200000000)%Q.
Proof.
  unfold round8_pos. set (z := Qfloor _).
  assert (inject_Z z <= q * 100000000 + (1 # 2))%Q as Hlo by apply Qfloor_le.
  assert (q * 100000000 + (1 # 2) < inject_Z z + 1)%Q as Hhi.
  { pose proof (Qlt_floor (q * 100000000 + (1 # 2))) as H. by rewrite inject_Z_plus in H. }
  assert ((z # 100000000) == inject_Z z * (1 # 100000000))%Q as ->
    by (unfold Qeq, Qmult, inject_Z; cbn; lia).
  apply Qabs_Qle_condition. split; lra.
Qed.
Lemma round8_near q : (Qabs (round8 q - q) <= 1 # 200000000)%Q.
Proof.
  unfold round8. destruct (Qle_bool 0 q); [apply round8_pos_near|].
  assert ((- round8_pos (- q) - q) == (- (round8_pos (- q) - - q)))%Q as -> by ring.
  rewrite Qabs_opp. apply round8_pos_near.
Qed.
#[export] Instance Eight_iff : Proper (Qeq ==> iff) Eight.
Proof. intros p q H. split; apply Eight_proper; [done|by symmetry]. Qed.

(** *** Slack

    A credit or debit rounds its amount in the ledger and the new balance in the wallet
    apart from each other, so that with amounts of more than eight decimals an entry can
    move the balance off the ledger's sum, by less than a unit of the last place. The
    invariant is stated for a slack that every entry may add, and used at two of them: none,
    for runs in which every amount has at most eight decimals, and one unit, for every run. *)
Class Slack := { slack : Q; slack_nonneg : (0 <= slack)%Q }.
Definition exact_slack : Slack := {| slack := 0; slack_nonneg := Qle_refl 0 |}.
Definition unit_slack : Slack := {| slack := 1 # 100000000; slack_nonneg := ltac:(discriminate) |}.

(** An amount that NUMERIC(28,8) holds without rounding. *)
Definition eight `{L : DecimalLaws} (a : string) : Prop := forall q, is_amount a q -> Eight q.
(** The numbers whose rounding the slack covers. *)
Definition fits {SL : Slack} (q : Q) : Prop := Eight q \/ (1 # 100000000 <= slack)%Q.
Definition op_eight `{L : DecimalLaws} (op : wallet_op) : Prop :=
  match op with
  | OpCredit _ _ a _ _ | OpDebit _ _ a _ _ | OpRequestWithdrawal _ _ a _ _ => eight a
  | _ => True
  end.
Definition covers `{L : DecimalLaws} {SL : Slack} (op : wallet_op) : Prop :=
  op_eight op \/ (1 # 100000000 <= slack)%Q.

Lemma fits_opp {SL : Slack} q : fits q -> fits (- q).
Proof. intros [?|?]; [left; by apply Eight_opp|by right]. Qed.

(** What rounding the entry and the balance apart can make of the difference. *)
Lemma round8_apart {SL : Slack} b e : Eight b -> fits e ->
  (Qabs (round8 (b + e) - (b + round8 e)) <= slack)%Q.
Proof.
  intros Hb [He|Hs].
  - rewrite (round8_id e He), (round8_id (b + e)) by (by apply Eight_add).
    assert ((b + e - (b + e)) == 0)%Q as -> by ring. apply slack_nonneg.
  - eapply Qle_trans; [|exact Hs].
    pose proof (proj1 (Qabs_Qle_condition _ _) (round8_near (b + e))) as [? ?].
    pose proof (proj1 (Qabs_Qle_condition _ _) (round8_near e)) as [? ?].
    apply Qabs_Qle_condition. split; lra.
Qed.
Lemma round8_opp q : (round8 (- q) == - round8 q)%Q.
Proof.
  destruct (Qlt_le_dec 0 q) as [H|H]; [|destruct (Qlt_le_dec q 0) as [H'|H']].
  - unfold round8 at 1. destruct (Qle_bool 0 (- q)) eqn:Hn; [apply Qle_bool_iff in Hn; lra|].
    unfold round8. rewrite (proj2 (Qle_bool_iff 0 q)) by lra.
    unfold round8_pos. assert ((- - q * 100000000 + (1 # 2)) == (q * 100000000 + (1 # 2)))%Q as -> by ring.
    reflexivity.
  - unfold round8 at 2. destruct (Qle_bool 0 q) eqn:Hn; [apply Qle_bool_iff in Hn; lra|].
    unfold round8. rewrite (proj2 (Qle_bool_iff 0 (- q))) by lra. ring.
  - assert (q == 0)%Q as Hq by lra.
    rewrite (round8_id q), (round8_id (- q)) by (rewrite Hq; apply Eight_0). ring.
Qed.

(** What PostgreSQL promises: a number is stored rounded to eight places; an id that it
    or a version-4 UUID generator made is read as it is. *)
Class PgLaws `{E : GoEnv, L : DecimalLaws} (P : PgTypes) : Prop := {
  numeric_value : forall s d t, ParseDecimal s = inl d -> numeric_in s = Some t ->
    is_amount t (round8 (dval d));
  uuid_own : forall n, uuid_in (uuid_at n) = Some (uuid_at n);
}.

(** ** The invariant *)
Section PgLedger.
Context `{E : GoEnv, L : DecimalLaws, P : PgTypes, PL : !PgLaws P, EL : !GoEnvLaws E, SL : Slack}.

Definition entry_count (id : string) (l : list Transaction) : nat :=
  length (filter (fun t => tx_WalletID t = id) l).
Definition entries (db : wallet_db) : list Transaction := scan_txn <$> wd_transactions db.
Definition row_key (w : Wallet) : string * string := (wallet_UserID w, wallet_Currency w).
Definition refs (db : wallet_db) : list string := omap tr_ReferenceID (wd_transactions db).

(** Two numbers that differ by what [n] entries may add. *)
Definition near (n : nat) (b s : Q) : Prop := (Qabs (b - s) <= slack * inject_Z (Z.of_nat n))%Q.
(** A wallet's balance has at most eight places and is the sum of its entries, up to the
    slack. *)
Definition wallet_row_ok (db : wallet_db) (w : Wallet) : Prop :=
  exists b, is_amount (wallet_Balance w) b /\ Eight b /\
    near (entry_count (wallet_ID w) (entries db)) b (ledger_sum (wallet_ID w) (entries db)).
Definition txn_row_ok (n : nat) (r : TxnRow) : Prop :=
  drawn n (tr_ID r) /\ drawn n (tr_WalletID r).
(** A request has its wallet, its entry in the ledger and an amount of eight places. *)
Definition request_row_ok (n : nat) (db : wallet_db) (r : RequestRow) : Prop :=
  drawn n (rr_ID r) /\
  (exists w, w ∈ wd_wallets db /\ wallet_ID w = rr_WalletID r) /\
  (exists q, is_amount (rr_Amount r) q /\ Eight q) /\
  (exists t, t ∈ wd_transactions db /\ tr_ReferenceID t = Some (rr_ID r) /\
     tr_Type t = "withdrawal" /\ tr_WalletID t = rr_WalletID r /\ tr_Amount t = rr_Amount r).

Record pg_inv (n : nat) (db : wallet_db) : Prop := {
  pi_ids : NoDup (wallet_ID <$> wd_wallets db);
  pi_keys : NoDup (row_key <$> wd_wallets db);
  pi_drawn : Forall (fun w => drawn n (wallet_ID w)) (wd_wallets db);
  pi_wallets : Forall (wallet_row_ok db) (wd_wallets db);
  pi_txns : Forall (txn_row_ok n) (wd_transactions db);
  pi_txn_ids : NoDup (tr_ID <$> wd_transactions db);
  pi_refs : NoDup (refs db);
  pi_owned : Forall (fun r => tr_WalletID r ∈ wallet_ID <$> wd_wallets db) (wd_transactions db);
  pi_requests : Forall (request_row_ok n db) (wd_requests db);
  pi_request_ids : NoDup (rr_ID <$> wd_requests db);
}.

#[export] Instance near_proper n : Proper (Qeq ==> Qeq ==> iff) (near n).
Proof. intros p q H p' q' H'. unfold near. by rewrite H, H'. Qed.
Lemma near_refl n b : near n b b.
Proof.
  unfold near. assert ((b - b) == 0)%Q as -> by ring. apply Qmult_le_0_compat; [apply slack_nonneg|].
  change 0%Q with (inject_Z 0). rewrite <- Zle_Qle. lia.
Qed.
Lemma near_step n b s b' e : near n b s -> (Qabs (b' - (b + e)) <= slack)%Q -> near (S n) b' (s + e).
Proof.
  unfold near. intros H1 H2. rewrite Nat2Z.inj_succ. unfold Z.succ. rewrite inject_Z_plus.
  assert ((b' - (s + e)) == ((b' - (b + e)) + (b - s)))%Q as -> by ring.
  eapply Qle_trans; [apply Qabs_triangle|]. change (inject_Z 1) with 1%Q. lra.
Qed.

Lemma entry_count_cons id l t :
  entry_count id (t :: l) = ((if decide (tx_WalletID t = id) then 1 else 0) + entry_count id l)%nat.
Proof. unfold entry_count. rewrite list.filter_cons. by case_decide. Qed.
Lemma entry_count_app id l t :
  entry_count id (l ++ [t]) = (entry_count id l + (if decide (tx_WalletID t = id) then 1 else 0))%nat.
Proof.
  induction l as [|x l IH]; cbn [app]; rewrite !entry_count_cons; [done|]. rewrite IH. lia.
Qed.

Lemma pg_inv_empty n : pg_inv n empty_wallet_db.
Proof. constructor; cbn; constructor. Qed.

Lemma pg_inv_mono n m db : (n <= m)%nat -> pg_inv n db -> pg_inv m db.
Proof.
  intros Hle [A B C D' F K G O H I]. constructor; try done.
  - eapply list.Forall_impl; [exact C|]. intros w Hw. by eapply drawn_mono.
  - eapply list.Forall_impl; [exact F|]. intros r [? ?]. split; by eapply drawn_mono.
  - eapply list.Forall_impl; [exact H|]. intros r (? & ? & ? & ?).
    split_and!; [by eapply drawn_mono|done..].
Qed.

(** ** Rows and keys *)

Lemma same_wallet_key u c w : same_wallet u c w = true <-> row_key w = (u, c).
Proof.
  unfold same_wallet, row_key. rewrite andb_true_iff, !bool_decide_eq_true.
  split; [intros [-> ->]; done|by intros [= -> ->]].
Qed.

Lemma has_ref_refs ref db : (exists r, r ∈ wd_transactions db /\ has_ref ref r = true) <-> ref ∈ refs db.
Proof.
  unfold refs, has_ref. rewrite list_elem_of_omap.
  setoid_rewrite bool_decide_eq_true. done.
Qed.

(** ** Each kind of write keeps the invariant *)

Lemma entries_app db r :
  entries (wd_set_transactions (wd_transactions db ++ [r]) db) = entries db ++ [scan_txn r].
Proof. unfold entries. cbn. by rewrite fmap_app. Qed.

Lemma no_entries n db id : pg_inv n db -> (id ∉ wallet_ID <$> wd_wallets db) ->
  (ledger_sum id (entries db) == 0)%Q.
Proof.
  intros Hi Hnew. apply ledger_sum_other. intros l t Hl.
  unfold entries in Hl. rewrite list_lookup_fmap in Hl.
  destruct (wd_transactions db !! l) as [r|] eqn:Hr; [|done]. cbn in Hl. simplify_eq.
  pose proof (pi_owned _ _ Hi) as H. rewrite list.Forall_forall in H.
  specialize (H r ltac:(by eapply list_elem_of_lookup_2)). cbn. by intros Heq; rewrite Heq in H.
Qed.

Lemma request_row_mono n m db db' r : (n <= m)%nat ->
  (forall w, w ∈ wd_wallets db -> exists w', w' ∈ wd_wallets db' /\ wallet_ID w' = wallet_ID w) ->
  (forall t, t ∈ wd_transactions db -> exists t', t' ∈ wd_transactions db' /\
     tr_ReferenceID t' = tr_ReferenceID t /\ tr_Type t' = tr_Type t /\
     tr_WalletID t' = tr_WalletID t /\ tr_Amount t' = tr_Amount t) ->
  request_row_ok n db r -> request_row_ok m db' r.
Proof.
  intros Hle Hw Ht (Hd & (w & Hin & Hid) & Hq & (t & Htin & Href & Hty & Hwid & Ham)).
  split; [by eapply drawn_mono|]. split.
  { destruct (Hw w Hin) as (w' & ? & ?). exists w'. split; [done|congruence]. }
  split; [done|]. destruct (Ht t Htin) as (t' & ? & ? & ? & ? & ?). exists t'.
  split_and!; congruence.
Qed.

Lemma keys_map {A K} (key : A -> K) (f : A -> A) (l : list A) : (forall x, key (f x) = key x) ->
  key <$> (f <$> l) = key <$> l.
Proof. intros Hf. rewrite <- list_fmap_compose. apply list_fmap_ext. intros i x _. apply Hf. Qed.

Lemma fresh_wallet n db k : pg_inv n db -> (n <= k)%nat -> (uuid_at k ∉ wallet_ID <$> wd_wallets db).
Proof.
  intros Hi Hk (w & Heq & Hin)%list_elem_of_fmap. pose proof (pi_drawn _ _ Hi) as H.
  rewrite list.Forall_forall in H. specialize (H w Hin). rewrite <- Heq in H. by eapply not_drawn.
Qed.

Lemma inv_wallet_new n db u c k balance now : pg_inv n db -> (k < n)%nat ->
  (uuid_at k ∉ wallet_ID <$> wd_wallets db) -> ((u, c) ∉ row_key <$> wd_wallets db) ->
  is_amount balance 0 ->
  pg_inv n (wd_set_wallets (wd_wallets db ++ [mkWallet (uuid_at k) u c balance 0 now now]) db).
Proof.
  intros Hi Hk Hid Hkey Hz. pose proof (no_entries n db _ Hi Hid) as Hsum.
  destruct Hi as [A B C D' F K G O H I]. constructor; cbn [wd_wallets wd_transactions wd_requests
    wd_set_wallets]; try done.
  - by apply NoDup_fmap_snoc.
  - by apply NoDup_fmap_snoc.
  - apply list.Forall_app. split; [done|]. constructor; [|constructor]. by apply drawn_self.
  - apply list.Forall_app. split; [exact D'|]. constructor; [|constructor].
    exists 0%Q. split; [exact Hz|]. split; [apply Eight_0|]. unfold entries in *. cbn.
    rewrite Hsum. apply near_refl.
  - eapply list.Forall_impl; [exact O|]. intros r Hr. rewrite fmap_app. apply elem_of_app. by left.
  - eapply list.Forall_impl; [exact H|]. intros r. apply request_row_mono; [lia| |].
    + intros w Hw. exists w. cbn. split; [apply elem_of_app; by left|done].
    + intros t Ht. by exists t.
Qed.

Lemma inv_wallet_added n db u c k balance now : pg_inv n db -> (n <= k)%nat ->
  (forall w, w ∈ wd_wallets db -> same_wallet u c w = false) -> is_amount balance 0 ->
  pg_inv (S k) (wd_set_wallets (wd_wallets db ++ [mkWallet (uuid_at k) u c balance 0 now now]) db).
Proof.
  intros Hi Hle Hno Hz. apply inv_wallet_new; try done.
  - eapply pg_inv_mono; [|exact Hi]. lia.
  - lia.
  - by eapply fresh_wallet.
  - intros (w & Heq & Hw)%list_elem_of_fmap.
    assert (same_wallet u c w = true) as Ht by (by apply same_wallet_key). by rewrite Hno in Ht.
Qed.

(** A write to the wallets that leaves ids, owners and balances. *)
Lemma inv_wallets_map n db (f : Wallet -> Wallet) : pg_inv n db ->
  (forall w, wallet_ID (f w) = wallet_ID w /\ row_key (f w) = row_key w /\
     wallet_Balance (f w) = wallet_Balance w) ->
  pg_inv n (wd_set_wallets (f <$> wd_wallets db) db).
Proof.
  intros [A B C D' F K G O H I] Hf. constructor; cbn [wd_wallets wd_transactions wd_requests
    wd_set_wallets]; try done.
  - rewrite keys_map; [exact A|]. apply Hf.
  - rewrite keys_map; [exact B|]. apply Hf.
  - rewrite list.Forall_fmap. eapply list.Forall_impl; [exact C|]. intros w. cbn.
    by destruct (Hf w) as (-> & _).
  - rewrite list.Forall_fmap. eapply list.Forall_impl; [exact D'|]. intros w.
    unfold wallet_row_ok, entries. cbn. by destruct (Hf w) as (-> & _ & ->).
  - rewrite keys_map; [exact O|]. apply Hf.
  - eapply list.Forall_impl; [exact H|]. intros r. apply request_row_mono; [lia| |].
    + intros w Hw. exists (f w). cbn. split; [by apply list_elem_of_fmap_2|apply Hf].
    + intros t Ht. by exists t.
Qed.

(** Booking: the row of [w] gets the balance [nb] and the ledger the entry [r]. *)
Lemma inv_booked m db (hit : Wallet -> bool) w r nb now : pg_inv m db ->
  w ∈ wd_wallets db -> (forall x, x ∈ wd_wallets db -> hit x = true <-> x = w) ->
  tr_WalletID r = wallet_ID w -> drawn m (tr_ID r) -> (tr_ID r ∉ tr_ID <$> wd_transactions db) ->
  match tr_ReferenceID r with Some ref => (ref ∉ refs db) | None => True end ->
  (forall b, is_amount (wallet_Balance w) b -> Eight b -> exists b', is_amount nb b' /\ Eight b' /\
     Qabs (b' - (b + tx_effect (scan_txn r))) <= slack)%Q ->
  pg_inv m (mkWalletDb ((fun x => if hit x then write_balance nb now x else x) <$> wd_wallets db)
              (wd_transactions db ++ [r]) (wd_addresses db) (wd_requests db)).
Proof.
  intros [A B C D' F K G O H I] Hw Hhit Hwid Hrd Hrid Href Hnb.
  set (f x := if hit x then write_balance nb now x else x).
  assert (forall x, wallet_ID (f x) = wallet_ID x /\ row_key (f x) = row_key x) as Hf
    by (intros x; unfold f; by destruct (hit x)).
  assert (forall id, (ledger_sum id (entries db ++ [scan_txn r]) ==
    ledger_sum id (entries db) + share id (scan_txn r))%Q) as Hsum by (intros; apply ledger_sum_app).
  constructor; cbn [wd_wallets wd_transactions wd_requests]; try done.
  - rewrite keys_map; [exact A|]. apply Hf.
  - rewrite keys_map; [exact B|]. apply Hf.
  - rewrite list.Forall_fmap. eapply list.Forall_impl; [exact C|]. intros x. cbn.
    by destruct (Hf x) as (-> & _).
  - rewrite list.Forall_fmap. rewrite list.Forall_forall in *. intros x Hx. cbn.
    destruct (Hf x) as (Hid & _). unfold wallet_row_ok, entries. cbn [wd_transactions].
    rewrite fmap_app. change (scan_txn <$> [r]) with [scan_txn r].
    fold (entries db). rewrite Hid. destruct (D' x Hx) as (b & Hb & H8 & Hn).
    assert ((ledger_sum (wallet_ID x) (entries db ++ [scan_txn r]) ==
      ledger_sum (wallet_ID x) (entries db) + share (wallet_ID x) (scan_txn r))%Q) as Hs by apply Hsum.
    unfold share in Hs. cbn [tx_WalletID scan_txn] in Hs.
    rewrite entry_count_app. cbn [tx_WalletID scan_txn].
    unfold f. destruct (hit x) eqn:Hx'.
    + apply Hhit in Hx' as ->; [|done]. rewrite decide_True in Hs by done. rewrite decide_True by done.
      cbn [wallet_Balance write_balance]. destruct (Hnb b Hb H8) as (b' & Hb' & H8' & Hd).
      exists b'. split; [done|]. split; [done|]. rewrite Hs, Nat.add_1_r. by eapply near_step.
    + assert (tr_WalletID r <> wallet_ID x) as Hne.
      { rewrite Hwid. intros Heq. apply not_true_iff_false in Hx'. apply Hx', Hhit; [done|].
        symmetry. by apply (NoDup_fmap_eq wallet_ID (wd_wallets db)). }
      rewrite decide_False, Qplus_0_r in Hs by done. rewrite decide_False by done.
      exists b. split; [done|]. split; [done|]. by rewrite Hs, Nat.add_0_r.
  - apply list.Forall_app. split; [done|]. constructor; [|constructor]. split; [done|].
    rewrite Hwid. rewrite list.Forall_forall in C. by apply C.
  - by apply NoDup_fmap_snoc.
  - unfold refs in *. cbn. rewrite omap_app. apply list.NoDup_app. split_and!; [done| |].
    + intros ref Hin Hr. cbn in Hr. destruct (tr_ReferenceID r) as [ref'|]; [|by apply elem_of_nil in Hr].
      apply list_elem_of_singleton in Hr. by subst.
    + cbn. destruct (tr_ReferenceID r); [apply list.NoDup_singleton|constructor].
  - rewrite keys_map by apply Hf. apply list.Forall_app. split; [exact O|].
    constructor; [|constructor]. rewrite Hwid. by apply list_elem_of_fmap_2.
  - eapply list.Forall_impl; [exact H|]. intros q. apply request_row_mono; [lia| |].
    + intros x Hx. exists (f x). cbn. split; [by apply list_elem_of_fmap_2|apply Hf].
    + intros t Ht. exists t. cbn. split; [apply elem_of_app; by left|done].
Qed.

Lemma ledger_sum_ext (f : TxnRow -> TxnRow) id l :
  (forall r, tr_WalletID (f r) = tr_WalletID r /\ tr_Type (f r) = tr_Type r /\
     tr_Amount (f r) = tr_Amount r) ->
  (ledger_sum id (scan_txn <$> (f <$> l)) == ledger_sum id (scan_txn <$> l))%Q.
Proof.
  intros Hf. induction l as [|r l IH]; [reflexivity|].
  change (scan_txn <$> (f <$> r :: l)) with (scan_txn (f r) :: (scan_txn <$> (f <$> l))).
  change (scan_txn <$> r :: l) with (scan_txn r :: (scan_txn <$> l)).
  rewrite !ledger_sum_cons, IH. destruct (Hf r) as (Hw & Ht & Ha).
  unfold share, tx_effect. cbn [scan_txn tx_WalletID tx_Type tx_Amount].
  by rewrite Hw, Ht, Ha.
Qed.

Lemma entry_count_ext (f : TxnRow -> TxnRow) id l : (forall r, tr_WalletID (f r) = tr_WalletID r) ->
  entry_count id (scan_txn <$> (f <$> l)) = entry_count id (scan_txn <$> l).
Proof.
  intros Hf. induction l as [|r l IH]; [done|].
  change (scan_txn <$> (f <$> r :: l)) with (scan_txn (f r) :: (scan_txn <$> (f <$> l))).
  change (scan_txn <$> r :: l) with (scan_txn r :: (scan_txn <$> l)).
  rewrite !entry_count_cons, IH. cbn [scan_txn tx_WalletID]. by rewrite Hf.
Qed.

(** A write to the statuses of ledger entries. *)
Lemma inv_status n db (hit : TxnRow -> bool) status : pg_inv n db ->
  pg_inv n (wd_set_transactions
    ((fun r => if hit r then tr_set_status status r else r) <$> wd_transactions db) db).
Proof.
  set (f r := if hit r then tr_set_status status r else r).
  assert (forall r, tr_WalletID (f r) = tr_WalletID r /\ tr_Type (f r) = tr_Type r /\
     tr_Amount (f r) = tr_Amount r) as Hf by (intros r; unfold f; by destruct (hit r)).
  assert (forall r, tr_ID (f r) = tr_ID r /\ tr_ReferenceID (f r) = tr_ReferenceID r) as Hg
    by (intros r; unfold f; by destruct (hit r)).
  intros [A B C D' F K G O H I]. constructor; cbn [wd_wallets wd_transactions wd_requests
    wd_set_transactions]; try done.
  - eapply list.Forall_impl; [exact D'|]. intros w. unfold wallet_row_ok, entries. cbn.
    pose proof (ledger_sum_ext f (wallet_ID w) (wd_transactions db) Hf) as Hs.
    pose proof (entry_count_ext f (wallet_ID w) (wd_transactions db) (fun r => proj1 (Hf r))) as Hc.
    intros (b & Hb & H8 & Hn). exists b. split; [done|]. split; [done|].
    rewrite <- Hc in Hn. by rewrite <- Hs in Hn.
  - rewrite list.Forall_fmap. eapply list.Forall_impl; [exact F|]. intros r. cbn.
    unfold txn_row_ok. destruct (Hf r) as (-> & _), (Hg r) as (-> & _). done.
  - rewrite keys_map; [exact K|]. apply Hg.
  - unfold refs in *. cbn.
    assert (omap tr_ReferenceID (f <$> wd_transactions db) =
            omap tr_ReferenceID (wd_transactions db)) as ->; [|done].
    clear -Hg. induction (wd_transactions db) as [|r l IH]; [done|]. cbn.
    destruct (Hg r) as [_ ->]. by rewrite IH.
  - rewrite list.Forall_fmap. eapply list.Forall_impl; [exact O|]. intros r. cbn.
    by destruct (Hf r) as (-> & _).
  - eapply list.Forall_impl; [exact H|]. intros q. apply request_row_mono; [lia| |].
    + intros x Hx. by exists x.
    + intros t Ht. exists (f t). cbn. split; [by apply list_elem_of_fmap_2|].
      destruct (Hf t) as (? & ? & ?), (Hg t). done.
Qed.

(** A new request, whose entry is in the ledger. *)
Lemma inv_request_added n db q : pg_inv n db -> request_row_ok n db q ->
  (rr_ID q ∉ rr_ID <$> wd_requests db) ->
  pg_inv n (wd_set_requests (wd_requests db ++ [q]) db).
Proof.
  intros [A B C D' F K G O H I] Hq Hfresh.
  constructor; cbn [wd_wallets wd_transactions wd_requests wd_set_requests]; try done.
  - apply list.Forall_app. split; [done|]. constructor; [done|constructor].
  - by apply NoDup_fmap_snoc.
Qed.

Lemma fresh_request n db k : pg_inv n db -> (n <= k)%nat -> (uuid_at k ∉ rr_ID <$> wd_requests db).
Proof.
  intros Hi Hk (q & Heq & Hin)%list_elem_of_fmap.
  pose proof (pi_requests _ _ Hi) as Hold. rewrite list.Forall_forall in Hold.
  destruct (Hold q Hin) as (Hd & _). rewrite <- Heq in Hd. by eapply not_drawn.
Qed.

(** A review of requests. *)
Lemma inv_reviewed n db (hit : RequestRow -> bool) status txHash reviewedBy : pg_inv n db ->
  pg_inv n (wd_set_requests
    ((fun r => if hit r then review_row status txHash reviewedBy r else r) <$> wd_requests db) db).
Proof.
  set (f r := if hit r then review_row status txHash reviewedBy r else r).
  assert (forall r, rr_ID (f r) = rr_ID r /\ rr_WalletID (f r) = rr_WalletID r /\
    rr_Amount (f r) = rr_Amount r) as Hf by (intros r; unfold f; by destruct (hit r)).
  intros [A B C D' F K G O H I]. constructor; cbn [wd_wallets wd_transactions wd_requests
    wd_set_requests]; try done.
  - rewrite list.Forall_fmap. eapply list.Forall_impl; [exact H|]. intros r. cbn.
    unfold request_row_ok. cbn [wd_wallets wd_transactions wd_set_requests].
    by destruct (Hf r) as (-> & -> & ->).
  - rewrite keys_map; [exact I|]. apply Hf.
Qed.

(** deposit_addresses is not part of the ledger. *)
Lemma inv_addresses n db l : pg_inv n db -> pg_inv n (wd_set_addresses l db).
Proof. intros [A B C D' F K G O H I]. by constructor. Qed.

(** ** What a booking writes *)

#[export] Instance round8_proper : Proper (Qeq ==> Qeq) round8.
Proof.
  intros p q H. unfold round8, round8_pos.
  assert (Qle_bool 0 p = Qle_bool 0 q) as -> by (by rewrite H).
  destruct (Qle_bool 0 q); by rewrite H.
Qed.
Lemma numeric_round s q t : is_amount s q -> numeric_in s = Some t -> is_amount t (round8 q).
Proof.
  intros (d & Hd & Hq) Ht. pose proof (numeric_value s d t Hd Ht) as Hv. by rewrite Hq in Hv.
Qed.
Lemma numeric_amount s q t : is_amount s q -> Eight q -> numeric_in s = Some t -> is_amount t q.
Proof. intros Hs H8 Ht. pose proof (numeric_round s q t Hs Ht) as H. by rewrite (round8_id q H8) in H. Qed.

(** The row that UPDATE ... WHERE id = $2 AND version = $3 hits. *)
Definition row_hit (w x : Wallet) : bool :=
  bool_decide (wallet_ID x = wallet_ID w) && bool_decide (wallet_Version x = wallet_Version w).

Lemma row_hit_self n db w : pg_inv n db -> w ∈ wd_wallets db ->
  forall x, x ∈ wd_wallets db -> row_hit w x = true <-> x = w.
Proof.
  intros Hi Hw x Hx. unfold row_hit. rewrite andb_true_iff, !bool_decide_eq_true. split.
  - intros [Hid _]. by apply (NoDup_fmap_eq wallet_ID (wd_wallets db)); [apply Hi|..].
  - by intros ->.
Qed.

(** The row of the ledger that an INSERT into transactions made. *)
Record entry_row (typ userID currency amount newBalance status : string) (ref : option string)
    (md : option (option string)) (w : Wallet) (n m : nat) (db : wallet_db) (row : TxnRow) : Prop := {
  er_user : tr_UserID row = userID;
  er_wallet : tr_WalletID row = wallet_ID w;
  er_currency : tr_Currency row = currency;
  er_type : tr_Type row = typ;
  er_status : tr_Status row = status;
  er_ref : tr_ReferenceID row = ref;
  er_amount : numeric_in amount = Some (tr_Amount row);
  er_before : numeric_in (wallet_Balance w) = Some (tr_BalanceBefore row);
  er_metadata : md = Some (tr_Metadata row);
  er_after : numeric_in newBalance = Some (tr_BalanceAfter row);
  er_fresh : match ref with Some x => (x ∉ refs db) | None => True end;
  er_id : exists k, (n <= k < m)%nat /\ tr_ID row = uuid_at k;
}.

(** The tables after the balance of [w] and the entry [row] were written. *)
Definition book (w : Wallet) (row : TxnRow) (now : Z) (db : wallet_db) : wallet_db :=
  mkWalletDb
    ((fun x => if row_hit w x then write_balance (tr_BalanceAfter row) now x else x)
       <$> wd_wallets db)
    (wd_transactions db ++ [row]) (wd_addresses db) (wd_requests db).

Lemma book_inv n m db typ u c a bal st ref md w row now q :
  pg_inv m db -> (tr_ID row ∉ tr_ID <$> wd_transactions db) -> w ∈ wd_wallets db ->
  entry_row typ u c a bal st ref md w n m db row ->
  is_amount a q -> fits q ->
  (forall b, is_amount (wallet_Balance w) b ->
     is_amount bal (b + (if decide (typ = "withdrawal") then - q else q))) ->
  pg_inv m (book w row now db).
Proof.
  intros Hi Hnew Hw Her Ha Hq Hbal.
  set (e := (if decide (typ = "withdrawal") then - q else q)%Q) in *.
  assert ((tx_effect (scan_txn row) == round8 e)%Q) as Heff.
  { pose proof (is_amount_amt _ _ (numeric_round _ _ _ Ha (er_amount _ _ _ _ _ _ _ _ _ _ _ _ _ Her))) as Hr.
    unfold tx_effect, e. cbn [scan_txn tx_Type tx_Amount].
    rewrite (er_type _ _ _ _ _ _ _ _ _ _ _ _ _ Her). case_decide; by rewrite Hr, ?round8_opp. }
  assert (fits e) as He by (unfold e; case_decide; [by apply fits_opp|done]).
  destruct Her as [_ Hwid _ _ _ Href _ _ _ Haf Hfr (k & Hk & Hid)].
  eapply inv_booked; try done.
  - by eapply row_hit_self.
  - exists k. split; [lia|done].
  - by rewrite Href.
  - intros b Hb H8. exists (round8 (b + e)). split; [|split; [apply round8_Eight|]].
    + eapply numeric_round; [by apply Hbal|exact Haf].
    + rewrite Heff. by apply round8_apart.
Qed.

(** An entry drawn at a later tick than all of the table is new. *)
Lemma entry_row_new typ u c a bal st ref md w n m db row :
  Forall (txn_row_ok n) (wd_transactions db) -> entry_row typ u c a bal st ref md w n m db row ->
  (tr_ID row ∉ tr_ID <$> wd_transactions db).
Proof.
  intros Hold Her. destruct (er_id _ _ _ _ _ _ _ _ _ _ _ _ _ Her) as (k & Hk & Hid).
  intros (r & Heq & Hin)%list_elem_of_fmap. rewrite list.Forall_forall in Hold.
  destruct (Hold r Hin) as [Hd _]. rewrite <- Heq, Hid in Hd. exact (not_drawn n k ltac:(lia) Hd).
Qed.
End PgLedger.

Arguments er_ref {_ _ _ _ _ _ _ _ _ _ _ _ _ _ _} _.
Arguments er_amount {_ _ _ _ _ _ _ _ _ _ _ _ _ _ _} _.
Arguments er_after {_ _ _ _ _ _ _ _ _ _ _ _ _ _ _} _.
