(* ===== verification/WalletPgOps.v ===== *)
(** * WalletPgOps: what each operation of the Postgres wallet store commits

    Every operation either leaves the tables as they were, with an error, or commits one
    booking and returns it; when only the confirmation of the commit is lost, it commits
    the booking and returns an error. *)

From S2P Require Import Prelude GoStd GoJson Decimal WalletModels WalletStore WalletLedger.
From S2P Require Import Sql WalletPg WalletPgLedger.

Section PgOps.
Context `{E : GoEnv, L : DecimalLaws, P : PgTypes, PL : !PgLaws P, EL : !GoEnvLaws E, SL : Slack,
  F : SqlFaults}.

Definition ref_opt (ref : string) : option string := if decide (ref = "") then None else Some ref.
Definition ref_free (ref : string) (db : wallet_db) : Prop :=
  match ref_opt ref with Some x => (x ∉ refs db) | None => True end.

(** The transaction that is returned is the entry [row]; its status may have been read
    before a later change. *)
Definition same_entry (t : Transaction) (row : TxnRow) : Prop :=
  exists status, t = scan_txn (tr_set_status status row).
(** The transaction that is returned for the new entry [row] is made of the arguments and
    the balances of the call. *)
Definition new_entry typ u c a bal ref (w : Wallet) (t : Transaction) (row : TxnRow) : Prop :=
  t = mkTransaction (tr_ID row) u (wallet_ID w) c typ a (wallet_Balance w) bal "completed" ref ""
        (tr_CreatedAt row).
Definition names_entry (t : Transaction) (row : TxnRow) : Prop :=
  tx_ID t = tr_ID row /\ tx_ReferenceID t = null_string (tr_ReferenceID row).
Lemma same_names t row : same_entry t row -> names_entry t row.
Proof. by intros [status ->]. Qed.
Lemma new_names typ u c a bal ref w t row : tr_ReferenceID row = ref_opt ref ->
  new_entry typ u c a bal ref w t row -> names_entry t row.
Proof. intros Hr ->. split; [done|]. cbn. rewrite Hr. unfold ref_opt. by case_decide as H. Qed.

(** The reference was already booked, as the transaction returned. *)
Definition found (ref : string) (db : wallet_db) (t : Transaction) : Prop :=
  ref <> "" /\ exists row, row ∈ wd_transactions db /\ tr_ReferenceID row = Some ref /\
    t = scan_txn row.

Lemma row_by_id n db row : pg_inv n db -> row ∈ wd_transactions db ->
  first_row (fun r => bool_decide (tr_ID r = tr_ID row)) (wd_transactions db) = Some row.
Proof.
  intros Hi Hrow. destruct (first_row _ _) as [r|] eqn:Hf.
  - apply first_row_Some in Hf as [Hr Hid%bool_decide_eq_true]. f_equal.
    by apply (NoDup_fmap_eq tr_ID (wd_transactions db)); [apply Hi|..].
  - rewrite first_row_None in Hf. specialize (Hf row Hrow). by rewrite bool_decide_eq_true_2 in Hf.
Qed.

Lemma commit_then {A B} what (a : A) (f : A -> M (Tx wallet_db) B) (b : B) n db now R :
  f a = mret b -> R b (S n) db ->
  tx_ends ((wrapped what tx_commit;; mret a) ≫= f) n db now R.
Proof.
  intros Hf HR. apply tx_ends_assoc.
  intros r w' H. apply (tx_ends_commit what b n db now R HR). rewrite <- H.
  unfold mbind, M_bind. destruct (wrapped what tx_commit _) as [[[]|e|p] w0]; [|done..].
  change ((mret b : M _ _) w0 = f a w0). by rewrite Hf.
Qed.

(** The look-up of the reference before anything else is done. *)
Lemma by_ref_ends what ref (m : M (Tx wallet_db) Transaction) n db now R :
  pg_inv n db ->
  (forall t n', found ref db t -> R t n' db) ->
  (forall n', (n <= n')%nat -> ref_free ref db -> tx_ends m n' db now R) ->
  tx_ends (existing ← pg_by_ref what ref; match existing with Some t => mret t | None => m end)
    n db now R.
Proof.
  intros Hi Hfound Hm. unfold pg_by_ref. case_decide as Href.
  { intros r w'. apply (Hm n ltac:(lia)). unfold ref_free, ref_opt. by rewrite decide_True. }
  unfold pg_existing. apply tx_ends_assoc, tx_ends_query.
  - unfold select_txn_by_ref, select. intros id db' [= Hid <-]. apply tx_ends_assoc.
    destruct (first_row (has_ref ref) (wd_transactions db)) as [row|] eqn:Hrow; [|done].
    cbn in Hid. injection Hid as <-.
    apply first_row_Some in Hrow as [Hin Hr]. apply bool_decide_eq_true in Hr.
    eapply (tx_ends_bind _ _ _ _ _ (fun t n' db' => found ref db t /\ db' = db)).
    + apply tx_ok_wrapped, tx_ok_scan, tx_ok_stmt. unfold select_txn. intros t db'.
      pose proof (pi_txns _ _ Hi) as Hd. rewrite list.Forall_forall in Hd.
      destruct (Hd row Hin) as [(k & _ & Hk) _]. rewrite Hk, uuid_own. cbn [read_in mbind answer_bind].
      rewrite <- Hk, (row_by_id n db row Hi Hin). intros [= <- <-].
      split; [|done]. split; [done|]. by exists row.
    + intros t n' db' _ [Ht ->]. eapply (commit_then _ (Some t) _ t); [done|]. by apply Hfound.
  - unfold select_txn_by_ref, select. intros db' [= Hid <-].
    intros r w'. apply (Hm (S n) ltac:(lia)). unfold ref_free, ref_opt. rewrite decide_False by done.
    intros Hin. apply has_ref_refs in Hin as (row & Hin & Hr).
    destruct (first_row (has_ref ref) (wd_transactions db)) as [r0|] eqn:Hrow; [done|].
    rewrite first_row_None in Hrow. by rewrite Hrow in Hr.
  - intros e He Hie. rewrite Hie. auto with sql.
Qed.

(** The fallback after a failed INSERT never succeeds: the transaction is aborted. *)
Lemma fallback_fails what ref (e : goerr) :
  tx_fails (existing ← pg_by_ref what ref;
    match existing with Some txn => mret txn | None => mthrow (ErrWrap "insert transaction" e) end :
    M (Tx wallet_db) Transaction).
Proof.
  unfold pg_by_ref. case_decide.
  - intros w r w' Hf Hd. unfold mbind, M_bind, mret, M_ret, mthrow, M_throw. intros [= <- <-].
    split_and!; [lia|done|done|by eexists].
  - unfold pg_existing. intros w r w' Hf Hd. rewrite bind_assoc. revert w r w' Hf Hd.
    apply tx_fails_attempt; [apply tx_fails_bind, tx_fails_stmt|]. intros e0.
    destruct (errors_Is e0 ErrNoRows); [|auto with sql].
    intros w r w' Hf Hd. unfold mbind, M_bind, mret, M_ret, mthrow, M_throw. intros [= <- <-].
    split_and!; [lia|done|done|by eexists].
Qed.

Lemma insert_txn_row u wid c typ a before bal st ref md now k db o db' :
  insert_txn u wid c typ a before bal st ref md now (uuid_at k) db = Done (o, db') ->
  exists row, o = Some (tr_ID row, now) /\ tr_ID row = uuid_at k /\ tr_CreatedAt row = now /\
    db' = wd_set_transactions (wd_transactions db ++ [row]) db /\
    forall w n m, wallet_ID w = wid -> wallet_Balance w = before -> (n <= k < m)%nat ->
      entry_row typ u c a bal st ref md w n m db row.
Proof.
  unfold insert_txn. destruct md as [md|]; [|done].
  destruct (numeric_in a) as [am|] eqn:Ha; [|done].
  destruct (numeric_in before) as [bb|] eqn:Hbb; [|done].
  destruct (numeric_in bal) as [ba|] eqn:Hba; [|done].
  cbn [read_in mbind answer_bind]. destruct (negb _); [done|].
  destruct (match ref with Some r => _ | None => _ end) eqn:Hex; [done|].
  intros [= <- <-].
  exists (mkTxnRow (uuid_at k) u wid c typ am bb ba st ref md now).
  split; [reflexivity|]. split; [done|]. split; [done|]. split; [done|].
  intros w n m Hw Hb Hk. constructor; try done; cbn.
  - by rewrite Hb.
  - destruct ref as [x|]; [|done]. intros (r & Hin & Hr)%has_ref_refs.
    rewrite existsb_false in Hex. by rewrite Hex in Hr.
  - by exists k.
Qed.

(** The UPDATE of the balance: exactly the row that was read gets it. *)
Lemma write_balance_ok bal w n db now :
  tx_ok (pg_write_balance bal w) n db now (fun _ n' db' => exists t, numeric_in bal = Some t /\
    db' = wd_set_wallets ((fun x => if row_hit w x then write_balance t now x else x)
                            <$> wd_wallets db) db).
Proof.
  unfold pg_write_balance. apply (tx_ok_bind _ _ _ _ _ (fun rows _ db' =>
    update_wallet bal (wallet_ID w) (wallet_Version w) now (uuid_at n) db = Done (rows, db'))).
  { apply tx_ok_wrapped, tx_ok_stmt. auto. }
  intros rows n' db' _ H. case_decide; [apply tx_ok_throw|]. apply tx_ok_ret.
  unfold update_wallet in H. destruct (numeric_in bal) as [t|]; [|done].
  cbn [read_in mbind answer_bind] in H. case_match; [done|]. injection H as _ <-. by exists t.
Qed.

(** INSERT INTO transactions and the commit. *)
Lemma record_ends typ u c a bal ref md w n db now :
  tx_ends (pg_record typ u c a bal ref md w) n db now (fun t n' db' => exists row,
    entry_row typ u c a bal "completed" (ref_opt ref) (jsonb_in md) w n n' db row /\
    new_entry typ u c a bal ref w t row /\
    db' = wd_set_transactions (wd_transactions db ++ [row]) db).
Proof.
  unfold pg_record. apply tx_ends_query.
  - intros [id created] db' H. apply insert_txn_row in H as (row & Ho & Hid & Hnow & -> & Hrow).
    injection Ho as -> ->. apply tx_ends_commit. exists row.
    assert (entry_row typ u c a bal "completed" (ref_opt ref) (jsonb_in md) w n (S (S n)) db row) as Her
      by (apply Hrow; [done|done|lia]).
    split; [exact Her|]. split; [|done]. unfold new_entry. by rewrite Hnow.
  - intros db' H. apply insert_txn_row in H as (row & Ho & _). done.
  - intros e _ _. apply fallback_fails.
Qed.

(** A booking: [w] is a row of [db1], whose balance and [a] give the new balance by [op];
    the transaction returned is the new entry. *)
Definition booked (op : string -> string -> res string) typ u c a ref (md : Metadata) (n n' : nat)
    (w : Wallet) (db1 : wallet_db) (t : Transaction) (db' : wallet_db) : Prop :=
  exists bal row now, op (wallet_Balance w) a = Ok bal /\
    entry_row typ u c a bal "completed" (ref_opt ref) (jsonb_in md) w n n' db1 row /\
    new_entry typ u c a bal ref w t row /\
    db' = book w row now db1.

(** The wallet of [u] and [c], opened with a balance of zero if there was none. *)
Inductive opened_wallet (u c : string) (n n' : nat) (db : wallet_db) : Wallet -> wallet_db -> Prop :=
| ow_there w : w ∈ wd_wallets db -> row_key w = (u, c) -> opened_wallet u c n n' db w db
| ow_new k balance now : (n <= k < n')%nat -> ((u, c) ∉ row_key <$> wd_wallets db) ->
    numeric_in "0" = Some balance ->
    let w := mkWallet (uuid_at k) u c balance 0 now now in
    opened_wallet u c n n' db w (wd_set_wallets (wd_wallets db ++ [w]) db).

Lemma opened_inv u c n n' db w db1 : pg_inv n db -> (n <= n')%nat ->
  opened_wallet u c n n' db w db1 ->
  pg_inv n' db1 /\ w ∈ wd_wallets db1 /\ row_key w = (u, c) /\ wd_transactions db1 = wd_transactions db.
Proof.
  intros Hi Hle [x Hx Hk|k balance now Hk Hno Hb].
  - split_and!; try done. by eapply pg_inv_mono.
  - split_and!; try done; [|apply elem_of_app; right; by apply list_elem_of_singleton].
    eapply (pg_inv_mono (S k)); [lia|].
    apply (inv_wallet_added n db u c k balance now Hi); [lia| |].
    + intros x Hx. apply not_true_iff_false. intros Hs. apply Hno.
      apply same_wallet_key in Hs. rewrite <- Hs. by apply list_elem_of_fmap_2.
    + eapply numeric_amount; [apply is_amount_0|apply Eight_0|done].
Qed.

Lemma select_wallet_row u c now fresh db o db' :
  select_wallet u c now fresh db = Done (o, db') -> db' = db /\
  match o with
  | Some w => w ∈ wd_wallets db /\ row_key w = (u, c)
  | None => ((u, c) ∉ row_key <$> wd_wallets db)
  end.
Proof.
  unfold select_wallet, select. intros [= <- <-]. split; [done|].
  destruct (first_row _ _) as [w|] eqn:Hf.
  - apply first_row_Some in Hf as [Hw Hs]. split; [done|by apply same_wallet_key].
  - intros (w & Heq & Hw)%list_elem_of_fmap. rewrite first_row_None in Hf.
    assert (same_wallet u c w = true) as Ht by (by apply same_wallet_key). by rewrite Hf in Ht.
Qed.

(** What CreditWallet commits. *)
Definition credited u c a ref md n n' db t db' : Prop :=
  found ref db t /\ db' = db \/
  ref_free ref db /\ exists w db1, opened_wallet u c n n' db w db1 /\
    booked addDecimal "deposit" u c a ref md n n' w db1 t db'.

Lemma NewFromString_no_panic a p : NewFromString a <> Panic p.
Proof. unfold NewFromString. by destruct (ParseDecimal a). Qed.
Lemma addDecimal_no_panic a b p : addDecimal a b <> Panic p.
Proof. unfold addDecimal, NewFromString. by destruct (ParseDecimal a), (ParseDecimal b). Qed.
Lemma subDecimal_no_panic a b p : subDecimal a b <> Panic p.
Proof. unfold subDecimal, NewFromString. by destruct (ParseDecimal a), (ParseDecimal b). Qed.
Lemma of_wrapped_ok {A} what (x : res A) n db now (Q : A -> nat -> wallet_db -> Prop) :
  (forall p, x <> Panic p) -> (forall a, x = Ok a -> Q a n db) ->
  tx_ok (wrapped what (of_res x)) n db now Q.
Proof. intros Hp H. by apply tx_ok_wrapped, tx_ok_of_res. Qed.

Lemma entry_row_mono typ u c a bal st ref md w n0 n m m' db0 db row :
  entry_row typ u c a bal st ref md w n m db row -> (n0 <= n)%nat -> (m <= m')%nat ->
  wd_transactions db0 = wd_transactions db ->
  entry_row typ u c a bal st ref md w n0 m' db0 row.
Proof.
  intros [A B C D1 E1 F1 G B0 M0 H I (k & Hk & Hid)] Hn Hm Ht. constructor; try done.
  - unfold refs in *. by rewrite Ht.
  - exists k. split; [lia|done].
Qed.

Lemma book_eq w row now t db : numeric_in t = Some (tr_BalanceAfter row) ->
  forall t', numeric_in t = Some t' ->
  wd_set_transactions (wd_transactions db ++ [row])
    (wd_set_wallets ((fun x => if row_hit w x then write_balance t' now x else x)
                       <$> wd_wallets db) db) = book w row now db.
Proof. intros H t' Ht'. rewrite H in Ht'. by injection Ht' as <-. Qed.

(** CreditWallet commits what [credited] says. *)
Lemma credit_ends u c a ref md n db now : pg_inv n db ->
  tx_ends (pg_credit_body u c a ref md) n db now (fun t n' db' => credited u c a ref md n n' db t db').
Proof.
  intros Hi. unfold pg_credit_body. apply by_ref_ends; [done|by left|]. intros n1 Hn1 Hfree.
  apply (tx_ends_bind _ _ _ _ _ (fun w n' db1 => opened_wallet u c n n' db w db1)).
  { apply tx_ok_wrapped. unfold or_no_rows. apply tx_ok_query.
    - intros w db1 [-> [Hw Hk]]%select_wallet_row. apply tx_ok_ret. by constructor.
    - intros db1 [-> Hno]%select_wallet_row. rewrite decide_True by done.
      apply tx_ok_scan, tx_ok_stmt. intros o db1 H. unfold insert_wallet in H.
      destruct (numeric_in "0") as [b|] eqn:Hb; [|done]. cbn [read_in mbind answer_bind] in H.
      destruct (existsb _ _); [done|]. injection H as <- <-.
      apply ow_new; [lia|done|done].
    - intros e He _. rewrite decide_False by done. auto with sql. }
  intros w n2 db1 Hn2 Hw.
  apply (tx_ends_bind _ _ _ _ _ (fun bal n' db' => addDecimal (wallet_Balance w) a = Ok bal /\
    db' = db1)).
  { apply of_wrapped_ok; [apply addDecimal_no_panic|done]. }
  intros bal n3 db3 Hn3 [Hbal ->].
  eapply tx_ends_bind; [apply write_balance_ok|]. intros _ n4 db4 Hn4 (bt & Hbt & ->).
  intros r w' H. apply record_ends in H as [Hle H]. split; [lia|].
  destruct (tx_done (w_st w')) as [db'|]; [|done].
  destruct H as (t & (row & Her & Hse & ->) & Hr). exists t. split; [|done].
  right. split; [done|]. exists w, db1. split.
  { destruct Hw as [x Hx Hk|k b0 nw Hk Hno Hb0]; [by constructor|]. apply ow_new; [lia|done|done]. }
  exists bal, row, now. split; [done|]. split.
  - eapply entry_row_mono; [exact Her|lia|lia|done].
  - split; [done|]. by rewrite <- (book_eq w row now bal _ (er_after Her) bt Hbt).
Qed.

(** What drawing an amount requires and does. *)
Definition can_draw u c a (w : Wallet) (db : wallet_db) : Prop :=
  w ∈ wd_wallets db /\ row_key w = (u, c) /\
  exists b q, is_amount (wallet_Balance w) b /\ is_amount a q /\ (q <= b)%Q.

Lemma draw_ok what u c a n db now :
  tx_ok (pg_draw what u c a) n db now (fun '(w, bal) n' db' => can_draw u c a w db /\
    subDecimal (wallet_Balance w) a = Ok bal /\ exists t, numeric_in bal = Some t /\
    db' = wd_set_wallets ((fun x => if row_hit w x then write_balance t now x else x)
                            <$> wd_wallets db) db).
Proof.
  unfold pg_draw. apply tx_ok_query.
  2: { intros db1 _. rewrite decide_True by done.
       apply (tx_ok_bind _ _ _ _ _ (fun _ _ _ => False)); [apply tx_ok_throw|done]. }
  2: { intros e He _. rewrite decide_False by done. auto with sql. }
  intros w db1 [-> [Hw Hk]]%select_wallet_row.
  apply (tx_ok_bind _ _ _ _ _ (fun w' _ db' => w' = w /\ db' = db)); [by apply tx_ok_ret|].
  intros ? n1 ? Hn1 [-> ->].
  apply (tx_ok_bind _ _ _ _ _ (fun d _ db' => ParseDecimal (wallet_Balance w) = inl d /\ db' = db)).
  { apply of_wrapped_ok; [apply NewFromString_no_panic|].
    intros d Hd. split; [by apply NewFromString_Ok|done]. }
  intros cb n2 ? Hn2 [Hcb ->].
  apply (tx_ok_bind _ _ _ _ _ (fun d _ db' => ParseDecimal a = inl d /\ db' = db)).
  { apply of_wrapped_ok; [apply NewFromString_no_panic|].
    intros d Hd. split; [by apply NewFromString_Ok|done]. }
  intros da n3 ? Hn3 [Hda ->].
  destruct (dec_LessThan cb da) eqn:Hlt; [apply tx_ok_throw|].
  apply (tx_ok_bind _ _ _ _ _ (fun bal n' db' => subDecimal (wallet_Balance w) a = Ok bal /\
    db' = db)).
  { apply of_wrapped_ok; [apply subDecimal_no_panic|done]. }
  intros bal n4 ? Hn4 [Hbal ->].
  eapply tx_ok_bind; [apply write_balance_ok|]. intros [] n5 db5 Hn5 Hex. apply tx_ok_ret.
  split; [|by split]. split; [done|]. split; [done|]. exists (dval cb), (dval da).
  split; [by apply is_amount_parse|]. split; [by apply is_amount_parse|by apply not_LessThan].
Qed.

(** What DebitWallet commits. *)
Definition debited u c a ref md n n' db t db' : Prop :=
  found ref db t /\ db' = db \/
  ref_free ref db /\ exists w, can_draw u c a w db /\
    booked subDecimal "withdrawal" u c a ref md n n' w db t db'.

Lemma debit_ends u c a ref md n db now : pg_inv n db ->
  tx_ends (pg_debit_body u c a ref md) n db now (fun t n' db' => debited u c a ref md n n' db t db').
Proof.
  intros Hi. unfold pg_debit_body. apply by_ref_ends; [done|by left|]. intros n1 Hn1 Hfree.
  eapply tx_ends_bind; [apply draw_ok|]. intros [w bal] n2 db2 Hn2 (Hw & Hbal & bt & Hbt & ->).
  intros r w' H. apply record_ends in H as [Hle H]. split; [lia|].
  destruct (tx_done (w_st w')) as [db'|]; [|done].
  destruct H as (t & (row & Her & Hse & ->) & Hr). exists t. split; [|done].
  right. split; [done|]. exists w. split; [done|]. exists bal, row, now. split; [done|]. split.
  - eapply entry_row_mono; [exact Her|lia|lia|done].
  - split; [done|]. by rewrite <- (book_eq w row now bal _ (er_after Her) bt Hbt).
Qed.

(** What RequestWithdrawal commits: the debit, its pending entry under the id of the
    request, and the request. *)
Definition requested u c a dest chain (n n' : nat) (db : wallet_db) (q : WithdrawalRequest)
    (db' : wallet_db) : Prop :=
  exists w bal row k now, can_draw u c a w db /\ subDecimal (wallet_Balance w) a = Ok bal /\
    (n <= k < n')%nat /\
    entry_row "withdrawal" u c a bal "pending" (Some (uuid_at k)) (Some None) w n n' db row /\
    q = mkWithdrawalRequest (uuid_at k) u (wallet_ID w) a c dest chain "pending" "" "" now /\
    db' = wd_set_requests (wd_requests db ++
      [mkRequestRow (uuid_at k) u (wallet_ID w) (tr_Amount row) c dest chain "pending" None None now])
      (book w row now db).

Lemma request_ends u c a dest chain n db now :
  tx_ends (pg_request_body u c a dest chain) n db now
    (fun q n' db' => requested u c a dest chain n n' db q db').
Proof.
  unfold pg_request_body.
  eapply tx_ends_bind; [apply draw_ok|]. intros [w bal] n1 db1 Hn1 (Hw & Hbal & bt & Hbt & ->).
  set (db1 := wd_set_wallets _ db).
  apply (tx_ends_bind _ _ _ _ _ (fun '(id, status, created) n' db2 => exists k am,
    (n <= k < n')%nat /\ id = uuid_at k /\ status = "pending" /\ created = now /\
    numeric_in a = Some am /\
    db2 = wd_set_requests (wd_requests db ++
      [mkRequestRow (uuid_at k) u (wallet_ID w) am c dest chain "pending" None None now]) db1)).
  { apply tx_ok_wrapped, tx_ok_scan, tx_ok_stmt. intros o db2 H. unfold insert_request in H.
    destruct (numeric_in a) as [am|] eqn:Ha; [|done]. cbn [read_in mbind answer_bind] in H.
    destruct (negb _); [done|]. injection H as <- <-. exists n1, am. split_and!; [lia|lia|done..]. }
  intros [[id status] created] n2 db2 Hn2 (k & am & Hk & -> & -> & -> & Ha & ->).
  apply (tx_ends_bind _ _ _ _ _ (fun _ n' db3 => exists row,
    entry_row "withdrawal" u c a bal "pending" (Some (uuid_at k)) (Some None) w n n' db row /\
    db3 = wd_set_requests (wd_requests db ++
      [mkRequestRow (uuid_at k) u (wallet_ID w) (tr_Amount row) c dest chain "pending" None None now])
      (book w row now db))).
  { apply tx_ok_wrapped, tx_ok_stmt. intros o db3 H.
    apply insert_txn_row in H as (row & _ & Hid & _ & -> & Hrow). exists row.
    assert (entry_row "withdrawal" u c a bal "pending" (Some (uuid_at k)) (Some None) w n2 (S n2) db row) as Her.
    { eapply entry_row_mono; [apply (Hrow w n2 (S n2)); [done|done|lia]|lia|lia|done]. }
    split; [eapply entry_row_mono; [exact Her|lia|lia|done]|].
    pose proof (er_amount Her) as Ha'. rewrite Ha in Ha'. injection Ha' as ->.
    pose proof (er_after Her) as Hb'. rewrite Hbt in Hb'.
    injection Hb' as ->. reflexivity. }
  intros _ n3 db3 Hn3 (row & Her & ->). apply tx_ends_commit.
  exists w, bal, row, k, now. split_and!; try done; try lia.
  eapply entry_row_mono; [exact Her|lia|lia|done].
Qed.

(** The review of a pending request: its row gets the new status. *)
Definition reviewed id status txHash by' (db : wallet_db) (q : WithdrawalRequest)
    (db1 : wallet_db) : Prop :=
  exists cid r, uuid_in id = Some cid /\ r ∈ wd_requests db /\ rr_ID r = cid /\
    rr_Status r = "pending" /\ q = scan_request (review_row status txHash by' r) /\
    db1 = wd_set_requests
      ((fun r => if is_pending_request cid r then review_row status txHash by' r else r)
         <$> wd_requests db) db.

Lemma review_ok what status txHash by' id n db now :
  tx_ok (pg_review what status txHash by' id) n db now
    (fun q _ db1 => reviewed id status txHash by' db q db1).
Proof.
  unfold pg_review. apply tx_ok_query.
  - intros q db1 H. apply tx_ok_ret. unfold review_request in H.
    destruct (uuid_in id) as [cid|] eqn:Hid; [|done]. cbn [read_in mbind answer_bind] in H.
    destruct (first_row _ _) as [r|] eqn:Hr; [|done]. injection H as <- <-.
    apply first_row_Some in Hr as [Hin Hp]. unfold is_pending_request in Hp.
    apply andb_true_iff in Hp as [H1%bool_decide_eq_true H2%bool_decide_eq_true].
    by exists cid, r.
  - intros db1 _. rewrite decide_True by done. apply tx_ok_throw.
  - intros e He _. rewrite decide_False by done. auto with sql.
Qed.

Definition set_status_of (ref status : string) (db : wallet_db) : wallet_db :=
  wd_set_transactions
    ((fun r => if has_ref ref r then tr_set_status status r else r) <$> wd_transactions db) db.

(** What ApproveWithdrawal commits. *)
Definition approved id txHash by' (db : wallet_db) (q : WithdrawalRequest) (db' : wallet_db) : Prop :=
  exists db1, reviewed id "approved" (Some txHash) by' db q db1 /\
    db' = set_status_of id "completed" db1.

Lemma approve_ends id txHash by' n db now :
  tx_ends (pg_approve_body id txHash by') n db now
    (fun q _ db' => approved id txHash by' db q db').
Proof.
  unfold pg_approve_body. eapply tx_ends_bind; [apply review_ok|]. intros q n1 db1 Hn1 Hq.
  apply (tx_ends_bind _ _ _ _ _ (fun _ _ db' => db' = set_status_of id "completed" db1)).
  { apply tx_ok_wrapped, tx_ok_stmt. by intros o db' [= _ <-]. }
  intros _ n2 db2 Hn2 ->. apply tx_ends_commit. by exists db1.
Qed.

(** What RejectWithdrawal commits: the review, the refund and its entry. *)
Definition rejected id by' (n n' : nat) (db : wallet_db) (q : WithdrawalRequest)
    (db' : wallet_db) : Prop :=
  exists db1 w bal row now, reviewed id "rejected" None by' db q db1 /\
    w ∈ wd_wallets db /\ uuid_in (wr_WalletID q) = Some (wallet_ID w) /\
    addDecimal (wallet_Balance w) (wr_Amount q) = Ok bal /\
    entry_row "adjustment" (wr_UserID q) (wr_Currency q) (wr_Amount q) bal "completed"
      (Some (id +:+ "-reversal")) (Some None) w n n' (set_status_of id "reversed" db1) row /\
    db' = book w row now (set_status_of id "reversed" db1).

Lemma reject_ends id by' n db now :
  tx_ends (pg_reject_body id by') n db now (fun q n' db' => rejected id by' n n' db q db').
Proof.
  unfold pg_reject_body. eapply tx_ends_bind; [apply review_ok|]. intros q n1 db1 Hn1 Hq.
  assert (wd_wallets db1 = wd_wallets db) as Hwdb by (by destruct Hq as (?&?&?&?&?&?&?&->)).
  apply (tx_ends_bind _ _ _ _ _ (fun w _ db' => w ∈ wd_wallets db /\
    uuid_in (wr_WalletID q) = Some (wallet_ID w) /\ db' = db1)).
  { apply tx_ok_wrapped, tx_ok_scan, tx_ok_stmt. intros o db' H. unfold select_wallet_by_id in H.
    destruct (uuid_in (wr_WalletID q)) as [wid|] eqn:Hw; [|done].
    cbn [read_in mbind answer_bind] in H. injection H as <- <-.
    destruct (first_row _ _) as [w|] eqn:Hf; [|done].
    apply first_row_Some in Hf as [Hin <-%bool_decide_eq_true]. by rewrite <- Hwdb. }
  intros w n2 db2 Hn2 (Hw & Hwid & ->).
  apply (tx_ends_bind _ _ _ _ _ (fun bal _ db' => addDecimal (wallet_Balance w) (wr_Amount q) = Ok bal /\
    db' = db1)).
  { apply of_wrapped_ok; [apply addDecimal_no_panic|done]. }
  intros bal n3 db3 Hn3 [Hbal ->].
  eapply tx_ends_bind; [apply write_balance_ok|]. intros [] n4 db4 Hn4 (bt & Hbt & ->).
  set (db2 := wd_set_wallets _ db1).
  apply (tx_ends_bind _ _ _ _ _ (fun _ _ db' => db' = set_status_of id "reversed" db2)).
  { apply tx_ok_wrapped, tx_ok_stmt. by intros o db' [= _ <-]. }
  intros [] n5 db5 Hn5 ->.
  apply (tx_ends_bind _ _ _ _ _ (fun _ n' db' => exists row,
    entry_row "adjustment" (wr_UserID q) (wr_Currency q) (wr_Amount q) bal "completed"
      (Some (id +:+ "-reversal")) (Some None) w n n' (set_status_of id "reversed" db1) row /\
    db' = book w row now (set_status_of id "reversed" db1))).
  { apply tx_ok_wrapped, tx_ok_stmt. intros o db' H.
    apply insert_txn_row in H as (row & _ & _ & _ & -> & Hrow). exists row.
    pose proof (Hrow w n5 (S n5) eq_refl eq_refl ltac:(lia)) as Her.
    split; [eapply entry_row_mono; [exact Her|lia|lia|done]|].
    pose proof (er_after Her) as Hb'. rewrite Hbt in Hb'. injection Hb' as ->. reflexivity. }
  intros _ n6 db6 Hn6 (row & Her & ->). apply tx_ends_commit.
  exists db1, w, bal, row, now. split_and!; try done.
  eapply entry_row_mono; [exact Her|lia|lia|done].
Qed.
End PgOps.
