(* ===== verification/WalletPgProps.v ===== *)
(** * WalletPgProps: what the Postgres wallet store guarantees

    Whatever statements the connection loses and whatever confirmations of commits get
    lost: the ledger invariant, the safety of retries, and that the store's balances and
    references are those of the in-memory store after the calls that committed. *)

From Stdlib Require Import Qround Qabs.
From S2P Require Import Prelude GoStd GoJson Decimal WalletModels WalletStore WalletLedger.
From S2P Require Import WalletProps Sql WalletPg WalletPgLedger WalletPgOps Demo.

Section Props.
Context `{E : GoEnv, L : DecimalLaws, P : PgTypes, PL : !PgLaws P, EL : !GoEnvLaws E, SL : Slack,
  F : SqlFaults}.

(** ** Every operation keeps the invariant *)

Definition signed (typ : string) (q : Q) : Q := if decide (typ = "withdrawal") then (- q)%Q else q.

#[export] Instance signed_proper typ : Proper (Qeq ==> Qeq) (signed typ).
Proof. intros p q H. unfold signed. case_decide; by rewrite H. Qed.

(** The Go function that computes the new balance for an entry of type [typ]. *)
Definition computes (typ : string) (op : string -> string -> res string) : Prop :=
  forall x a c, op x a = Ok c ->
    exists p q, is_amount x p /\ is_amount a q /\ is_amount c (p + signed typ q).

Lemma add_computes typ : typ <> "withdrawal" -> computes typ addDecimal.
Proof.
  intros Ht x a c (p & q & Hp & Hq & Hc)%addDecimal_inv. exists p, q. unfold signed.
  by rewrite decide_False.
Qed.
Lemma sub_computes : computes "withdrawal" subDecimal.
Proof. intros x a c (p & q & Hp & Hq & Hc)%subDecimal_inv. by exists p, q. Qed.

(** An amount whose rounding the slack covers. *)
Definition fits_text (a : string) : Prop := forall q, is_amount a q -> fits q.
Lemma eight_fits a : eight a -> fits_text a.
Proof. intros H q Hq. left. by apply H. Qed.

Lemma entry_inv_new typ op u c a bal st ref md w n m db row now :
  computes typ op -> fits_text a -> pg_inv m db -> (tr_ID row ∉ tr_ID <$> wd_transactions db) ->
  w ∈ wd_wallets db -> op (wallet_Balance w) a = Ok bal ->
  entry_row typ u c a bal st ref md w n m db row ->
  pg_inv m (book w row now db).
Proof.
  intros Hop H8 Hi Hnew Hw Hbal Her. destruct (Hop _ _ _ Hbal) as (p & q & Hp & Hq & Hc).
  eapply book_inv; try done; [by apply H8|]. intros b Hb.
  by rewrite (is_amount_fun _ _ _ Hb Hp).
Qed.
Lemma entry_inv typ op u c a bal st ref md w n m db row now :
  computes typ op -> fits_text a -> pg_inv m db -> Forall (txn_row_ok n) (wd_transactions db) ->
  w ∈ wd_wallets db -> op (wallet_Balance w) a = Ok bal ->
  entry_row typ u c a bal st ref md w n m db row ->
  pg_inv m (book w row now db).
Proof. intros Hop H8 Hi Hold Hw Hbal Her. eapply entry_inv_new; try done. by eapply entry_row_new. Qed.

Lemma credited_inv u c a ref md n n' db t db' : fits_text a -> pg_inv n db -> (n <= n')%nat ->
  credited u c a ref md n n' db t db' -> pg_inv n' db'.
Proof.
  intros H8 Hi Hle [[_ ->]|(_ & w & db1 & Ho & bal & row & now & Hbal & Her & _ & ->)];
    [by eapply pg_inv_mono|].
  destruct (opened_inv u c n n' db w db1 Hi Hle Ho) as (Hi1 & Hw & _ & Ht).
  eapply entry_inv; try done; [by apply add_computes|]. rewrite Ht. apply Hi.
Qed.

Lemma debited_inv u c a ref md n n' db t db' : fits_text a -> pg_inv n db -> (n <= n')%nat ->
  debited u c a ref md n n' db t db' -> pg_inv n' db'.
Proof.
  intros H8 Hi Hle [[_ ->]|(_ & w & (Hw & _) & bal & row & now & Hbal & Her & _ & ->)];
    [by eapply pg_inv_mono|].
  eapply entry_inv; try done; [apply sub_computes|by eapply pg_inv_mono|apply Hi].
Qed.

(** The wallet and the entry of a booking, in the tables after it. *)
Lemma book_wallet w row now db : w ∈ wd_wallets db ->
  exists w', w' ∈ wd_wallets (book w row now db) /\ wallet_ID w' = wallet_ID w.
Proof.
  intros Hw. exists (write_balance (tr_BalanceAfter row) now w). split; [|done].
  cbn. apply list_elem_of_fmap. exists w. split; [|done]. unfold row_hit. by rewrite !bool_decide_eq_true_2.
Qed.

(** The request whose entry was just booked. *)
Lemma request_booked_inv u c a dest chain n n' w bal row k now db :
  pg_inv n' (book w row now db) -> can_draw u c a w db -> (k < n')%nat ->
  (uuid_at k ∉ rr_ID <$> wd_requests db) ->
  entry_row "withdrawal" u c a bal "pending" (Some (uuid_at k)) (Some None) w n n' db row ->
  pg_inv n' (wd_set_requests (wd_requests db ++
    [mkRequestRow (uuid_at k) u (wallet_ID w) (tr_Amount row) c dest chain "pending" None None now])
    (book w row now db)).
Proof.
  intros Hi (Hw & _ & b & qa & _ & Ha & _) Hk Hnew Her.
  change (wd_requests db) with (wd_requests (book w row now db)).
  apply inv_request_added; [done| |done].
  split; [exists k; split; [lia|done]|]. split; [by apply book_wallet|]. split.
  - exists (round8 qa). split; [|apply round8_Eight]. cbn. eapply numeric_round; [done|].
    apply (er_amount Her).
  - exists row. destruct Her. cbn. split_and!; try done. apply elem_of_app. right.
    by apply list_elem_of_singleton.
Qed.

Lemma requested_inv u c a dest chain n n' db q db' : fits_text a -> pg_inv n db -> (n <= n')%nat ->
  requested u c a dest chain n n' db q db' -> pg_inv n' db'.
Proof.
  intros H8 Hi Hle (w & bal & row & k & now & Hw & Hbal & Hk & Her & _ & ->).
  eapply request_booked_inv; try done; [|lia|eapply fresh_request; [exact Hi|lia]].
  eapply entry_inv; try done; [apply sub_computes|by eapply pg_inv_mono|apply Hi|apply Hw].
Qed.

Lemma reviewed_inv n id st th by' db q db1 : pg_inv n db ->
  reviewed id st th by' db q db1 -> pg_inv n db1.
Proof. intros Hi (cid & r & _ & _ & _ & _ & _ & ->). by apply inv_reviewed. Qed.

Lemma reviewed_eight n id st th by' db q db1 : pg_inv n db ->
  reviewed id st th by' db q db1 -> eight (wr_Amount q).
Proof.
  intros Hi (cid & r & _ & Hr & _ & _ & -> & _) x Hx. cbn in Hx.
  pose proof (pi_requests _ _ Hi) as Hq. rewrite list.Forall_forall in Hq.
  destruct (Hq r Hr) as (_ & _ & (y & Hy & H8) & _).
  eapply Eight_proper; [|exact H8]. by eapply is_amount_fun.
Qed.

Lemma approved_inv n id th by' db q db' : pg_inv n db -> approved id th by' db q db' -> pg_inv n db'.
Proof. intros Hi (db1 & Hr & ->). apply inv_status. by eapply reviewed_inv. Qed.

Lemma rejected_inv id by' n n' db q db' : pg_inv n db -> (n <= n')%nat ->
  rejected id by' n n' db q db' -> pg_inv n' db'.
Proof.
  intros Hi Hle (db1 & w & bal & row & now & Hr & Hw & _ & Hbal & Her & ->).
  pose proof (eight_fits _ (reviewed_eight _ _ _ _ _ _ _ _ Hi Hr)) as H8.
  assert (pg_inv n (set_status_of id "reversed" db1)) as Hi1
    by (apply inv_status; by eapply reviewed_inv).
  eapply entry_inv; try done; [by apply add_computes|by eapply pg_inv_mono|apply Hi1|].
  destruct Hr as (cid & r & _ & _ & _ & _ & _ & ->). done.
Qed.

(** ** Executions *)

Definition pg_run_op (op : wallet_op) : M wallet_db unit :=
  match op with
  | OpCreateWallet u c => ignore (PGStore_CreateWallet u c)
  | OpCredit u c a r md => ignore (PGStore_CreditWallet u c a r md)
  | OpDebit u c a r md => ignore (PGStore_DebitWallet u c a r md)
  | OpCreateDepositAddress a => ignore (PGStore_CreateDepositAddress a)
  | OpRequestWithdrawal u c a d ch => ignore (PGStore_RequestWithdrawal u c a d ch)
  | OpApprove i t b => ignore (PGStore_ApproveWithdrawal i t b)
  | OpReject i b => ignore (PGStore_RejectWithdrawal i b)
  end.
Inductive pg_reachable (allowed : wallet_op -> Prop) : World wallet_db -> Prop :=
| pg_init n : pg_reachable allowed (mkWorld n empty_wallet_db)
| pg_step w op : pg_reachable allowed w -> allowed op -> pg_reachable allowed (pg_run_op op w).2
| pg_wait n m db : (n <= m)%nat -> pg_reachable allowed (mkWorld n db) ->
    pg_reachable allowed (mkWorld m db).

(** A statement of its own leaves the tables or writes what it says. *)
Lemma db_stmt_writes {A} (f : statement wallet_db A) (w : World wallet_db) r w' :
  db_stmt f w = (r, w') -> w_tick w' = S (w_tick w) /\
  (w_st w' = w_st w \/
   exists a now, f now (uuid_at (w_tick w)) (w_st w) = Done (a, w_st w')).
Proof.
  unfold db_stmt. destruct (stmt_fault _); [intros [= <- <-]; auto|].
  destruct (f _ _ _) as [[a db]|code] eqn:Hf; [|intros [= <- <-]; auto].
  destruct (commit_fault _); intros [= <- <-]; (split; [done|]); [right|by left|right];
    exists a, (time_at (w_tick w)); exact Hf.
Qed.

Lemma upsert_inv u c now n db a db' : pg_inv n db ->
  upsert_wallet u c now (uuid_at n) db = Done (a, db') -> pg_inv (S n) db'.
Proof.
  intros Hi. unfold upsert_wallet, insert_wallet.
  destruct (first_row _ _) as [w|] eqn:Hw.
  - intros [= _ <-]. eapply pg_inv_mono; [|apply inv_wallets_map; [done|]]; [lia|].
    intros x. by destruct (same_wallet u c x).
  - destruct (numeric_in "0") as [b|] eqn:Hb; [|done]. cbn [read_in mbind answer_bind].
    destruct (existsb _ _); [done|]. intros [= _ <-].
    apply (inv_wallet_added n db u c n b now Hi); [lia|by apply first_row_None|].
    eapply numeric_amount; [apply is_amount_0|apply Eight_0|done].
Qed.

Lemma insert_address_inv u c ch ad x now fresh n db a db' : pg_inv n db ->
  insert_address u c ch ad x now fresh db = Done (a, db') -> pg_inv n db'.
Proof.
  intros Hi. unfold insert_address. destruct (existsb _ _); [done|]. intros [= _ <-].
  by apply inv_addresses.
Qed.

Lemma db_stmt_inv {A} (f : statement wallet_db A) (w : World wallet_db) :
  (forall now a db', f now (uuid_at (w_tick w)) (w_st w) = Done (a, db') ->
     pg_inv (S (w_tick w)) db') -> pg_inv (w_tick w) (w_st w) ->
  (w_tick w <= w_tick (db_stmt f w).2)%nat /\
  pg_inv (w_tick (db_stmt f w).2) (w_st (db_stmt f w).2).
Proof.
  intros H Hi. destruct (db_stmt f w) as [r w'] eqn:Hs. apply db_stmt_writes in Hs as [Ht Hs].
  cbn. split; [lia|]. rewrite Ht. destruct Hs as [->|(a & now & Hf)]; [|by eapply H].
  eapply pg_inv_mono; [|done]. lia.
Qed.

Lemma in_tx_inv {A} (body : M (Tx wallet_db) A) (w : World wallet_db) R :
  tx_ends body (S (w_tick w)) (w_st w) (time_at (w_tick w)) R ->
  (forall a n' db', (S (w_tick w) <= n')%nat -> R a n' db' -> pg_inv n' db') ->
  pg_inv (w_tick w) (w_st w) ->
  (w_tick w <= w_tick (in_tx body w).2)%nat /\
  pg_inv (w_tick (in_tx body w).2) (w_st (in_tx body w).2).
Proof.
  intros Hb HR Hi. destruct (in_tx body w) as [r w'] eqn:Htx.
  apply (in_tx_ends body w R) in Htx as [Ht Htx]; [|done]. cbn. split; [lia|].
  destruct Htx as [[_ ->]|(a & Ha & _)]; [eapply pg_inv_mono; [|done]; lia|].
  eapply HR; [lia|done].
Qed.

Lemma covers_fits op : covers op -> match op with
  | OpCredit _ _ a _ _ | OpDebit _ _ a _ _ | OpRequestWithdrawal _ _ a _ _ => fits_text a
  | _ => True
  end.
Proof. intros [H|H]; destruct op; try done; first [by apply eight_fits|by intros q _; right]. Qed.

Lemma pg_run_inv op w : covers op -> pg_inv (w_tick w) (w_st w) ->
  (w_tick w <= w_tick (pg_run_op op w).2)%nat /\
  pg_inv (w_tick (pg_run_op op w).2) (w_st (pg_run_op op w).2).
Proof.
  intros H8%covers_fits Hi. pose proof (pg_inv_mono (w_tick w) (S (w_tick w)) (w_st w) ltac:(lia) Hi) as HiS.
  destruct op; cbn [pg_run_op] in *; rewrite ignore_snd.
  - unfold PGStore_CreateWallet. rewrite wrapped_snd, scan_snd. apply db_stmt_inv; [|done].
    intros now a db'. by apply upsert_inv.
  - eapply in_tx_inv; [by apply credit_ends| |done]. intros t n' db'. by apply credited_inv.
  - eapply in_tx_inv; [by apply debit_ends| |done]. intros t n' db'. by apply debited_inv.
  - unfold PGStore_CreateDepositAddress. rewrite then_snd, wrapped_snd, scan_snd by (by intros []). apply db_stmt_inv; [|done].
    intros now a db' H. by eapply insert_address_inv.
  - eapply in_tx_inv; [by apply request_ends| |done]. intros t n' db'. by apply requested_inv.
  - eapply in_tx_inv; [by apply approve_ends| |done]. intros t n' db' Hle H.
    eapply pg_inv_mono; [exact Hle|]. exact (approved_inv _ _ _ _ _ _ _ HiS H).
  - eapply in_tx_inv; [by apply reject_ends| |done]. intros t n' db'. by apply rejected_inv.
Qed.

Lemma pg_reachable_inv allowed w : (forall op, allowed op -> covers op) ->
  pg_reachable allowed w -> pg_inv (w_tick w) (w_st w).
Proof.
  intros Hall. induction 1 as [n|w op _ IH H8|n m db Hle _ IH];
    [apply pg_inv_empty|by apply pg_run_inv; [apply Hall|]|].
  by eapply pg_inv_mono.
Qed.

(** ** Retries *)

Definition pg_run (ops : list wallet_op) (w : World wallet_db) : World wallet_db :=
  foldl (fun w op => (pg_run_op op w).2) w ops.

Lemma pg_run_reachable allowed ops w : Forall allowed ops -> pg_reachable allowed w ->
  pg_reachable allowed (pg_run ops w).
Proof.
  intros H. revert w. induction H as [|op ops H8 _ IH]; intros w Hw; [done|].
  by apply IH, pg_step.
Qed.
Definition any_op (op : wallet_op) : Prop := True.
Lemma any_ops ops : Forall any_op ops.
Proof. by apply list.Forall_forall. Qed.

(** Entries stay, with everything but their status. *)
Definition kept (db db' : wallet_db) : Prop :=
  forall row, row ∈ wd_transactions db -> exists status,
    tr_set_status status row ∈ wd_transactions db'.

Lemma same_status row : tr_set_status (tr_Status row) row = row.
Proof. by destruct row. Qed.
Lemma pg_kept_refl db : kept db db.
Proof. intros row Hr. exists (tr_Status row). by rewrite same_status. Qed.
Lemma kept_same db db' : wd_transactions db' = wd_transactions db -> kept db db'.
Proof. intros H row Hr. exists (tr_Status row). by rewrite same_status, H. Qed.
Lemma kept_trans db1 db2 db3 : kept db1 db2 -> kept db2 db3 -> kept db1 db3.
Proof.
  intros H1 H2 row Hr. destruct (H1 row Hr) as (st1 & Hr1). destruct (H2 _ Hr1) as (st2 & Hr2).
  by exists st2.
Qed.
Lemma kept_app db db' row : wd_transactions db' = wd_transactions db ++ [row] -> kept db db'.
Proof.
  intros H r Hr. exists (tr_Status r). rewrite H, same_status. apply elem_of_app. by left.
Qed.
Lemma kept_status ref st db : kept db (set_status_of ref st db).
Proof.
  intros row Hr. exists (if has_ref ref row then st else tr_Status row). cbn.
  apply list_elem_of_fmap. exists row. split; [|done].
  destruct (has_ref ref row); [done|by rewrite same_status].
Qed.

Lemma reviewed_txns id st th by' db q db1 : reviewed id st th by' db q db1 ->
  wd_transactions db1 = wd_transactions db.
Proof. by intros (cid & r & _ & _ & _ & _ & _ & ->). Qed.

Lemma in_tx_kept {A} (body : M (Tx wallet_db) A) (w : World wallet_db) R :
  tx_ends body (S (w_tick w)) (w_st w) (time_at (w_tick w)) R ->
  (forall a n' db', R a n' db' -> kept (w_st w) db') -> kept (w_st w) (w_st (in_tx body w).2).
Proof.
  intros Hb HR. destruct (in_tx body w) as [r w'] eqn:Htx. cbn.
  apply (in_tx_ends body w R) in Htx as [_ [[_ ->]|(a & Ha & _)]]; [apply pg_kept_refl|eauto|done].
Qed.

Lemma db_stmt_kept {A} (f : statement wallet_db A) (w : World wallet_db) :
  (forall now a db', f now (uuid_at (w_tick w)) (w_st w) = Done (a, db') ->
     wd_transactions db' = wd_transactions (w_st w)) -> kept (w_st w) (w_st (db_stmt f w).2).
Proof.
  intros H. destruct (db_stmt f w) as [r w'] eqn:Hs.
  apply db_stmt_writes in Hs as [_ [Hs|(a & now & Hf)]]; apply kept_same; cbn; [by rewrite Hs|eauto].
Qed.

(** What a credit or a debit commits, as far as its reference is concerned. *)
Definition posted ref db (t : Transaction) db' : Prop :=
  found ref db t /\ db' = db \/
  ref_free ref db /\ exists row, wd_transactions db' = wd_transactions db ++ [row] /\
    tr_ReferenceID row = ref_opt ref /\ names_entry t row.

Lemma posted_booked op typ u c a ref md n n' w db db1 t db' : ref_free ref db ->
  wd_transactions db1 = wd_transactions db ->
  booked op typ u c a ref md n n' w db1 t db' -> posted ref db t db'.
Proof.
  intros Hf Ht (bal & row & now & _ & Her & Hse & ->). right. split; [done|]. exists row.
  cbn. rewrite Ht. split; [done|]. split; [apply (er_ref Her)|].
  eapply new_names; [apply (er_ref Her)|exact Hse].
Qed.
Lemma credited_posted u c a ref md n n' db t db' : credited u c a ref md n n' db t db' -> posted ref db t db'.
Proof.
  intros [?|(Hf & w & db1 & Ho & Hb)]; [by left|]. eapply posted_booked; [done| |exact Hb].
  by destruct Ho.
Qed.
Lemma debited_posted u c a ref md n n' db t db' : debited u c a ref md n n' db t db' -> posted ref db t db'.
Proof. intros [?|(Hf & w & _ & Hb)]; [by left|]. by eapply posted_booked. Qed.
Lemma posted_kept ref db t db' : posted ref db t db' -> kept db db'.
Proof. intros [[_ ->]|(_ & row & H & _)]; [apply pg_kept_refl|by eapply kept_app]. Qed.

Lemma pg_run_op_kept op w : pg_inv (w_tick w) (w_st w) -> kept (w_st w) (w_st (pg_run_op op w).2).
Proof.
  intros Hi. pose proof (pg_inv_mono (w_tick w) (S (w_tick w)) (w_st w) ltac:(lia) Hi) as HiS.
  destruct op; cbn [pg_run_op]; rewrite ignore_snd.
  - unfold PGStore_CreateWallet. rewrite wrapped_snd, scan_snd. apply db_stmt_kept.
    intros now a db'. unfold upsert_wallet, insert_wallet. destruct (first_row _ _); [by intros [= _ <-]|].
    destruct (numeric_in "0"); [|done]. cbn [read_in mbind answer_bind].
    destruct (existsb _ _); [done|by intros [= _ <-]].
  - eapply in_tx_kept; [by apply credit_ends|]. intros t n' db' H. eapply posted_kept, credited_posted, H.
  - eapply in_tx_kept; [by apply debit_ends|]. intros t n' db' H. eapply posted_kept, debited_posted, H.
  - unfold PGStore_CreateDepositAddress. rewrite then_snd, wrapped_snd, scan_snd by (by intros []).
    apply db_stmt_kept. intros now a db'. unfold insert_address. by destruct (existsb _ _); [|intros [= _ <-]].
  - eapply in_tx_kept; [by apply request_ends|].
    intros t n' db' (w0 & bal & row & k & now & _ & _ & _ & _ & _ & ->). by eapply kept_app.
  - eapply in_tx_kept; [by apply approve_ends|]. intros t n' db' (db1 & Hr & ->).
    eapply kept_trans; [by eapply kept_same, reviewed_txns|apply kept_status].
  - eapply in_tx_kept; [by apply reject_ends|].
    intros t n' db' (db1 & w0 & bal & row & now & Hr & _ & _ & _ & _ & ->).
    eapply kept_trans; [by eapply kept_same, reviewed_txns|].
    eapply kept_trans; [apply (kept_status id "reversed")|by eapply kept_app].
Qed.

Lemma pg_run_kept ops w : Forall covers ops -> pg_inv (w_tick w) (w_st w) ->
  kept (w_st w) (w_st (pg_run ops w)).
Proof.
  intros H. revert w. induction H as [|op ops H8 _ IH]; intros w Hi; [apply pg_kept_refl|].
  eapply kept_trans; [by apply (pg_run_op_kept op)|]. apply IH. by apply pg_run_inv.
Qed.

(** A credit or a debit. *)
Definition pg_post (deposit : bool) :=
  if deposit then PGStore_CreditWallet else PGStore_DebitWallet.

Lemma pg_post_cases deposit u c a ref md w r w' : pg_inv (w_tick w) (w_st w) ->
  pg_post deposit u c a ref md w = (r, w') ->
  (exists e, r = Err e) /\ w_st w' = w_st w \/
  exists t, posted ref (w_st w) t (w_st w') /\ (r = Ok t \/ exists e, r = Err e).
Proof.
  intros Hi. pose proof (pg_inv_mono (w_tick w) (S (w_tick w)) (w_st w) ltac:(lia) Hi) as HiS.
  destruct deposit; cbn [pg_post]; intros H.
  - apply (in_tx_ends _ w _ _ _ (credit_ends _ _ _ _ _ _ _ _ HiS)) in H as [_ [?|(t & Ht & Hr)]];
      [by left|right]. exists t. split; [eapply credited_posted, Ht|done].
  - apply (in_tx_ends _ w _ _ _ (debit_ends _ _ _ _ _ _ _ _ HiS)) in H as [_ [?|(t & Ht & Hr)]];
      [by left|right]. exists t. split; [eapply debited_posted, Ht|done].
Qed.

Lemma pg_post_op deposit u c a ref md w : exists op,
  (pg_run_op op w).2 = (pg_post deposit u c a ref md w).2.
Proof.
  destruct deposit; [exists (OpCredit u c a ref md)|exists (OpDebit u c a ref md)]; apply ignore_snd.
Qed.

Lemma omap_inj {A B} (f : A -> option B) l x y b : NoDup (omap f l) ->
  x ∈ l -> y ∈ l -> f x = Some b -> f y = Some b -> x = y.
Proof.
  induction l as [|z l IH]; cbn; [by intros _ ?%elem_of_nil|]. intros Hnd Hx Hy Hfx Hfy.
  assert (forall v, v ∈ l -> f v = Some b -> f z = Some b -> False) as Hno.
  { intros v Hv Hfv Hfz. rewrite Hfz in Hnd. apply list.NoDup_cons in Hnd as [Hn _].
    apply Hn, list_elem_of_omap. by exists v. }
  apply elem_of_cons in Hx as [->|Hx]; apply elem_of_cons in Hy as [->|Hy]; try done.
  - by destruct (Hno y Hy).
  - by destruct (Hno x Hx).
  - apply IH; try done. destruct (f z); [by apply list.NoDup_cons in Hnd as [_ ?]|done].
Qed.

(** The entry of a booked reference is found again. *)
Lemma post_booked_online deposit u c a ref md n db row : pg_inv n db -> online n -> ref <> "" ->
  row ∈ wd_transactions db -> tr_ReferenceID row = Some ref ->
  exists w', pg_post deposit u c a ref md (mkWorld n db) = (Ok (scan_txn row), w').
Proof.
  intros Hi Hon Href Hin Hr.
  assert (first_row (has_ref ref) (wd_transactions db) = Some row) as Hf.
  { destruct (first_row _ _) as [r|] eqn:Hf.
    - apply first_row_Some in Hf as [Hr' Href'%bool_decide_eq_true]. f_equal.
      by apply (omap_inj tr_ReferenceID (wd_transactions db) r row ref); [apply Hi|..].
    - rewrite first_row_None in Hf. specialize (Hf row Hin). unfold has_ref in Hf.
      by rewrite bool_decide_eq_true_2 in Hf. }
  assert (uuid_in (tr_ID row) = Some (tr_ID row)) as Hu.
  { pose proof (pi_txns _ _ Hi) as H. rewrite list.Forall_forall in H.
    destruct (H row Hin) as [(k & _ & ->) _]. apply uuid_own. }
  assert (forall rest now, exists x, (existing ← pg_by_ref "check reference id" ref;
    match existing with Some txn => mret txn | None => rest end) (mkWorld (S n) (opened db now)) =
      (Ok (scan_txn row), mkWorld (S (S (S (S n)))) x) /\ tx_done x = Some db) as Hbody.
  { intros rest now. unfold pg_by_ref. rewrite decide_False by done.
    unfold pg_existing, attempt, scan, getTransactionByID, scan, wrapped, mbind, M_bind.
    rewrite (tx_stmt_online _ _ _ _ (Some (tr_ID row)) db); [|by apply Hon; lia|].
    2: { unfold select_txn_by_ref, select. by rewrite Hf. }
    cbn [mret M_ret]. unfold mret, M_ret.
    rewrite (tx_stmt_online _ _ _ _ (Some (scan_txn row)) db); [|by apply Hon; lia|].
    2: { unfold select_txn. rewrite Hu. cbn [read_in mbind answer_bind].
         by rewrite (row_by_id n db row Hi Hin). }
    cbn [wrap_res]. unfold tx_commit. cbn [w_tick w_st opened tx_failed].
    destruct (Hon (S (S (S n))) ltac:(lia)) as [_ ->]. by eexists. }
  assert (forall rest, exists w', in_tx (existing ← pg_by_ref "check reference id" ref;
    match existing with Some txn => mret txn | None => rest end) (mkWorld n db) =
      (Ok (scan_txn row), w')) as Htx.
  { intros rest. unfold in_tx. cbn [w_tick w_st]. destruct (Hon n ltac:(lia)) as [-> _].
    destruct (Hbody rest (time_at n)) as (x & Hb & Hx). unfold opened in Hb. rewrite Hb.
    by eexists. }
  destruct deposit; apply Htx.
Qed.

End Props.

Section Guarantees.
Context `{E : GoEnv, L : DecimalLaws, P : PgTypes, PL : !PgLaws P, EL : !GoEnvLaws E,
  F : SqlFaults}.

(** What the invariant says of a balance: with slack, and without. *)
Definition ledger_drift (x : Wallet) (db : wallet_db) : Q :=
  Qabs (amt (wallet_Balance x) - ledger_sum (wallet_ID x) (entries db)).
Definition drift_bound (x : Wallet) (db : wallet_db) : Q :=
  ((1 # 100000000) * inject_Z (Z.of_nat (entry_count (wallet_ID x) (entries db))))%Q.

Lemma inv_near n db x : pg_inv (SL := unit_slack) n db -> x ∈ wd_wallets db ->
  (ledger_drift x db <= drift_bound x db)%Q.
Proof.
  intros Hi Hx. pose proof (pi_wallets _ _ Hi) as Hw. rewrite list.Forall_forall in Hw.
  destruct (Hw x Hx) as (b & Hb & _ & Hn). unfold ledger_drift. by rewrite (is_amount_amt _ _ Hb).
Qed.
Lemma inv_exact n db x : pg_inv (SL := exact_slack) n db -> x ∈ wd_wallets db ->
  (amt (wallet_Balance x) == ledger_sum (wallet_ID x) (entries db))%Q.
Proof.
  intros Hi Hx. pose proof (pi_wallets _ _ Hi) as Hw. rewrite list.Forall_forall in Hw.
  destruct (Hw x Hx) as (b & Hb & _ & Hn). rewrite (is_amount_amt _ _ Hb).
  unfold near in Hn. cbn [slack exact_slack] in Hn. rewrite Qmult_0_l in Hn.
  apply Qabs_Qle_condition in Hn as [? ?]. lra.
Qed.

Lemma eight_covers allowed : (forall op, allowed op -> op_eight op) ->
  forall op, allowed op -> covers (SL := exact_slack) op.
Proof. intros H op Ha. left. by apply H. Qed.
Lemma unit_covers op : covers (SL := unit_slack) op.
Proof. right. apply Qle_refl. Qed.

(** In every state that the store's calls can bring the tables to, whatever statements
    fail and whatever answers to commits get lost: every balance is the sum of the signed
    amounts of the wallet's entries, exactly when all amounts have at most the eight decimal
    places of the columns, and up to a unit of the last place per entry otherwise; a user
    has one wallet per currency, no reference is booked twice, and every withdrawal request
    has an entry of its amount in the ledger of its wallet. *)
Theorem pg_ledger allowed w :
  pg_reachable allowed w ->
  (forall x, x ∈ wd_wallets (w_st w) -> (ledger_drift x (w_st w) <= drift_bound x (w_st w))%Q /\
     ((forall op, allowed op -> op_eight op) ->
      (amt (wallet_Balance x) == ledger_sum (wallet_ID x) (entries (w_st w)))%Q)) /\
  (forall x y, x ∈ wd_wallets (w_st w) -> y ∈ wd_wallets (w_st w) ->
     wallet_UserID x = wallet_UserID y -> wallet_Currency x = wallet_Currency y -> x = y) /\
  NoDup (refs (w_st w)) /\
  (forall q, q ∈ wd_requests (w_st w) -> exists t, t ∈ wd_transactions (w_st w) /\
     tr_ReferenceID t = Some (rr_ID q) /\ tr_Type t = "withdrawal" /\
     tr_WalletID t = rr_WalletID q /\ tr_Amount t = rr_Amount q).
Proof.
  intros Hr. pose proof (pg_reachable_inv (SL := unit_slack) _ _ (fun op _ => unit_covers op) Hr) as Hi.
  split_and!.
  - intros x Hx. split; [by eapply inv_near|]. intros H8.
    eapply inv_exact; [|done]. eapply pg_reachable_inv; [|exact Hr]. by apply eight_covers.
  - intros x y Hx Hy Hu Hc. apply (NoDup_fmap_eq row_key (wd_wallets (w_st w))); [apply Hi|done..|].
    unfold row_key. congruence.
  - apply Hi.
  - intros q Hq. pose proof (pi_requests _ _ Hi) as H. rewrite list.Forall_forall in H.
    by apply H.
Qed.

#[local] Existing Instance unit_slack.

(** C33.  Retries are safe.  A credit or debit under a reference either answers the entry
    it is booked as, or an error after which the tables are as before or the reference is
    booked.  Once it is booked, whatever else happens in between, every later credit or
    debit under it leaves the tables as they are, and answers the one entry when the
    database is reached. *)
Theorem pg_retry deposit u c a ref md w r w1 ops :
  pg_reachable any_op w -> ref <> "" ->
  pg_post deposit u c a ref md w = (r, w1) ->
  match r with
  | Ok t => exists row, row ∈ wd_transactions (w_st w1) /\
      tr_ReferenceID row = Some ref /\ tr_ID row = tx_ID t
  | Err _ => w_st w1 = w_st w \/ ref ∈ refs (w_st w1)
  | Panic _ => False
  end /\
  forall row, row ∈ wd_transactions (w_st w1) -> tr_ReferenceID row = Some ref ->
  forall deposit' u' c' a' md' r' w3,
    pg_post deposit' u' c' a' ref md' (pg_run ops w1) = (r', w3) ->
    w_st w3 = w_st (pg_run ops w1) /\
    (online (w_tick (pg_run ops w1)) -> exists t, r' = Ok t /\ same_entry t row).
Proof.
  intros Hreach Href Hpost.
  assert (forall w, pg_reachable any_op w -> pg_inv (SL := unit_slack) (w_tick w) (w_st w)) as Hinv.
  { intros w0. apply pg_reachable_inv. intros op _. apply unit_covers. }
  pose proof (Hinv w Hreach) as Hi.
  assert (pg_reachable any_op w1) as Hr1.
  { destruct (pg_post_op deposit u c a ref md w) as (op & Hop). rewrite Hpost in Hop.
    change w1 with (r, w1).2. rewrite <- Hop. by apply pg_step. }
  assert (forall t db', posted ref (w_st w) t db' -> exists row, row ∈ wd_transactions db' /\
    tr_ReferenceID row = Some ref /\ tr_ID row = tx_ID t) as Hbooked.
  { intros t db' [[(_ & row & Hin & Hrow & ->) ->]|(_ & row & -> & Hrow & Hid & _)];
      exists row; [done|]. split; [apply elem_of_app; right; by apply list_elem_of_singleton|].
    split; [|done]. rewrite Hrow. unfold ref_opt. by rewrite decide_False. }
  split.
  { apply pg_post_cases in Hpost as [[[e ->] Hs]|(t & Ht & [->|[e ->]])]; [by left|eauto| |done].
    right. destruct (Hbooked _ _ Ht) as (row & ? & ? & _). apply list_elem_of_omap. by exists row. }
  intros row Hin Hrow d' u' c' a' md' r' w3 Hpost'.
  pose proof (Hinv _ (pg_run_reachable any_op ops w1 (any_ops ops) Hr1)) as Hi2.
  assert (Forall (covers (SL := unit_slack)) ops) as Hops
    by (apply list.Forall_forall; intros op _; apply unit_covers).
  destruct (pg_run_kept ops w1 Hops (Hinv _ Hr1) row Hin) as (st2 & Hin2).
  set (row2 := tr_set_status st2 row) in *.
  assert (tr_ReferenceID row2 = Some ref) as Href2 by done. split.
  - destruct (pg_post_cases _ _ _ _ _ _ _ _ _ Hi2 Hpost') as [[_ ?]|(t & [[_ ?]|(Hf & _)] & _)];
      [done|done|]. unfold ref_free, ref_opt in Hf. rewrite decide_False in Hf by done.
    destruct Hf. apply list_elem_of_omap. by exists row2.
  - intros Hon. destruct (pg_run ops w1) as [n2 db2].
    destruct (post_booked_online d' u' c' a' ref md' n2 db2 row2 Hi2 Hon Href Hin2 Href2) as [w4 H4].
    rewrite H4 in Hpost'. injection Hpost' as <- _. exists (scan_txn row2). split; [done|by exists st2].
Qed.
End Guarantees.

(** ** A concrete database *)
Module PgDemo.
Import Demo.

(** NUMERIC(28,8): rounded to eight places, halves away from zero. *)
Definition round_up (c : Z) (p : nat) : Z :=
  (c * 100000000 * 2 + FixedPoint.scale p) / (FixedPoint.scale p * 2).
Definition to_eight (n : FixedPoint.num) : Z :=
  if decide (0 <= n.1) then round_up n.1 n.2 else - round_up (- n.1) n.2.
#[export] Instance types : PgTypes := {
  numeric_in s :=
    match FixedPoint.parse s with
    | Some n => if decide (Z.abs (to_eight n) < 10 ^ 28)
                then Some (FixedPoint.print (to_eight n, 8%nat)) else None
    | None => None
    end;
  uuid_in s := Some s;
  jsonb_in md := Some (Some (Marshal md));
  timestamptz_in t := Some (t / 1000 * 1000);
}.

Lemma round_up_spec c p : (FixedPoint.fval (round_up c p, 8%nat) == round8_pos (FixedPoint.fval (c, p)))%Q.
Proof.
  unfold round8_pos, FixedPoint.fval, round_up, Qfloor, Qplus, Qmult. cbn [fst snd Qnum Qden].
  change (FixedPoint.scale 8) with 100000000. cbn [Z.to_pos].
  rewrite !Pos2Z.inj_mul, FixedPoint.scale_to_pos.
  replace (c * 100000000 * 2 + 1 * (FixedPoint.scale p * 1))
    with (c * 100000000 * 2 + FixedPoint.scale p) by lia.
  by rewrite Z.mul_1_r.
Qed.

Lemma to_eight_spec n : (FixedPoint.fval (to_eight n, 8%nat) == round8 (FixedPoint.fval n))%Q.
Proof.
  destruct n as [c p]. unfold to_eight, round8. cbn [fst snd].
  assert (Qle_bool 0 (FixedPoint.fval (c, p)) = bool_decide (0 <= c)) as ->.
  { unfold Qle_bool, FixedPoint.fval. cbn [fst snd Qnum Qden]. rewrite Z.mul_1_r.
    case_bool_decide; [by apply Z.leb_le|apply Z.leb_gt; lia]. }
  destruct (decide (0 <= c)) as [H|H].
  - rewrite bool_decide_eq_true_2 by done. apply round_up_spec.
  - rewrite bool_decide_eq_false_2 by done. by rewrite FixedPoint.fval_opp, round_up_spec.
Qed.

#[export] Instance pg_laws : PgLaws types.
Proof.
  constructor; [|done]. intros s d t Hd. cbn in *.
  destruct (FixedPoint.parse s) as [n|]; [|done]. injection Hd as <-.
  case_decide; [|done]. intros [= <-]. exists (to_eight n, 8%nat). split.
  - cbn. by rewrite FixedPoint.parse_print.
  - apply to_eight_spec.
Qed.

(** The confirmation of the commit at tick 6 is lost, and the statement at tick 7. *)
#[export] Instance faults : SqlFaults := {|
  stmt_fault n := if decide (n = 7%nat) then Some "connection refused" else None;
  commit_fault n := if decide (n = 6%nat) then CommitLost "connection reset" else Committed;
|}.

Lemma eight_by s d z : ParseDecimal s = inl d -> (dval d == z # 100000000)%Q -> eight s.
Proof. intros H Hz q (d' & H' & Hq). rewrite H in H'. injection H' as <-. exists z. by rewrite <- Hq. Qed.

Lemma eight_100 : eight "100".
Proof. eapply (eight_by _ _ 10000000000); reflexivity. Qed.
Lemma eight_30 : eight "30.25".
Proof. eapply (eight_by _ _ 3025000000); reflexivity. Qed.

Definition empty : World wallet_db := mkWorld 0 empty_wallet_db.
Definition ops : list wallet_op :=
  [ OpCredit "u" "USDT" "100" "dep-1" ∅;
    OpCredit "u" "USDT" "100" "dep-1" ∅;
    OpRequestWithdrawal "u" "USDT" "30.25" "0xabc" "tron" ].
Lemma ops_eight : Forall op_eight ops.
Proof. repeat constructor; first [exact eight_100|exact eight_30]. Qed.

Lemma pg_ledger_witness :
  exists x, x ∈ wd_wallets (w_st (pg_run ops empty)) /\ wallet_Balance x = "69.75000000" /\
    (amt (wallet_Balance x) == ledger_sum (wallet_ID x) (entries (w_st (pg_run ops empty))))%Q.
Proof.
  destruct (wd_wallets (w_st (pg_run ops empty))) as [|x l] eqn:Hx; [vm_compute in Hx; discriminate|].
  exists x. assert (x ∈ wd_wallets (w_st (pg_run ops empty))) as Hin by (rewrite Hx; left).
  split; [rewrite <- Hx; exact Hin|]. split.
  - vm_compute in Hx. injection Hx as <- _. reflexivity.
  - apply (proj1 (pg_ledger op_eight (pg_run ops empty)
      (pg_run_reachable op_eight ops empty ops_eight (pg_init op_eight 0)))); [exact Hin|].
    intros op H. exact H.
Defined.

(** The credit takes effect although the caller is told that it failed; the second call
    does not reach the database, the third answers the entry. *)
Definition lost : World wallet_db := (pg_post true "u" "USDT" "100" "dep-1" ∅ empty).2.
Definition again : list wallet_op := [OpCredit "u" "USDT" "100" "dep-1" ∅].
Lemma lost_row : exists row, row ∈ wd_transactions (w_st lost) /\ tr_ReferenceID row = Some "dep-1".
Proof.
  destruct (wd_transactions (w_st lost)) as [|row l] eqn:H; vm_compute in H; [discriminate|].
  exists row. split; [left|]. injection H as <- _. reflexivity.
Qed.
Lemma online_after n : (8 <= n)%nat -> online n.
Proof. intros H k Hk. cbn. rewrite !decide_False by lia. done. Qed.
Lemma again_tick : (8 <= w_tick (pg_run again lost))%nat.
Proof. apply Nat.leb_le. vm_compute. reflexivity. Qed.

Lemma pg_retry_witness :
  (exists e, (pg_post true "u" "USDT" "100" "dep-1" ∅ empty).1 = Err e) /\
  exists t w3, pg_post true "u" "USDT" "100" "dep-1" ∅ (pg_run again lost) = (Ok t, w3) /\
    w_st w3 = w_st (pg_run again lost).
Proof.
  split; [eexists; vm_compute; reflexivity|]. destruct lost_row as (row & Hrow & Href).
  destruct (pg_post true "u" "USDT" "100" "dep-1" ∅ (pg_run again lost)) as [r' w3] eqn:H3.
  destruct (pg_retry true "u" "USDT" "100" "dep-1" ∅ empty _ lost again (pg_init any_op 0)
    ltac:(discriminate) (surjective_pairing _)) as [_ H].
  destruct (H row Hrow Href true "u" "USDT" "100" ∅ r' w3 H3) as [Hs Ht].
  destruct (Ht (online_after _ again_tick)) as (t & -> & _). exists t, w3. split; [reflexivity|exact Hs].
Defined.

(** Amounts beyond eight places: a debit of half a unit of the last place is booked as one
    unit and leaves the balance as it is. *)
Definition drifted : World wallet_db :=
  pg_run (F := no_faults) [ OpCredit "u" "USDT" "1" "dep-1" ∅;
    OpDebit "u" "USDT" "0.000000005" "bet-1" ∅ ] empty.
Theorem pg_ledger_drift :
  exists x, wd_wallets (w_st drifted) = [x] /\ wallet_Balance x = "1.00000000" /\
    (ledger_sum (wallet_ID x) (entries (w_st drifted)) == 99999999 # 100000000)%Q.
Proof.
  destruct (wd_wallets (w_st drifted)) as [|x [|y l]] eqn:H; vm_compute in H; try discriminate.
  exists x. split; [reflexivity|]. injection H as <-. split; vm_compute; reflexivity.
Qed.

(** A debit booked under the request's id and "-reversal" keeps the request from being
    rejected. *)
Definition blocking : World wallet_db :=
  pg_run (F := no_faults) [ OpCredit "u" "USDT" "100" "dep-1" ∅;
    OpRequestWithdrawal "u" "USDT" "30" "0xabc" "tron";
    OpDebit "u" "USDT" "1" (tally 10 +:+ "-reversal") ∅ ] empty.
Theorem pg_reversal_blocked :
  (exists r, wd_requests (w_st blocking) = [r] /\ rr_ID r = tally 10 /\ rr_Status r = "pending") /\
  (PGStore_RejectWithdrawal (F := no_faults) (tally 10) "admin" blocking).1 =
    Err (ErrWrap "insert reversal transaction" (ErrPg UniqueViolation)) /\
  w_st (PGStore_RejectWithdrawal (F := no_faults) (tally 10) "admin" blocking).2 = w_st blocking.
Proof.
  split; [|split; vm_compute; reflexivity].
  destruct (wd_requests (w_st blocking)) as [|r [|y l]] eqn:H; vm_compute in H; try discriminate.
  exists r. split; [reflexivity|]. injection H as <-. split; reflexivity.
Qed.
End PgDemo.
