(* ===== verification/WalletPgRefine.v ===== *)
(** * WalletPgRefine: the Postgres wallet store against the in-memory store

    The tests and the development set-up run on the in-memory store, production on
    Postgres.  Opening wallets, credits and debits behave the same on both: after any
    sequence of calls the tables hold the balances and references that the in-memory store
    has after the calls that took effect. *)

From S2P Require Import Prelude GoStd GoJson Decimal WalletModels WalletStore WalletLedger.
From S2P Require Import WalletProps Sql WalletPg WalletPgLedger WalletPgOps WalletPgProps Demo.

(** ** Keys of the in-memory store *)

(** A currency without the separator of [walletKey]; the service admits no other. *)
Definition plain (c : string) : Prop := (":"%char ∉ String.list_ascii_of_string c).

Lemma colon_in u c : ":"%char ∈ String.list_ascii_of_string (u +:+ ":" +:+ c).
Proof. induction u as [|x u IH]; cbn; [apply elem_of_cons; by left|apply elem_of_cons; by right]. Qed.

Lemma walletKey_inj u c u' c' : plain c -> plain c' -> walletKey u c = walletKey u' c' ->
  u = u' /\ c = c'.
Proof.
  intros Hc Hc'. unfold walletKey. revert u'.
  induction u as [|x u IH]; intros [|y u'] H; cbn in H.
  - injection H as H. exact (conj eq_refl H).
  - injection H as <- H. destruct Hc. change c with ("" +:+ c). rewrite H. apply colon_in.
  - injection H as -> H. destruct Hc'. change c' with ("" +:+ c'). rewrite <- H. apply colon_in.
  - injection H as -> H. by destruct (IH u' H) as [-> ->].
Qed.

(** ** Balances in the tables *)
Section Refine.
Context `{E : GoEnv, L : DecimalLaws, P : PgTypes, PL : !PgLaws P, EL : !GoEnvLaws E,
  F : SqlFaults}.
#[local] Existing Instance exact_slack.

(** A user's balance in a currency, zero without a wallet. *)
Definition pg_balance (db : wallet_db) (u c : string) : Q :=
  match first_row (same_wallet u c) (wd_wallets db) with
  | Some x => amt (wallet_Balance x)
  | None => 0%Q
  end.

Lemma pg_balance_row n db w u c : pg_inv n db -> w ∈ wd_wallets db -> row_key w = (u, c) ->
  first_row (same_wallet u c) (wd_wallets db) = Some w.
Proof.
  intros Hi Hw Hk. destruct (first_row _ _) as [x|] eqn:Hf.
  - apply first_row_Some in Hf as [Hx Hs]. f_equal.
    apply (NoDup_fmap_eq row_key (wd_wallets db)); [apply Hi|done|done|].
    rewrite Hk. by apply same_wallet_key.
  - rewrite first_row_None in Hf. specialize (Hf w Hw). apply same_wallet_key in Hk. congruence.
Qed.

(** Rows whose owners and balances stay. *)
Lemma pg_balance_map db (f : Wallet -> Wallet) u c :
  (forall x, row_key (f x) = row_key x /\ wallet_Balance (f x) = wallet_Balance x) ->
  pg_balance (wd_set_wallets (f <$> wd_wallets db) db) u c = pg_balance db u c.
Proof.
  intros Hf. unfold pg_balance. cbn [wd_wallets wd_set_wallets]. rewrite first_row_fmap.
  - destruct (first_row _ _) as [x|]; cbn; [|done]. by destruct (Hf x) as [_ ->].
  - intros x. destruct (Hf x) as [Hk _]. unfold row_key in Hk. injection Hk as Hu Hc.
    unfold same_wallet. by rewrite Hu, Hc.
Qed.

(** A new wallet of zero, a booking. *)
Lemma pg_balance_opened n n' u c db w db1 : pg_inv n db -> opened_wallet u c n n' db w db1 ->
  forall u' c', (pg_balance db1 u' c' == pg_balance db u' c')%Q.
Proof.
  intros Hi [x _ _|k b now Hk Hno Hb] u' c'; [reflexivity|].
  unfold pg_balance. cbn [wd_wallets wd_set_wallets]. rewrite first_row_app.
  destruct (first_row _ (wd_wallets db)) as [x|]; [reflexivity|]. rewrite first_row_cons.
  destruct (same_wallet u' c' _); cbn; [|reflexivity].
  rewrite (is_amount_amt b 0); [reflexivity|].
  eapply numeric_amount; [apply is_amount_0|apply Eight_0|done].
Qed.

Lemma pg_balance_book n db w row now u c u' c' : pg_inv n db -> w ∈ wd_wallets db ->
  row_key w = (u, c) ->
  pg_balance (book w row now db) u' c' =
    if decide ((u', c') = (u, c)) then amt (tr_BalanceAfter row) else pg_balance db u' c'.
Proof.
  intros Hi Hw Hk. unfold pg_balance. cbn [wd_wallets book]. rewrite first_row_fmap.
  2: { intros x. by destruct (row_hit w x). }
  case_decide as He.
  - injection He as -> ->. rewrite (pg_balance_row n db w u c Hi Hw Hk). cbn. unfold row_hit.
    by rewrite !bool_decide_eq_true_2.
  - destruct (first_row _ _) as [x|] eqn:Hf; cbn; [|done].
    apply first_row_Some in Hf as [Hx Hs%same_wallet_key].
    destruct (row_hit w x) eqn:Hh; [|done].
    apply (row_hit_self n db w Hi Hw x Hx) in Hh as ->. congruence.
Qed.

(** ** The two stores agree *)
Record agrees (db : wallet_db) (s : memoryStore) : Prop := {
  ag_balance : forall u c, plain c -> (pg_balance db u c == balance_of s u c)%Q;
  ag_wallet : forall u c, plain c ->
    (u, c) ∈ row_key <$> wd_wallets db <-> is_Some (ms_wallets s !! walletKey u c);
  ag_refs : forall ref, ref <> "" -> ref ∈ refs db <-> is_Some (ms_txnByRef s !! ref);
}.

Definition money_op (op : wallet_op) : Prop :=
  match op with
  | OpCreateWallet _ c => plain c
  | OpCredit _ c a _ _ | OpDebit _ c a _ _ => plain c /\ eight a
  | _ => False
  end.

Lemma money_covers op : money_op op -> covers op.
Proof. intros H. left. destruct op; cbn in *; try done; by destruct H. Qed.

Definition pg_failed (op : wallet_op) (w : World wallet_db) : Prop :=
  match op with
  | OpCreateWallet u c => failed (PGStore_CreateWallet u c) w
  | OpCredit u c a r md => failed (PGStore_CreditWallet u c a r md) w
  | OpDebit u c a r md => failed (PGStore_DebitWallet u c a r md) w
  | _ => False
  end.

(** ** What a booking does on either side *)

Lemma existing_refs ref n s : ledger_inv (mkWorld n s) -> ref <> "" ->
  is_Some (ms_txnByRef s !! ref) -> is_Some (existing_by_ref ref s).
Proof.
  intros Hi Hne [l Hl]. unfold existing_by_ref, lookup_ref. rewrite decide_False by done.
  destruct (li_ref _ Hi ref l Hl) as (t & Ht & _). rewrite Hl. cbn in *. by rewrite Ht.
Qed.

Lemma free_refs ref db s : agrees db s -> ref_free ref db -> existing_by_ref ref s = None.
Proof.
  intros Ha. unfold ref_free, ref_opt, existing_by_ref, lookup_ref. case_decide as Hr; [done|].
  intros Hf. destruct (ms_txnByRef s !! ref) as [l|] eqn:Hl; [|done].
  destruct Hf. apply Ha; [done|]. rewrite Hl. by eexists.
Qed.

Lemma agrees_found ref db s n t : ledger_inv (mkWorld n s) -> agrees db s -> found ref db t ->
  exists t', existing_by_ref ref s = Some t'.
Proof.
  intros Hi Ha (Hne & row & Hin & Hr & _). apply (existing_refs ref n); [done|done|].
  apply Ha; [done|]. apply list_elem_of_omap. by exists row.
Qed.

(** The entry [row] in the tables and the entry [t] in memory. *)
Lemma agrees_booked typ op u c a bal ref md w n n' m db row now s x k t nb :
  computes typ op -> eight a -> plain c -> pg_inv m db -> w ∈ wd_wallets db -> row_key w = (u, c) ->
  op (wallet_Balance w) a = Ok bal ->
  entry_row typ u c a bal "completed" (ref_opt ref) (jsonb_in md) w n n' db row ->
  agrees db s -> is_amount nb (balance_of s u c + signed typ (amt a)) ->
  agrees (book w row now db) (recorded k (walletKey u c) nb ref x t s).
Proof.
  intros Hop H8 Hc Hi Hw Hk Hbal Her Ha Hnb. constructor.
  - intros u' c' Hc'. rewrite (pg_balance_book m db w row now u c u' c' Hi Hw Hk).
    case_decide as He.
    + injection He as -> ->. rewrite balance_recorded, (is_amount_amt _ _ Hnb).
      destruct (Hop _ _ _ Hbal) as (p & q & Hp & Hq & Hb). rewrite (is_amount_amt _ _ Hq).
      rewrite <- (ag_balance _ _ Ha u c Hc). unfold pg_balance.
      rewrite (pg_balance_row m db w u c Hi Hw Hk), (is_amount_amt _ _ Hp).
      apply is_amount_amt. eapply numeric_amount; [exact Hb| |apply (er_after Her)].
      apply Eight_add.
      * pose proof (pi_wallets _ _ Hi) as Hws. rewrite list.Forall_forall in Hws.
        destruct (Hws w Hw) as (b & Hwb & H8w & _). eapply Eight_proper; [|exact H8w].
        by eapply is_amount_fun.
      * unfold signed. case_decide; [by apply Eight_opp, H8|by apply H8].
    + rewrite (ag_balance _ _ Ha u' c' Hc'). unfold balance_of.
      rewrite (others_recorded k (walletKey u c) nb ref x t s); [reflexivity|].
      intros Heq. apply walletKey_inj in Heq as [-> ->]; done.
  - intros u' c' Hc'. cbn [wd_wallets book ms_wallets recorded].
    rewrite <- list_fmap_compose, (list_fmap_ext _ row_key) by (intros i y _; cbn; by destruct (row_hit w y)).
    rewrite (ag_wallet _ _ Ha u' c' Hc'). destruct (decide (walletKey u c = walletKey u' c')) as [Hkk|Hkk].
    + rewrite Hkk, lookup_insert_eq. split; [by eexists|intros _].
      apply walletKey_inj in Hkk as [<- <-]; [|done..]. apply (ag_wallet _ _ Ha u c Hc).
      rewrite <- Hk. by apply list_elem_of_fmap_2.
    + by rewrite lookup_insert_ne.
  - intros ref' Hne. unfold refs. cbn [wd_transactions book]. rewrite omap_app, elem_of_app.
    fold (refs db). rewrite (ag_refs _ _ Ha ref' Hne). cbn [omap list_omap]. rewrite (er_ref Her).
    unfold ref_opt. cbn [ms_txnByRef recorded]. case_decide as Hr.
    + split; [intros [?|?%elem_of_nil]; done|by left].
    + rewrite list_elem_of_singleton. destruct (decide (ref' = ref)) as [->|Hn].
      * rewrite lookup_insert_eq. split; [by eexists|by right].
      * rewrite lookup_insert_ne by done. split; [intros [?|?]; done|by left].
Qed.

(** Opening a wallet on both sides. *)
Lemma balance_created u c n s x n' s' :
  memoryStore_createWallet u c (mkWorld n s) = (Ok x, mkWorld n' s') ->
  forall u' c', (balance_of s' u' c' == balance_of s u' c')%Q.
Proof.
  intros (Hx & Hb & Ho & _)%createWallet_balances u' c'.
  destruct (decide (walletKey u' c' = walletKey u c)) as [Hk|Hk].
  - unfold balance_of at 1. rewrite Hk, Hx, Hb. unfold balance_of. by rewrite Hk.
  - unfold balance_of. by rewrite (Ho _ Hk).
Qed.

Lemma agrees_opened u c n n' db w db1 k s x k' s' : pg_inv n db -> plain c -> agrees db s ->
  opened_wallet u c n n' db w db1 ->
  memoryStore_createWallet u c (mkWorld k s) = (Ok x, mkWorld k' s') -> agrees db1 s'.
Proof.
  intros Hi Hc Ha Ho Hm. pose proof (balance_created _ _ _ _ _ _ _ Hm) as Hb.
  destruct (createWallet_balances _ _ _ _ _ _ _ Hm) as (Hx & _ & Hother & _ & Hrefs).
  constructor.
  - intros u' c' Hc'. rewrite (pg_balance_opened _ _ _ _ _ _ _ Hi Ho), Hb. by apply Ha.
  - intros u' c' Hc'.
    assert ((u', c') ∈ row_key <$> wd_wallets db1 <->
            (u', c') ∈ row_key <$> wd_wallets db \/ (u', c') = (u, c)) as ->.
    { destruct Ho as [y Hy Hk|j b now Hj Hno Hz].
      - split; [by left|]. intros [H| ->]; [done|]. rewrite <- Hk. by apply list_elem_of_fmap_2.
      - cbn [wd_wallets wd_set_wallets]. rewrite fmap_app, elem_of_app. cbn.
        by rewrite list_elem_of_singleton. }
    rewrite (ag_wallet _ _ Ha u' c' Hc').
    destruct (decide (walletKey u' c' = walletKey u c)) as [Hk|Hk].
    + rewrite Hk, Hx. apply walletKey_inj in Hk as [-> ->]; [|done..]. split; [by eexists|by right].
    + rewrite (Hother _ Hk). split; [intros [?|[= -> ->]]; done|by left].
  - intros ref Hne. rewrite Hrefs.
    assert (refs db1 = refs db) as -> by (by destruct Ho). by apply Ha.
Qed.

Lemma agrees_touched db s now u c : agrees db s -> agrees (wd_set_wallets
  ((fun x => if same_wallet u c x then touch now x else x) <$> wd_wallets db) db) s.
Proof.
  intros [Hb Hw Hr]. constructor; [| |done].
  - intros u' c' Hc'. rewrite pg_balance_map; [by apply Hb|].
    intros x. by destruct (same_wallet u c x).
  - intros u' c' Hc'. cbn [wd_wallets wd_set_wallets].
    rewrite <- list_fmap_compose, (list_fmap_ext _ row_key); [by apply Hw|].
    intros i x _. cbn. by destruct (same_wallet u c x).
Qed.

(** ** One call *)

Lemma create_refines u c now n db k s a db' : plain c -> pg_inv n db -> agrees db s ->
  upsert_wallet u c now (uuid_at n) db = Done (a, db') ->
  agrees db' (w_st (memoryStore_CreateWallet u c (mkWorld k s)).2).
Proof.
  intros Hc Hi Ha. unfold memoryStore_CreateWallet.
  destruct (memoryStore_createWallet u c (mkWorld k s)) as [r [k' s']] eqn:Hm.
  destruct (createWallet_spec _ _ _ _ _ Hm) as (x & -> & _). cbn [snd w_st].
  unfold upsert_wallet, insert_wallet. destruct (first_row _ _) as [w|] eqn:Hw.
  - intros [= _ <-]. apply first_row_Some in Hw as [Hin Hs].
    eapply (agrees_opened u c n n _ (touch now w)); [|done|exact (agrees_touched db s now u c Ha)| |exact Hm].
    + apply inv_wallets_map; [done|]. intros y. by destruct (same_wallet u c y).
    + constructor; [|exact (proj1 (same_wallet_key _ _ _) Hs)]. cbn [wd_wallets wd_set_wallets].
      apply list_elem_of_fmap. exists w. by rewrite Hs.
  - destruct (numeric_in "0") as [b|] eqn:Hb; [|done]. cbn [read_in mbind answer_bind].
    destruct (existsb _ _); [done|]. intros [= _ <-].
    eapply (agrees_opened u c n (S n)); [exact Hi|done|exact Ha| |exact Hm].
    apply ow_new; [lia| |done]. intros (w & Heq & Hin)%list_elem_of_fmap.
    rewrite first_row_None in Hw. specialize (Hw w Hin). symmetry in Heq.
    apply same_wallet_key in Heq. congruence.
Qed.

Lemma credit_refines u c a ref md n n' db t db' k s : plain c -> eight a -> pg_inv n db ->
  (n <= n')%nat -> ledger_inv (mkWorld k s) -> agrees db s ->
  credited u c a ref md n n' db t db' ->
  agrees db' (w_st (memoryStore_CreditWallet u c a ref md (mkWorld k s)).2).
Proof.
  intros Hc H8 Hi Hle Hl Ha [[Hf ->]|(Hfree & w & db1 & Ho & bal & row & now & Hbal & Her & _ & ->)].
  { destruct (agrees_found _ _ _ _ _ Hl Ha Hf) as [t' Ht']. by rewrite (credit_existing _ _ _ _ _ _ _ _ Ht'). }
  pose proof (free_refs _ _ _ Ha Hfree) as Hex.
  destruct (memoryStore_createWallet u c (mkWorld k s)) as [r [k' s']] eqn:Hm.
  destruct (createWallet_spec _ _ _ _ _ Hm) as (x & -> & Hx & _ & _ & Hl').
  rewrite (credit_new _ _ _ _ _ _ _ _ _ _ Hex Hm).
  destruct (opened_inv u c n n' db w db1 Hi Hle Ho) as (Hi1 & Hw & Hk & _).
  destruct (addDecimal_inv _ _ _ Hbal) as (p & q & _ & Hq & _).
  pose proof (is_amount_self _ _ (li_balance _ (Hl' Hl) _ x Hx)) as Hxb.
  destruct (addDecimal_value _ _ _ _ Hxb Hq) as (nb & Hadd & Hnb). rewrite Hadd. cbn [snd w_st].
  eapply (agrees_booked "deposit" addDecimal); try done; [by apply add_computes| |].
  - eapply agrees_opened; [exact Hi|done|exact Ha|exact Ho|exact Hm].
  - unfold balance_of. cbn in Hx. rewrite Hx. unfold signed. rewrite decide_False by done.
    by rewrite (is_amount_amt _ _ Hq).
Qed.

Lemma debit_refines u c a ref md n n' db t db' k s : plain c -> eight a -> pg_inv n db ->
  (n <= n')%nat -> ledger_inv (mkWorld k s) -> agrees db s ->
  debited u c a ref md n n' db t db' ->
  agrees db' (w_st (memoryStore_DebitWallet u c a ref md (mkWorld k s)).2).
Proof.
  intros Hc H8 Hi Hle Hl Ha [[Hf ->]|(Hfree & w & (Hw & Hk & b & q & Hb & Hq & Hqb) & bal & row &
    now & Hbal & Her & _ & ->)].
  { destruct (agrees_found _ _ _ _ _ Hl Ha Hf) as [t' Ht']. by rewrite (debit_existing _ _ _ _ _ _ _ _ Ht'). }
  pose proof (free_refs _ _ _ Ha Hfree) as Hex. rewrite (debit_new _ _ _ _ _ _ _ Hex).
  destruct (proj1 (ag_wallet _ _ Ha u c Hc)) as [x Hx].
  { rewrite <- Hk. by apply list_elem_of_fmap_2. }
  rewrite Hx. destruct (li_balance _ Hl _ x Hx) as (dx & Hdx & _). rewrite Hdx.
  destruct Hq as (da & Hda & Hq). rewrite Hda.
  assert (balance_of s u c == b)%Q as Hbs.
  { rewrite <- (ag_balance _ _ Ha u c Hc). unfold pg_balance.
    by rewrite (pg_balance_row n db w u c Hi Hw Hk), (is_amount_amt _ _ Hb). }
  unfold balance_of in Hbs. rewrite Hx, (amt_parse _ _ Hdx) in Hbs.
  assert (dec_LessThan dx da = false) as -> by (apply not_LessThan; lra). cbn [snd w_st].
  eapply (agrees_booked "withdrawal" subDecimal _ _ _ _ _ _ _ n n' n'); try done;
    [apply sub_computes|by eapply pg_inv_mono|].
  unfold balance_of, signed. rewrite Hx, decide_True, (amt_parse _ _ Hdx), (amt_parse _ _ Hda) by done.
  change (dval dx + - dval da)%Q with (dval dx - dval da)%Q. rewrite <- dval_Sub.
  apply is_amount_String.
Qed.

(** A call fails without an effect, or does to the tables what it does in memory. *)
Definition simulates (op : wallet_op) (w : World wallet_db) (s : World memoryStore) : Prop :=
  pg_failed op w /\ w_st (pg_run_op op w).2 = w_st w \/
  agrees (w_st (pg_run_op op w).2) (w_st (run_op op s).2).

Lemma in_tx_simulates {A} (body : M (Tx wallet_db) A) (w : World wallet_db) R (s : memoryStore) :
  tx_ends body (S (w_tick w)) (w_st w) (time_at (w_tick w)) R ->
  (forall a n' db', (S (w_tick w) <= n')%nat -> R a n' db' -> agrees db' s) ->
  failed (in_tx body) w /\ w_st (in_tx body w).2 = w_st w \/ agrees (w_st (in_tx body w).2) s.
Proof.
  intros Hb HR. destruct (in_tx body w) as [r w'] eqn:Htx. unfold failed. rewrite Htx.
  apply (in_tx_ends body w R) in Htx as [Ht [[[e ->] Hs]|(a & Ha & _)]]; [by left| |done].
  right. apply (HR a (w_tick w')); [lia|done].
Qed.

Lemma create_simulates u c w s : plain c -> pg_inv (w_tick w) (w_st w) -> agrees (w_st w) (w_st s) ->
  simulates (OpCreateWallet u c) w s.
Proof.
  intros Hc Hi Ha. destruct s as [k s]. unfold simulates. cbn [pg_failed pg_run_op run_op].
  rewrite !ignore_snd. unfold failed, PGStore_CreateWallet. rewrite wrapped_snd, scan_snd.
  unfold wrapped, scan, mbind, M_bind, db_stmt.
  destruct (stmt_fault _); [by left|].
  destruct (upsert_wallet _ _ _ _ _) as [[o db']|code] eqn:Hf; [|by left].
  destruct (commit_fault _); cbn [snd w_st]; [right|by left|right];
    by eapply create_refines.
Qed.

Lemma op_simulates op w s : money_op op -> pg_inv (w_tick w) (w_st w) -> ledger_inv s ->
  agrees (w_st w) (w_st s) -> simulates op w s.
Proof.
  intros Hop Hi Hl Ha.
  pose proof (pg_inv_mono (w_tick w) (S (w_tick w)) (w_st w) ltac:(lia) Hi) as HiS.
  destruct op as [u c|u c a ref md|u c a ref md| | | | ]; try done; [by apply create_simulates|..];
    destruct Hop as [Hc H8], s as [k s]; unfold simulates; cbn [pg_failed pg_run_op run_op];
    rewrite !ignore_snd.
  - eapply in_tx_simulates; [by apply credit_ends|]. intros t n' db' Hle H.
    exact (credit_refines _ _ _ _ _ _ _ _ _ _ _ _ Hc H8 HiS Hle Hl Ha H).
  - eapply in_tx_simulates; [by apply debit_ends|]. intros t n' db' Hle H.
    exact (debit_refines _ _ _ _ _ _ _ _ _ _ _ _ Hc H8 HiS Hle Hl Ha H).
Qed.

(** The calls of a run without some that failed and left the tables as they were. *)
Inductive took_effect : list wallet_op -> World wallet_db -> list wallet_op -> Prop :=
| te_nil w : took_effect [] w []
| te_kept op ops w ops' : took_effect ops (pg_run_op op w).2 ops' ->
    took_effect (op :: ops) w (op :: ops')
| te_dropped op ops w ops' : pg_failed op w -> w_st (pg_run_op op w).2 = w_st w ->
    took_effect ops (pg_run_op op w).2 ops' -> took_effect (op :: ops) w ops'.

(** C34.  On amounts of at most eight decimals and currencies without a colon the Postgres
    store refines the in-memory store.  After any sequence of such calls that open wallets,
    credit and debit, whatever statements fail and whatever confirmations of commits get
    lost, the tables hold the balances, wallets and references of the in-memory store after
    the same calls, without those that answered an error and had no effect.  Beyond eight
    decimals the stores differ, since NUMERIC(28,8) rounds what memory keeps
    ([pg_ledger_drift]); with a colon in a currency two wallets can have one key in memory,
    which joins the user and the currency with a colon. *)
Theorem pg_refines_memory ops n m :
  Forall money_op ops ->
  exists ops', took_effect ops (mkWorld n empty_wallet_db) ops' /\
    agrees (w_st (pg_run ops (mkWorld n empty_wallet_db)))
      (w_st (run_ops ops' (mkWorld m NewInMemoryStore))).
Proof.
  intros Hops. enough (forall (w : World wallet_db) s, pg_inv (w_tick w) (w_st w) ->
    ledger_inv s -> agrees (w_st w) (w_st s) ->
    exists ops', took_effect ops w ops' /\ agrees (w_st (pg_run ops w)) (w_st (run_ops ops' s))) as H.
  { apply H; [apply pg_inv_empty|apply inv_init|]. constructor; cbn; [done|..].
    - intros u c _. rewrite lookup_empty. split; [intros []%elem_of_nil|intros []; done].
    - intros ref _. rewrite lookup_empty. split; [intros []%elem_of_nil|intros []; done]. }
  induction Hops as [|op ops Hop _ IH]; intros w s Hi Hl Ha.
  { exists []. split; [constructor|done]. }
  pose proof (pg_run_inv op w (money_covers op Hop) Hi) as [_ Hi'].
  destruct (op_simulates op w s Hop Hi Hl Ha) as [[Hf Hs]|Ha'].
  - destruct (IH (pg_run_op op w).2 s Hi' Hl) as (ops' & Ht & Hag); [by rewrite Hs|].
    exists ops'. split; [by constructor|done].
  - destruct (IH (pg_run_op op w).2 (run_op op s).2 Hi') as (ops' & Ht & Hag);
      [by apply run_op_preserves|done|].
    exists (op :: ops'). split; [by constructor|done].
Qed.
End Refine.

Module PgRefineDemo.
Import Demo PgDemo.

Definition bets : list wallet_op :=
  [ OpCredit "u" "USDT" "100" "dep-1" ∅;
    OpCredit "u" "USDT" "100" "dep-1" ∅;
    OpDebit "u" "USDT" "30.25" "bet-1" ∅ ].

Lemma plain_usdt : plain "USDT".
Proof.
  unfold plain. cbn. intros H. repeat (apply elem_of_cons in H as [H|H]; [discriminate|]).
  by apply elem_of_nil in H.
Qed.

Lemma pg_refines_memory_witness :
  exists ops', took_effect bets empty ops' /\
    (balance_of (w_st (run_ops ops' (mkWorld 0 NewInMemoryStore))) "u" "USDT" == 6975 # 100)%Q.
Proof.
  destruct (pg_refines_memory bets 0 0) as (ops' & Ht & Ha).
  { repeat constructor; first [exact plain_usdt|exact eight_100|exact eight_30]. }
  exists ops'. split; [exact Ht|]. rewrite <- (ag_balance _ _ Ha "u" "USDT" plain_usdt).
  vm_compute. reflexivity.
Defined.
End PgRefineDemo.
