(* ===== verification/WalletTx.v ===== *)
(** * WalletTx: the wallet's transactions as programs

    The transaction bodies of [internal/wallet/pgstore.go] statement by statement; in one
    go they are the bodies of WalletPg. *)

From S2P Require Import Prelude GoStd GoJson Decimal WalletModels Sql TxProg WalletPg.

(** The statements that the bodies send. *)
Inductive wallet_stmt : Type -> Type :=
| SelectWallet (userID currency : string) : wallet_stmt (option Wallet)
| SelectWalletByID (id : string) : wallet_stmt (option Wallet)
| InsertWallet (userID currency : string) : wallet_stmt (option Wallet)
| UpsertWallet (userID currency : string) : wallet_stmt (option Wallet)
| UpdateWallet (balance id : string) (version : Z) : wallet_stmt nat
| SelectTxnByRef (ref : string) : wallet_stmt (option string)
| SelectTxn (id : string) : wallet_stmt (option Transaction)
| InsertTxn (userID walletID currency type amount before after status : string)
    (ref : option string) (metadata : option (option string)) : wallet_stmt (option (string * Z))
| UpdateTxnStatus (status ref : string) : wallet_stmt unit
| InsertRequest (userID walletID amount currency destinationAddress chain : string) :
    wallet_stmt (option (string * string * Z))
| ReviewRequest (status : string) (txHash : option string) (reviewedBy id : string) :
    wallet_stmt (option WithdrawalRequest)
| InsertAddress (userID currency chain address xcashID : string) : wallet_stmt (option (string * Z)).

Section WalletTx.
Context `{E : GoEnv, D : Decimal, P : PgTypes}.

Definition stmt_sem (B : Type) (s : wallet_stmt B) : statement wallet_db B :=
  match s with
  | SelectWallet u c => select_wallet u c
  | SelectWalletByID id => select_wallet_by_id id
  | InsertWallet u c => insert_wallet u c
  | UpsertWallet u c => upsert_wallet u c
  | UpdateWallet b id v => update_wallet b id v
  | SelectTxnByRef ref => select_txn_by_ref ref
  | SelectTxn id => select_txn id
  | InsertTxn u w c t a b a' st ref md => insert_txn u w c t a b a' st ref md
  | UpdateTxnStatus st ref => update_txn_status st ref
  | InsertRequest u w a c d ch => insert_request u w a c d ch
  | ReviewRequest st th by' id => review_request st th by' id
  | InsertAddress u c ch ad x => insert_address u c ch ad x
  end.

#[local] Abbreviation prog := (prog wallet_stmt).

Definition existing_prog (what referenceID : string) : prog (option Transaction) :=
  r ← p_attempt (p_scan (p_exec (SelectTxnByRef referenceID)));
  match r with
  | Ok existingID =>
      txn ← p_wrapped "get existing transaction" (p_scan (p_exec (SelectTxn existingID)));
      p_wrapped "commit" p_commit;;
      mret (Some txn)
  | Err e => if errors_Is e ErrNoRows then mret None else mthrow (ErrWrap what e)
  | Panic p => End (Panic p)
  end.

Definition by_ref_prog (what referenceID : string) : prog (option Transaction) :=
  if decide (referenceID = "") then mret None else existing_prog what referenceID.

Definition write_balance_prog (newBalance : string) (w : Wallet) : prog unit :=
  rows ← p_wrapped "update wallet"
    (p_exec (UpdateWallet newBalance (wallet_ID w) (wallet_Version w)));
  if decide (rows = 0%nat) then mthrow ErrWalletConflict else mret tt.

Definition record_prog (typ userID currency amount newBalance referenceID : string)
    (metadata : Metadata) (w : Wallet) : prog Transaction :=
  let refID := if decide (referenceID = "") then None else Some referenceID in
  r ← p_attempt (p_scan (p_exec (InsertTxn userID (wallet_ID w) currency typ amount
        (wallet_Balance w) newBalance "completed" refID (jsonb_in metadata))));
  match r with
  | Ok (id, created) =>
      p_wrapped "commit" p_commit;;
      mret (mkTransaction id userID (wallet_ID w) currency typ amount (wallet_Balance w)
              newBalance "completed" referenceID "" created)
  | Err e =>
      existing ← by_ref_prog "check reference id after insert failure" referenceID;
      match existing with
      | Some txn => mret txn
      | None => mthrow (ErrWrap "insert transaction" e)
      end
  | Panic p => End (Panic p)
  end.

Definition credit_prog (userID currency amount referenceID : string) (metadata : Metadata) :
    prog Transaction :=
  existing ← by_ref_prog "check reference id" referenceID;
  match existing with
  | Some txn => mret txn
  | None =>
      w ← p_wrapped "get wallet" (p_or_no_rows (p_scan (p_exec (SelectWallet userID currency)))
                                    (p_scan (p_exec (InsertWallet userID currency))));
      newBalance ← p_wrapped "credit wallet" (End (addDecimal (wallet_Balance w) amount));
      write_balance_prog newBalance w;;
      record_prog "deposit" userID currency amount newBalance referenceID metadata w
  end.

Definition draw_prog (what userID currency amount : string) : prog (Wallet * string) :=
  r ← p_attempt (p_scan (p_exec (SelectWallet userID currency)));
  w ← match r with
      | Ok w => mret w
      | Err e => if decide (e = ErrNoRows) then mthrow ErrWalletNotFound
                 else mthrow (ErrWrap "get wallet" e)
      | Panic p => End (Panic p)
      end;
  currentBalance ← p_wrapped "parse balance" (End (NewFromString (wallet_Balance w)));
  drawn ← p_wrapped "parse amount" (End (NewFromString amount));
  if dec_LessThan currentBalance drawn then mthrow ErrInsufficientBalance
  else
    newBalance ← p_wrapped what (End (subDecimal (wallet_Balance w) amount));
    write_balance_prog newBalance w;;
    mret (w, newBalance).

Definition debit_prog (userID currency amount referenceID : string) (metadata : Metadata) :
    prog Transaction :=
  existing ← by_ref_prog "check reference id" referenceID;
  match existing with
  | Some txn => mret txn
  | None =>
      '(w, newBalance) ← draw_prog "debit wallet" userID currency amount;
      record_prog "withdrawal" userID currency amount newBalance referenceID metadata w
  end.

Definition request_prog (userID currency amount destinationAddress chain : string) :
    prog WithdrawalRequest :=
  '(w, newBalance) ← draw_prog "debit wallet for withdrawal" userID currency amount;
  '(id, status, created) ← p_wrapped "create withdrawal request"
    (p_scan (p_exec (InsertRequest userID (wallet_ID w) amount currency destinationAddress chain)));
  p_wrapped "insert transaction"
    (p_exec (InsertTxn userID (wallet_ID w) currency "withdrawal" amount (wallet_Balance w)
       newBalance "pending" (Some id) (Some None)));;
  p_wrapped "commit" p_commit;;
  mret (mkWithdrawalRequest id userID (wallet_ID w) amount currency destinationAddress chain
          status "" "" created).

Definition review_prog (what status : string) (txHash : option string) (reviewedBy id : string) :
    prog WithdrawalRequest :=
  r ← p_attempt (p_scan (p_exec (ReviewRequest status txHash reviewedBy id)));
  match r with
  | Ok w => mret w
  | Err e => if decide (e = ErrNoRows)
             then mthrow (ErrNew "withdrawal request not found or not pending")
             else mthrow (ErrWrap what e)
  | Panic p => End (Panic p)
  end.

Definition approve_prog (id txHash reviewedBy : string) : prog WithdrawalRequest :=
  w ← review_prog "approve withdrawal" "approved" (Some txHash) reviewedBy id;
  p_wrapped "update transaction" (p_exec (UpdateTxnStatus "completed" id));;
  p_wrapped "commit" p_commit;;
  mret w.

Definition reject_prog (id reviewedBy : string) : prog WithdrawalRequest :=
  req ← review_prog "reject withdrawal" "rejected" None reviewedBy id;
  w ← p_wrapped "get wallet" (p_scan (p_exec (SelectWalletByID (wr_WalletID req))));
  reversedBalance ← p_wrapped "reverse withdrawal debit"
    (End (addDecimal (wallet_Balance w) (wr_Amount req)));
  write_balance_prog reversedBalance w;;
  p_wrapped "update transaction" (p_exec (UpdateTxnStatus "reversed" id));;
  p_wrapped "insert reversal transaction"
    (p_exec (InsertTxn (wr_UserID req) (wallet_ID w) (wr_Currency req) "adjustment"
       (wr_Amount req) (wallet_Balance w) reversedBalance "completed" (Some (id +:+ "-reversal"))
       (Some None)));;
  p_wrapped "commit" p_commit;;
  mret req.

(** A statement alone is a transaction of its own. *)
Definition create_wallet_prog (userID currency : string) : prog Wallet :=
  p_wrapped "create wallet"
    (w ← p_scan (p_exec (UpsertWallet userID currency)); p_commit;; mret w).
Definition create_address_prog (addr : DepositAddress) : prog DepositAddress :=
  '(id, created) ← p_wrapped "create deposit address"
    (r ← p_scan (p_exec (InsertAddress (da_UserID addr) (da_Currency addr) (da_Chain addr)
       (da_Address addr) (da_XCashDepositID addr))); p_commit;; mret r);
  mret (mkDepositAddress id (da_UserID addr) (da_Currency addr) (da_Chain addr)
          (da_Address addr) (da_XCashDepositID addr) "active" created).

(** ** In one go they are the bodies of WalletPg *)
Context `{F : SqlFaults}.
#[local] Abbreviation run := (run stmt_sem).

Lemma run_end {A} (r : res A) : meq (run (End r)) (of_res r).
Proof. done. Qed.
Lemma run_bind {A B} (p : prog A) m (f : A -> prog B) g :
  meq (run p) m -> (forall a, meq (run (f a)) (g a)) -> meq (run (p ≫= f)) (m ≫= g).
Proof. intros Hp Hf. etrans; [apply run_then|]. by apply meq_bind. Qed.
Lemma run_attempt_of {A} (p : prog A) m : meq (run p) m -> meq (run (p_attempt p)) (attempt m).
Proof. intros H. etrans; [apply run_attempt|]. by apply meq_attempt. Qed.
Lemma run_wrapped_of {A} s (p : prog A) m : meq (run p) m -> meq (run (p_wrapped s p)) (wrapped s m).
Proof. intros H. etrans; [apply run_wrapped|]. by apply meq_wrapped. Qed.
Lemma run_or_no_rows {A} (p none : prog A) m n :
  meq (run p) m -> meq (run none) n -> meq (run (p_or_no_rows p none)) (or_no_rows m n).
Proof.
  intros Hp Hn. apply run_bind; [by apply run_attempt_of|]. intros [a|e|q]; [done| |done].
  by case_decide.
Qed.

(** Follow the two programs side by side; [known] proves the parts that have a lemma. *)
Ltac side_by_side known := repeat first
  [ done | match goal with |- forall _ : _, _ => intro end | known
  | exact (run_exec _ _) | apply run_commit
  | apply run_scan | apply run_attempt_of | apply run_wrapped_of | apply run_or_no_rows
  | apply run_bind; [|intros ?]
  | case_decide | case_match ].

Lemma run_existing what ref : meq (run (existing_prog what ref)) (pg_existing what ref).
Proof. unfold existing_prog, pg_existing, getTransactionByID. side_by_side fail. Qed.
Lemma run_by_ref what ref : meq (run (by_ref_prog what ref)) (pg_by_ref what ref).
Proof. unfold by_ref_prog, pg_by_ref. case_decide; [done|apply run_existing]. Qed.
Lemma run_write_balance b w : meq (run (write_balance_prog b w)) (pg_write_balance b w).
Proof. unfold write_balance_prog, pg_write_balance. side_by_side fail. Qed.
Lemma run_record typ u c a b ref md w :
  meq (run (record_prog typ u c a b ref md w)) (pg_record typ u c a b ref md w).
Proof. unfold record_prog, pg_record. side_by_side ltac:(apply run_by_ref). Qed.
Lemma run_draw what u c a : meq (run (draw_prog what u c a)) (pg_draw what u c a).
Proof. unfold draw_prog, pg_draw. side_by_side ltac:(apply run_write_balance). Qed.
Lemma run_review what st th by' id : meq (run (review_prog what st th by' id)) (pg_review what st th by' id).
Proof. unfold review_prog, pg_review. side_by_side fail. Qed.

#[local] Ltac parts := first
  [apply run_by_ref|apply run_write_balance|apply run_record|apply run_draw|apply run_review].
Lemma run_credit u c a ref md : meq (run (credit_prog u c a ref md)) (pg_credit_body u c a ref md).
Proof. unfold credit_prog, pg_credit_body. side_by_side parts. Qed.
Lemma run_debit u c a ref md : meq (run (debit_prog u c a ref md)) (pg_debit_body u c a ref md).
Proof. unfold debit_prog, pg_debit_body. side_by_side parts. Qed.
Lemma run_request u c a d ch : meq (run (request_prog u c a d ch)) (pg_request_body u c a d ch).
Proof. unfold request_prog, pg_request_body. side_by_side parts. Qed.
Lemma run_approve id th by' : meq (run (approve_prog id th by')) (pg_approve_body id th by').
Proof. unfold approve_prog, pg_approve_body. side_by_side parts. Qed.
Lemma run_reject id by' : meq (run (reject_prog id by')) (pg_reject_body id by').
Proof. unfold reject_prog, pg_reject_body. side_by_side parts. Qed.

Lemma meq_in_tx {A} (m m' : M (Tx wallet_db) A) : meq m m' -> meq (in_tx m) (in_tx m').
Proof. intros H w. unfold in_tx. destruct (stmt_fault _); [done|]. by rewrite H. Qed.

(** The transactions as programs of statements, which is what runs concurrently, are
    the store's methods: executed in one go they answer and leave the same, whatever
    statements and commits fail. *)
Theorem tx_programs :
  (forall u c a ref md, meq (in_tx (run (credit_prog u c a ref md))) (PGStore_CreditWallet u c a ref md)) /\
  (forall u c a ref md, meq (in_tx (run (debit_prog u c a ref md))) (PGStore_DebitWallet u c a ref md)) /\
  (forall u c a d ch, meq (in_tx (run (request_prog u c a d ch))) (PGStore_RequestWithdrawal u c a d ch)) /\
  (forall id th by', meq (in_tx (run (approve_prog id th by'))) (PGStore_ApproveWithdrawal id th by')) /\
  (forall id by', meq (in_tx (run (reject_prog id by'))) (PGStore_RejectWithdrawal id by')).
Proof.
  split_and!; intros; apply meq_in_tx; [apply run_credit|apply run_debit|apply run_request
    |apply run_approve|apply run_reject].
Qed.
End WalletTx.
