(* ===== verification/TxConc.v ===== *)
(** * TxConc: transactions side by side, at READ COMMITTED

    The machine: the committed tables, and the open transactions of the sessions.  A
    statement sees the committed tables of its moment under the row versions that its own
    transaction wrote; it waits while another transaction holds a row or a key it locks;
    what it locked is held until the transaction ends.  A commit puts the transaction's row
    versions into the tables.  Statements, commits and connections fail at any time.

    The method: a transaction's program is safe if, whatever the others commit meanwhile
    without touching what it has locked, its commit keeps the invariant, does what the
    specification says, and touches only what it has locked. *)

From S2P Require Import Prelude GoStd GoJson Sql TxProg.

(** What the machine needs to know of the tables and statements: the rows and index keys
    that can be locked, the versions of rows, and which of them a statement locks, given
    its answer and the tables before and after it. *)
Class Rows (T : Type) (St : Type -> Type) : Type := {
  lockable : Type;
  lockable_dec :: EqDecision lockable;
  version : Type;
  put : version -> T -> T;
  versions : T -> T -> list version;
  locks : forall B, St B -> B -> T -> T -> list lockable;
}.

Definition overlay `{Rows T St} (ws : list version) (db : T) : T :=
  foldl (fun db v => put v db) db ws.

Lemma overlay_app `{Rows T St} ws ws' (db : T) : overlay (ws ++ ws') db = overlay ws' (overlay ws db).
Proof. apply foldl_app. Qed.

Record OpenTx (T : Type) (St : Type -> Type) `{Rows T St} (Op A : Type) : Type := mkOpenTx {
  ot_op : Op;
  ot_now : Z;
  ot_failed : bool;
  ot_locks : list lockable;
  ot_writes : list version;
  ot_prog : prog St A;
}.
Arguments mkOpenTx {T St _ Op A} _ _ _ _ _ _.
Arguments ot_op {T St _ Op A} _.
Arguments ot_now {T St _ Op A} _.
Arguments ot_failed {T St _ Op A} _.
Arguments ot_locks {T St _ Op A} _.
Arguments ot_writes {T St _ Op A} _.
Arguments ot_prog {T St _ Op A} _.

(** The server and its clients: the calls answered so far are [cs_out]. *)
Record TxServer (T : Type) (St : Type -> Type) `{Rows T St} (Op A : Type) : Type := mkTxServer {
  cs_tick : nat;
  cs_db : T;
  cs_open : gmap nat (OpenTx T St Op A);
  cs_out : list (Op * res A);
}.
Arguments mkTxServer {T St _ Op A} _ _ _ _.
Arguments cs_tick {T St _ Op A} _.
Arguments cs_db {T St _ Op A} _.
Arguments cs_open {T St _ Op A} _.
Arguments cs_out {T St _ Op A} _.

(** The discipline that makes transactions safe: the invariant of the committed tables at a
    tick, what every commit leaves in place, what a lock protects, and the order in which
    locks are taken. *)
Class Discipline (T : Type) (St : Type -> Type) `{Rows T St} : Type := {
  inv : nat -> T -> Prop;
  stays : T -> T -> Prop;
  same : lockable -> T -> T -> Prop;
  rank : lockable -> nat;
  top : nat;
  inv_mono : forall n m db, (n <= m)%nat -> inv n db -> inv m db;
  stays_refl : forall db, stays db db;
  stays_trans : forall db1 db2 db3, stays db1 db2 -> stays db2 db3 -> stays db1 db3;
  same_refl : forall l db, same l db db;
  same_trans : forall l db1 db2 db3, same l db1 db2 -> same l db2 db3 -> same l db1 db3;
  rank_top : forall l, (rank l <= top)%nat;
}.

(** An error of the server or the connection: not [ErrNoRows]. *)
Definition server_error (e : goerr) : Prop := e <> ErrNoRows /\ errors_Is e ErrNoRows = false.

Lemma server_error_new msg : server_error (ErrNew msg).
Proof. by split. Qed.
Lemma server_error_pg code : server_error (ErrPg code).
Proof. split; [done|]. unfold ErrPg, ErrNoRows, errors_Is. by rewrite bool_decide_eq_false_2. Qed.

Section Machine.
Context {T : Type} {St : Type -> Type} `{R : Rows T St, E : GoEnv} {Op A : Type}.
Context (sem : forall B, St B -> statement T B) (code : Op -> prog St A).
#[local] Abbreviation TxServer := (TxServer T St Op A).
#[local] Abbreviation OpenTx := (OpenTx T St Op A).

Definition view (s : TxServer) (x : OpenTx) : T := overlay (ot_writes x) (cs_db s).

(** No other session holds one of [ls]. *)
Definition free (i : nat) (ls : list lockable) (s : TxServer) : Prop :=
  forall j y l, cs_open s !! j = Some y -> j <> i -> l ∈ ls -> (l ∉ ot_locks y).

(** The transaction goes on, or is over. *)
Definition goes_on (i : nat) (x : OpenTx) (s : TxServer) : TxServer :=
  mkTxServer (S (cs_tick s)) (cs_db s) (<[i := x]> (cs_open s)) (cs_out s).
Definition fail_with (e : goerr) {B} (k : res B -> prog St A) (x : OpenTx) : OpenTx :=
  mkOpenTx (ot_op x) (ot_now x) true (ot_locks x) (ot_writes x) (k (Err e)).
Definition ends (i : nat) (x : OpenTx) (r : res A) (db : T) (s : TxServer) : TxServer :=
  mkTxServer (S (cs_tick s)) db (delete i (cs_open s)) ((ot_op x, r) :: cs_out s).

(** A session's next step. *)
Inductive advances (i : nat) (s : TxServer) : TxServer -> Prop :=
| a_stmt x B (st : St B) k a v :
    cs_open s !! i = Some x -> ot_prog x = Exec st k -> ot_failed x = false ->
    sem B st (ot_now x) (uuid_at (cs_tick s)) (view s x) = Done (a, v) ->
    free i (locks B st a (view s x) v) s ->
    advances i s (goes_on i (mkOpenTx (ot_op x) (ot_now x) false
      (locks B st a (view s x) v ++ ot_locks x) (ot_writes x ++ versions (view s x) v) (k (Ok a))) s)
| a_refused x B (st : St B) k code' :
    cs_open s !! i = Some x -> ot_prog x = Exec st k -> ot_failed x = false ->
    sem B st (ot_now x) (uuid_at (cs_tick s)) (view s x) = Refused code' ->
    advances i s (goes_on i (fail_with (ErrPg code') k x) s)
| a_failed x B (st : St B) k :
    cs_open s !! i = Some x -> ot_prog x = Exec st k -> ot_failed x = true ->
    advances i s (goes_on i (fail_with (ErrPg InFailedTransaction) k x) s)
| a_commit x k :
    cs_open s !! i = Some x -> ot_prog x = Commit k -> ot_failed x = false ->
    advances i s (ends i x (after_done (k (Ok tt))) (view s x) s)
| a_commit_failed x k :
    cs_open s !! i = Some x -> ot_prog x = Commit k -> ot_failed x = true ->
    advances i s (ends i x
      (after_done (k (Err (ErrNew "commit unexpectedly resulted in rollback")))) (cs_db s) s)
| a_end x r :
    cs_open s !! i = Some x -> ot_prog x = End r -> advances i s (ends i x r (cs_db s) s).

(** A fault: the statement is lost (or the server breaks a wait), the commit is refused,
    or only its confirmation is lost. *)
Inductive breaks (i : nat) (s : TxServer) : TxServer -> Prop :=
| b_stmt x B (st : St B) k msg :
    cs_open s !! i = Some x -> ot_prog x = Exec st k ->
    breaks i s (goes_on i (fail_with (ErrNew msg) k x) s)
| b_refused x k msg :
    cs_open s !! i = Some x -> ot_prog x = Commit k ->
    breaks i s (ends i x (after_done (k (Err (ErrNew msg)))) (cs_db s) s)
| b_lost x k msg :
    cs_open s !! i = Some x -> ot_prog x = Commit k -> ot_failed x = false ->
    breaks i s (ends i x (after_done (k (Err (ErrNew msg)))) (view s x) s).

Definition begin (i : nat) (op : Op) (s : TxServer) : TxServer :=
  goes_on i (mkOpenTx op (time_at (cs_tick s)) false [] [] (code op)) s.

Inductive cstep (allowed : Op -> Prop) (s : TxServer) : TxServer -> Prop :=
| c_begin i op : cs_open s !! i = None -> allowed op -> cstep allowed s (begin i op s)
| c_advance i s' : advances i s s' -> cstep allowed s s'
| c_break i s' : breaks i s s' -> cstep allowed s s'.

Definition idle (n : nat) (db : T) : TxServer := mkTxServer n db ∅ [].

(** ** The machine, executed *)

Definition held_by_others (i : nat) (s : TxServer) : list lockable :=
  map_to_list (cs_open s) ≫= fun '(j, y) => if decide (j = i) then [] else ot_locks y.
Definition freeb (i : nat) (ls : list lockable) (s : TxServer) : bool :=
  forallb (fun l => negb (bool_decide (l ∈ held_by_others i s))) ls.

Lemma freeb_free i ls s : freeb i ls s = true <-> free i ls s.
Proof.
  unfold freeb, free. rewrite forallb_forall. split.
  - intros H j y l Hy Hne Hl Hin. specialize (H l (proj1 (list_elem_of_In _ _) Hl)).
    apply negb_true_iff, bool_decide_eq_false in H. apply H. unfold held_by_others.
    apply list_elem_of_bind. exists (j, y). rewrite decide_False by done.
    split; [done|by apply elem_of_map_to_list].
  - intros H l Hl%list_elem_of_In. apply negb_true_iff, bool_decide_eq_false_2.
    intros ([j y] & Hin & Hy%elem_of_map_to_list)%list_elem_of_bind.
    destruct (decide (j = i)); [by apply elem_of_nil in Hin|]. by eapply (H j y l).
Qed.

(** The next step of session [i]; [None] when it waits, or there is none. *)
Definition advance (i : nat) (s : TxServer) : option TxServer :=
  match cs_open s !! i with
  | None => None
  | Some x =>
      match ot_prog x with
      | End r => Some (ends i x r (cs_db s) s)
      | Commit k =>
          if ot_failed x
          then Some (ends i x (after_done (k (Err (ErrNew
                 "commit unexpectedly resulted in rollback")))) (cs_db s) s)
          else Some (ends i x (after_done (k (Ok tt))) (view s x) s)
      | Exec st k =>
          if ot_failed x then Some (goes_on i (fail_with (ErrPg InFailedTransaction) k x) s)
          else
            match sem _ st (ot_now x) (uuid_at (cs_tick s)) (view s x) with
            | Done (a, v) =>
                if freeb i (locks _ st a (view s x) v) s
                then Some (goes_on i (mkOpenTx (ot_op x) (ot_now x) false
                       (locks _ st a (view s x) v ++ ot_locks x)
                       (ot_writes x ++ versions (view s x) v) (k (Ok a))) s)
                else None
            | Refused c => Some (goes_on i (fail_with (ErrPg c) k x) s)
            end
      end
  end.

Lemma advance_advances i s s' : advance i s = Some s' -> advances i s s'.
Proof.
  unfold advance. destruct (cs_open s !! i) as [x|] eqn:Hx; [|done].
  destruct (ot_prog x) as [r|B st k|k] eqn:Hp.
  - intros [= <-]. by apply a_end.
  - destruct (ot_failed x) eqn:Hf; [intros [= <-]; by eapply a_failed|].
    destruct (sem B st _ _ _) as [[a v]|c] eqn:Hs; [|intros [= <-]; by eapply a_refused].
    destruct (freeb i _ s) eqn:Hfree; [|done]. intros [= <-].
    eapply a_stmt; try done. by apply freeb_free.
  - destruct (ot_failed x) eqn:Hf; intros [= <-]; [by eapply a_commit_failed|by eapply a_commit].
Qed.

(** A schedule: which session begins a call, or takes its next step, or loses it. *)
Inductive event : Type :=
| Begins (i : nat) (op : Op)
| Goes (i : nat)
| Loses (i : nat) (msg : string).
Definition event_op (e : event) : option Op := match e with Begins _ op => Some op | _ => None end.

Definition happen (s : TxServer) (e : event) : option TxServer :=
  match e with
  | Begins i op => match cs_open s !! i with None => Some (begin i op s) | Some _ => None end
  | Goes i => advance i s
  | Loses i msg =>
      match cs_open s !! i with
      | Some x =>
          match ot_prog x with
          | Exec st k => Some (goes_on i (fail_with (ErrNew msg) k x) s)
          | _ => None
          end
      | None => None
      end
  end.
Fixpoint schedule (es : list event) (s : TxServer) : option TxServer :=
  match es with
  | [] => Some s
  | e :: es => s' ← happen s e; schedule es s'
  end.

Lemma schedule_steps (allowed : Op -> Prop) es s s' :
  (forall e op, e ∈ es -> event_op e = Some op -> allowed op) ->
  schedule es s = Some s' -> rtc (cstep allowed) s s'.
Proof.
  revert s. induction es as [|e es IH]; intros s Hops; cbn; [by intros [= ->]|].
  destruct (happen s e) as [s1|] eqn:He; [|done]. cbn. intros H.
  eapply rtc_l; [|apply IH; [|exact H]; intros e' op Hin; apply Hops; by right].
  destruct e as [i op|i|i msg]; cbn in He.
  - destruct (cs_open s !! i) eqn:Hi; [done|]. injection He as <-.
    apply c_begin; [done|]. by eapply Hops; [left|].
  - eapply c_advance. by apply advance_advances.
  - destruct (cs_open s !! i) as [x|] eqn:Hi; [|done]. destruct (ot_prog x) eqn:Hp; try done.
    injection He as <-. eapply c_break. by eapply b_stmt.
Qed.
End Machine.

(** ** Safe programs *)
Section Safe.
Context {T : Type} {St : Type -> Type} `{R : Rows T St, D : !Discipline T St, E : GoEnv} {A : Type}.
Context (sem : forall B, St B -> statement T B).
(** What the others may do meanwhile. *)
Definition rely (L : list lockable) n db n' db' : Prop :=
  (n <= n')%nat /\ inv n' db' /\ stays db db' /\ forall l, l ∈ L -> same l db db'.
(** Only what is locked is touched. *)
Definition touches (L : list lockable) db db' : Prop := forall l, (l ∉ L) -> same l db db'.

Definition not_ok (r : res A) : Prop := forall a, r <> Ok a.

(** From a failed transaction only errors are answered. *)
Fixpoint errs (p : prog St A) : Prop :=
  match p with
  | End r => not_ok r
  | Exec s k => forall e, server_error e -> errs (k (Err e))
  | Commit k => forall e, not_ok (after_done (k (Err e)))
  end.

(** What is locked anew ranks above all that is held. *)
Definition ordered (L ls : list lockable) : Prop :=
  forall l, l ∈ ls -> (l ∈ L) \/ forall h, h ∈ L -> (rank h < rank l)%nat.

Fixpoint safe (Q : nat -> T -> T -> res A -> Prop) (p : prog St A) (now : Z) (L : list lockable)
    (W : list version) (n : nat) (db : T) : Prop :=
  match p with
  | End r => not_ok r
  | Exec s k =>
      (forall e, server_error e -> errs (k (Err e))) /\
      forall n' db' a v, rely L n db n' db' ->
        sem _ s now (uuid_at n') (overlay W db') = Done (a, v) ->
        ordered L (locks _ s a (overlay W db') v) /\
        safe Q (k (Ok a)) now (locks _ s a (overlay W db') v ++ L)
          (W ++ versions (overlay W db') v) (S n') db'
  | Commit k =>
      (forall e, not_ok (after_done (k (Err e)))) /\
      forall n' db', rely L n db n' db' ->
        let db2 := overlay W db' in
        inv n' db2 /\ stays db' db2 /\ touches L db' db2 /\ Q n' db' db2 (after_done (k (Ok tt)))
  end.

Lemma safe_mono (Q Q' : nat -> T -> T -> res A -> Prop) (p : prog St A) now L W n db :
  (forall n d d' r, Q n d d' r -> Q' n d d' r) -> safe Q p now L W n db -> safe Q' p now L W n db.
Proof.
  intros Hq. revert L W n db. induction p as [r|B s k IH|k IH]; intros L W n db; [done| |].
  - intros [He H]. split; [done|]. intros n' db' a v Hr Hs.
    destruct (H n' db' a v Hr Hs) as [Ho Hk]. split; [done|]. by apply IH.
  - intros [He H]. split; [done|]. intros n' db' Hr. destruct (H n' db' Hr) as (? & ? & ? & ?).
    split_and!; auto.
Qed.

Lemma rely_refl L n m db : (n <= m)%nat -> inv n db -> rely L n db m db.
Proof. intros Hle Hi. split_and!; [done|by eapply inv_mono|apply stays_refl|]. intros l _. apply same_refl. Qed.
Lemma rely_trans L n1 db1 n2 db2 n3 db3 :
  rely L n1 db1 n2 db2 -> rely L n2 db2 n3 db3 -> rely L n1 db1 n3 db3.
Proof.
  intros (H1 & _ & Hs1 & H2) (H3 & Hi & Hs2 & H4). split_and!; [lia|done|by eapply stays_trans|].
  intros l Hl. eapply same_trans; [by apply H2|by apply H4].
Qed.
Lemma rely_weaken L L' n1 db1 n2 db2 : (forall l, l ∈ L -> l ∈ L') ->
  rely L' n1 db1 n2 db2 -> rely L n1 db1 n2 db2.
Proof. intros Hs (? & ? & ? & H). split_and!; [done..|]. intros l Hl. by apply H, Hs. Qed.

(** What is safe stays so, whatever the others do. *)
Lemma safe_rely Q p now L W n db n' db' :
  rely L n db n' db' -> safe Q p now L W n db -> safe Q p now L W n' db'.
Proof.
  intros Hr. destruct p as [r|B s k|k]; cbn [safe]; [done| |].
  - intros [He H]. split; [done|]. intros n2 db2 a v Hr2. apply H. by eapply rely_trans.
  - intros [He H]. split; [done|]. intros n2 db2 Hr2. apply H. by eapply rely_trans.
Qed.

(** ** Programs statement by statement *)
Lemma after_done_assoc {B C} (q : prog St B) (f : B -> prog St C) (g : C -> prog St A) :
  after_done (prog_then g (prog_then f q)) = after_done (prog_then (fun x => prog_then g (f x)) q).
Proof. induction q as [[b|e|m]|X s k IH|k IH]; [done..| |]; apply IH. Qed.
Lemma errs_assoc {B C} (p : prog St B) (f : B -> prog St C) (g : C -> prog St A) :
  errs (p ≫= fun x => f x ≫= g) -> errs ((p ≫= f) ≫= g).
Proof.
  induction p as [[b|e|m]|X s k IH|k IH]; [done..| |].
  - intros H e He. by apply IH, H.
  - intros H e. cbn. rewrite after_done_assoc. apply (H e).
Qed.
Lemma errs_throw (e : goerr) : errs (mthrow e).
Proof. done. Qed.
Lemma errs_query {B} (s : St (option B)) (k : res B -> prog St A) :
  (forall e, server_error e -> errs (k (Err e))) -> errs (p_attempt (p_scan (p_exec s)) ≫= k).
Proof. intros H e He. cbn. by apply H. Qed.

Lemma errs_or_none what {B} (s s2 : St (option B)) (k : B -> prog St A) :
  errs (p_wrapped what (p_or_no_rows (p_scan (p_exec s)) (p_scan (p_exec s2))) ≫= k).
Proof. intros e [He _]. cbn. by rewrite decide_False. Qed.

Section Steps.
Context (Q : nat -> T -> T -> res A -> Prop).

Lemma safe_assoc {B C} (p : prog St B) (f : B -> prog St C) (g : C -> prog St A) now L W n db :
  safe Q (p ≫= fun x => f x ≫= g) now L W n db -> safe Q ((p ≫= f) ≫= g) now L W n db.
Proof.
  revert L W n db. induction p as [[b|e|m]|X s k IH|k IH]; intros L W n db; [done..| |].
  - intros [He H]. split; [intros e Hse; by apply (errs_assoc (k (Err e))), He|].
    intros n' db' a v Hr Hs. destruct (H n' db' a v Hr Hs) as [Ho Hk]. split; [done|]. by apply IH.
  - intros [He H]. split; [intros e; cbn; rewrite after_done_assoc; apply (He e)|].
    intros n' db' Hr. destruct (H n' db' Hr) as (? & ? & ? & Hq).
    cbn. by rewrite after_done_assoc.
Qed.

(** What a statement that is answered [b] must lead to. *)
Definition then_safe {B} (s : St B) (next : B -> prog St A) now L W n db : Prop :=
  forall n' db' b v, rely L n db n' db' -> sem _ s now (uuid_at n') (overlay W db') = Done (b, v) ->
    ordered L (locks _ s b (overlay W db') v) /\
    safe Q (next b) now (locks _ s b (overlay W db') v ++ L)
      (W ++ versions (overlay W db') v) (S n') db'.

Definition row_or_none {B} (o : option B) : res B :=
  match o with Some b => Ok b | None => Err ErrNoRows end.

Lemma safe_query {B} (s : St (option B)) (k : res B -> prog St A) now L W n db :
  (forall e, server_error e -> errs (k (Err e))) ->
  then_safe s (fun o => k (row_or_none o)) now L W n db ->
  safe Q (p_attempt (p_scan (p_exec s)) ≫= k) now L W n db.
Proof.
  intros He H. split; [done|]. intros n' db' o v Hr Hs.
  destruct (H n' db' o v Hr Hs) as [Ho Hk]. split; [done|]. by destruct o.
Qed.
Lemma safe_scan what {B} (s : St (option B)) (k : B -> prog St A) now L W n db :
  then_safe s (fun o => match o with Some b => k b | None => mthrow ErrNoRows end) now L W n db ->
  safe Q (p_wrapped what (p_scan (p_exec s)) ≫= k) now L W n db.
Proof.
  intros H. split; [done|]. intros n' db' o v Hr Hs.
  destruct (H n' db' o v Hr Hs) as [Ho Hk]. split; [done|]. by destruct o.
Qed.
Lemma safe_or_none what {B} (s s2 : St (option B)) (k : B -> prog St A) now L W n db :
  then_safe s (fun o => match o with
    | Some b => k b
    | None => p_wrapped what (p_scan (p_exec s2)) ≫= k
    end) now L W n db ->
  safe Q (p_wrapped what (p_or_no_rows (p_scan (p_exec s)) (p_scan (p_exec s2))) ≫= k) now L W n db.
Proof.
  intros H. split; [apply (errs_or_none what s s2 k)|]. intros n' db' o v Hr Hs.
  destruct (H n' db' o v Hr Hs) as [Ho Hk]. split; [done|]. destruct o; [done|].
  cbn. by rewrite decide_True.
Qed.
Lemma safe_exec what {B} (s : St B) (k : B -> prog St A) now L W n db :
  then_safe s k now L W n db -> safe Q (p_wrapped what (p_exec s) ≫= k) now L W n db.
Proof. intros H. split; [done|exact H]. Qed.
Lemma safe_pure what {B} (r : res B) (k : B -> prog St A) now L W n db :
  (forall b, r = Ok b -> safe Q (k b) now L W n db) ->
  safe Q (p_wrapped what (End r) ≫= k) now L W n db.
Proof. intros H. destruct r as [b|e|m]; [by apply H|done..]. Qed.
Lemma safe_throw (e : goerr) now L W n db : safe Q (mthrow e) now L W n db.
Proof. done. Qed.
Lemma safe_commit what (a : A) now L W n db :
  (forall n' db', rely L n db n' db' -> let db2 := overlay W db' in
     inv n' db2 /\ stays db' db2 /\ touches L db' db2 /\ Q n' db' db2 (Ok a)) ->
  safe Q (p_wrapped what p_commit;; mret a) now L W n db.
Proof. intros H. split; [done|exact H]. Qed.
End Steps.

(** ** Safe servers *)
Context {Op : Type} (code : Op -> prog St A).
Context (spec : Op -> nat -> T -> T -> res A -> Prop) (allowed : Op -> Prop).
#[local] Abbreviation TxServer := (TxServer T St Op A).
#[local] Abbreviation OpenTx := (OpenTx T St Op A).

Definition tx_safe (n : nat) (db : T) (x : OpenTx) : Prop :=
  allowed (ot_op x) /\
  if ot_failed x then errs (ot_prog x)
  else safe (spec (ot_op x)) (ot_prog x) (ot_now x) (ot_locks x) (ot_writes x) n db.

Record server_safe (s : TxServer) : Prop := {
  ss_inv : inv (cs_tick s) (cs_db s);
  ss_open : forall i x, cs_open s !! i = Some x -> tx_safe (cs_tick s) (cs_db s) x;
  ss_locks : forall i j x y l, cs_open s !! i = Some x -> cs_open s !! j = Some y -> i <> j ->
    l ∈ ot_locks x -> (l ∉ ot_locks y);
}.

Lemma tx_safe_rely n db n' db' x :
  rely (ot_locks x) n db n' db' -> tx_safe n db x -> tx_safe n' db' x.
Proof.
  unfold tx_safe. intros Hr [Ha H]. split; [done|]. destruct (ot_failed x); [done|].
  by eapply safe_rely.
Qed.

(** A session goes on with [x'], which holds more. *)
Lemma goes_on_safe i x' s : server_safe s -> tx_safe (S (cs_tick s)) (cs_db s) x' ->
  (forall j y l, cs_open s !! j = Some y -> j <> i -> l ∈ ot_locks x' -> (l ∉ ot_locks y)) ->
  server_safe (goes_on i x' s).
Proof.
  intros [Hi Ho Hl] Hx Hfree. constructor; cbn [goes_on cs_tick cs_db cs_open].
  - eapply inv_mono; [|exact Hi]. lia.
  - intros j y [[<- <-]|[Hne Hy]]%lookup_insert_Some; [done|].
    eapply tx_safe_rely; [apply rely_refl; [|exact Hi]; lia|by eapply Ho].
  - intros j1 j2 x y l [[<- <-]|[H1 Hx1]]%lookup_insert_Some
      [[<- <-]|[H2 Hx2]]%lookup_insert_Some Hne Hin.
    + done.
    + by eapply Hfree.
    + intros Hin2. by eapply (Hfree j1).
    + by eapply (Hl j1 j2).
Qed.

(** A session ends; the tables change only where it holds locks. *)
Lemma ends_safe i x r db s : server_safe s -> cs_open s !! i = Some x ->
  inv (cs_tick s) db -> stays (cs_db s) db -> touches (ot_locks x) (cs_db s) db -> server_safe (ends i x r db s).
Proof.
  intros [Hi Ho Hl] Hx Hdb Hst Ht. constructor; cbn [ends cs_tick cs_db cs_open].
  - eapply inv_mono; [|exact Hdb]. lia.
  - intros j y [Hne Hy]%lookup_delete_Some. eapply tx_safe_rely; [|by eapply Ho].
    split_and!; [lia|eapply inv_mono; [|exact Hdb]; lia|done|].
    intros l Hin. apply Ht. by apply (Hl j i y x).
  - intros j1 j2 y1 y2 l [_ H1]%lookup_delete_Some [_ H2]%lookup_delete_Some. by apply Hl.
Qed.

(** What a step does to the tables and the answers. *)
Inductive did (s s' : TxServer) : Prop :=
| did_nothing : cs_db s' = cs_db s -> cs_out s' = cs_out s -> did s s'
| did_fail op r : cs_db s' = cs_db s -> cs_out s' = (op, r) :: cs_out s -> not_ok r -> did s s'
| did_commit op r : allowed op -> spec op (cs_tick s) (cs_db s) (cs_db s') r -> stays (cs_db s) (cs_db s') ->
    cs_out s' = (op, r) :: cs_out s -> did s s'
| did_lose op r r' : allowed op -> spec op (cs_tick s) (cs_db s) (cs_db s') r -> stays (cs_db s) (cs_db s') ->
    cs_out s' = (op, r') :: cs_out s -> not_ok r' -> did s s'.

Lemma fail_safe i x B (st : St B) k e s : server_safe s -> cs_open s !! i = Some x ->
  ot_prog x = Exec st k -> server_error e ->
  server_safe (goes_on i (fail_with e k x) s) /\ did s (goes_on i (fail_with e k x) s).
Proof.
  intros Hs Hx Hp He. pose proof (ss_open _ Hs _ _ Hx) as Ht. unfold tx_safe in Ht. rewrite Hp in Ht.
  destruct Ht as [Ha Ht]. split; [|by apply did_nothing]. apply goes_on_safe; [done| |].
  - unfold tx_safe, fail_with. cbn. split; [done|]. destruct (ot_failed x); [by apply Ht|]. by apply Ht.
  - intros j y l Hy Hne Hl Hl2. by eapply (ss_locks _ Hs i j x y l).
Qed.

Lemma commit_safe i x k s : server_safe s -> cs_open s !! i = Some x ->
  ot_prog x = Commit k -> ot_failed x = false ->
  (allowed (ot_op x) /\ stays (cs_db s) (view s x) /\
   spec (ot_op x) (cs_tick s) (cs_db s) (view s x) (after_done (k (Ok tt)))) /\
  forall r, server_safe (ends i x r (view s x) s).
Proof.
  intros Hs Hx Hp Hf. pose proof (ss_open _ Hs _ _ Hx) as Ht. unfold tx_safe in Ht.
  rewrite Hp, Hf in Ht. destruct Ht as (Ha & _ & Ht).
  destruct (Ht (cs_tick s) (cs_db s)) as (Hi & Hst & Htouch & Hq).
  { apply rely_refl; [done|apply Hs]. }
  split; [done|]. intros r. by apply ends_safe.
Qed.

Lemma abort_safe i x r s : server_safe s -> cs_open s !! i = Some x -> not_ok r ->
  server_safe (ends i x r (cs_db s) s) /\ did s (ends i x r (cs_db s) s).
Proof.
  intros Hs Hx Hr. split; [apply ends_safe; [done..|apply Hs|apply stays_refl|intros l _; apply same_refl]|].
  by eapply did_fail.
Qed.

Lemma safe_commit_errs x k n db : tx_safe n db x -> ot_prog x = Commit k ->
  forall e, not_ok (after_done (k (Err e))).
Proof.
  unfold tx_safe. intros [_ H] Hp. rewrite Hp in H. destruct (ot_failed x); [done|]. apply H.
Qed.

Lemma advances_safe i s s' : server_safe s -> advances sem i s s' -> server_safe s' /\ did s s'.
Proof.
  intros Hs [x B st k a v Hx Hp Hf Hsem Hfree|x B st k c Hx Hp Hf Hsem|x B st k Hx Hp Hf
    |x k Hx Hp Hf|x k Hx Hp Hf|x r Hx Hp].
  - split; [|by apply did_nothing]. apply goes_on_safe; [done| |].
    + pose proof (ss_open _ Hs _ _ Hx) as Ht. unfold tx_safe in *. rewrite Hp, Hf in Ht. cbn.
      destruct Ht as (Ha & _ & Ht). split; [done|]. apply Ht; [|done]. apply rely_refl; [done|apply Hs].
    + intros j y l Hy Hne [Hl|Hl]%elem_of_app; [by eapply Hfree|].
      by eapply (ss_locks _ Hs i j x y).
  - eapply fail_safe; [done..|apply server_error_pg].
  - eapply fail_safe; [done..|apply server_error_pg].
  - destruct (commit_safe i x k s Hs Hx Hp Hf) as [(Ha & Hst & Hq) Hok].
    split; [apply Hok|]. by eapply did_commit.
  - apply abort_safe; [done..|]. by eapply safe_commit_errs; [eapply ss_open|].
  - apply abort_safe; [done..|]. pose proof (ss_open _ Hs _ _ Hx) as Ht. unfold tx_safe in Ht.
    rewrite Hp in Ht. destruct Ht as [_ Ht]. by destruct (ot_failed x).
Qed.

Lemma breaks_safe i s s' : server_safe s -> breaks i s s' -> server_safe s' /\ did s s'.
Proof.
  intros Hs [x B st k msg Hx Hp|x k msg Hx Hp|x k msg Hx Hp Hf].
  - eapply fail_safe; [done..|apply server_error_new].
  - apply abort_safe; [done..|]. by eapply safe_commit_errs; [eapply ss_open|].
  - destruct (commit_safe i x k s Hs Hx Hp Hf) as [(Ha & Hst & Hq) Hok].
    split; [apply Hok|]. eapply did_lose; [done|exact Hq|done..|]. by eapply safe_commit_errs; [eapply ss_open|].
Qed.

Context (code_safe : forall op n db now, allowed op -> inv n db ->
  safe (spec op) (code op) now [] [] n db).

Lemma cstep_safe s s' : server_safe s -> cstep sem code allowed s s' -> server_safe s' /\ did s s'.
Proof.
  intros Hs [i op Hi Ha|i s2 H|i s2 H]; [|by eapply advances_safe|by eapply breaks_safe].
  split; [|by apply did_nothing]. apply goes_on_safe; [done| |].
  - split; [done|]. cbn. apply code_safe; [done|]. eapply inv_mono; [|apply Hs]. lia.
  - intros j y l _ _ Hl. by apply elem_of_nil in Hl.
Qed.

Lemma idle_safe n db : inv n db -> server_safe (idle n db).
Proof.
  intros Hi. constructor; [done| |]; cbn.
  - intros i x H. by rewrite lookup_empty in H.
  - intros i j x y l H. by rewrite lookup_empty in H.
Qed.

Lemma rtc_safe s s' : server_safe s -> rtc (cstep sem code allowed) s s' -> server_safe s'.
Proof. intros Hs H. induction H as [|s s1 s2 H _ IH]; [done|]. apply IH. by apply (cstep_safe s). Qed.

(** ** No deadlock

    A session that waits for a lock waits for a session that waits, if at all, for a lock
    of a higher rank. *)
Definition can_advance (s : TxServer) : Prop := exists i s', advances sem i s s'.

Lemma held_or_free i ls (s : TxServer) : free i ls s \/
  exists j y l, cs_open s !! j = Some y /\ j <> i /\ l ∈ ls /\ l ∈ ot_locks y.
Proof.
  destruct (decide (map_Forall (fun j (y : OpenTx) => j = i \/ Forall (fun l => l ∉ ot_locks y) ls) (cs_open s)))
    as [Hall|Hno].
  - left. intros j y l Hy Hne Hl. destruct (Hall j y Hy) as [?|H]; [done|].
    rewrite list.Forall_forall in H. by apply H.
  - right. apply map_not_Forall in Hno as (j & y & Hy & Hno); [|solve_decision].
    exists j, y. destruct (decide (Exists (fun l => l ∈ ot_locks y) ls)) as [He|He].
    + apply list.Exists_exists in He as (l & Hl & Hin). exists l. split_and!; try done.
      intros ->. apply Hno. by left.
    + destruct Hno. right. by apply Forall_Exists_neg.
Qed.

Lemma advances_or_waits i x s : server_safe s -> cs_open s !! i = Some x ->
  can_advance s \/ exists j y l, cs_open s !! j = Some y /\ l ∈ ot_locks y /\
    forall h, h ∈ ot_locks x -> (rank h < rank l)%nat.
Proof.
  intros Hs Hx. destruct (ot_prog x) as [r|B st k|k] eqn:Hp.
  { left. eexists _, _. by eapply a_end. }
  2: { left. destruct (ot_failed x) eqn:Hf; eexists _, _;
         [by eapply a_commit_failed|by eapply a_commit]. }
  destruct (ot_failed x) eqn:Hf; [left; eexists _, _; by eapply a_failed|].
  destruct (sem B st (ot_now x) (uuid_at (cs_tick s)) (view s x)) as [[a v]|c] eqn:Hsem;
    [|left; eexists _, _; by eapply a_refused].
  destruct (held_or_free i (locks B st a (view s x) v) s) as [Hfree|(j & y & l & Hy & Hne & Hl & Hly)];
    [left; eexists _, _; by eapply a_stmt|right].
  pose proof (ss_open _ Hs _ _ Hx) as Ht. unfold tx_safe in Ht. rewrite Hp, Hf in Ht.
  destruct Ht as (_ & _ & Ht). destruct (Ht (cs_tick s) (cs_db s) a v) as [Hord _];
    [apply rely_refl; [done|apply Hs]|done|].
  exists j, y, l. split_and!; [done..|]. destruct (Hord l Hl) as [Hown|H]; [|done].
  by destruct (ss_locks _ Hs i j x y l).
Qed.

(** Otherwise there would be a chain of held locks of ever higher rank. *)
Lemma no_deadlock s i x : server_safe s -> cs_open s !! i = Some x -> can_advance s.
Proof.
  intros Hs Hx.
  assert (forall m, can_advance s \/ exists j y l, cs_open s !! j = Some y /\ l ∈ ot_locks y /\
    (m <= rank l)%nat) as Hchain.
  { induction m as [|m [IH|(j & y & l & Hy & Hl & Hr)]]; [|by left|].
    - destruct (advances_or_waits i x s Hs Hx) as [?|(j & y & l & ? & ? & _)]; [by left|right].
      exists j, y, l. split_and!; [done..|lia].
    - destruct (advances_or_waits j y s Hs Hy) as [?|(j2 & y2 & l2 & ? & ? & Hlt)]; [by left|right].
      exists j2, y2, l2. split_and!; [done..|]. specialize (Hlt l Hl). lia. }
  destruct (Hchain (S top)) as [?|(j & y & l & _ & _ & Hr)]; [done|].
  pose proof (rank_top l). lia.
Qed.
End Safe.

(** ** The answer of a program, renamed *)
Section Mapped.
Context {T : Type} {St : Type -> Type} `{R : Rows T St, D : !Discipline T St, E : GoEnv} {A B : Type}.
Context (sem : forall B, St B -> statement T B).
Context (f : res A -> res B).

Definition p_map {X Y} (g : X -> Y) (p : prog St X) : prog St Y :=
  at_end (fun r => r ≫= fun a => mret (g a)) p.

Context (f_not_ok : forall r, not_ok r -> not_ok (f r)).

Lemma after_done_at_end (p : prog St A) : after_done (at_end f p) = f (after_done p).
Proof. induction p as [r|C s k IH|k IH]; [done| |]; apply IH. Qed.
Lemma errs_at_end (p : prog St A) : errs p -> errs (at_end f p).
Proof.
  induction p as [r|C s k IH|k IH]; cbn; [apply f_not_ok| |].
  - intros H e He. by apply IH, H.
  - intros H e. rewrite after_done_at_end. by apply f_not_ok.
Qed.
Lemma safe_at_end Q (p : prog St A) now L W n db :
  safe sem (fun n d d' r => Q n d d' (f r)) p now L W n db ->
  safe sem Q (at_end f p) now L W n db.
Proof.
  revert L W n db. induction p as [r|C s k IH|k IH]; intros L W n db; cbn; [apply f_not_ok| |].
  - intros [He H]. split; [intros e Hse; by apply errs_at_end, He|].
    intros n' db' a v Hr Hs. destruct (H n' db' a v Hr Hs) as [Ho Hk]. split; [done|]. by apply IH.
  - intros [He H]. split; [intros e; rewrite after_done_at_end; by apply f_not_ok|].
    intros n' db' Hr. destruct (H n' db' Hr) as (? & ? & ? & ?). by rewrite after_done_at_end.
Qed.
End Mapped.

Lemma safe_map {T St} `{R : Rows T St, D : !Discipline T St, E : GoEnv} {A B} sem (g : A -> B) Q
    (p : prog St A) now L W n db :
  safe sem (fun n d d' r => Q n d d' (r ≫= fun a => mret (g a))) p now L W n db ->
  safe sem Q (p_map g p) now L W n db.
Proof. apply safe_at_end. intros [a|e|m] H b; [by destruct (H a)|done..]. Qed.
