(* ===== verification/WalletConc.v ===== *)
(** * WalletConc: the wallet's rows, keys and locks

    What PostgreSQL locks for the statements of [internal/wallet/pgstore.go]: SELECT ... FOR
    UPDATE and UPDATE lock the rows they hit, INSERT the entries of the unique indexes.
    The share locks that foreign keys take are left out: that only allows more
    interleavings. *)

From S2P Require Import Prelude GoStd GoJson Decimal WalletModels WalletStore WalletLedger Sql.
From S2P Require Import TxProg TxConc WalletPg WalletPgLedger WalletPgOps WalletPgProps WalletTx.

(** A row by its id, or an entry of a unique index. *)
Inductive wallet_lock : Type :=
| RowWallet (id : string)
| RowTxn (id : string)
| RowRequest (id : string)
| KeyWallet (id : string)
| KeyOwner (userID currency : string)
| KeyTxn (id : string)
| KeyRef (ref : string)
| KeyRequest (id : string)
| KeyAddress (userID currency chain : string).
#[export] Instance wallet_lock_dec : EqDecision wallet_lock.
Proof. solve_decision. Defined.

#[export] Instance Wallet_dec : EqDecision Wallet.
Proof. solve_decision. Defined.
#[export] Instance TxnRow_dec : EqDecision TxnRow.
Proof. solve_decision. Defined.
#[export] Instance RequestRow_dec : EqDecision RequestRow.
Proof. solve_decision. Defined.
#[export] Instance DepositAddress_dec : EqDecision DepositAddress.
Proof. solve_decision. Defined.

(** A version of a row. *)
Inductive row_version : Type :=
| VWallet (w : Wallet)
| VTxn (r : TxnRow)
| VRequest (q : RequestRow)
| VAddress (a : DepositAddress).

(** The version takes the place of the row with its id; a new row comes last.  Deposit
    addresses are only inserted. *)
Definition put_row {A} (id : A -> string) (x : A) (l : list A) : list A :=
  if existsb (fun y => bool_decide (id y = id x)) l
  then (fun y => if bool_decide (id y = id x) then x else y) <$> l
  else l ++ [x].
Definition put_version (v : row_version) (db : wallet_db) : wallet_db :=
  match v with
  | VWallet w => wd_set_wallets (put_row wallet_ID w (wd_wallets db)) db
  | VTxn r => wd_set_transactions (put_row tr_ID r (wd_transactions db)) db
  | VRequest q => wd_set_requests (put_row rr_ID q (wd_requests db)) db
  | VAddress a => wd_set_addresses (wd_addresses db ++ [a]) db
  end.

(** The rows of [l'] that are not in [l]. *)
Definition made {A} `{EqDecision A} (l l' : list A) : list A := filter (fun x => x ∉ l) l'.
Definition wallet_versions (db db' : wallet_db) : list row_version :=
  (VWallet <$> made (wd_wallets db) (wd_wallets db')) ++
  (VTxn <$> made (wd_transactions db) (wd_transactions db')) ++
  (VRequest <$> made (wd_requests db) (wd_requests db')) ++
  (VAddress <$> made (wd_addresses db) (wd_addresses db')).

Definition id_of {A} (o : option (string * A)) : list string :=
  match o with Some (id, _) => [id] | None => [] end.
Definition wallet_locks (B : Type) (s : wallet_stmt B) : B -> wallet_db -> wallet_db -> list wallet_lock :=
  match s with
  | SelectWallet _ _ | SelectWalletByID _ => fun o _ _ =>
      match o with Some w => [RowWallet (wallet_ID w)] | None => [] end
  | InsertWallet u c => fun o _ _ =>
      match o with Some w => [KeyOwner u c; KeyWallet (wallet_ID w)] | None => [] end
  | UpsertWallet u c => fun o _ _ =>
      match o with
      | Some w => [KeyOwner u c; KeyWallet (wallet_ID w); RowWallet (wallet_ID w)]
      | None => []
      end
  | UpdateWallet _ _ _ => fun _ db db' =>
      RowWallet ∘ wallet_ID <$> made (wd_wallets db) (wd_wallets db')
  | SelectTxnByRef _ | SelectTxn _ => fun _ _ _ => []
  | InsertTxn _ _ _ _ _ _ _ _ ref _ => fun o _ _ =>
      (KeyTxn <$> id_of o) ++ match ref with Some r => [KeyRef r] | None => [] end
  | UpdateTxnStatus _ ref => fun _ db _ =>
      RowTxn ∘ tr_ID <$> filter (fun r => has_ref ref r = true) (wd_transactions db)
  | InsertRequest _ _ _ _ _ _ => fun o _ _ =>
      match o with Some (id, _, _) => [KeyRequest id] | None => [] end
  | ReviewRequest _ _ _ _ => fun _ db db' =>
      RowRequest ∘ rr_ID <$> made (wd_requests db) (wd_requests db')
  | InsertAddress u c ch _ _ => fun _ _ _ => [KeyAddress u c ch]
  end.

#[export] Instance wallet_rows : Rows wallet_db wallet_stmt := {
  lockable := wallet_lock;
  version := row_version;
  put := put_version;
  versions := wallet_versions;
  locks := wallet_locks;
}.

(** The order in which the code locks: requests, wallets, entries, the keys of new entries. *)
Definition lock_rank (l : wallet_lock) : nat :=
  match l with
  | RowRequest _ | KeyWallet _ | KeyOwner _ _ | KeyAddress _ _ _ => 0
  | RowWallet _ => 1
  | RowTxn _ | KeyRequest _ => 2
  | KeyTxn _ | KeyRef _ => 3
  end.

Lemma lock_rank_top l : (lock_rank l <= 3)%nat.
Proof. destruct l; cbn; lia. Qed.

(** A row that is locked stays as it is; a key that is locked is neither added nor removed. *)
Definition row_stays {A} (id : A -> string) (k : string) (l l' : list A) : Prop :=
  forall x, x ∈ l -> id x = k -> x ∈ l'.
Definition key_same {A K} (key : A -> K) (k : K) (l l' : list A) : Prop :=
  k ∈ key <$> l <-> k ∈ key <$> l'.
Definition wallet_same (l : wallet_lock) (db db' : wallet_db) : Prop :=
  match l with
  | RowWallet id => row_stays wallet_ID id (wd_wallets db) (wd_wallets db')
  | RowTxn id => row_stays tr_ID id (wd_transactions db) (wd_transactions db')
  | RowRequest id => row_stays rr_ID id (wd_requests db) (wd_requests db')
  | KeyWallet id => key_same wallet_ID id (wd_wallets db) (wd_wallets db')
  | KeyOwner u c => key_same row_key (u, c) (wd_wallets db) (wd_wallets db')
  | KeyTxn id => key_same tr_ID id (wd_transactions db) (wd_transactions db')
  | KeyRef ref => ref ∈ refs db <-> ref ∈ refs db'
  | KeyRequest id => key_same rr_ID id (wd_requests db) (wd_requests db')
  | KeyAddress u c ch =>
      existsb (active_address u c ch) (wd_addresses db) =
      existsb (active_address u c ch) (wd_addresses db')
  end.

(** No commit removes an entry or reopens a request. *)
Record grows (db db' : wallet_db) : Prop := {
  gr_txns : kept db db';
  gr_requests : forall q, q ∈ wd_requests db -> rr_Status q <> "pending" -> q ∈ wd_requests db';
}.

Lemma wallet_same_refl l db : wallet_same l db db.
Proof. destruct l; cbn; unfold row_stays, key_same; done. Qed.
Lemma wallet_same_trans l db1 db2 db3 :
  wallet_same l db1 db2 -> wallet_same l db2 db3 -> wallet_same l db1 db3.
Proof. destruct l; cbn; unfold row_stays, key_same; first [congruence|naive_solver]. Qed.
Lemma db_grows_refl db : grows db db.
Proof. constructor; [apply pg_kept_refl|done]. Qed.
Lemma db_grows_trans db1 db2 db3 : grows db1 db2 -> grows db2 db3 -> grows db1 db3.
Proof. intros [A B] [C D]. constructor; [by eapply kept_trans|auto]. Qed.

Section Discipline.
Context `{E : GoEnv, L : DecimalLaws, P : PgTypes, SL : Slack}.
#[export] Instance wallet_discipline : Discipline wallet_db wallet_stmt := {
  inv := pg_inv;
  stays := grows;
  same := wallet_same;
  rank := lock_rank;
  top := 3;
  inv_mono := pg_inv_mono;
  stays_refl := db_grows_refl;
  stays_trans := db_grows_trans;
  same_refl := wallet_same_refl;
  same_trans := wallet_same_trans;
  rank_top := lock_rank_top;
}.
End Discipline.

(** ** Versions of rows *)
Lemma filter_none {A} (P : A -> Prop) `{forall x, Decision (P x)} (l : list A) :
  (forall x, x ∈ l -> ~ P x) -> filter P l = [].
Proof.
  induction l as [|x l IH]; [done|]. intros Hno. rewrite filter_cons_False by (apply Hno; left).
  apply IH. intros y Hy. apply Hno. by right.
Qed.

Lemma fmap_fixed {A} (f : A -> A) (l : list A) : (forall x, x ∈ l -> f x = x) -> f <$> l = l.
Proof.
  intros Hf. rewrite <- (list_fmap_id l) at 2. apply list_fmap_ext.
  intros i x Hx%list_elem_of_lookup_2. by apply Hf.
Qed.

Section Versions.
Context {A : Type} `{EqDecision A}.

Lemma made_refl (l : list A) : made l l = [].
Proof. apply filter_none. by intros x Hx ?. Qed.
Lemma made_app (l new : list A) : (forall x, x ∈ new -> x ∉ l) -> made l (l ++ new) = new.
Proof.
  intros H. unfold made. rewrite list.filter_app. fold (made l l). rewrite made_refl. cbn.
  induction new as [|x new IH]; [done|]. rewrite filter_cons_True by (apply H; left).
  f_equal. apply IH. intros y Hy. apply H. by right.
Qed.

(** One row gets a new version. *)
Lemma made_map (id : A -> string) (f : A -> A) (l : list A) x : NoDup (id <$> l) -> x ∈ l ->
  id (f x) = id x -> f x <> x -> (forall y, y ∈ l -> y <> x -> f y = y) -> made l (f <$> l) = [f x].
Proof.
  intros Hnd Hx Hid Hne Hf.
  assert (f x ∉ l) as Hnew.
  { intros Hin. apply Hne. by apply (NoDup_fmap_eq id l). }
  assert (NoDup l) as Hnd' by (by eapply list.NoDup_fmap_1).
  apply list_elem_of_split in Hx as (l1 & l2 & ->). unfold made.
  rewrite fmap_app, fmap_cons, list.filter_app, filter_cons_True by done.
  apply list.NoDup_app in Hnd' as (_ & H1 & [H2 _]%list.NoDup_cons).
  rewrite !filter_none; [done| |].
  - intros z (y & -> & Hy)%list_elem_of_fmap Hz. apply Hz. rewrite Hf.
    + apply elem_of_app. right. by right.
    + apply elem_of_app. right. by right.
    + by intros ->.
  - intros z (y & -> & Hy)%list_elem_of_fmap Hz. apply Hz. rewrite Hf.
    + apply elem_of_app. by left.
    + apply elem_of_app. by left.
    + intros ->. apply (H1 x Hy). left.
Qed.

Lemma put_row_new (id : A -> string) x l : (id x ∉ id <$> l) -> put_row id x l = l ++ [x].
Proof.
  intros H. unfold put_row. assert (existsb (fun y => bool_decide (id y = id x)) l = false) as ->; [|done].
  apply existsb_false. intros y Hy. apply bool_decide_eq_false_2. intros Heq. apply H.
  apply list_elem_of_fmap. by exists y.
Qed.
Lemma put_row_map (id : A -> string) (f : A -> A) l x : NoDup (id <$> l) -> x ∈ l ->
  id (f x) = id x -> (forall y, y ∈ l -> y <> x -> f y = y) -> put_row id (f x) l = f <$> l.
Proof.
  intros Hnd Hx Hid Hf. unfold put_row.
  assert (existsb (fun y => bool_decide (id y = id (f x))) l = true) as ->.
  { apply existsb_exists. exists x. split; [by apply list_elem_of_In|]. by apply bool_decide_eq_true_2. }
  apply list_fmap_ext. intros i y Hy%list_elem_of_lookup_2. case_bool_decide as Heq.
  - rewrite Hid in Heq. by rewrite (NoDup_fmap_eq id l y x Hnd Hy Hx Heq).
  - symmetry. apply Hf; [done|]. intros ->. by destruct Heq.
Qed.
End Versions.
