(* ===== verification/WalletConcOps.v ===== *)
(** * WalletConcOps: what credits, debits and requests commit, whatever the others do

    The operations of the Postgres store that draw on or add to a balance are safe in the
    sense of TxConc: what they commit is one booking of the tables as they are then. *)

From S2P Require Import Prelude GoStd GoJson Decimal WalletModels WalletStore WalletLedger WalletProps Sql.
From S2P Require Import TxProg TxConc WalletPg WalletPgLedger WalletPgOps WalletPgProps WalletTx WalletConc.

(** ** What the writes touch *)
Section Touches.
Context `{E : GoEnv, L0 : DecimalLaws, P : PgTypes, SL : Slack}.

Lemma touches_trans L db1 db2 db3 : touches L db1 db2 -> touches L db2 db3 -> touches L db1 db3.
Proof. intros H1 H2 l Hl. eapply wallet_same_trans; [by apply H1|by apply H2]. Qed.
Lemma touches_refl L db : touches L db db.
Proof. intros l _. apply wallet_same_refl. Qed.

Lemma row_stays_map {A} (id : A -> string) k (f : A -> A) l :
  (forall x, x ∈ l -> id x = k -> f x = x) -> row_stays id k l (f <$> l).
Proof. intros Hf x Hx Hk. apply list_elem_of_fmap. exists x. by rewrite Hf. Qed.
Lemma row_stays_app {A} (id : A -> string) k l new : row_stays id k l (l ++ new).
Proof. intros x Hx _. apply elem_of_app. by left. Qed.
Lemma key_same_map {A K} (key : A -> K) k (f : A -> A) l :
  (forall x, key (f x) = key x) -> key_same key k l (f <$> l).
Proof.
  intros Hf. unfold key_same. by rewrite keys_map.
Qed.
Lemma key_same_app {A K} (key : A -> K) k l x : k <> key x -> key_same key k l (l ++ [x]).
Proof.
  intros Hne. unfold key_same. rewrite fmap_app, elem_of_app. cbn.
  rewrite list_elem_of_singleton. naive_solver.
Qed.

(** A new balance of a wallet. *)
Lemma touches_balance L db w t now : RowWallet (wallet_ID w) ∈ L ->
  touches L db (wd_set_wallets ((fun x => if row_hit w x then write_balance t now x else x)
                                  <$> wd_wallets db) db).
Proof.
  intros Hw [] Hl; cbn; try done; try (by intros ?).
  - apply row_stays_map. intros x _ <-. unfold row_hit. case_bool_decide as Heq; [|done].
    by rewrite Heq in Hl.
  - apply key_same_map. intros x. by destruct (row_hit w x).
  - apply key_same_map. intros x. by destruct (row_hit w x).
Qed.
(** A new wallet. *)
Lemma touches_wallet L db w : KeyWallet (wallet_ID w) ∈ L ->
  KeyOwner (wallet_UserID w) (wallet_Currency w) ∈ L ->
  touches L db (wd_set_wallets (wd_wallets db ++ [w]) db).
Proof.
  intros Hw Ho [] Hl; cbn; try done; try (by intros ?).
  - apply row_stays_app.
  - apply key_same_app. by intros ->.
  - apply key_same_app. by intros [= -> ->].
Qed.
(** A new entry. *)
Lemma touches_entry L db row : KeyTxn (tr_ID row) ∈ L ->
  (forall ref, tr_ReferenceID row = Some ref -> KeyRef ref ∈ L) ->
  touches L db (wd_set_transactions (wd_transactions db ++ [row]) db).
Proof.
  intros Hr Href [] Hl; cbn; try done; try (by intros ?).
  - apply row_stays_app.
  - apply key_same_app. by intros ->.
  - unfold refs. cbn. rewrite omap_app, elem_of_app. cbn.
    destruct (tr_ReferenceID row) as [r|] eqn:Hrow; [|by rewrite elem_of_nil; split; [left|intros [?|[]]]].
    rewrite list_elem_of_singleton. split; [by left|]. intros [?| ->]; [done|].
    by destruct Hl; apply Href.
Qed.
(** A new status of an entry. *)
Definition status_of (x : TxnRow) (status : string) (db : wallet_db) : wallet_db :=
  wd_set_transactions ((fun y => if bool_decide (y = x) then tr_set_status status y else y)
                         <$> wd_transactions db) db.
Lemma touches_status L db x status : RowTxn (tr_ID x) ∈ L -> touches L db (status_of x status db).
Proof.
  intros Hx [] Hl; cbn; try done; try (by intros ?).
  - apply row_stays_map. intros y _ <-. case_bool_decide; [by subst|done].
  - apply key_same_map. intros y. by case_bool_decide.
  - unfold refs. cbn. assert (omap tr_ReferenceID ((fun y => if bool_decide (y = x)
      then tr_set_status status y else y) <$> wd_transactions db) =
      omap tr_ReferenceID (wd_transactions db)) as ->; [|done].
    induction (wd_transactions db) as [|y l IH]; [done|]. cbn. rewrite IH. by case_bool_decide.
Qed.
(** A review. *)
Lemma touches_review L db r status th by' : r ∈ wd_requests db -> NoDup (rr_ID <$> wd_requests db) ->
  RowRequest (rr_ID r) ∈ L ->
  touches L db (wd_set_requests ((fun x => if is_pending_request (rr_ID r) x
    then review_row status th by' x else x) <$> wd_requests db) db).
Proof.
  intros Hr Hnd Hin [] Hl; cbn; try done; try (by intros ?).
  - apply row_stays_map. intros x _ <-. unfold is_pending_request. case_bool_decide as Heq; [|done].
    by rewrite Heq in Hl.
  - apply key_same_map. intros x. by destruct (is_pending_request (rr_ID r) x).
Qed.
(** A new request. *)
Lemma touches_request L db q : KeyRequest (rr_ID q) ∈ L ->
  touches L db (wd_set_requests (wd_requests db ++ [q]) db).
Proof.
  intros Hq [] Hl; cbn; try done; try (by intros ?).
  - apply row_stays_app.
  - apply key_same_app. by intros ->.
Qed.

Lemma book_two_writes w row now db :
  book w row now db = let db1 := wd_set_wallets ((fun x => if row_hit w x
    then write_balance (tr_BalanceAfter row) now x else x) <$> wd_wallets db) db in
  wd_set_transactions (wd_transactions db1 ++ [row]) db1.
Proof. done. Qed.
Lemma touches_book L db w row now : RowWallet (wallet_ID w) ∈ L -> KeyTxn (tr_ID row) ∈ L ->
  (forall ref, tr_ReferenceID row = Some ref -> KeyRef ref ∈ L) -> touches L db (book w row now db).
Proof.
  intros Hw Hr Href. rewrite book_two_writes. cbv zeta.
  eapply touches_trans; [by apply touches_balance|by apply touches_entry].
Qed.

Lemma grows_book w row now db : grows db (book w row now db).
Proof. constructor; [by eapply kept_app|done]. Qed.
Lemma grows_status x status db : grows db (status_of x status db).
Proof.
  constructor; [|done]. intros row Hr.
  exists (if bool_decide (row = x) then status else tr_Status row).
  apply list_elem_of_fmap. exists row. split; [|done].
  case_bool_decide; [done|apply same_status].
Qed.
Lemma grows_review cid status th by' db :
  grows db (wd_set_requests ((fun x => if is_pending_request cid x
    then review_row status th by' x else x) <$> wd_requests db) db).
Proof.
  constructor; [by apply kept_same|]. intros q Hq Hs. apply list_elem_of_fmap. exists q.
  split; [|done]. unfold is_pending_request. by rewrite (bool_decide_eq_false_2 (rr_Status q = "pending")), andb_false_r.
Qed.
End Touches.

(** ** Automation *)

Lemma over_app (ws ws' : list row_version) (db : wallet_db) :
  overlay (St := wallet_stmt) (ws ++ ws') db = overlay (St := wallet_stmt) ws' (overlay (St := wallet_stmt) ws db).
Proof. apply (foldl_app (fun db v => put_version v db)). Qed.

(** Rewrite the tables that a session sees over [db] by the equation [eq]. *)
Ltac overlay_is db eq :=
  match goal with |- context [@overlay _ _ _ ?W db] =>
    let t := constr:(@overlay wallet_db wallet_stmt wallet_rows W db) in
    match type of eq with _ = ?v => replace t with v by (symmetry; exact eq) end
  end.

(** The ranks of the locks in a list. *)
Ltac held_ranks :=
  let h := fresh "h" in let Hh := fresh "Hh" in intros h Hh;
  repeat (apply elem_of_cons in Hh as [->|Hh]; [cbn; lia|]); by apply elem_of_nil in Hh.

Section Ops.
Context `{E : GoEnv, L0 : DecimalLaws, P : PgTypes, PL : !PgLaws P, EL : !GoEnvLaws E, SL : Slack}.

#[local] Abbreviation safe := (safe stmt_sem).
#[local] Abbreviation then_safe := (then_safe stmt_sem).

(** ** What a statement writes and locks, under the tables it sees *)

Lemma versions_refl db : wallet_versions db db = [].
Proof. unfold wallet_versions. by rewrite !made_refl. Qed.

(** The map of [book] over the wallets, one of which it changes. *)
Definition balance_set (w : Wallet) (t : string) (now : Z) (x : Wallet) : Wallet :=
  if row_hit w x then write_balance t now x else x.
Lemma balance_set_self w t now : balance_set w t now w = write_balance t now w.
Proof. unfold balance_set, row_hit. by rewrite !bool_decide_eq_true_2. Qed.
Lemma balance_set_other w t now l x : NoDup (wallet_ID <$> l) -> w ∈ l -> x ∈ l -> x <> w ->
  balance_set w t now x = x.
Proof.
  intros Hnd Hw Hx Hne. unfold balance_set, row_hit. case_bool_decide as Hid; [|done].
  destruct Hne. by apply (NoDup_fmap_eq wallet_ID l).
Qed.

Lemma update_wallet_writes bal w now fresh db rows v : NoDup (wallet_ID <$> wd_wallets db) ->
  w ∈ wd_wallets db ->
  update_wallet bal (wallet_ID w) (wallet_Version w) now fresh db = Done (rows, v) ->
  exists t, numeric_in bal = Some t /\
    v = wd_set_wallets (balance_set w t now <$> wd_wallets db) db /\
    made (wd_wallets db) (wd_wallets v) = [write_balance t now w] /\
    wallet_versions db v = [VWallet (write_balance t now w)].
Proof.
  intros Hnd Hw. unfold update_wallet. destruct (numeric_in bal) as [t|]; [|done].
  cbn [read_in mbind answer_bind]. case_match; [done|]. intros [= _ <-]. exists t.
  assert (made (wd_wallets db) (balance_set w t now <$> wd_wallets db) =
    [write_balance t now w]) as Hm.
  { rewrite <- balance_set_self. apply (made_map wallet_ID); try done.
    - by rewrite balance_set_self.
    - rewrite balance_set_self. intros Heq. apply (f_equal wallet_Version) in Heq. cbn in Heq. lia.
    - intros y Hy Hne. by eapply balance_set_other. }
  split; [done|]. split; [done|]. split; [exact Hm|].
  change (wallet_versions db (wd_set_wallets (balance_set w t now <$> wd_wallets db) db) =
    [VWallet (write_balance t now w)]). unfold wallet_versions.
  cbn [wd_wallets wd_transactions wd_requests wd_addresses wd_set_wallets].
  by rewrite Hm, !made_refl.
Qed.

Lemma put_balance w t now db : NoDup (wallet_ID <$> wd_wallets db) -> w ∈ wd_wallets db ->
  put_version (VWallet (write_balance t now w)) db =
  wd_set_wallets (balance_set w t now <$> wd_wallets db) db.
Proof.
  intros Hnd Hw. cbn. f_equal. rewrite <- balance_set_self.
  apply put_row_map; try done; [by rewrite balance_set_self|].
  intros y Hy Hne. by eapply balance_set_other.
Qed.

Lemma insert_txn_writes row db : (tr_ID row ∉ tr_ID <$> wd_transactions db) ->
  wallet_versions db (wd_set_transactions (wd_transactions db ++ [row]) db) = [VTxn row].
Proof.
  intros Hnew. unfold wallet_versions.
  cbn [wd_wallets wd_transactions wd_requests wd_addresses wd_set_transactions].
  rewrite !made_refl, made_app; [done|].
  intros x ->%list_elem_of_singleton Hx. apply Hnew. by apply list_elem_of_fmap_2.
Qed.

Lemma fresh_entry n db k : pg_inv n db -> (n <= k)%nat -> (uuid_at k ∉ tr_ID <$> wd_transactions db).
Proof.
  intros Hi Hk (row & Heq & Hin)%list_elem_of_fmap. pose proof (pi_txns _ _ Hi) as H.
  rewrite list.Forall_forall in H. destruct (H row Hin) as [Hd _].
  rewrite <- Heq in Hd. by eapply not_drawn.
Qed.
(** What a session knows as long as it holds its locks. *)
Lemma rely_row_wallet L n db n' db' w : rely L n db n' db' -> RowWallet (wallet_ID w) ∈ L ->
  w ∈ wd_wallets db -> w ∈ wd_wallets db'.
Proof. intros (_ & _ & _ & Hs) Hl Hw. exact (Hs _ Hl w Hw eq_refl). Qed.

(** One more step of the others, under more locks. *)
Lemma rely_step L L' n db n1 db1 n2 db2 : (forall l, l ∈ L -> l ∈ L') ->
  rely L n db n1 db1 -> rely L' (S n1) db1 n2 db2 -> rely L n db n2 db2.
Proof.
  intros Hs H1 H2. eapply rely_trans; [exact H1|]. destruct H2 as (? & ? & ? & H).
  split; [lia|]. split; [done|]. split; [done|]. intros l Hl. by apply H, Hs.
Qed.

(** ** The look-up of a reference *)

Definition entry_found (ref : string) (db : wallet_db) (t : Transaction) : Prop :=
  ref <> "" /\ exists row, row ∈ wd_transactions db /\ tr_ReferenceID row = Some ref /\ same_entry t row.

Lemma by_ref_safe (Q : nat -> wallet_db -> wallet_db -> res Transaction -> Prop) what ref m now n db :
  (forall t n' db', pg_inv n' db' -> entry_found ref db' t -> Q n' db' db' (Ok t)) ->
  errs m -> safe Q m now [] [] n db ->
  safe Q (existing ← by_ref_prog what ref; match existing with Some t => mret t | None => m end)
    now [] [] n db.
Proof.
  intros Hfound Herr Hm. unfold by_ref_prog. case_decide as Href; [exact Hm|].
  unfold existing_prog. apply safe_assoc, safe_query.
  { intros e [_ ->]. apply errs_throw. }
  intros n1 db1 o v Hr1 Hsem. cbn in Hsem. injection Hsem as <- <-. split; [by intros l ?%elem_of_nil|].
  cbn [locks wallet_rows wallet_locks versions overlay foldl app]. rewrite versions_refl.
  destruct (first_row (has_ref ref) (wd_transactions db1)) as [row|] eqn:Hrow; cbn [row_or_none fmap option_fmap option_map].
  2: { change (errors_Is ErrNoRows ErrNoRows) with true. cbn iota. change (mret None ≫= ?f) with (f None).
       cbv beta iota. eapply safe_rely; [|exact Hm].
       destruct Hr1 as (? & Hi & ? & Hs). split_and!; [lia|eapply pg_inv_mono; [|exact Hi]; lia|done..]. }
  apply first_row_Some in Hrow as [Hin1 Hr%bool_decide_eq_true].
  apply safe_assoc, safe_scan. intros n2 db2 o v Hr2 Hsem.
  split; [by intros l ?%elem_of_nil|]. cbn in Hsem.
  destruct Hr2 as (_ & Hi2 & Hg2 & _).
  assert (uuid_in (tr_ID row) = Some (tr_ID row)) as Hu.
  { destruct Hr1 as (_ & Hi1 & _). pose proof (pi_txns _ _ Hi1) as Hd. rewrite list.Forall_forall in Hd.
    destruct (Hd row Hin1) as [(k & _ & ->) _]. apply uuid_own. }
  unfold select_txn in Hsem. rewrite Hu in Hsem. cbn [read_in mbind answer_bind] in Hsem.
  destruct (gr_txns _ _ Hg2 row Hin1) as (st2 & Hin2).
  set (row2 := tr_set_status st2 row) in *.
  change (tr_ID row) with (tr_ID row2) in Hsem.
  rewrite (row_by_id _ db2 row2 Hi2 Hin2) in Hsem. injection Hsem as <- <-.
  cbn [locks wallet_rows wallet_locks versions fmap option_fmap option_map app]. rewrite versions_refl.
  apply safe_assoc. split; [done|]. intros n3 db3 (_ & Hi3 & Hg3 & _).
  cbn [overlay foldl app]. split_and!; [done|apply db_grows_refl|apply touches_refl|].
  apply Hfound; [done|]. split; [done|].
  destruct (gr_txns _ _ Hg3 row2 Hin2) as (st3 & Hin3).
  exists (tr_set_status st3 row2). split; [done|]. split; [done|]. by exists st2.
Qed.

(** After a failed INSERT the transaction is aborted: the look-up fails as well. *)
Lemma fallback_errs what ref (e : goerr) :
  errs (existing ← by_ref_prog what ref;
    match existing with Some txn => mret txn | None => mthrow (ErrWrap "insert transaction" e) end).
Proof.
  unfold by_ref_prog. case_decide; [done|]. unfold existing_prog. apply errs_assoc, errs_query.
  by intros e' [_ ->].
Qed.

(** ** Drawing and writing a balance *)

(** The UPDATE of the balance of a wallet whose row is locked. *)
Lemma write_balance_safe {A} (Q : nat -> wallet_db -> wallet_db -> res A -> Prop)
    bal w (k : prog wallet_stmt A) now L W n db
    (f : wallet_db -> wallet_db) :
  (RowWallet (wallet_ID w) ∈ L \/ forall h, h ∈ L -> (lock_rank h < 1)%nat) ->
  (forall n' db', rely L n db n' db' -> overlay W db' = f db' /\
     NoDup (wallet_ID <$> wd_wallets (f db')) /\ w ∈ wd_wallets (f db')) ->
  (forall n' db' t, rely L n db n' db' -> numeric_in bal = Some t ->
     safe Q k now (RowWallet (wallet_ID w) :: L) (W ++ [VWallet (write_balance t now w)]) (S n') db') ->
  safe Q (write_balance_prog bal w;; k) now L W n db.
Proof.
  intros Hord Hf Hk. unfold write_balance_prog. apply safe_assoc, safe_exec.
  intros n' db' rows v Hr Hsem. destruct (Hf n' db' Hr) as (Hov & Hnd & Hw).
  cbn [stmt_sem] in Hsem. rewrite Hov in *.
  destruct (update_wallet_writes bal w now _ _ rows v Hnd Hw Hsem) as (t & Ht & -> & Hm & Hv).
  cbn [locks wallet_rows wallet_locks versions]. rewrite Hv. rewrite Hm.
  split.
  - intros l ->%list_elem_of_singleton. destruct Hord as [?|H]; [by left|by right].
  - case_decide; [apply safe_throw|]. cbn [app fmap list_fmap]. by eapply Hk.
Qed.

(** The tables with a new balance of [w]. *)
Definition with_balance (w : Wallet) (t : string) (now : Z) (db : wallet_db) : wallet_db :=
  wd_set_wallets (balance_set w t now <$> wd_wallets db) db.

Lemma overlay_balance n db w t now : pg_inv n db -> w ∈ wd_wallets db ->
  overlay [VWallet (write_balance t now w)] db = with_balance w t now db.
Proof. intros Hi Hw. apply put_balance; [apply Hi|done]. Qed.

(** SELECT ... FOR UPDATE, the comparison and the UPDATE. *)
Lemma draw_safe {A} (Q : nat -> wallet_db -> wallet_db -> res A -> Prop) what u c a
    (k : Wallet * string -> prog wallet_stmt A) now n db :
  (forall w bal t n' db', pg_inv n' db' -> can_draw u c a w db' ->
     subDecimal (wallet_Balance w) a = Ok bal -> numeric_in bal = Some t ->
     safe Q (k (w, bal)) now [RowWallet (wallet_ID w); RowWallet (wallet_ID w)]
       [VWallet (write_balance t now w)] n' db') ->
  safe Q (draw_prog what u c a ≫= k) now [] [] n db.
Proof.
  intros Hk. unfold draw_prog. apply safe_assoc, safe_query.
  { intros e [He _]. rewrite decide_False by done. done. }
  intros n1 db1 o v Hr1 Hsem. cbn in Hsem. injection Hsem as <- <-.
  split; [intros l _; right; by intros h ?%elem_of_nil|].
  cbn [locks wallet_rows wallet_locks versions overlay foldl]. rewrite versions_refl.
  destruct (first_row _ _) as [w|] eqn:Hrow; cbn [row_or_none app].
  2: { rewrite decide_True by done. apply safe_throw. }
  apply first_row_Some in Hrow as [Hw Hkey%same_wallet_key].
  change (mret w ≫= ?f) with (f w). cbv beta.
  apply safe_assoc, safe_pure. intros cb Hcb%NewFromString_Ok.
  apply safe_assoc, safe_pure. intros da Hda%NewFromString_Ok.
  destruct (dec_LessThan cb da) eqn:Hlt; [apply safe_throw|].
  apply safe_assoc, safe_pure. intros bal Hbal.
  apply safe_assoc. eapply (write_balance_safe _ _ _ _ _ _ _ _ _ (fun db => db)).
  { left. by apply list_elem_of_singleton. }
  - intros n' db' Hr. split; [done|]. split; [apply Hr|].
    eapply rely_row_wallet; [exact Hr|by apply list_elem_of_singleton|done].
  - intros n' db' t Hr Ht. apply Hk; [|split|done..].
    + eapply pg_inv_mono; [|apply Hr]. lia.
    + eapply rely_row_wallet; [exact Hr|by apply list_elem_of_singleton|done].
    + split; [done|]. exists (dval cb), (dval da).
      split; [by apply is_amount_parse|]. split; [by apply is_amount_parse|by apply not_LessThan].
Qed.

(** ** The entry and the commit *)

Definition key_of_ref (ref : option string) : list wallet_lock :=
  match ref with Some r => [KeyRef r] | None => [] end.

(** The tables with a new entry. *)
Definition with_entry (row : TxnRow) (db : wallet_db) : wallet_db :=
  wd_set_transactions (wd_transactions db ++ [row]) db.

(** An INSERT INTO transactions under the writes [W], which leave the ids and references of
    the entries. *)
Lemma insert_txn_safe u wid c typ a before bal st ref md now L n db (f : wallet_db -> wallet_db)
    o v :
  (forall h, h ∈ L -> (lock_rank h < 3)%nat) -> pg_inv n db ->
  refs (f db) = refs db ->
  tr_ID <$> wd_transactions (f db) = tr_ID <$> wd_transactions db ->
  insert_txn u wid c typ a before bal st ref md now (uuid_at n) (f db) = Done (o, v) ->
  let ls := wallet_locks _ (InsertTxn u wid c typ a before bal st ref md) o (f db) v in
  exists row, o = Some (tr_ID row, now) /\ ordered L ls /\
    ls = KeyTxn (tr_ID row) :: key_of_ref ref /\ wallet_versions (f db) v = [VTxn row] /\
    (tr_ID row ∉ tr_ID <$> wd_transactions db) /\ tr_ReferenceID row = ref /\
    tr_CreatedAt row = now /\
    forall w n', wallet_ID w = wid -> wallet_Balance w = before -> (n < n')%nat -> entry_row typ u c a bal st ref md w 0 n' db row.
Proof.
  intros Hord Hi Hrefs Hids H. cbv zeta.
  apply insert_txn_row in H as (row & -> & Hid & Hnow & -> & Hrow). exists row.
  assert (tr_ID row ∉ tr_ID <$> wd_transactions db) as Hnew by (rewrite Hid; by eapply fresh_entry).
  split; [done|]. split.
  { intros l Hl. right. intros h Hh. specialize (Hord h Hh). cbn in Hl.
    assert (lock_rank l = 3%nat) as Hrank; [|cbn; by rewrite Hrank].
    apply elem_of_cons in Hl as [->|Hl]; [done|]. destruct ref; [|by apply elem_of_nil in Hl].
    by apply list_elem_of_singleton in Hl as ->. }
  split; [done|]. split; [apply insert_txn_writes; by rewrite Hids|]. split; [done|].
  assert (forall w n', wallet_ID w = wid -> wallet_Balance w = before -> (n < n')%nat ->
    entry_row typ u c a bal st ref md w 0 n' (f db) row) as Her.
  { intros w n' Hw Hb Hn. eapply (Hrow w 0%nat n'); [done|done|lia]. }
  split; [|split; [done|]].
  - pose proof (Hrow (mkWallet wid "" "" before 0 0 0) 0%nat (S n) eq_refl eq_refl ltac:(lia)) as H0.
    apply (er_ref H0).
  - intros w n' Hw Hb Hn. destruct (Her w n' Hw Hb Hn) as [? ? ? ? ? ? ? ? ? ? Hf ?].
    constructor; try done. destruct ref; [by rewrite <- Hrefs|done].
Qed.

(** The entry stays new and its reference unbooked while their keys are held. *)
Lemma entry_row_rely typ u c a bal st ref md w n0 L n db n' db' row :
  rely (KeyTxn (tr_ID row) :: key_of_ref ref ++ L) n db n' db' ->
  (tr_ID row ∉ tr_ID <$> wd_transactions db) -> entry_row typ u c a bal st ref md w 0 n0 db row ->
  (n0 <= n')%nat ->
  (tr_ID row ∉ tr_ID <$> wd_transactions db') /\ entry_row typ u c a bal st ref md w 0 n' db' row.
Proof.
  intros (_ & _ & _ & Hs) Hnew [? ? ? ? ? ? ? ? ? ? Hf (k & Hk & Hid)] Hn. split.
  - pose proof (Hs (KeyTxn (tr_ID row)) ltac:(left)) as Hk'. by intros ?%Hk'.
  - constructor; try done; [|exists k; split; [lia|done]].
    destruct ref as [r|]; [|done]. pose proof (Hs (KeyRef r) ltac:(right; left)) as Hk'. by intros ?%Hk'.
Qed.

Lemma overlay_entry W db (f : wallet_db -> wallet_db) row : overlay W db = f db ->
  tr_ID <$> wd_transactions (f db) = tr_ID <$> wd_transactions db ->
  (tr_ID row ∉ tr_ID <$> wd_transactions db) ->
  overlay (W ++ [VTxn row]) db = with_entry row (f db).
Proof.
  intros Hov Hids Hnew. rewrite overlay_app, Hov. cbn. unfold with_entry. f_equal.
  apply put_row_new. by rewrite Hids.
Qed.

Definition entries_kept (f : wallet_db -> wallet_db) : Prop := forall db,
  refs (f db) = refs db /\ tr_ID <$> wd_transactions (f db) = tr_ID <$> wd_transactions db.

(** INSERT INTO transactions and COMMIT, under writes that leave the entries' keys. *)
Lemma insert_commits {A} (Q : nat -> wallet_db -> wallet_db -> res A -> Prop)
    u wid c typ a before bal st ref md (next : option (string * Z) -> prog wallet_stmt A)
    (ans : string -> Z -> A) w now L W n db (f : wallet_db -> wallet_db) :
  wallet_ID w = wid -> wallet_Balance w = before ->
  (forall id created, next (Some (id, created)) = (p_wrapped "commit" p_commit;; mret (ans id created))) ->
  (forall h, h ∈ L -> (lock_rank h < 3)%nat) -> entries_kept f ->
  (forall n' db', rely L n db n' db' -> overlay W db' = f db') ->
  (forall n' db' row, rely L n db n' db' -> (tr_ID row ∉ tr_ID <$> wd_transactions db') ->
     entry_row typ u c a bal st ref md w 0 n' db' row -> tr_CreatedAt row = now ->
     let db2 := with_entry row (f db') in
     pg_inv n' db2 /\ grows db' db2 /\
     touches (KeyTxn (tr_ID row) :: key_of_ref ref ++ L) db' db2 /\
     Q n' db' db2 (Ok (ans (tr_ID row) now))) ->
  then_safe Q (InsertTxn u wid c typ a before bal st ref md) next now L W n db.
Proof.
  intros Hw Hbefore Hnext Hord Hkept Hov Hfin n1 db1 o v Hr1 Hsem. cbn [stmt_sem] in Hsem.
  rewrite (Hov n1 db1 Hr1) in *. destruct (Hkept db1) as [Hrefs Hids].
  destruct (insert_txn_safe u wid c typ a before bal st ref md now L n1 db1 f o v
    Hord (proj1 (proj2 Hr1)) Hrefs Hids Hsem)
    as (row & -> & Hordl & Hls & Hvs & Hnew & Href & Hnow & Hrow).
  cbn [locks wallet_rows versions]. split; [exact Hordl|].
  rewrite Hls, Hvs, Hnext. apply safe_commit. intros n2 db2 Hr2. cbv zeta.
  destruct (entry_row_rely typ u c a bal st ref md w (S n1) L _ _ _ _ row Hr2 Hnew
    (Hrow w (S n1) Hw Hbefore ltac:(lia))) as [Hnew2 Her2]; [by destruct Hr2|].
  assert (rely L n db n2 db2) as Hr.
  { eapply rely_step; [|exact Hr1|exact Hr2]. intros l Hl. right. apply elem_of_app. by right. }
  overlay_is db2 (overlay_entry W db2 f row (Hov n2 db2 Hr) (proj2 (Hkept db2)) Hnew2).
  by apply Hfin.
Qed.

(** The common tail of CreditWallet and DebitWallet. *)
Lemma record_safe (Q : nat -> wallet_db -> wallet_db -> res Transaction -> Prop)
    typ u c a bal ref md w now L W n db (f : wallet_db -> wallet_db) :
  (forall h, h ∈ L -> (lock_rank h < 3)%nat) -> entries_kept f ->
  (forall n' db', rely L n db n' db' -> overlay W db' = f db') ->
  (forall n' db' row t, rely L n db n' db' -> (tr_ID row ∉ tr_ID <$> wd_transactions db') ->
     entry_row typ u c a bal "completed" (ref_opt ref) (jsonb_in md) w 0 n' db' row ->
     new_entry typ u c a bal ref w t row ->
     let L' := KeyTxn (tr_ID row) :: key_of_ref (ref_opt ref) ++ L in
     let db2 := with_entry row (f db') in
     pg_inv n' db2 /\ grows db' db2 /\ touches L' db' db2 /\ Q n' db' db2 (Ok t)) ->
  safe Q (record_prog typ u c a bal ref md w) now L W n db.
Proof.
  intros Hord Hkept Hov Hfin. unfold record_prog. apply safe_query.
  { intros e _. apply fallback_errs. }
  eapply (insert_commits _ _ _ _ _ _ _ _ _ _ _ _ _ w _ _ _ _ _ f); [done|done| |done..|].
  - by intros id created.
  - intros n' db' row Hr Hnew Her Hnow. apply Hfin; [done..|]. unfold new_entry. by rewrite Hnow.
Qed.

(** ** Bookings *)

(** What a credit and a debit commit, as the tables are at that moment. *)
Definition credits u c a ref md n db (t : Transaction) db' : Prop :=
  entry_found ref db t /\ db' = db \/
  ref_free ref db /\ exists w db1, opened_wallet u c 0 n db w db1 /\
    booked addDecimal "deposit" u c a ref md 0 n w db1 t db'.
Definition debits u c a ref md n db (t : Transaction) db' : Prop :=
  entry_found ref db t /\ db' = db \/
  ref_free ref db /\ exists w, can_draw u c a w db /\
    booked subDecimal "withdrawal" u c a ref md 0 n w db t db'.

Lemma entries_kept_balance w t now : entries_kept (with_balance w t now).
Proof. by intros db. Qed.

Lemma book_with_entry w row now bal t db : numeric_in bal = Some t ->
  numeric_in bal = Some (tr_BalanceAfter row) ->
  with_entry row (with_balance w t now db) = book w row now db.
Proof. intros Ht Hr. rewrite Ht in Hr. by injection Hr as ->. Qed.

Lemma ref_in_keys typ u c a bal st ref md w n m db row L :
  entry_row typ u c a bal st ref md w n m db row -> forall x, tr_ReferenceID row = Some x ->
  KeyRef x ∈ key_of_ref ref ++ L.
Proof. intros Her x Hx. rewrite (er_ref Her) in Hx. subst ref. left. Qed.

(** The booking of an entry of a wallet that is in the tables and locked. *)
Lemma booked_safe typ op u c a bal st ref md w n db row now t L :
  computes typ op -> fits_text a -> pg_inv n db -> w ∈ wd_wallets db -> RowWallet (wallet_ID w) ∈ L ->
  op (wallet_Balance w) a = Ok bal -> numeric_in bal = Some t ->
  (tr_ID row ∉ tr_ID <$> wd_transactions db) -> entry_row typ u c a bal st ref md w 0 n db row ->
  let db2 := with_entry row (with_balance w t now db) in
  db2 = book w row now db /\ pg_inv n db2 /\ grows db db2 /\
  touches (KeyTxn (tr_ID row) :: key_of_ref ref ++ L) db db2.
Proof.
  intros Hop H8 Hi Hw Hl Hbal Ht Hnew Her. cbv zeta.
  rewrite (book_with_entry w row now bal t db Ht (er_after Her)).
  split; [done|]. split; [by eapply entry_inv_new|]. split; [apply grows_book|].
  apply touches_book; [right; apply elem_of_app; by right|left|].
  intros x Hx. right. by eapply ref_in_keys.
Qed.

Lemma ref_free_entry typ u c a bal st ref md w n m db row :
  entry_row typ u c a bal st (ref_opt ref) md w n m db row -> ref_free ref db.
Proof. intros [? ? ? ? ? ? ? ? ? ? Hf ?]. exact Hf. Qed.

Lemma debit_safe u c a ref md now n db : fits_text a -> pg_inv n db ->
  safe (fun n d d' r => exists t, r = Ok t /\ debits u c a ref md n d t d')
    (debit_prog u c a ref md) now [] [] n db.
Proof.
  intros H8 Hi. unfold debit_prog. apply by_ref_safe.
  - intros t n' db' _ Hf. exists t. split; [done|]. by left.
  - unfold draw_prog. apply errs_assoc, errs_query. intros e [He _]. by rewrite decide_False.
  - apply draw_safe. intros w bal t n1 db1 Hi1 Hw1 Hbal Ht.
    eapply (record_safe _ _ _ _ _ _ _ _ _ _ _ _ _ _ (with_balance w t now)).
    + held_ranks.
    + apply entries_kept_balance.
    + intros n2 db2 Hr. eapply overlay_balance; [apply Hr|].
      eapply rely_row_wallet; [exact Hr|left|apply Hw1].
    + intros n2 db2 row txn Hr Hnew Her Hse. cbv zeta.
      assert (w ∈ wd_wallets db2) as Hw2 by (eapply rely_row_wallet; [exact Hr|left|apply Hw1]).
      destruct (booked_safe "withdrawal" subDecimal u c a bal "completed" (ref_opt ref) (jsonb_in md) w n2 db2 row now t
        [RowWallet (wallet_ID w); RowWallet (wallet_ID w)] sub_computes H8 (proj1 (proj2 Hr)) Hw2
        ltac:(left) Hbal Ht Hnew Her) as (-> & ? & ? & ?).
      split_and!; [done..|]. exists txn. split; [done|]. right.
      split; [by eapply ref_free_entry|]. exists w. split.
      * destruct Hw1 as (_ & ? & ?). by split_and!.
      * exists bal, row, now. by split_and!.
Qed.

(** A new wallet of [u] and [c], not yet committed. *)
Definition with_wallet (w : Wallet) (db : wallet_db) : wallet_db :=
  wd_set_wallets (wd_wallets db ++ [w]) db.

Lemma rely_new_wallet L n db n' db' w : rely L n db n' db' -> KeyWallet (wallet_ID w) ∈ L ->
  (wallet_ID w ∉ wallet_ID <$> wd_wallets db) -> (wallet_ID w ∉ wallet_ID <$> wd_wallets db').
Proof. intros (_ & _ & _ & Hs) Hl Hw. pose proof (Hs _ Hl) as H. by intros ?%H. Qed.
Lemma rely_new_owner L n db n' db' u c : rely L n db n' db' -> KeyOwner u c ∈ L ->
  ((u, c) ∉ row_key <$> wd_wallets db) -> ((u, c) ∉ row_key <$> wd_wallets db').
Proof. intros (_ & _ & _ & Hs) Hl Hw. pose proof (Hs _ Hl) as H. by intros ?%H. Qed.

Lemma overlay_wallet db w : (wallet_ID w ∉ wallet_ID <$> wd_wallets db) ->
  overlay [VWallet w] db = with_wallet w db.
Proof. intros H. cbn. unfold with_wallet. f_equal. by apply put_row_new. Qed.


(** The tail of a credit of the wallet [w], which [f0] puts into the tables. *)
Lemma insert_wallet_writes u c now n db o v : pg_inv n db ->
  insert_wallet u c now (uuid_at n) db = Done (o, v) ->
  exists b, numeric_in "0" = Some b /\ ((u, c) ∉ row_key <$> wd_wallets db) /\
    let w := mkWallet (uuid_at n) u c b 0 now now in
    o = Some w /\ v = with_wallet w db /\ wallet_versions db v = [VWallet w].
Proof.
  intros Hi. unfold insert_wallet. destruct (numeric_in "0") as [b|]; [|done].
  cbn [read_in mbind answer_bind]. destruct (existsb _ _) eqn:Hex; [done|]. intros [= <- <-].
  exists b. split; [done|]. split.
  { intros (w & Heq & Hw)%list_elem_of_fmap. rewrite existsb_false in Hex.
    assert (same_wallet u c w = true) as Hs by (by apply same_wallet_key). by rewrite Hex in Hs. }
  split; [done|]. split; [done|]. unfold wallet_versions.
  cbn [wd_wallets wd_transactions wd_requests wd_addresses wd_set_wallets].
  rewrite !made_refl, made_app; [done|]. intros x ->%list_elem_of_singleton Hx.
  eapply (fresh_wallet n db n Hi); [done|]. change (uuid_at n) with (wallet_ID
    (mkWallet (uuid_at n) u c b 0 now now)). by apply list_elem_of_fmap_2.
Qed.

Lemma credit_tail_safe u c a ref md w now L W n db (f0 : wallet_db -> wallet_db)
    (Q : nat -> wallet_db -> wallet_db -> res Transaction -> Prop) :
  fits_text a -> (forall h, h ∈ L -> (lock_rank h < 3)%nat) ->
  (RowWallet (wallet_ID w) ∈ L \/ forall h, h ∈ L -> (lock_rank h < 1)%nat) ->
  (forall db, wd_transactions (f0 db) = wd_transactions db) ->
  (forall n' db', rely L n db n' db' -> overlay W db' = f0 db' /\ pg_inv n' (f0 db') /\
     w ∈ wd_wallets (f0 db') /\ grows db' (f0 db') /\ touches L db' (f0 db')) ->
  (forall n' db' bal row txn now', rely L n db n' db' -> addDecimal (wallet_Balance w) a = Ok bal ->
     entry_row "deposit" u c a bal "completed" (ref_opt ref) (jsonb_in md) w 0 n' (f0 db') row ->
     new_entry "deposit" u c a bal ref w txn row -> Q n' db' (book w row now' (f0 db')) (Ok txn)) ->
  safe Q (newBalance ← p_wrapped "credit wallet" (End (addDecimal (wallet_Balance w) a));
    write_balance_prog newBalance w;;
    record_prog "deposit" u c a newBalance ref md w) now L W n db.
Proof.
  intros H8 Hord Hrow Hsame Hf0 Hfin. apply safe_pure. intros bal Hbal.
  eapply (write_balance_safe _ _ _ _ _ _ _ _ _ f0); [done| |].
  { intros n' db' Hr. destruct (Hf0 n' db' Hr) as (? & Hi & ? & _). by split_and!; [|apply Hi|]. }
  intros n1 db1 t Hr1 Ht.
  assert (forall n' db', rely (RowWallet (wallet_ID w) :: L) (S n1) db1 n' db' -> rely L n db n' db') as Hweak.
  { intros n' db' Hr. eapply rely_trans; [exact Hr1|]. destruct Hr as (? & ? & ? & Hs).
    split_and!; [lia|done..|]. intros l Hl. apply Hs. by right. }
  eapply (record_safe _ _ _ _ _ _ _ _ _ _ _ _ _ _ (fun db => with_balance w t now (f0 db))).
  - intros h [->|Hh]%elem_of_cons; [cbn; lia|by apply Hord].
  - intros d. unfold refs. cbn. by rewrite Hsame.
  - intros n2 db2 Hr. destruct (Hf0 n2 db2 (Hweak _ _ Hr)) as (Hov & Hi & Hw & _).
    rewrite overlay_app, Hov. by eapply overlay_balance.
  - intros n2 db2 row txn Hr Hnew Her Hse. cbv zeta.
    pose proof (Hweak _ _ Hr) as Hr'. destruct (Hf0 n2 db2 Hr') as (Hov & Hi & Hw & Hg & Htch).
    assert (entry_row "deposit" u c a bal "completed" (ref_opt ref) (jsonb_in md) w 0 n2 (f0 db2) row) as Her'.
    { destruct Her. constructor; try done. unfold refs in *. by rewrite Hsame. }
    destruct (booked_safe "deposit" addDecimal u c a bal "completed" (ref_opt ref) (jsonb_in md) w n2 (f0 db2) row now t
      (RowWallet (wallet_ID w) :: L) (add_computes "deposit" ltac:(done)) H8 Hi Hw ltac:(left) Hbal Ht)
      as (-> & Hi2 & Hg2 & Ht2); [by rewrite Hsame|done|].
    split_and!; [done|by eapply db_grows_trans| |by eapply Hfin].
    eapply touches_trans; [|exact Ht2]. intros l Hl. apply Htch. intros Hin. apply Hl.
    right. apply elem_of_app. right. by right.
Qed.

Lemma credit_safe u c a ref md now n db : fits_text a -> pg_inv n db ->
  safe (fun n d d' r => exists t, r = Ok t /\ credits u c a ref md n d t d')
    (credit_prog u c a ref md) now [] [] n db.
Proof.
  intros H8 Hi. unfold credit_prog. apply by_ref_safe.
  - intros t n' db' _ Hf. exists t. split; [done|]. by left.
  - apply errs_or_none.
  - apply safe_or_none. intros n1 db1 o v Hr1 Hsem. cbn in Hsem. injection Hsem as <- <-.
    split; [intros l _; right; by intros h ?%elem_of_nil|].
    cbn [locks wallet_rows wallet_locks versions overlay foldl app]. rewrite versions_refl.
    destruct (first_row _ _) as [w|] eqn:Hrow; cbn [app].
    + apply first_row_Some in Hrow as [Hw Hkey%same_wallet_key].
      assert (forall n' db', rely [RowWallet (wallet_ID w)] (S n1) db1 n' db' -> w ∈ wd_wallets db') as Hin.
      { intros n' db' Hr. eapply rely_row_wallet; [exact Hr|left|done]. }
      apply (credit_tail_safe _ _ _ _ _ _ _ _ _ _ _ (fun db => db)); try done.
      * intros h ->%list_elem_of_singleton. cbn. lia.
      * left. left.
      * intros n' db' Hr. split; [done|]. split; [apply Hr|]. split; [by eapply Hin|].
        split; [apply db_grows_refl|apply touches_refl].
      * intros n' db' bal row txn now' Hr Hbal Her Hse. exists txn. split; [done|]. right.
        split; [by eapply ref_free_entry|]. exists w, db'. split; [|by exists bal, row, now'].
        constructor; [by eapply Hin|done].
    + apply safe_scan. intros n2 db2 o v Hr2 Hsem. cbn [stmt_sem overlay foldl] in *.
      assert (pg_inv n2 db2) as Hi2 by apply Hr2.
      destruct (insert_wallet_writes u c now n2 db2 o v Hi2 Hsem) as (b & Hb & Hkey & -> & -> & Hv).
      split; [intros l _; right; by intros h ?%elem_of_nil|].
      cbn [locks wallet_rows wallet_locks versions app]. rewrite Hv.
      set (w := mkWallet (uuid_at n2) u c b 0 now now).
      change (KeyWallet (uuid_at n2)) with (KeyWallet (wallet_ID w)).
      assert (wallet_ID w ∉ wallet_ID <$> wd_wallets db2) as Hnew by (by eapply fresh_wallet).
      assert (forall n' db', rely [KeyOwner u c; KeyWallet (wallet_ID w)] (S n2) db2 n' db' ->
        (wallet_ID w ∉ wallet_ID <$> wd_wallets db') /\ ((u, c) ∉ row_key <$> wd_wallets db') /\
        (n2 < n')%nat) as Hst.
      { intros n' db' Hr. split_and!.
        - eapply rely_new_wallet; [exact Hr|right; left|done].
        - eapply rely_new_owner; [exact Hr|left|done].
        - by destruct Hr. }
      apply (credit_tail_safe _ _ _ _ _ _ _ _ _ _ _ (with_wallet w)); try done.
      * held_ranks.
      * right. held_ranks.
      * intros n' db' Hr. destruct (Hst n' db' Hr) as (H1 & H2 & H3).
        split; [by apply overlay_wallet|]. split.
        { apply inv_wallet_new; try done; [apply Hr|].
          eapply numeric_amount; [apply is_amount_0|apply Eight_0|done]. }
        split; [apply elem_of_app; right; left|]. split; [by constructor; [apply kept_same|]|].
        apply touches_wallet; [right; left|left].
      * intros n' db' bal row txn now' Hr Hbal Her Hse.
        destruct (Hst n' db' Hr) as (H1 & H2 & H3). exists txn. split; [done|]. right.
        split; [by eapply (ref_free_entry _ _ _ _ _ _ _ _ _ _ _ (with_wallet w db'))|].
        exists w, (with_wallet w db'). split; [|by exists bal, row, now'].
        apply ow_new; [lia|done|done].
Qed.

(** ** Withdrawal requests *)

Definition with_request (q : RequestRow) (db : wallet_db) : wallet_db :=
  wd_set_requests (wd_requests db ++ [q]) db.

Lemma insert_request_writes u wid a c dest ch now fresh db o v :
  (fresh ∉ rr_ID <$> wd_requests db) ->
  insert_request u wid a c dest ch now fresh db = Done (o, v) ->
  exists am, numeric_in a = Some am /\ o = Some (fresh, "pending", now) /\
    let q := mkRequestRow fresh u wid am c dest ch "pending" None None now in
    v = with_request q db /\ wallet_versions db v = [VRequest q].
Proof.
  intros Hnew. unfold insert_request. destruct (numeric_in a) as [am|]; [|done].
  cbn [read_in mbind answer_bind]. destruct (negb _); [done|]. intros [= <- <-].
  exists am. split_and!; [done..|]. unfold wallet_versions.
  cbn [wd_wallets wd_transactions wd_requests wd_addresses wd_set_requests].
  rewrite !made_refl, made_app; [done|]. intros x Hq%list_elem_of_singleton Hx.
  apply Hnew, list_elem_of_fmap. exists x. by subst x.
Qed.

Lemma request_over n db u c dest ch k w t am now : pg_inv n db -> w ∈ wd_wallets db ->
  (uuid_at k ∉ rr_ID <$> wd_requests db) ->
  let q := mkRequestRow (uuid_at k) u (wallet_ID w) am c dest ch "pending" None None now in
  overlay [VWallet (write_balance t now w); VRequest q] db = with_request q (with_balance w t now db).
Proof.
  intros Hi Hw Hnew q.
  transitivity (put_version (VRequest q) (overlay [VWallet (write_balance t now w)] db)); [done|].
  rewrite (overlay_balance n) by done. cbn. unfold with_request. f_equal. by apply put_row_new.
Qed.

(** A request with its debit and its pending entry. *)
Lemma request_books u c a dest ch w bal t am row k now n db L : fits_text a -> pg_inv n db ->
  can_draw u c a w db -> RowWallet (wallet_ID w) ∈ L -> KeyRequest (uuid_at k) ∈ L ->
  subDecimal (wallet_Balance w) a = Ok bal -> numeric_in bal = Some t -> numeric_in a = Some am ->
  (k < n)%nat -> (uuid_at k ∉ rr_ID <$> wd_requests db) ->
  (tr_ID row ∉ tr_ID <$> wd_transactions db) ->
  entry_row "withdrawal" u c a bal "pending" (Some (uuid_at k)) (Some None) w 0 n db row ->
  let q := mkRequestRow (uuid_at k) u (wallet_ID w) am c dest ch "pending" None None now in
  let db2 := with_entry row (with_request q (with_balance w t now db)) in
  pg_inv n db2 /\ grows db db2 /\
  touches (KeyTxn (tr_ID row) :: key_of_ref (Some (uuid_at k)) ++ L) db db2 /\
  requested u c a dest ch 0 n db (mkWithdrawalRequest (uuid_at k) u (wallet_ID w) a c dest ch
    "pending" "" "" now) db2.
Proof.
  intros H8 Hi Hdraw Hlw Hlq Hbal Ht Ham Hk Hnewq Hnew Her q db2.
  destruct (booked_safe "withdrawal" subDecimal u c a bal "pending" (Some (uuid_at k)) (Some None) w n db row now t
    L sub_computes H8 Hi (proj1 Hdraw) Hlw Hbal Ht Hnew Her) as (Heq & Hi2 & Hg & Htch).
  assert (db2 = with_request q (book w row now db)) as -> by (unfold db2; by rewrite <- Heq).
  pose proof (er_amount Her) as Ham'. rewrite Ham in Ham'. injection Ham' as Ham'.
  rewrite Heq in Hi2, Hg, Htch. unfold q. rewrite Ham'. split; [|split; [|split]].
  - by apply (request_booked_inv u c a dest ch 0 n w bal row k now db).
  - eapply db_grows_trans; [exact Hg|]. constructor; [by apply kept_same|].
    intros x Hx _. apply elem_of_app. by left.
  - eapply touches_trans; [exact Htch|]. apply (touches_request _ (book w row now db)).
    right. apply elem_of_app. by right.
  - exists w, bal, row, k, now. split_and!; try done. lia.
Qed.

Lemma request_safe u c a dest ch now n db : fits_text a ->
  safe (fun n d d' r => exists q, r = Ok q /\ requested u c a dest ch 0 n d q d')
    (request_prog u c a dest ch) now [] [] n db.
Proof.
  intros H8. unfold request_prog. apply draw_safe. intros w bal t n1 db1 Hi1 Hw1 Hbal Ht.
  apply safe_scan. intros n2 db2 o v Hr2 Hsem. cbn [stmt_sem] in Hsem.
  assert (forall n' db', rely [RowWallet (wallet_ID w); RowWallet (wallet_ID w)] n1 db1 n' db' ->
    w ∈ wd_wallets db') as Hin.
  { intros n' db' Hr. eapply rely_row_wallet; [exact Hr|left|apply Hw1]. }
  rewrite (overlay_balance n2) in * by (first [apply Hr2|by eapply Hin]).
  assert (uuid_at n2 ∉ rr_ID <$> wd_requests db2) as Hnewq by (eapply fresh_request; [apply Hr2|done]).
  destruct (insert_request_writes u (wallet_ID w) a c dest ch now _ (with_balance w t now db2) o v
    Hnewq Hsem) as (am & Ham & -> & -> & Hv).
  set (q := mkRequestRow (uuid_at n2) u (wallet_ID w) am c dest ch "pending" None None now) in *.
  cbn [locks wallet_rows wallet_locks versions]. rewrite Hv. split.
  { intros l ->%list_elem_of_singleton. right. held_ranks. }
  cbn [app]. set (L := [KeyRequest (uuid_at n2); RowWallet (wallet_ID w); RowWallet (wallet_ID w)]).
  assert (forall n' db', rely L (S n2) db2 n' db' -> w ∈ wd_wallets db' /\
    (uuid_at n2 ∉ rr_ID <$> wd_requests db')) as Hst.
  { intros n' db' Hr. split; [eapply rely_row_wallet; [exact Hr|right; left|by eapply Hin]|].
    destruct Hr as (_ & _ & _ & Hs). pose proof (Hs (KeyRequest (uuid_at n2)) ltac:(left)) as H.
    by intros ?%H. }
  apply safe_exec. eapply (insert_commits _ _ _ _ _ _ _ _ _ _ _ _ (fun _ _ => _) w _ _ _ _ _
    (fun db => with_request q (with_balance w t now db))); try done.
  { held_ranks. }
  { intros n' db' Hr. destruct (Hst n' db' Hr). apply (request_over n'); [apply Hr|done..]. }
  intros n4 db4 row Hr4 Hnew4 Her4 _. destruct (Hst n4 db4 Hr4) as (Hw4 & Hnewq4).
  destruct (request_books u c a dest ch w bal t am row n2 now n4 db4 L) as (? & ? & ? & ?); try done;
    [apply Hr4|by destruct Hw1 as (_ & ? & ?)|right; left|left|destruct Hr4; lia|].
  split; [done|]. split; [done|]. split; [done|]. by eexists.
Qed.

End Ops.
