(* ===== verification/WalletConcReviews.v ===== *)
(** * WalletConcReviews: what reviews and single statements commit, whatever the others do

    ApproveWithdrawal, RejectWithdrawal, CreateWallet and CreateDepositAddress are safe in
    the sense of TxConc. *)

From S2P Require Import Prelude GoStd GoJson Decimal WalletModels WalletStore WalletLedger WalletProps Sql.
From S2P Require Import TxProg TxConc WalletPg WalletPgLedger WalletPgOps WalletPgProps WalletTx WalletConc.
From S2P Require Import WalletConcOps.

Section Reviews.
Context `{E : GoEnv, L0 : DecimalLaws, P : PgTypes, PL : !PgLaws P, EL : !GoEnvLaws E, SL : Slack}.

#[local] Abbreviation safe := (safe stmt_sem).
#[local] Abbreviation then_safe := (then_safe stmt_sem).

(** ** Reviews *)

Definition review_set (status : string) (th : option string) (by' cid : string) (x : RequestRow) :
    RequestRow := if is_pending_request cid x then review_row status th by' x else x.
Definition with_review status th by' cid (db : wallet_db) : wallet_db :=
  wd_set_requests (review_set status th by' cid <$> wd_requests db) db.

Lemma review_set_self status th by' r : rr_Status r = "pending" ->
  review_set status th by' (rr_ID r) r = review_row status th by' r.
Proof. intros Hs. unfold review_set, is_pending_request. by rewrite !bool_decide_eq_true_2. Qed.
Lemma review_set_other status th by' r l x : NoDup (rr_ID <$> l) -> r ∈ l -> x ∈ l -> x <> r ->
  review_set status th by' (rr_ID r) x = x.
Proof.
  intros Hnd Hr Hx Hne. unfold review_set, is_pending_request. case_bool_decide as Hid; [|done].
  destruct Hne. by apply (NoDup_fmap_eq rr_ID l).
Qed.

Lemma overlay_review n db status th by' r : pg_inv n db -> r ∈ wd_requests db ->
  rr_Status r = "pending" ->
  overlay [VRequest (review_row status th by' r)] db = with_review status th by' (rr_ID r) db.
Proof.
  intros Hi Hr Hs. cbn. unfold with_review. f_equal. rewrite <- (review_set_self status th by' r Hs).
  apply put_row_map; [apply Hi|done|by rewrite review_set_self|].
  intros y Hy Hne. eapply review_set_other; [apply Hi|done..].
Qed.

Lemma review_safe {A} (Q : nat -> wallet_db -> wallet_db -> res A -> Prop) what status th by' id
    (k : WithdrawalRequest -> prog wallet_stmt A) now n db : status <> "pending" ->
  (forall r n1 db1, pg_inv n1 db1 -> uuid_in id = Some (rr_ID r) -> r ∈ wd_requests db1 ->
     rr_Status r = "pending" ->
     safe Q (k (scan_request (review_row status th by' r))) now [RowRequest (rr_ID r)]
       [VRequest (review_row status th by' r)] n1 db1) ->
  safe Q (review_prog what status th by' id ≫= k) now [] [] n db.
Proof.
  intros Hst Hk. unfold review_prog. apply safe_assoc, safe_query.
  { intros e [He _]. by rewrite decide_False. }
  intros n1 db1 o v Hr1 Hsem. cbn [stmt_sem overlay foldl] in *. unfold review_request in Hsem.
  destruct (uuid_in id) as [cid|] eqn:Hid; [|done]. cbn [read_in mbind answer_bind] in Hsem.
  destruct (first_row _ _) as [r|] eqn:Hrow.
  2: { injection Hsem as <- <-. cbn [fmap option_fmap option_map row_or_none]. rewrite decide_True by done.
       split; [intros l _; right; by intros h ?%elem_of_nil|]. apply safe_throw. }
  injection Hsem as <- <-.
  apply first_row_Some in Hrow as [Hin Hp]. unfold is_pending_request in Hp.
  apply andb_true_iff in Hp as [<-%bool_decide_eq_true Hs%bool_decide_eq_true].
  assert (pg_inv n1 db1) as Hi by apply Hr1.
  assert (made (wd_requests db1) (review_set status th by' (rr_ID r) <$> wd_requests db1) =
    [review_row status th by' r]) as Hm.
  { rewrite <- (review_set_self status th by' r Hs). apply (made_map rr_ID); [apply Hi|done| | |].
    - by rewrite review_set_self.
    - rewrite review_set_self by done. intros Heq. apply (f_equal rr_Status) in Heq.
      cbn in Heq. congruence.
    - intros y Hy Hne. eapply review_set_other; [apply Hi|done..]. }
  cbn [locks wallet_rows wallet_locks versions fmap option_fmap option_map row_or_none].
  change (wd_set_requests _ db1) with (with_review status th by' (rr_ID r) db1).
  unfold wallet_versions.
  cbn [with_review wd_wallets wd_transactions wd_requests wd_addresses wd_set_requests].
  rewrite Hm, !made_refl. split; [intros l _; right; by intros h ?%elem_of_nil|].
  cbn [app fmap list_fmap]. apply (Hk r); try done. eapply pg_inv_mono; [|exact Hi]. lia.
Qed.

(** UPDATE transactions SET status: at most one entry has the reference. *)
Definition with_status (o : option TxnRow) (status : string) (db : wallet_db) : wallet_db :=
  match o with Some x => status_of x status db | None => db end.
Definition status_version (o : option TxnRow) (status : string) : list row_version :=
  match o with Some x => [VTxn (tr_set_status status x)] | None => [] end.
Inductive status_choice (status ref : string) (db : wallet_db) :
    option TxnRow -> list wallet_lock -> Prop :=
| sc_none : (forall x, x ∈ wd_transactions db -> tr_ReferenceID x <> Some ref) ->
    status_choice status ref db None []
| sc_same x : x ∈ wd_transactions db -> tr_ReferenceID x = Some ref -> tr_Status x = status ->
    status_choice status ref db None [RowTxn (tr_ID x)]
| sc_set x : x ∈ wd_transactions db -> tr_ReferenceID x = Some ref ->
    status_choice status ref db (Some x) [RowTxn (tr_ID x)].

(** Ids and references of entries are unique. *)
Definition entries_unique (db : wallet_db) : Prop :=
  NoDup (tr_ID <$> wd_transactions db) /\ NoDup (refs db).
Lemma inv_unique n db : pg_inv n db -> entries_unique db.
Proof. intros Hi. split; apply Hi. Qed.

Lemma unique_ref db x y ref : entries_unique db -> x ∈ wd_transactions db -> y ∈ wd_transactions db ->
  tr_ReferenceID x = Some ref -> tr_ReferenceID y = Some ref -> x = y.
Proof.
  intros [_ Hu] Hx Hy Hrx Hry. by apply (omap_inj tr_ReferenceID (wd_transactions db) x y ref).
Qed.

Lemma filter_one {A} (Q : A -> Prop) `{forall x, Decision (Q x)} l x : NoDup l -> x ∈ l -> Q x ->
  (forall y, y ∈ l -> Q y -> y = x) -> filter Q l = [x].
Proof.
  intros Hnd Hx Hq Hu. apply list_elem_of_split in Hx as (l1 & l2 & ->).
  apply list.NoDup_app in Hnd as (_ & H1 & [H2 _]%list.NoDup_cons).
  rewrite list.filter_app, filter_cons_True by done. rewrite !filter_none; [done| |].
  - intros y Hy Hqy. assert (y = x) as -> by (apply Hu; [apply elem_of_app; right; by right|done]). done.
  - intros y Hy Hqy. assert (y = x) as -> by (apply Hu; [apply elem_of_app; by left|done]).
    apply (H1 x Hy). left.
Qed.

Lemma update_status_writes db status ref now fresh u v : entries_unique db ->
  update_txn_status status ref now fresh db = Done (u, v) ->
  exists o, status_choice status ref db o
      (RowTxn ∘ tr_ID <$> filter (fun r => has_ref ref r = true) (wd_transactions db)) /\
    wallet_versions db v = status_version o status.
Proof.
  intros Hi [= _ <-].
  assert (NoDup (wd_transactions db)) as Hnd by (eapply list.NoDup_fmap_1, Hi).
  destruct (first_row (has_ref ref) (wd_transactions db)) as [x|] eqn:Hrow.
  - apply first_row_Some in Hrow as [Hx Href%bool_decide_eq_true].
    rewrite (filter_one _ _ x Hnd Hx); [|by apply bool_decide_eq_true_2|].
    2: { intros y Hy Hry%bool_decide_eq_true. by eapply unique_ref. }
    cbn [fmap list_fmap compose].
    assert ((fun r => if has_ref ref r then tr_set_status status r else r) <$> wd_transactions db =
      (fun y => if bool_decide (y = x) then tr_set_status status y else y) <$> wd_transactions db) as Heq.
    { apply list_fmap_ext. intros i y Hy%list_elem_of_lookup_2. unfold has_ref.
      case_bool_decide as Hry; case_bool_decide as Hyx; try done.
      - by destruct Hyx; eapply unique_ref.
      - by subst. }
    unfold wallet_versions. cbn [wd_wallets wd_transactions wd_requests wd_addresses wd_set_transactions].
    rewrite Heq, !made_refl. destruct (decide (tr_Status x = status)) as [Hst|Hst].
    + exists None. split; [by apply sc_same|].
      assert ((fun y => if bool_decide (y = x) then tr_set_status status y else y)
        <$> wd_transactions db = wd_transactions db) as ->; [|by rewrite made_refl].
      apply fmap_fixed. intros y _. case_bool_decide; [|done]. subst. by destruct x.
    + exists (Some x). split; [by apply sc_set|].
      assert (made (wd_transactions db) ((fun y => if bool_decide (y = x) then tr_set_status status y else y)
        <$> wd_transactions db) = [tr_set_status status x]) as ->; [|done].
      set (g y := if bool_decide (y = x) then tr_set_status status y else y).
      assert (g x = tr_set_status status x) as Hg by (unfold g; by rewrite bool_decide_eq_true_2).
      rewrite <- Hg. apply (made_map tr_ID); [apply Hi|done|by rewrite Hg| |].
      * rewrite Hg. intros Hx'. apply (f_equal tr_Status) in Hx'. cbn in Hx'. congruence.
      * intros y _ Hne. unfold g. by rewrite bool_decide_eq_false_2.
  - rewrite first_row_None in Hrow. exists None. rewrite filter_none.
    2: { intros x Hx. by rewrite Hrow. }
    split; [apply sc_none|].
    + intros x Hx Href. specialize (Hrow x Hx). unfold has_ref in Hrow.
      by rewrite bool_decide_eq_true_2 in Hrow.
    + assert ((fun r => if has_ref ref r then tr_set_status status r else r) <$> wd_transactions db =
        wd_transactions db) as Heq.
      { apply fmap_fixed. intros y Hy. by rewrite Hrow. }
      unfold wallet_versions. cbn [wd_wallets wd_transactions wd_requests wd_addresses wd_set_transactions].
      by rewrite Heq, !made_refl.
Qed.

Lemma overlay_status db o status : entries_unique db ->
  (forall x, o = Some x -> x ∈ wd_transactions db) ->
  overlay (status_version o status) db = with_status o status db.
Proof.
  intros Hi Ho. destruct o as [x|]; [|done]. cbn. unfold status_of. f_equal.
  set (g y := if bool_decide (y = x) then tr_set_status status y else y).
  assert (g x = tr_set_status status x) as Hg by (unfold g; by rewrite bool_decide_eq_true_2).
  rewrite <- Hg. apply put_row_map; [apply Hi|by apply Ho|by rewrite Hg|].
  intros y _ Hne. unfold g. by rewrite bool_decide_eq_false_2.
Qed.

(** The entry of the request has the status that its review gave it. *)
Definition settled (id status : string) (db : wallet_db) : Prop :=
  uuid_in id = Some id -> forall x, x ∈ wd_transactions db -> tr_ReferenceID x = Some id ->
    tr_Status x = status.

Lemma request_entry n db r : pg_inv n db -> r ∈ wd_requests db ->
  exists t, t ∈ wd_transactions db /\ tr_ReferenceID t = Some (rr_ID r).
Proof.
  intros Hi Hr. pose proof (pi_requests _ _ Hi) as Hq. rewrite list.Forall_forall in Hq.
  destruct (Hq r Hr) as (_ & _ & _ & t & Ht & Htr & _). by exists t.
Qed.

Lemma choice_settled status id db o ls db' d : status_choice status id db o ls ->
  (uuid_in id = Some id -> exists t, t ∈ wd_transactions db /\ tr_ReferenceID t = Some id) ->
  entries_unique db' -> (forall l, l ∈ ls -> wallet_same l db db') ->
  wd_transactions d = wd_transactions db' -> settled id status (with_status o status d).
Proof.
  intros Hch Hr Hi' Hs Hd Hu y Hy Hry.
  destruct Hch as [Hno|x Hx Href Hst|x Hx Href]; cbn in Hy.
  - destruct (Hr Hu) as (t & Ht & Htr). by destruct (Hno t Ht).
  - rewrite Hd in Hy. assert (x ∈ wd_transactions db') as Hx' by (by apply (Hs (RowTxn (tr_ID x)) ltac:(left))).
    by rewrite (unique_ref db' y x id).
  - assert (x ∈ wd_transactions db') as Hx' by (by apply (Hs (RowTxn (tr_ID x)) ltac:(left))).
    apply list_elem_of_fmap in Hy as (z & -> & Hz). rewrite Hd in Hz.
    assert (z = x) as ->; [|by rewrite bool_decide_eq_true_2].
    apply (unique_ref db' z x id); try done. by revert Hry; case_bool_decide.
Qed.

Lemma choice_ranked status ref db o ls L : status_choice status ref db o ls ->
  (forall h, h ∈ L -> (lock_rank h < 2)%nat) -> ordered L ls.
Proof.
  intros Hc HL l Hl. right. intros h Hh.
  assert (lock_rank l = 2%nat) as Hr.
  { destruct Hc; [by apply elem_of_nil in Hl|by apply list_elem_of_singleton in Hl as ->..]. }
  cbn. rewrite Hr. by apply HL.
Qed.
Lemma choice_ref status ref db o ls x : status_choice status ref db o ls -> o = Some x ->
  x ∈ wd_transactions db /\ tr_ReferenceID x = Some ref /\ RowTxn (tr_ID x) ∈ ls.
Proof. intros [] [= ->]. split_and!; [done..|left]. Qed.

(** The UPDATE of the status of the entry of a review. *)
Lemma status_safe {A} (Q : nat -> wallet_db -> wallet_db -> res A -> Prop) what status ref
    (k : prog wallet_stmt A) now L W n db (f : wallet_db -> wallet_db) :
  (forall h, h ∈ L -> (lock_rank h < 2)%nat) ->
  (forall n' db', rely L n db n' db' -> overlay W db' = f db' /\ entries_unique (f db')) ->
  (forall n1 db1 o ls, rely L n db n1 db1 -> status_choice status ref (f db1) o ls ->
     safe Q k now (ls ++ L) (W ++ status_version o status) (S n1) db1) ->
  safe Q (p_wrapped what (p_exec (UpdateTxnStatus status ref));; k) now L W n db.
Proof.
  intros HL Hf Hk. apply safe_exec. intros n1 db1 u v Hr Hsem. cbn [stmt_sem] in Hsem.
  destruct (Hf n1 db1 Hr) as [Hov Hi]. rewrite Hov in *.
  destruct (update_status_writes (f db1) status ref _ _ u v Hi Hsem) as (o & Hch & Hv).
  cbn [locks wallet_rows wallet_locks versions]. rewrite Hv.
  split; [by eapply choice_ranked|]. by apply Hk.
Qed.

Definition approves id th by' (db : wallet_db) (q : WithdrawalRequest) (db' : wallet_db) : Prop :=
  exists db1 o, reviewed id "approved" (Some th) by' db q db1 /\
    (forall x, o = Some x -> x ∈ wd_transactions db /\ tr_ReferenceID x = Some id) /\
    db' = with_status o "completed" db1 /\ settled id "completed" db'.

Lemma reviewed_with status th by' id r db : uuid_in id = Some (rr_ID r) -> r ∈ wd_requests db ->
  rr_Status r = "pending" ->
  reviewed id status th by' db (scan_request (review_row status th by' r))
    (with_review status th by' (rr_ID r) db).
Proof. intros Hid Hr Hs. by exists (rr_ID r), r. Qed.

Lemma status_kept_inv n db o status : pg_inv n db -> pg_inv n (with_status o status db).
Proof. intros Hi. destruct o as [x|]; [|done]. by apply (inv_status n db (fun y => bool_decide (y = x))). Qed.
Lemma touches_with_status L db o status : (forall x, o = Some x -> RowTxn (tr_ID x) ∈ L) ->
  touches L db (with_status o status db).
Proof. intros Ho. destruct o as [x|]; [|apply touches_refl]. by apply touches_status, Ho. Qed.
Lemma grows_with_status db o status : grows db (with_status o status db).
Proof. destruct o; [apply grows_status|apply db_grows_refl]. Qed.

(** The tables after a review, over whatever the others committed. *)
Lemma review_over n db status th by' r : pg_inv n db -> r ∈ wd_requests db -> rr_Status r = "pending" ->
  overlay [VRequest (review_row status th by' r)] db = with_review status th by' (rr_ID r) db /\
  pg_inv n (with_review status th by' (rr_ID r) db) /\
  grows db (with_review status th by' (rr_ID r) db) /\
  forall L, RowRequest (rr_ID r) ∈ L -> touches L db (with_review status th by' (rr_ID r) db).
Proof.
  intros Hi Hr Hs. split; [by eapply overlay_review|]. split; [by apply inv_reviewed|].
  split; [apply grows_review|]. intros L Hl. apply touches_review; [done|apply Hi|done].
Qed.

Lemma approve_safe id th by' now n db :
  safe (fun n d d' r => exists q, r = Ok q /\ approves id th by' d q d')
    (approve_prog id th by') now [] [] n db.
Proof.
  unfold approve_prog. apply review_safe; [done|]. intros r n1 db1 Hi1 Hid Hr1 Hs.
  set (L := [RowRequest (rr_ID r)]).
  assert (forall n' db', rely L n1 db1 n' db' -> pg_inv n' db' /\ r ∈ wd_requests db') as Hst.
  { intros n' db' (_ & Hi & _ & Hsm). split; [done|]. exact (Hsm _ ltac:(left) r Hr1 eq_refl). }
  eapply (status_safe _ _ _ _ _ _ _ _ _ _ (with_review "approved" (Some th) by' (rr_ID r))).
  - intros h ->%list_elem_of_singleton. cbn. lia.
  - intros n' db' Hr. destruct (Hst n' db' Hr) as [Hi Hin].
    destruct (review_over n' db' "approved" (Some th) by' r Hi Hin Hs) as (? & Hi' & _).
    split; [done|by eapply inv_unique].
  - intros n2 db2 o ls Hr2 Hch. destruct (Hst n2 db2 Hr2) as [Hi2 Hin2].
    apply safe_commit. intros n3 db3 Hr3. cbv zeta.
    assert (rely L n1 db1 n3 db3) as Hr.
    { eapply rely_step; [|exact Hr2|exact Hr3]. intros l Hl. apply elem_of_app. by right. }
    destruct (Hst n3 db3 Hr) as [Hi3 Hin3].
    destruct (review_over n3 db3 "approved" (Some th) by' r Hi3 Hin3 Hs) as (Hov & Hi3' & Hg & Ht).
    destruct Hr3 as (_ & _ & _ & Hsame).
    assert (forall x, o = Some x -> x ∈ wd_transactions db3 /\ tr_ReferenceID x = Some id /\
      RowTxn (tr_ID x) ∈ ls) as Ho.
    { intros x Hx. destruct (choice_ref _ _ _ _ _ _ Hch Hx) as (Hx2 & Hxr & Hxl). split_and!; [|done..].
      exact (Hsame (RowTxn (tr_ID x)) ltac:(apply elem_of_app; by left) x Hx2 eq_refl). }
    assert (overlay ([VRequest (review_row "approved" (Some th) by' r)] ++ status_version o "completed") db3 =
      with_status o "completed" (with_review "approved" (Some th) by' (rr_ID r) db3)) as Hov'.
    { rewrite over_app, Hov. apply overlay_status; [by eapply inv_unique|]. intros x Hx. by apply Ho. }
    overlay_is db3 Hov'.
    split; [by apply status_kept_inv|]. split.
    { eapply db_grows_trans; [exact Hg|apply grows_with_status]. }
    split.
    { eapply touches_trans; [apply Ht|apply touches_with_status].
      - apply elem_of_app. right. left.
      - intros x Hx. apply elem_of_app. left. by apply Ho. }
    eexists. split; [done|]. exists (with_review "approved" (Some th) by' (rr_ID r) db3), o.
    split; [by apply reviewed_with|]. split; [intros x Hx; split; by apply Ho|]. split; [done|].
    eapply (choice_settled _ _ _ _ _ db3 _ Hch); try done.
    + intros Hu. rewrite Hu in Hid. injection Hid as ->. by eapply (request_entry n2 db2).
    + by eapply inv_unique.
    + intros l Hl. pose proof (Hsame l ltac:(apply elem_of_app; by left)) as H.
      by destruct Hch; [apply elem_of_nil in Hl|apply list_elem_of_singleton in Hl as ->..].
Qed.

Definition rejects id by' n (db : wallet_db) (q : WithdrawalRequest) (db' : wallet_db) : Prop :=
  exists db1 o w bal row now, reviewed id "rejected" None by' db q db1 /\
    (forall x, o = Some x -> x ∈ wd_transactions db /\ tr_ReferenceID x = Some id) /\
    settled id "reversed" (with_status o "reversed" db1) /\
    w ∈ wd_wallets db /\ uuid_in (wr_WalletID q) = Some (wallet_ID w) /\
    addDecimal (wallet_Balance w) (wr_Amount q) = Ok bal /\
    entry_row "adjustment" (wr_UserID q) (wr_Currency q) (wr_Amount q) bal "completed"
      (Some (id +:+ "-reversal")) (Some None) w 0 n (with_status o "reversed" db1) row /\
    db' = book w row now (with_status o "reversed" db1).

Lemma with_status_ids o status db :
  tr_ID <$> wd_transactions (with_status o status db) = tr_ID <$> wd_transactions db.
Proof. destruct o as [x|]; [|done]. apply keys_map. intros y. by case_bool_decide. Qed.
Lemma with_status_refs o status db : refs (with_status o status db) = refs db.
Proof.
  destruct o as [x|]; [|done]. unfold refs. cbn.
  induction (wd_transactions db) as [|y l IH]; [done|]. cbn. rewrite IH. by case_bool_decide.
Qed.
Lemma with_status_wallets o status db : wd_wallets (with_status o status db) = wd_wallets db.
Proof. by destruct o. Qed.

Definition rejected_tables (by' : string) (r : RequestRow) (w : Wallet) (t : string) (now : Z)
    (o : option TxnRow) (db : wallet_db) : wallet_db :=
  with_status o "reversed" (with_balance w t now (with_review "rejected" None by' (rr_ID r) db)).

Lemma with_balance_status o w t now db :
  with_status o "reversed" (with_balance w t now db) = with_balance w t now (with_status o "reversed" db).
Proof. by destruct o. Qed.

(** The tables after the writes of a rejection, and its booking. *)
Lemma reject_final id by' r w bal t now o n db row L : uuid_in id = Some (rr_ID r) ->
  rr_Status r = "pending" -> addDecimal (wallet_Balance w) (rr_Amount r) = Ok bal ->
  numeric_in bal = Some t -> uuid_in (rr_WalletID r) = Some (wallet_ID w) ->
  pg_inv n db -> r ∈ wd_requests db -> w ∈ wd_wallets db ->
  (forall x, o = Some x -> x ∈ wd_transactions db /\ tr_ReferenceID x = Some id /\ RowTxn (tr_ID x) ∈ L) ->
  RowRequest (rr_ID r) ∈ L -> RowWallet (wallet_ID w) ∈ L ->
  settled id "reversed" (with_status o "reversed" (with_review "rejected" None by' (rr_ID r) db)) ->
  (tr_ID row ∉ tr_ID <$> wd_transactions db) ->
  entry_row "adjustment" (rr_UserID r) (rr_Currency r) (rr_Amount r) bal "completed"
    (Some (id +:+ "-reversal")) (Some None) w 0 n db row ->
  let db2 := with_entry row (rejected_tables by' r w t now o db) in
  let q := scan_request (review_row "rejected" None by' r) in
  pg_inv n db2 /\ grows db db2 /\
  touches (KeyTxn (tr_ID row) :: key_of_ref (Some (id +:+ "-reversal")) ++ L) db db2 /\
  rejects id by' n db q db2.
Proof.
  intros Hid Hs Hbal Ht Hwid Hi Hr Hw Ho Hlr Hlw Hset Hnew Her. cbv zeta.
  set (db1 := with_review "rejected" None by' (rr_ID r) db) in *.
  destruct (review_over n db "rejected" None by' r Hi Hr Hs) as (_ & Hi1 & Hg1 & Ht1). fold db1 in Hi1, Hg1, Ht1.
  set (db2 := with_status o "reversed" db1).
  assert (pg_inv n db2) as Hi2 by (by apply status_kept_inv).
  assert (w ∈ wd_wallets db2) as Hw2 by (unfold db2; by rewrite with_status_wallets).
  assert (tr_ID row ∉ tr_ID <$> wd_transactions db2) as Hnew2 by (unfold db2; by rewrite with_status_ids).
  assert (entry_row "adjustment" (rr_UserID r) (rr_Currency r) (rr_Amount r) bal "completed"
    (Some (id +:+ "-reversal")) (Some None) w 0 n db2 row) as Her2.
  { destruct Her. constructor; try done. unfold db2. by rewrite with_status_refs. }
  pose proof (reviewed_with "rejected" None by' id r db Hid Hr Hs) as Hrev.
  pose proof (eight_fits _ (reviewed_eight _ _ _ _ _ _ _ _ Hi Hrev)) as H8. cbn in H8.
  destruct (booked_safe "adjustment" addDecimal (rr_UserID r) (rr_Currency r) (rr_Amount r) bal "completed"
    (Some (id +:+ "-reversal")) (Some None) w n db2 row now t L (add_computes "adjustment" ltac:(done)) H8 Hi2 Hw2 Hlw
    Hbal Ht Hnew2 Her2) as (Heq & Hi3 & Hg3 & Ht3).
  unfold rejected_tables. fold db1. rewrite with_balance_status. fold db2.
  split; [exact Hi3|]. split.
  { eapply db_grows_trans; [exact Hg1|]. eapply db_grows_trans; [apply (grows_with_status db1 o "reversed")|exact Hg3]. }
  split.
  { eapply touches_trans; [apply Ht1; right; apply elem_of_app; by right|].
    eapply touches_trans; [|exact Ht3]. apply touches_with_status. intros x Hx. right.
    apply elem_of_app. right. by apply Ho. }
  exists db1, o, w, bal, row, now. split; [exact Hrev|]. split; [intros x Hx; split; by apply Ho|].
  by split_and!.
Qed.

(** What a rejection holds, and so relies on, after its first statements. *)
Definition holds (r : RequestRow) (w : Wallet) (L : list wallet_lock) (n : nat) (db : wallet_db) : Prop :=
  forall n' db', rely L n db n' db' -> pg_inv n' db' /\ r ∈ wd_requests db' /\ w ∈ wd_wallets db'.
Lemma holds_step r w L L' n db n1 db1 : (forall l, l ∈ L -> l ∈ L') -> holds r w L n db ->
  rely L n db n1 db1 -> holds r w L' (S n1) db1.
Proof. intros Hs H Hr n2 db2 Hr2. apply H. by eapply rely_step. Qed.

Lemma reject_over n db by' r w t now : pg_inv n db -> r ∈ wd_requests db -> w ∈ wd_wallets db ->
  rr_Status r = "pending" ->
  overlay ([VRequest (review_row "rejected" None by' r)] ++ [VWallet (write_balance t now w)]) db =
  with_balance w t now (with_review "rejected" None by' (rr_ID r) db).
Proof.
  intros Hi Hr Hw Hs. rewrite over_app.
  destruct (review_over n db "rejected" None by' r Hi Hr Hs) as (-> & Hi' & _).
  by eapply overlay_balance.
Qed.

(** The status of the entry, the INSERT and the COMMIT of a rejection. *)
Lemma reject_tail_safe id by' r w bal t now L n db : uuid_in id = Some (rr_ID r) ->
  rr_Status r = "pending" -> addDecimal (wallet_Balance w) (rr_Amount r) = Ok bal ->
  numeric_in bal = Some t -> uuid_in (rr_WalletID r) = Some (wallet_ID w) ->
  (forall h, h ∈ L -> (lock_rank h < 2)%nat) -> RowRequest (rr_ID r) ∈ L -> RowWallet (wallet_ID w) ∈ L ->
  holds r w L n db ->
  let q := scan_request (review_row "rejected" None by' r) in
  safe (fun n d d' a => exists q, a = Ok q /\ rejects id by' n d q d')
    (p_wrapped "update transaction" (p_exec (UpdateTxnStatus "reversed" id));;
     p_wrapped "insert reversal transaction"
       (p_exec (InsertTxn (wr_UserID q) (wallet_ID w) (wr_Currency q) "adjustment"
          (wr_Amount q) (wallet_Balance w) bal "completed" (Some (id +:+ "-reversal")) (Some None)));;
     p_wrapped "commit" p_commit;; mret q) now L
    ([VRequest (review_row "rejected" None by' r)] ++ [VWallet (write_balance t now w)]) n db.
Proof.
  intros Hid Hs Hbal Ht Hwid HL Hlr Hlw Hh q.
  eapply (status_safe _ _ _ _ _ _ _ _ _ _
    (fun db => with_balance w t now (with_review "rejected" None by' (rr_ID r) db))); [done| |].
  { intros n' db' Hr. destruct (Hh n' db' Hr) as (Hi & H1 & H2).
    split; [by eapply reject_over|]. exact (inv_unique _ _ Hi). }
  intros n4 db4 o ls Hr4 Hch. destruct (Hh n4 db4 Hr4) as (Hi4 & Hin4 & Hw4).
  set (L4 := ls ++ L).
  assert (holds r w L4 (S n4) db4) as Hh4.
  { eapply holds_step; [|exact Hh|exact Hr4]. intros l Hl. apply elem_of_app. by right. }
  assert (forall n' db', rely L4 (S n4) db4 n' db' -> forall x, o = Some x ->
    x ∈ wd_transactions db' /\ tr_ReferenceID x = Some id /\ RowTxn (tr_ID x) ∈ L4) as Hst4.
  { intros n' db' Hr x Hx. destruct (choice_ref _ _ _ _ _ _ Hch Hx) as (Hx2 & Hxr & Hxl).
    assert (RowTxn (tr_ID x) ∈ L4) as Hl by (apply elem_of_app; by left). split_and!; [|done..].
    destruct Hr as (_ & _ & _ & Hsm). exact (Hsm _ Hl x Hx2 eq_refl). }
  apply safe_exec. eapply (insert_commits _ _ _ _ _ _ _ _ _ _ _ _ (fun _ _ => _) w _ _ _ _ _
    (rejected_tables by' r w t now o)); try done.
  { intros h [Hin|Hin]%elem_of_app; [|specialize (HL h Hin); lia].
    by destruct Hch; [apply elem_of_nil in Hin|apply list_elem_of_singleton in Hin as ->; cbn; lia..]. }
  { intros d. unfold rejected_tables. by rewrite with_status_refs, with_status_ids. }
  { intros n' db' Hr. destruct (Hh4 n' db' Hr) as (Hi & H1 & H2).
    rewrite over_app, (reject_over n' db' by' r w t now Hi H1 H2 Hs).
    apply overlay_status; [exact (inv_unique _ _ Hi)|]. intros x Hx. by destruct (Hst4 n' db' Hr x Hx). }
  intros n6 db6 row Hr6 Hnew6 Her6 _. destruct (Hh4 n6 db6 Hr6) as (Hi6 & Hin6 & Hw6).
  destruct (reject_final id by' r w bal t now o n6 db6 row L4) as (? & ? & ? & ?); try done.
  - by eapply Hst4.
  - apply elem_of_app. by right.
  - apply elem_of_app. by right.
  - eapply (choice_settled _ _ _ _ _ db6 _ Hch); try done.
    + intros Hu. rewrite Hu in Hid. injection Hid as ->. by eapply (request_entry n4 db4).
    + by eapply inv_unique.
    + intros l Hl. destruct Hr6 as (_ & _ & _ & Hsm). pose proof (Hsm l ltac:(apply elem_of_app; by left)) as H.
      by destruct Hch; [apply elem_of_nil in Hl|apply list_elem_of_singleton in Hl as ->..].
  - split; [done|]. split; [done|]. split; [done|]. by eexists.
Qed.

Lemma reject_safe id by' now n db :
  safe (fun n d d' r => exists q, r = Ok q /\ rejects id by' n d q d')
    (reject_prog id by') now [] [] n db.
Proof.
  unfold reject_prog. apply review_safe; [done|]. intros r n1 db1 Hi1 Hid Hr1 Hs.
  assert (forall L n db n' db', RowRequest (rr_ID r) ∈ L -> rely L n db n' db' -> r ∈ wd_requests db ->
    r ∈ wd_requests db') as Hkeep.
  { intros L n0 db0 n' db' Hl (_ & _ & _ & Hsm) Hin. exact (Hsm _ Hl r Hin eq_refl). }
  apply safe_scan. intros n2 db2 ow v Hr2 Hsem. cbn [stmt_sem] in Hsem.
  assert (r ∈ wd_requests db2) as Hin2 by (eapply Hkeep; [|exact Hr2|done]; left).
  destruct (review_over n2 db2 "rejected" None by' r (proj1 (proj2 Hr2)) Hin2 Hs) as [Hov2 _].
  rewrite Hov2 in *. unfold select_wallet_by_id in Hsem. cbn [scan_request wr_WalletID review_row rr_WalletID] in Hsem.
  destruct (uuid_in (rr_WalletID r)) as [wid|] eqn:Hwid; [|done].
  cbn [read_in mbind answer_bind] in Hsem. injection Hsem as <- <-.
  cbn [locks wallet_rows wallet_locks versions]. rewrite versions_refl.
  destruct (first_row _ _) as [w|] eqn:Hrow.
  2: { split; [by intros l ?%elem_of_nil|apply safe_throw]. }
  apply first_row_Some in Hrow as [Hw2 <-%bool_decide_eq_true].
  split; [intros l ->%list_elem_of_singleton; right; held_ranks|].
  cbn [app]. apply safe_pure. intros bal Hbal.
  assert (holds r w [RowWallet (wallet_ID w); RowRequest (rr_ID r)] (S n2) db2) as Hh.
  { intros n' db' Hr. split; [apply Hr|]. split; [eapply Hkeep; [|exact Hr|done]; right; left|].
    eapply rely_row_wallet; [exact Hr|left|exact Hw2]. }
  eapply (write_balance_safe _ _ _ _ _ _ _ _ _ (with_review "rejected" None by' (rr_ID r))); [left; left| |].
  { intros n' db' Hr. destruct (Hh n' db' Hr) as (Hi & H1 & H2).
    destruct (review_over n' db' "rejected" None by' r Hi H1 Hs) as (? & Hi' & _).
    split; [done|]. split; [apply Hi'|done]. }
  intros n3 db3 t Hr3 Ht. apply reject_tail_safe; try done; [held_ranks|right; right; left|left|].
  eapply holds_step; [|exact Hh|exact Hr3]. intros l Hl. by right.
Qed.

(** ** Statements alone *)

Definition touch_set (u c : string) (now : Z) (x : Wallet) : Wallet :=
  if same_wallet u c x then touch now x else x.
Definition with_touch (u c : string) (now : Z) (db : wallet_db) : wallet_db :=
  wd_set_wallets (touch_set u c now <$> wd_wallets db) db.

Lemma touch_set_other u c now l w x : NoDup (row_key <$> l) -> row_key w = (u, c) ->
  w ∈ l -> x ∈ l -> x <> w -> touch_set u c now x = x.
Proof.
  intros Hnd Hk Hw Hx Hne. unfold touch_set. destruct (same_wallet u c x) eqn:Hs; [|done].
  apply same_wallet_key in Hs. destruct Hne. apply (NoDup_fmap_eq row_key l); [done..|congruence].
Qed.
Lemma touch_set_self u c now w : row_key w = (u, c) -> touch_set u c now w = touch now w.
Proof. intros Hk. unfold touch_set. by rewrite (proj2 (same_wallet_key u c w) Hk). Qed.

(** The versions that the touch of [w] makes, put over the tables with [w]. *)
Lemma overlay_touch n db w u c now : pg_inv n db -> w ∈ wd_wallets db -> row_key w = (u, c) ->
  let ws := wallet_versions db (with_touch u c now db) in
  (ws = [] /\ touch now w = w \/ ws = [VWallet (touch now w)]) /\
  forall m db', pg_inv m db' -> w ∈ wd_wallets db' -> overlay ws db' = with_touch u c now db'.
Proof.
  intros Hi Hw Hk ws.
  assert (forall m db', pg_inv m db' -> w ∈ wd_wallets db' -> touch now w = w ->
    with_touch u c now db' = db') as Hsame.
  { intros m db' Hi' Hw' Heq. unfold with_touch. rewrite fmap_fixed; [by destruct db'|].
    intros y Hy. destruct (decide (y = w)) as [->|Hne]; [by rewrite touch_set_self|].
    eapply touch_set_other; [apply Hi'|done..]. }
  destruct (decide (touch now w = w)) as [Heq|Hne].
  - assert (ws = []) as Hws.
    { unfold ws. rewrite (Hsame n db) by done. by rewrite versions_refl. }
    rewrite Hws. split; [by left|]. intros m db' Hi' Hw'. by rewrite (Hsame m db').
  - assert (ws = [VWallet (touch now w)]) as Hws.
    { unfold ws, wallet_versions, with_touch.
      cbn [wd_wallets wd_transactions wd_requests wd_addresses wd_set_wallets]. rewrite !made_refl.
      assert (made (wd_wallets db) (touch_set u c now <$> wd_wallets db) = [touch now w]) as ->; [|done].
      rewrite <- (touch_set_self u c now w Hk). apply (made_map wallet_ID); [apply Hi|done|..].
      - by rewrite touch_set_self.
      - by rewrite touch_set_self.
      - intros y Hy Hyw. eapply touch_set_other; [apply Hi|done..]. }
    rewrite Hws. split; [by right|]. intros m db' Hi' Hw'. cbn. unfold with_touch. f_equal.
    rewrite <- (touch_set_self u c now w Hk). apply put_row_map; [apply Hi'|done|by rewrite touch_set_self|].
    intros y Hy Hyw. eapply touch_set_other; [apply Hi'|done..].
Qed.

(** What CreateWallet commits: the wallet, found or new. *)
Definition opens u c n (db : wallet_db) (w : Wallet) (db' : wallet_db) : Prop :=
  exists now k, (k < n)%nat /\ upsert_wallet u c now (uuid_at k) db = Done (Some w, db').

Lemma upsert_touches u c now fresh db w : NoDup (row_key <$> wd_wallets db) -> w ∈ wd_wallets db ->
  row_key w = (u, c) -> upsert_wallet u c now fresh db = Done (Some (touch now w), with_touch u c now db).
Proof.
  intros Hnd Hw Hk. unfold upsert_wallet.
  destruct (first_row (same_wallet u c) (wd_wallets db)) as [w2|] eqn:Hrow.
  - apply first_row_Some in Hrow as [Hin2 Hk2%same_wallet_key].
    by rewrite (NoDup_fmap_eq row_key (wd_wallets db) w2 w Hnd Hin2 Hw ltac:(congruence)).
  - rewrite first_row_None in Hrow. specialize (Hrow w Hw).
    by rewrite (proj2 (same_wallet_key u c w) Hk) in Hrow.
Qed.
Lemma upsert_inserts u c now fresh db b : ((u, c) ∉ row_key <$> wd_wallets db) ->
  numeric_in "0" = Some b ->
  let w := mkWallet fresh u c b 0 now now in
  upsert_wallet u c now fresh db = Done (Some w, with_wallet w db).
Proof.
  intros Hkey Hb. assert (forall x, x ∈ wd_wallets db -> same_wallet u c x = false) as Hno.
  { intros x Hx. apply not_true_iff_false. intros Hs%same_wallet_key. apply Hkey.
    rewrite <- Hs. by apply list_elem_of_fmap_2. }
  unfold upsert_wallet. rewrite (proj2 (first_row_None _ _) Hno). unfold insert_wallet. rewrite Hb.
  cbn [read_in mbind answer_bind]. by rewrite (proj2 (existsb_false _ _) Hno).
Qed.

Lemma touches_touch L n db w u c now : pg_inv n db -> w ∈ wd_wallets db -> row_key w = (u, c) ->
  RowWallet (wallet_ID w) ∈ L -> touches L db (with_touch u c now db).
Proof.
  intros Hi Hw Hk Hin [] Hl; cbn; try done; try (by intros ?).
  - apply row_stays_map. intros x Hx Hid. destruct (decide (x = w)) as [->|Hne].
    + destruct Hl. by subst.
    + eapply touch_set_other; [apply Hi|done..].
  - apply key_same_map. intros x. unfold touch_set. by destruct (same_wallet u c x).
  - apply key_same_map. intros x. unfold touch_set. by destruct (same_wallet u c x).
Qed.

Lemma create_wallet_safe u c now n db :
  safe (fun n d d' r => exists w, r = Ok w /\ opens u c n d w d') (create_wallet_prog u c) now [] [] n db.
Proof.
  unfold create_wallet_prog. apply safe_at_end.
  { intros [a|e|m] H b; [by destruct (H a)|done..]. }
  split; [done|]. intros n1 db1 o v Hr1 Hsem. cbn [stmt_sem overlay foldl] in *.
  assert (pg_inv n1 db1) as Hi1 by apply Hr1. unfold upsert_wallet in Hsem.
  split; [intros l _; right; by intros h ?%elem_of_nil|].
  destruct (first_row (same_wallet u c) (wd_wallets db1)) as [w|] eqn:Hrow.
  - injection Hsem as <- <-. apply first_row_Some in Hrow as [Hw Hk%same_wallet_key].
    destruct (overlay_touch n1 db1 w u c now Hi1 Hw Hk) as [_ Hov].
    split; [done|]. intros n2 db2 Hr2. cbv zeta. assert (pg_inv n2 db2) as Hi2 by apply Hr2.
    assert (w ∈ wd_wallets db2) as Hw2.
    { eapply rely_row_wallet; [exact Hr2|right; right; left|exact Hw]. }
    overlay_is db2 (Hov n2 db2 Hi2 Hw2).
    split; [apply inv_wallets_map; [done|]; intros x; unfold touch_set; by destruct (same_wallet u c x)|].
    split; [constructor; [by apply kept_same|done]|].
    split; [eapply touches_touch; [exact Hi2|done..|right; right; left]|].
    cbn. eexists. split; [done|]. exists now, n1. split; [destruct Hr2; lia|].
    apply upsert_touches; [apply Hi2|done..].
  - destruct (insert_wallet_writes u c now n1 db1 o v Hi1 Hsem) as (b & Hb & Hkey & -> & -> & Hv).
    cbn [locks wallet_rows wallet_locks versions]. rewrite Hv.
    set (w := mkWallet (uuid_at n1) u c b 0 now now).
    split; [done|]. intros n2 db2 Hr2. cbv zeta.
    assert (pg_inv n2 db2) as Hi2 by apply Hr2. assert (n1 < n2)%nat as Hlt by (by destruct Hr2).
    assert (wallet_ID w ∉ wallet_ID <$> wd_wallets db2) as Hnew.
    { eapply rely_new_wallet; [exact Hr2|right; left|by eapply fresh_wallet]. }
    assert ((u, c) ∉ row_key <$> wd_wallets db2) as Hkey2.
    { eapply rely_new_owner; [exact Hr2|left|done]. }
    overlay_is db2 (overlay_wallet db2 w Hnew).
    split; [apply inv_wallet_new; try done; eapply numeric_amount; [apply is_amount_0|apply Eight_0|done]|].
    split; [by constructor; [apply kept_same|]|]. split; [apply touches_wallet; [right; left|left]|].
    cbn. eexists. split; [done|]. exists now, n1. split; [done|]. by apply upsert_inserts.
Qed.

(** What CreateDepositAddress commits. *)
Definition adds_address (a : DepositAddress) n (db : wallet_db) (b : DepositAddress)
    (db' : wallet_db) : Prop :=
  exists now k, (k < n)%nat /\ da_ID b = uuid_at k /\
    insert_address (da_UserID a) (da_Currency a) (da_Chain a) (da_Address a) (da_XCashDepositID a)
      now (uuid_at k) db = Done (Some (da_ID b, now), db').

Lemma active_address_key u c ch a : active_address u c ch a = true ->
  (da_UserID a, da_Currency a, da_Chain a) = (u, c, ch).
Proof.
  unfold active_address. rewrite !andb_true_iff, !bool_decide_eq_true. by intros [[[-> ->] ->] _].
Qed.

Lemma create_address_safe a now n db :
  safe (fun n d d' r => exists b, r = Ok b /\ adds_address a n d b d') (create_address_prog a) now [] [] n db.
Proof.
  unfold create_address_prog. split; [done|]. intros n1 db1 o v Hr1 Hsem.
  cbn [stmt_sem overlay foldl] in *. unfold insert_address in Hsem.
  destruct (existsb _ _) eqn:Hex; [done|]. injection Hsem as <- <-.
  split; [intros l _; right; by intros h ?%elem_of_nil|].
  set (b := mkDepositAddress (uuid_at n1) (da_UserID a) (da_Currency a) (da_Chain a) (da_Address a)
    (da_XCashDepositID a) "active" now).
  assert (wallet_versions db1 (wd_set_addresses (wd_addresses db1 ++ [b]) db1) = [VAddress b]) as Hv.
  { unfold wallet_versions. cbn [wd_wallets wd_transactions wd_requests wd_addresses wd_set_addresses].
    rewrite !made_refl, made_app; [done|]. intros x ->%list_elem_of_singleton Hx.
    rewrite existsb_false in Hex. specialize (Hex b Hx). unfold active_address in Hex.
    by rewrite !bool_decide_eq_true_2 in Hex. }
  cbn [locks wallet_rows wallet_locks versions]. rewrite Hv. split; [done|]. intros n2 db2 Hr2.
  change (overlay _ db2) with (wd_set_addresses (wd_addresses db2 ++ [b]) db2). cbv zeta.
  assert (existsb (active_address (da_UserID a) (da_Currency a) (da_Chain a)) (wd_addresses db2) = false) as Hex2.
  { destruct Hr2 as (_ & _ & _ & Hs). pose proof (Hs _ ltac:(left)) as H. cbn in H. by rewrite <- H. }
  split; [apply inv_addresses, Hr2|]. split; [by constructor; [apply kept_same|]|]. split.
  { intros [] Hl; cbn; try done; try (by intros ?). rewrite existsb_app. cbn.
    destruct (active_address _ _ _ b) eqn:Hact; [|by rewrite !orb_false_r].
    apply active_address_key in Hact. destruct Hl. injection Hact as <- <- <-. left. }
  eexists. split; [done|]. exists now, n1. split; [destruct Hr2; lia|]. split; [done|].
  unfold insert_address. by rewrite Hex2.
Qed.
End Reviews.
