(* ===== verification/WalletConcProps.v ===== *)
(** * WalletConcProps: the wallet under concurrent transactions

    Any number of sessions call the Postgres store at once, their statements interleave as
    the locks let them, and anything may fail at any time. *)

From Stdlib Require Import Qabs.
From S2P Require Import Prelude GoStd GoJson Decimal WalletModels WalletStore WalletLedger WalletProps Sql.
From S2P Require Import TxProg TxConc WalletPg WalletPgLedger WalletPgOps WalletPgProps WalletTx WalletConc.
From S2P Require Import WalletConcOps WalletConcReviews Demo.

Inductive reply : Type :=
| ReWallet (w : Wallet)
| ReTxn (t : Transaction)
| ReAddress (a : DepositAddress)
| ReRequest (q : WithdrawalRequest).

Section Props.
Context `{E : GoEnv, L0 : DecimalLaws, P : PgTypes, PL : !PgLaws P, EL : !GoEnvLaws E, SL : Slack}.

Definition wallet_code (op : wallet_op) : prog wallet_stmt reply :=
  match op with
  | OpCreateWallet u c => p_map ReWallet (create_wallet_prog u c)
  | OpCredit u c a r md => p_map ReTxn (credit_prog u c a r md)
  | OpDebit u c a r md => p_map ReTxn (debit_prog u c a r md)
  | OpCreateDepositAddress a => p_map ReAddress (create_address_prog a)
  | OpRequestWithdrawal u c a d ch => p_map ReRequest (request_prog u c a d ch)
  | OpApprove i t b => p_map ReRequest (approve_prog i t b)
  | OpReject i b => p_map ReRequest (reject_prog i b)
  end.

(** What a commit does to the tables [d] of its moment, and the answer. *)
Definition wallet_spec (op : wallet_op) (n : nat) (d d' : wallet_db) (r : res reply) : Prop :=
  match op with
  | OpCreateWallet u c => exists w, r = Ok (ReWallet w) /\ opens u c n d w d'
  | OpCredit u c a ref md => exists t, r = Ok (ReTxn t) /\ credits u c a ref md n d t d'
  | OpDebit u c a ref md => exists t, r = Ok (ReTxn t) /\ debits u c a ref md n d t d'
  | OpCreateDepositAddress a => exists b, r = Ok (ReAddress b) /\ adds_address a n d b d'
  | OpRequestWithdrawal u c a de ch => exists q, r = Ok (ReRequest q) /\ requested u c a de ch 0 n d q d'
  | OpApprove i t b => exists q, r = Ok (ReRequest q) /\ approves i t b d q d'
  | OpReject i b => exists q, r = Ok (ReRequest q) /\ rejects i b n d q d'
  end.

Lemma wallet_code_safe op n db now : covers op -> pg_inv n db ->
  safe stmt_sem (wallet_spec op) (wallet_code op) now [] [] n db.
Proof.
  intros H8%covers_fits Hi. destruct op; cbn [wallet_code wallet_spec] in *; apply safe_map;
    (eapply safe_mono; [|first [apply create_wallet_safe|by apply credit_safe|by apply debit_safe
      |apply create_address_safe|by apply request_safe|apply approve_safe|apply reject_safe]]);
    cbn; intros n' d d' r (x & -> & Hx); by eexists.
Qed.

(** The server with any number of sessions that make allowed calls, from the empty
    database. *)
#[local] Abbreviation server := (TxServer wallet_db wallet_stmt wallet_op reply).
Definition conc_reachable (allowed : wallet_op -> Prop) (s : server) : Prop :=
  exists n, rtc (cstep stmt_sem wallet_code allowed) (idle n empty_wallet_db) s.
#[local] Abbreviation good := (server_safe stmt_sem wallet_spec).

Section Allowed.
Context (allowed : wallet_op -> Prop) (allowed_covers : forall op, allowed op -> covers op).

Lemma conc_step s s' : good allowed s -> cstep stmt_sem wallet_code allowed s s' ->
  good allowed s' /\ did wallet_spec allowed s s'.
Proof. apply cstep_safe. intros op k db now Ha. by apply wallet_code_safe, allowed_covers. Qed.

(** An invariant of the committed tables and the answers. *)
Lemma conc_induct (I : server -> Prop) s :
  (forall n, I (idle n empty_wallet_db)) ->
  (forall s s', good allowed s -> I s -> did wallet_spec allowed s s' -> I s') ->
  conc_reachable allowed s -> I s.
Proof.
  intros H0 Hstep [n H]. assert (good allowed (idle n empty_wallet_db)) as Hg by (apply idle_safe, pg_inv_empty).
  specialize (H0 n). revert Hg H0. induction H as [s|s s1 s2 H _ IH]; intros Hg HI; [done|].
  destruct (conc_step s s1 Hg H) as [Hg1 Hd]. apply IH; [done|]. exact (Hstep s s1 Hg HI Hd).
Qed.

Lemma conc_safe s : conc_reachable allowed s -> good allowed s.
Proof.
  intros [n H]. eapply (rtc_safe stmt_sem wallet_code wallet_spec); [|apply idle_safe, pg_inv_empty|exact H].
  intros op k db now Ha. by apply wallet_code_safe, allowed_covers.
Qed.
End Allowed.

End Props.

(** From here on every run is covered: by the slack of one unit of the last place per
    entry. *)
Section Guarantees.
Context `{E : GoEnv, L0 : DecimalLaws, P : PgTypes, PL : !PgLaws P, EL : !GoEnvLaws E}.
#[local] Existing Instance unit_slack.
#[local] Abbreviation server := (TxServer wallet_db wallet_stmt wallet_op reply).
#[local] Abbreviation good := (server_safe stmt_sem wallet_spec).
Context (allowed : wallet_op -> Prop).

Lemma all_covered op : allowed op -> covers op.
Proof. intros _. apply unit_covers. Qed.

Lemma conc_inv s : conc_reachable allowed s -> pg_inv (cs_tick s) (cs_db s).
Proof. intros Hs%conc_safe; [|apply all_covered]. apply (ss_inv _ _ _ _ Hs). Qed.

(** C1.  However the statements of any number of sessions interleave, whatever fails and
    whatever amounts are booked: in the committed tables every balance is the sum of the
    signed amounts of the wallet's entries, so that no update is lost - exactly, when every
    amount has at most the eight decimals of the columns, and up to one unit of the last
    place per entry otherwise, since the entry and the balance are rounded apart; a user has
    one wallet per currency, no reference is booked twice, every entry belongs to a wallet,
    and every withdrawal request has an entry of its amount. *)
Theorem conc_ledger s :
  conc_reachable allowed s ->
  (forall x, x ∈ wd_wallets (cs_db s) ->
     (Qabs (amt (wallet_Balance x) - ledger_sum (wallet_ID x) (entries (cs_db s))) <=
        (1 # 100000000) * inject_Z (Z.of_nat (entry_count (wallet_ID x) (entries (cs_db s)))))%Q /\
     ((forall op, allowed op -> op_eight op) ->
      (amt (wallet_Balance x) == ledger_sum (wallet_ID x) (entries (cs_db s)))%Q)) /\
  (forall x y, x ∈ wd_wallets (cs_db s) -> y ∈ wd_wallets (cs_db s) ->
     wallet_UserID x = wallet_UserID y -> wallet_Currency x = wallet_Currency y -> x = y) /\
  NoDup (refs (cs_db s)) /\
  (forall row, row ∈ wd_transactions (cs_db s) ->
     exists x, x ∈ wd_wallets (cs_db s) /\ wallet_ID x = tr_WalletID row) /\
  (forall q, q ∈ wd_requests (cs_db s) -> exists t, t ∈ wd_transactions (cs_db s) /\
     tr_ReferenceID t = Some (rr_ID q) /\ tr_Type t = "withdrawal" /\
     tr_WalletID t = rr_WalletID q /\ tr_Amount t = rr_Amount q).
Proof.
  intros Hs. pose proof (conc_inv s Hs) as Hi. split_and!.
  - intros x Hx. split; [exact (inv_near _ _ _ Hi Hx)|]. intros H8.
    apply (inv_exact (cs_tick s)); [|done].
    apply (conc_safe (SL := exact_slack)) in Hs; [|by apply eight_covers].
    apply (ss_inv _ _ _ _ Hs).
  - intros x y Hx Hy Hu Hc. apply (NoDup_fmap_eq row_key (wd_wallets (cs_db s))); [apply Hi|done..|].
    unfold row_key. congruence.
  - apply Hi.
  - intros row Hrow. pose proof (pi_owned _ _ Hi) as Ho. rewrite list.Forall_forall in Ho.
    destruct (proj1 (list_elem_of_fmap _ _ _) (Ho row Hrow)) as (x & Heq & Hx). by exists x.
  - intros q Hq. pose proof (pi_requests _ _ Hi) as H. rewrite list.Forall_forall in H.
    by apply H.
Qed.

(** C2.  Every step of every interleaving is atomic as seen by the others: it leaves the
    committed tables, or turns them by one operation of the sequential store, executed on
    the tables of that moment; and a success that is answered is that operation's answer: the
    entry that was there under the reference, or the new one with the arguments of the call
    and the wallet's balances of that moment, the metadata being in its row. *)
Theorem conc_atomic s s' :
  conc_reachable allowed s -> cstep stmt_sem wallet_code allowed s s' ->
  (cs_db s' = cs_db s \/
   exists op r, allowed op /\ wallet_spec op (cs_tick s) (cs_db s) (cs_db s') r) /\
  forall op a, cs_out s' = (op, Ok a) :: cs_out s ->
    wallet_spec op (cs_tick s) (cs_db s) (cs_db s') (Ok a).
Proof.
  intros Hs%conc_safe Hst; [|apply all_covered].
  destruct (conc_step allowed all_covered s s' Hs Hst) as [_ Hd].
  destruct Hd as [Hdb Hout|op r Hdb Hout Hr|op r Ha Hsp _ Hout|op r r' Ha Hsp _ Hout Hr]; split;
    [by left| |by left| |by right; exists op, r| |by right; exists op, r|].
  - intros op a Ho. rewrite Hout in Ho. apply (f_equal length) in Ho. cbn in Ho. lia.
  - intros op' a Ho. rewrite Hout in Ho. injection Ho as <- ->. by destruct (Hr a).
  - intros op' a Ho. rewrite Hout in Ho. injection Ho as <- ->. done.
  - intros op' a Ho. rewrite Hout in Ho. injection Ho as <- ->. by destruct (Hr a).
Qed.

(** C5.  The transactions never deadlock: while a call is under way some session's next
    statement is not waiting for a lock. *)
Theorem conc_no_deadlock s i x :
  conc_reachable allowed s -> cs_open s !! i = Some x -> exists j s', advances stmt_sem j s s'.
Proof. intros Hs%conc_safe Hx; [|apply all_covered]. by eapply no_deadlock. Qed.

(** ** No overdraft *)

Definition nonneg (db : wallet_db) : Prop :=
  (forall w, w ∈ wd_wallets db -> (0 <= amt (wallet_Balance w))%Q) /\
  (forall q, q ∈ wd_requests db -> (0 <= amt (rr_Amount q))%Q).

Lemma numeric_nonneg s q t : is_amount s q -> (0 <= q)%Q -> numeric_in s = Some t -> (0 <= amt t)%Q.
Proof.
  intros (d & Hd & Hq) H0 Ht. rewrite (is_amount_amt _ _ (numeric_value s d t Hd Ht)).
  apply round8_nonneg. by rewrite Hq.
Qed.

Lemma nonneg_book w row now db : nonneg db -> (0 <= amt (tr_BalanceAfter row))%Q ->
  nonneg (book w row now db).
Proof.
  intros [Hw Hq] Hb. split; [|exact Hq]. cbn. intros x (y & -> & Hy)%list_elem_of_fmap.
  destruct (row_hit w y); [done|by apply Hw].
Qed.

Lemma nonneg_same_wallets db db' : wd_wallets db' = wd_wallets db ->
  wd_requests db' = wd_requests db -> nonneg db -> nonneg db'.
Proof. intros Hw Hq [A B]. split; [by rewrite Hw|by rewrite Hq]. Qed.

Lemma nonneg_added db w : nonneg db -> (0 <= amt (wallet_Balance w))%Q ->
  nonneg (wd_set_wallets (wd_wallets db ++ [w]) db).
Proof.
  intros [Hw Hq] Hb. split; [|exact Hq]. cbn.
  by intros x [Hx| ->%list_elem_of_singleton]%elem_of_app; [apply Hw|].
Qed.

Lemma zero_nonneg t : numeric_in "0" = Some t -> (0 <= amt t)%Q.
Proof. apply (numeric_nonneg "0" 0); [apply is_amount_0|lra]. Qed.

Lemma opened_nonneg u c n n' db w db1 : nonneg db -> opened_wallet u c n n' db w db1 ->
  nonneg db1 /\ w ∈ wd_wallets db1.
Proof.
  intros Hn [x Hx _|k b now _ _ Hb]; [done|]. split.
  - apply nonneg_added; [done|]. by apply zero_nonneg.
  - apply elem_of_app. right. left.
Qed.

Lemma reviewed_nonneg id st th by' db q db1 : nonneg db -> reviewed id st th by' db q db1 ->
  nonneg db1 /\ (0 <= amt (wr_Amount q))%Q.
Proof.
  intros [Hw Hq] (cid & r & _ & Hr & _ & _ & -> & ->). split; [split; [exact Hw|]|exact (Hq r Hr)].
  cbn. intros x (y & -> & Hy)%list_elem_of_fmap. destruct (is_pending_request cid y); exact (Hq y Hy).
Qed.

(** A deposit or refund, and a withdrawal, of a balance that is not negative. *)
Lemma added_nonneg typ u c a bal st ref md w n m db row : (0 <= amt (wallet_Balance w))%Q ->
  (0 <= amt a)%Q -> addDecimal (wallet_Balance w) a = Ok bal ->
  entry_row typ u c a bal st ref md w n m db row -> (0 <= amt (tr_BalanceAfter row))%Q.
Proof.
  intros Hb Ha Hbal Her. destruct (addDecimal_inv _ _ _ Hbal) as (p & q & Hp & Hq & Hc).
  eapply numeric_nonneg; [exact Hc| |apply (er_after Her)].
  rewrite (is_amount_amt _ _ Hp) in Hb. rewrite (is_amount_amt _ _ Hq) in Ha. lra.
Qed.
Lemma drawn_nonneg typ u c a bal st ref md w n m db row : can_draw u c a w db ->
  subDecimal (wallet_Balance w) a = Ok bal ->
  entry_row typ u c a bal st ref md w n m db row -> (0 <= amt (tr_BalanceAfter row))%Q.
Proof.
  intros (_ & _ & b & q & Hb & Hq & Hle) Hbal Her.
  destruct (subDecimal_inv _ _ _ Hbal) as (p & q' & Hp & Hq' & Hc).
  eapply numeric_nonneg; [exact Hc| |apply (er_after Her)].
  rewrite (is_amount_fun _ _ _ Hp Hb), (is_amount_fun _ _ _ Hq' Hq). lra.
Qed.

Lemma with_status_same o st db :
  wd_wallets (with_status o st db) = wd_wallets db /\ wd_requests (with_status o st db) = wd_requests db.
Proof. by destruct o. Qed.

Lemma spec_nonneg op n d d' r : op_nonneg op -> nonneg d -> wallet_spec op n d d' r -> nonneg d'.
Proof.
  intros Hop Hn. destruct op; cbn [wallet_spec op_nonneg] in *; intros (x & _ & H).
  - destruct H as (now & k & _ & H). unfold upsert_wallet, insert_wallet in H.
    destruct (first_row _ _); [injection H as _ <-|].
    + destruct Hn as [Hw Hq]. split; [|exact Hq]. cbn. intros y (z & -> & Hz)%list_elem_of_fmap.
      destruct (same_wallet _ _ z); exact (Hw z Hz).
    + destruct (numeric_in "0") as [b|] eqn:Hb; [|done]. cbn [read_in mbind answer_bind] in H.
      destruct (existsb _ _); [done|]. injection H as _ <-. apply nonneg_added; [done|].
      by apply zero_nonneg.
  - destruct H as [[_ ->]|(_ & w & db1 & Ho & bal & row & now & Hbal & Her & _ & ->)]; [done|].
    destruct (opened_nonneg _ _ _ _ _ _ _ Hn Ho) as [Hn1 Hw].
    apply nonneg_book; [done|]. eapply added_nonneg; [|exact Hop|done..]. by apply Hn1.
  - destruct H as [[_ ->]|(_ & w & Hw & bal & row & now & Hbal & Her & _ & ->)]; [done|].
    apply nonneg_book; [done|]. by eapply drawn_nonneg.
  - destruct H as (now & k & _ & _ & H). unfold insert_address in H.
    destruct (existsb _ _); [done|]. injection H as _ <-. by eapply nonneg_same_wallets.
  - destruct H as (w & bal & row & k & now & Hw & Hbal & _ & Her & _ & ->).
    destruct (nonneg_book w row now d Hn (drawn_nonneg _ _ _ _ _ _ _ _ _ _ _ _ _ Hw Hbal Her)) as [A B].
    split; [exact A|]. cbn. intros q [Hq| ->%list_elem_of_singleton]%elem_of_app; [by apply B|].
    destruct Hw as (_ & _ & b & qa & _ & Hqa & _). cbn.
    eapply numeric_nonneg; [exact Hqa| |apply (er_amount Her)]. by rewrite <- (is_amount_amt _ _ Hqa).
  - destruct H as (db1 & o & Hr & _ & -> & _).
    destruct (reviewed_nonneg _ _ _ _ _ _ _ Hn Hr) as [Hn1 _].
    destruct (with_status_same o "completed" db1). by eapply nonneg_same_wallets.
  - destruct H as (db1 & o & w & bal & row & now & Hr & _ & _ & Hw & _ & Hbal & Her & ->).
    destruct (reviewed_nonneg _ _ _ _ _ _ _ Hn Hr) as [Hn1 Ha].
    destruct (with_status_same o "reversed" db1).
    apply nonneg_book; [by eapply nonneg_same_wallets|]. eapply added_nonneg; [|exact Ha|done..].
    by apply Hn.
Qed.

(** C3.  No interleaving overdraws a wallet: as long as no negative amount is credited or
    requested, every committed balance is at least zero, however many debits and
    withdrawals race for it and however many decimals their amounts have. *)
Theorem conc_no_overdraft s x :
  (forall op, allowed op -> op_nonneg op) ->
  conc_reachable allowed s -> x ∈ wd_wallets (cs_db s) -> (0 <= amt (wallet_Balance x))%Q.
Proof.
  intros Hnn H Hx. enough (nonneg (cs_db s)) as [Hw _] by (by apply Hw). clear Hx x. revert H.
  apply (conc_induct allowed all_covered (fun s => nonneg (cs_db s))).
  - intros n. split; intros y Hy; by apply elem_of_nil in Hy.
  - intros s0 s1 _ Hn [-> _|op r -> _ _|op r Hop Hsp _ _|op r r' Hop Hsp _ _ _];
      [done..|by eapply spec_nonneg; [apply Hnn| |]|by eapply spec_nonneg; [apply Hnn| |]].
Qed.

(** ** Confirmed calls *)

(** What a confirmed call leaves in the tables for good. *)
Definition recorded (op : wallet_op) (a : reply) (db : wallet_db) : Prop :=
  match op, a with
  | OpCredit _ _ _ ref _, ReTxn t | OpDebit _ _ _ ref _, ReTxn t => ref <> "" ->
      exists row, row ∈ wd_transactions db /\ tr_ID row = tx_ID t /\ tr_ReferenceID row = Some ref
  | OpApprove _ _ _, ReRequest q | OpReject _ _, ReRequest q =>
      exists x, x ∈ wd_requests db /\ rr_ID x = wr_ID q /\ rr_Status x <> "pending"
  | _, _ => True
  end.

Lemma recorded_grows op a db db' : grows db db' -> recorded op a db -> recorded op a db'.
Proof.
  intros [Hk Hq]. destruct op, a; cbn; try done.
  1, 2: intros H Hne; destruct (H Hne) as (row & Hin & Hid & Href);
    destruct (Hk row Hin) as (st & ?); exists (tr_set_status st row); by split_and!.
  all: intros (x & Hx & Hid & Hs); exists x; split_and!; auto.
Qed.

Lemma posted_recorded ref db db' t : grows db db' ->
  entry_found ref db t \/ (exists row, row ∈ wd_transactions db' /\ tr_ReferenceID row = ref_opt ref /\
    names_entry t row) -> ref <> "" ->
  exists row, row ∈ wd_transactions db' /\ tr_ID row = tx_ID t /\ tr_ReferenceID row = Some ref.
Proof.
  intros [Hk _] [(_ & row & Hin & Href & [Hid _]%same_names)|(row & Hin & Href & Hid & _)] Hne.
  - destruct (Hk row Hin) as (st & ?). exists (tr_set_status st row). split_and!; [done|by symmetry|done].
  - exists row. rewrite Href. unfold ref_opt. by rewrite decide_False.
Qed.

Lemma booked_row op typ u c a ref md n n' w db1 t db' : booked op typ u c a ref md n n' w db1 t db' ->
  exists row, row ∈ wd_transactions db' /\ tr_ReferenceID row = ref_opt ref /\ names_entry t row.
Proof.
  intros (bal & row & now & _ & Her & Hse & ->). exists row.
  split; [cbn; apply elem_of_app; right; left|]. split; [apply (er_ref Her)|].
  eapply new_names; [apply (er_ref Her)|exact Hse].
Qed.

Lemma reviewed_recorded id st th by' db q db1 db' : st <> "pending" ->
  reviewed id st th by' db q db1 -> wd_requests db' = wd_requests db1 ->
  exists x, x ∈ wd_requests db' /\ rr_ID x = wr_ID q /\ rr_Status x <> "pending".
Proof.
  intros Hst (cid & r & _ & Hr & Hid & Hs & -> & ->) ->. exists (review_row st th by' r).
  split; [|done]. cbn. apply list_elem_of_fmap. exists r. split; [|done].
  unfold is_pending_request. by rewrite !bool_decide_eq_true_2.
Qed.

Lemma spec_recorded op n d d' a : grows d d' -> wallet_spec op n d d' (Ok a) -> recorded op a d'.
Proof.
  intros Hg. destruct op; cbn [wallet_spec]; intros (x & [= ->] & H); cbn; try done.
  - apply (posted_recorded _ d); [done|].
    destruct H as [[? _]|(_ & w & db1 & _ & H)]; [by left|right; by eapply booked_row].
  - apply (posted_recorded _ d); [done|].
    destruct H as [[? _]|(_ & w & _ & H)]; [by left|right; by eapply booked_row].
  - destruct H as (db1 & o & Hr & _ & -> & _). eapply reviewed_recorded; [|exact Hr|]; [done|].
    apply with_status_same.
  - destruct H as (db1 & o & w & bal & row & now & Hr & _ & _ & _ & _ & _ & _ & ->).
    eapply reviewed_recorded; [|exact Hr|]; [done|]. cbn. apply with_status_same.
Qed.

(** The requests whose review was confirmed. *)
Definition review_of (answer : wallet_op * res reply) : option string :=
  match answer with
  | (OpApprove _ _ _, Ok (ReRequest q)) | (OpReject _ _, Ok (ReRequest q)) => Some (wr_ID q)
  | _ => None
  end.

Definition answers_ok (s : server) : Prop :=
  (forall op a, (op, Ok a) ∈ cs_out s -> recorded op a (cs_db s)) /\
  NoDup (omap review_of (cs_out s)).

(** A review finds its request pending. *)
Lemma review_was_pending op n d d' a id : pg_inv n d -> wallet_spec op n d d' (Ok a) ->
  review_of (op, Ok a) = Some id ->
  forall x, x ∈ wd_requests d -> rr_ID x = id -> rr_Status x = "pending".
Proof.
  intros Hi Hsp Hrev x Hx Hid.
  assert (forall st th by' i q db1, reviewed i st th by' d q db1 -> wr_ID q = id ->
    rr_Status x = "pending") as H.
  { intros st th by' i q db1 (cid & r & _ & Hr & _ & Hs & -> & _) Hq. cbn in Hq.
    by rewrite (NoDup_fmap_eq rr_ID (wd_requests d) x r (pi_request_ids _ _ Hi) Hx Hr ltac:(congruence)). }
  destruct op; cbn [wallet_spec] in Hsp; destruct Hsp as (q & [= ->] & Hsp); cbn in Hrev; try done;
    injection Hrev as Hq.
  - destruct Hsp as (db1 & o & Hr & _). by eapply H.
  - destruct Hsp as (db1 & o & w & bal & row & now & Hr & _). by eapply H.
Qed.

Lemma answers_step s s' : good allowed s -> answers_ok s -> did wallet_spec allowed s s' -> answers_ok s'.
Proof.
  intros Hg [Hrec Hnd] Hd. assert (pg_inv (cs_tick s) (cs_db s)) as Hi by apply (ss_inv _ _ _ _ Hg).
  destruct Hd as [Hdb Hout|op r Hdb Hout Hr|op r Ha Hsp Hst Hout|op r r' Ha Hsp Hst Hout Hr];
    unfold answers_ok; rewrite Hout, ?Hdb; cbn [omap list_omap].
  - done.
  - split.
    + intros op' a [[= <- <-]|Hin]%elem_of_cons; [by destruct (Hr a)|by apply Hrec].
    + destruct r as [a|e|m]; [by destruct (Hr a)|by destruct op..].
  - split.
    + intros op' a [[= <- <-]|Hin]%elem_of_cons; [by eapply spec_recorded|].
      eapply recorded_grows; [exact Hst|by apply Hrec].
    + destruct r as [a|e|m]; [|by destruct op..].
      destruct (review_of (op, Ok a)) as [id|] eqn:Hrev; [|done]. apply list.NoDup_cons. split; [|done].
      intros ([op' r'] & Hin & Hr')%list_elem_of_omap.
      destruct r' as [a'|e|m]; [|by destruct op'..]. specialize (Hrec op' a' Hin).
      assert (exists x, x ∈ wd_requests (cs_db s) /\ rr_ID x = id /\ rr_Status x <> "pending") as
        (x & Hx & Hid & Hns) by (destruct op', a'; cbn in *; try done; by injection Hr' as <-).
      by destruct Hns; eapply review_was_pending.
  - split.
    + intros op' a [[= <- <-]|Hin]%elem_of_cons; [by destruct (Hr a)|].
      eapply recorded_grows; [exact Hst|by apply Hrec].
    + destruct r' as [a|e|m]; [by destruct (Hr a)|by destruct op..].
Qed.

Lemma conc_answers s : conc_reachable allowed s -> answers_ok s.
Proof.
  apply (conc_induct allowed all_covered).
  - intros n. split; [intros op a Hin; by apply elem_of_nil in Hin|constructor].
  - apply answers_step.
Qed.

(** The reference of a credit or debit. *)
Definition post_ref (op : wallet_op) : option string :=
  match op with OpCredit _ _ _ ref _ | OpDebit _ _ _ ref _ => Some ref | _ => None end.

(** C4.  Calls that race are applied once.  Credits and debits that were answered with
    success under one reference were all answered the one entry that is booked under it; and
    of the approvals and rejections of a withdrawal request that were answered with success
    there is at most one, even when they ran side by side. *)
Theorem conc_once s :
  conc_reachable allowed s ->
  (forall ref op1 op2 t1 t2, ref <> "" ->
     (op1, Ok (ReTxn t1)) ∈ cs_out s -> (op2, Ok (ReTxn t2)) ∈ cs_out s ->
     post_ref op1 = Some ref -> post_ref op2 = Some ref ->
     tx_ID t1 = tx_ID t2 /\
     exists row, row ∈ wd_transactions (cs_db s) /\ tr_ID row = tx_ID t1 /\ tr_ReferenceID row = Some ref) /\
  NoDup (omap review_of (cs_out s)).
Proof.
  intros Hs. destruct (conc_answers s Hs) as [Hrec Hnd]. split; [|done].
  apply conc_inv in Hs as Hi.
  intros ref op1 op2 t1 t2 Hne H1 H2 Hr1 Hr2. apply Hrec in H1, H2.
  assert (forall op t, post_ref op = Some ref -> recorded op (ReTxn t) (cs_db s) ->
    exists row, row ∈ wd_transactions (cs_db s) /\ tr_ID row = tx_ID t /\ tr_ReferenceID row = Some ref) as Hrow.
  { intros [] t; cbn; intros [= ->] H; by apply H. }
  destruct (Hrow op1 t1 Hr1 H1) as (row1 & Hin1 & Hid1 & Href1).
  destruct (Hrow op2 t2 Hr2 H2) as (row2 & Hin2 & Hid2 & Href2).
  assert (row1 = row2) as <- by (eapply unique_ref; [by eapply inv_unique|done..]).
  split; [congruence|by exists row1].
Qed.
End Guarantees.

(** ** A race *)
Module ConcDemo.
Import Demo PgDemo.
#[local] Existing Instances Demo.env Demo.env_laws PgDemo.types PgDemo.pg_laws.
#[local] Abbreviation server := (TxServer wallet_db wallet_stmt wallet_op reply).

Definition go (k i : nat) : list (event (Op := wallet_op)) := replicate k (Goes i).
Definition run_events (es : list event) : option server :=
  schedule stmt_sem wallet_code es (idle 0 empty_wallet_db).

(** A deposit; then two debits, of which only one is covered, race for the wallet: the
    second waits for the first one's commit, and is refused. *)
Definition deposit : list event := Begins 0 (OpCredit "u" "USDT" "100" "dep-1" ∅) :: go 6 0.
Definition race : list event :=
  deposit ++ [Begins 1 (OpDebit "u" "USDT" "60" "bet-1" ∅); Begins 2 (OpDebit "u" "USDT" "60" "bet-2" ∅);
              Goes 1; Goes 2; Goes 1].
Definition raced : list event := race ++ go 3 1 ++ go 2 2.

(** Three calls under one reference: the look-ups of the first two race, so that the second
    fails at its INSERT; a retry answers the entry. *)
Definition twice : list event :=
  deposit ++ [Begins 1 (OpDebit "u" "USDT" "10" "bet-1" ∅); Begins 2 (OpDebit "u" "USDT" "10" "bet-1" ∅);
              Goes 1; Goes 2] ++ go 4 1 ++ go 5 2 ++
  Begins 3 (OpDebit "u" "USDT" "10" "bet-1" ∅) :: go 3 3.

Definition final (es : list event) : server := default (idle 0 empty_wallet_db) (run_events es).
Definition ran (es : list event) : bool := match run_events es with Some _ => true | None => false end.

(** The calls of the runs below. *)
Definition op_fair (op : wallet_op) : Prop := op_eight op /\ op_nonneg op.

Lemma fair_ops a : a ∈ ["100"; "60"; "10"] -> eight a /\ (0 <= amt a)%Q.
Proof.
  intros H. repeat (apply elem_of_cons in H as [->|H]; [split; [|vm_compute; discriminate]|]).
  - eapply (eight_by _ _ 10000000000); reflexivity.
  - eapply (eight_by _ _ 6000000000); reflexivity.
  - eapply (eight_by _ _ 1000000000); reflexivity.
  - by apply elem_of_nil in H.
Qed.
Lemma op_fair_by e op : event_op e = Some op -> e ∈ raced ++ twice -> op_fair op.
Proof.
  intros He Hin.
  assert (forall e' : event (Op := wallet_op), e' ∈ raced ++ twice -> match e' with
    | Begins _ (OpCredit _ _ a _ _) => a ∈ ["100"; "60"; "10"]
    | Begins _ (OpDebit _ _ a _ _) => a ∈ ["100"; "60"; "10"]
    | Begins _ _ => False
    | _ => True
    end) as H.
  { apply list.Forall_forall. repeat constructor. }
  specialize (H e Hin). destruct e as [i o|i|i m]; [|done..]. cbn in He. injection He as ->.
  destruct op; try done; apply fair_ops in H as [? ?]; by split.
Qed.

Lemma final_reachable es : (forall e, e ∈ es -> e ∈ raced ++ twice) -> ran es = true ->
  conc_reachable op_fair (final es).
Proof.
  intros Hin Hran. exists 0%nat. unfold final, ran in *. destruct (run_events es) as [s|] eqn:Hs; [|done].
  eapply (schedule_steps stmt_sem wallet_code op_fair es); [|exact Hs].
  intros e op He Hop. eapply op_fair_by; [exact Hop|by apply Hin].
Qed.
Lemma raced_reachable : conc_reachable op_fair (final raced).
Proof.
  apply final_reachable; [|vm_compute; reflexivity]. intros e He. apply elem_of_app. by left.
Qed.
Lemma race_reachable : conc_reachable op_fair (final race).
Proof.
  apply final_reachable; [|vm_compute; reflexivity]. intros e He. apply elem_of_app. left.
  apply elem_of_app. by left.
Qed.
Lemma twice_reachable : conc_reachable op_fair (final twice).
Proof.
  apply final_reachable; [|vm_compute; reflexivity]. intros e He. apply elem_of_app. by right.
Qed.
Lemma raced_wallet : exists x, x ∈ wd_wallets (cs_db (final raced)) /\ wallet_Balance x = "40.00000000".
Proof.
  destruct (wd_wallets (cs_db (final raced))) as [|x l] eqn:H; vm_compute in H; [discriminate|].
  exists x. split; [left|]. by injection H as <- _.
Qed.

Lemma conc_ledger_witness :
  exists x, x ∈ wd_wallets (cs_db (final raced)) /\ wallet_Balance x = "40.00000000" /\
    (amt (wallet_Balance x) == ledger_sum (wallet_ID x) (entries (cs_db (final raced))))%Q.
Proof.
  destruct raced_wallet as (x & Hx & Hb). exists x. split; [exact Hx|]. split; [exact Hb|].
  apply (proj1 (conc_ledger op_fair (final raced) raced_reachable)); [exact Hx|].
  intros op [H _]. exact H.
Defined.

Lemma conc_no_overdraft_witness :
  exists x, x ∈ wd_wallets (cs_db (final raced)) /\ wallet_Balance x = "40.00000000" /\
    (0 <= amt (wallet_Balance x))%Q.
Proof.
  destruct raced_wallet as (x & Hx & Hb). exists x. split; [exact Hx|]. split; [exact Hb|].
  exact (conc_no_overdraft op_fair (final raced) x (fun op H => proj2 H) raced_reachable Hx).
Defined.

Lemma some_by {A} (o : option A) : match o with Some _ => true | None => false end = true -> exists x, o = Some x.
Proof. destruct o as [x|]; [by exists x|done]. Qed.

(** The second debit waits; the first one advances. *)
Lemma waiting : exists x, cs_open (final race) !! 2%nat = Some x.
Proof. apply some_by. vm_compute. reflexivity. Qed.
Lemma conc_no_deadlock_witness :
  advance stmt_sem 2 (final race) = None /\ exists j s', advances stmt_sem j (final race) s'.
Proof.
  split; [vm_compute; reflexivity|]. destruct waiting as [x Hx].
  exact (conc_no_deadlock op_fair (final race) 2 x race_reachable Hx).
Defined.

(** The first debit's UPDATE. *)
Lemma updates : exists s', advance stmt_sem 1 (final race) = Some s'.
Proof. apply some_by. vm_compute. reflexivity. Qed.
Lemma conc_atomic_witness :
  exists s', cstep stmt_sem wallet_code op_fair (final race) s' /\
    (cs_db s' = cs_db (final race) \/
     exists op r, op_fair op /\
       wallet_spec op (cs_tick (final race)) (cs_db (final race)) (cs_db s') r).
Proof.
  destruct updates as [s' Hs]. exists s'.
  assert (cstep stmt_sem wallet_code op_fair (final race) s') as Hst
    by (eapply c_advance, advance_advances, Hs).
  split; [exact Hst|]. exact (proj1 (conc_atomic op_fair (final race) s' race_reachable Hst)).
Defined.

(** Of the three calls under one reference two were answered, with one entry. *)
Lemma twice_answers : exists t1 t2 e m,
  cs_out (final twice) = [(OpDebit "u" "USDT" "10" "bet-1" ∅, Ok (ReTxn t1));
    (OpDebit "u" "USDT" "10" "bet-1" ∅, Err e); (OpDebit "u" "USDT" "10" "bet-1" ∅, Ok (ReTxn t2)); m].
Proof. do 4 eexists. vm_compute. reflexivity. Qed.
Lemma conc_once_witness :
  exists t1 t2, (OpDebit "u" "USDT" "10" "bet-1" ∅, Ok (ReTxn t1)) ∈ cs_out (final twice) /\
    (OpDebit "u" "USDT" "10" "bet-1" ∅, Ok (ReTxn t2)) ∈ cs_out (final twice) /\ tx_ID t1 = tx_ID t2.
Proof.
  destruct twice_answers as (t1 & t2 & e & m & Hout). exists t1, t2.
  assert ((OpDebit "u" "USDT" "10" "bet-1" ∅, Ok (ReTxn t1)) ∈ cs_out (final twice)) as H1
    by (rewrite Hout; left).
  assert ((OpDebit "u" "USDT" "10" "bet-1" ∅, Ok (ReTxn t2)) ∈ cs_out (final twice)) as H2
    by (rewrite Hout; right; right; left).
  split; [exact H1|]. split; [exact H2|].
  exact (proj1 (proj1 (conc_once op_fair (final twice) twice_reachable) "bet-1" _ _ t1 t2
    ltac:(discriminate) H1 H2 eq_refl eq_refl)).
Defined.
End ConcDemo.
