(* ===== verification/BetPg.v ===== *)
(** * BetPg: the sportsbook's Postgres store

    [internal/sportsbook/pgstore.go] and the table of [internal/sportsbook/migrations]: its
    rows, in the order of insertion.  Every method is one statement outside a transaction;
    odds, stakes and payouts are columns of text, ids of events, markets and outcomes are
    UUIDs, and times have a precision of their own. *)

From S2P Require Import Prelude GoStd GoJson Sql BetStore.

Abbreviation bets_table := (list Bet).

(** CHECK (status IN (...)) *)
Definition bet_statuses : list string :=
  [StatusDebitPending; StatusPending; StatusWon; StatusLost; StatusCancelled; StatusSettled].
Definition status_allowed (status : string) : bool := bool_decide (status ∈ bet_statuses).

Definition has_bet_id (id : string) (b : Bet) : bool := bool_decide (bet_ID b = id).
Definition has_bet_ref (userID referenceID : string) (b : Bet) : bool :=
  bool_decide (bet_UserID b = userID) && bool_decide (bet_ReferenceID b = referenceID).

(** The row of an INSERT: [settled_at] is not among its columns. *)
Definition bet_row (id event market outcome : string) (created : Z) (b : Bet) : Bet :=
  mkBet id (bet_UserID b) event market outcome (bet_Odds b) (bet_Stake b)
    (bet_PotentialPayout b) (bet_Currency b) (bet_Status b) (bet_ReferenceID b)
    (bet_DebitTransactionID b) (bet_CreditTransactionID b) created None.

(** SET settled_at = $n *)
Definition settled_row (t : Z) (b : Bet) : Bet :=
  mkBet (bet_ID b) (bet_UserID b) (bet_EventID b) (bet_MarketID b) (bet_OutcomeID b)
    (bet_Odds b) (bet_Stake b) (bet_PotentialPayout b) (bet_Currency b) (bet_Status b)
    (bet_ReferenceID b) (bet_DebitTransactionID b) (bet_CreditTransactionID b)
    (bet_CreatedAt b) (Some t).

Section Statements.
Context `{P : PgTypes}.
#[local] Abbreviation stmt := (statement bets_table).

(** INSERT INTO bets (...) VALUES (...) RETURNING id, with the primary key and the
    UNIQUE (user_id, reference_id) *)
Definition insert_bet (b : Bet) : stmt (option string) := fun now fresh db =>
  id ← read_in (uuid_in (bet_ID b));
  event ← read_in (uuid_in (bet_EventID b));
  market ← read_in (uuid_in (bet_MarketID b));
  outcome ← read_in (uuid_in (bet_OutcomeID b));
  created ← read_in (timestamptz_in (bet_CreatedAt b));
  if negb (status_allowed (bet_Status b)) then Refused CheckViolation
  else if existsb (fun x => has_bet_id id x || has_bet_ref (bet_UserID b) (bet_ReferenceID b) x) db
  then Refused UniqueViolation
  else Done (Some id, db ++ [bet_row id event market outcome created b]).

(** SELECT ... FROM bets WHERE id = $1 *)
Definition select_bet (id : string) : stmt (option Bet) := fun now fresh db =>
  id ← read_in (uuid_in id);
  Done (first_row (has_bet_id id) db, db).

(** SELECT ... FROM bets WHERE user_id = $1 AND reference_id = $2 *)
Definition select_bet_by_ref (userID referenceID : string) : stmt (option Bet) :=
  select (first_row (has_bet_ref userID referenceID)).

(** UPDATE bets SET ... WHERE id = $n RETURNING id *)
Definition update_row (id : string) (f : Bet -> Bet) : stmt (option string) := fun now fresh db =>
  id ← read_in (uuid_in id);
  match first_row (has_bet_id id) db with
  | None => Done (None, db)
  | Some b =>
      if negb (status_allowed (bet_Status (f b))) then Refused CheckViolation
      else Done (Some id, (fun x => if has_bet_id id x then f x else x) <$> db)
  end.

(** [if settledAt.IsZero() { ... } else { ..., settled_at = $n }] *)
Definition update_settled (id : string) (settledAt : Z) (f : Bet -> Bet) : stmt (option string) :=
  fun now fresh db =>
  if IsZero settledAt then update_row id f now fresh db
  else
    settled ← read_in (timestamptz_in settledAt);
    update_row id (fun b => settled_row settled (f b)) now fresh db.
End Statements.

Section PGStore.
Context `{E : GoEnv, P : PgTypes, F : SqlFaults}.

Definition isUniqueViolation (err : goerr) : bool := errors_Is err (ErrPg UniqueViolation).

Definition BetPGStore_CreateBet (b : Bet) : M bets_table string :=
  id ← (if decide (bet_ID b = "") then new_uuid else mret (bet_ID b));
  let b := bet_set_ID id b in
  b ← (if IsZero (bet_CreatedAt b)
       then t ← time_now; mret (bet_set_CreatedAt t b)
       else mret b);
  r ← attempt (scan (db_stmt (insert_bet b)));
  match r with
  | Ok id => mret id
  | Err e => if isUniqueViolation e then mthrow (ErrWrap "create bet" ErrBetNotFound)
             else mthrow (ErrWrap "create bet" e)
  | Panic p => panic p
  end.

(** [err := ....Scan(...)] and its two checks. *)
Definition or_not_found {A} (what : string) (m : M bets_table A) : M bets_table A :=
  r ← attempt m;
  match r with
  | Ok a => mret a
  | Err e => if decide (e = ErrNoRows) then mthrow ErrBetNotFound else mthrow (ErrWrap what e)
  | Panic p => panic p
  end.

Definition BetPGStore_GetBet (id : string) : M bets_table Bet :=
  or_not_found "get bet" (scan (db_stmt (select_bet id))).

Definition BetPGStore_ListBets (userID status : string) (page pageSize : Z) :
    M bets_table (list Bet) :=
  let page := default_int 1 page in
  let pageSize := default_int 20 pageSize in
  let offset := int64 (int64 (page - 1) * pageSize) in
  wrapped "list bets" (db_stmt (select_page
    (fun db => if decide (status = "") then filter (fun b => bet_UserID b = userID) db
               else filter (fun b => bet_UserID b = userID /\ bet_Status b = status) db)
    (fun a b => bet_CreatedAt b <? bet_CreatedAt a) pageSize offset)).

(** [var returnedID string; err := ....Scan(&returnedID)] *)
Definition run_update (what : string) (f : statement bets_table (option string)) :
    M bets_table unit :=
  returnedID ← or_not_found what (scan (db_stmt f));
  mret tt.

Definition BetPGStore_UpdateBetStatus (id status : string) (settledAt : Z) : M bets_table unit :=
  run_update "update bet status" (update_settled id settledAt (bet_set_Status status)).

Definition BetPGStore_UpdateBetStatusAndDebitTx (id status debitTxID : string) (settledAt : Z) :
    M bets_table unit :=
  run_update "update bet status and debit tx" (update_settled id settledAt
    (fun b => bet_set_DebitTx debitTxID (bet_set_Status status b))).

Definition BetPGStore_UpdateBetStatusAndOutcome (id status : string) (settledAt : Z) :
    M bets_table unit :=
  run_update "update bet status and outcome" (update_settled id settledAt (bet_set_Status status)).

Definition BetPGStore_SetCreditTransactionID (id creditTxID : string) : M bets_table unit :=
  run_update "set credit transaction id" (update_row id (bet_set_CreditTx creditTxID)).

Definition BetPGStore_ListPendingBets (page pageSize : Z) : M bets_table (list Bet) :=
  let page := default_int 1 page in
  let pageSize := default_int 20 pageSize in
  let offset := int64 (int64 (page - 1) * pageSize) in
  wrapped "list pending bets" (db_stmt (select_page
    (fun db => filter (fun b => bet_Status b = StatusPending) db)
    (fun a b => bet_CreatedAt a <? bet_CreatedAt b) pageSize offset)).

Definition BetPGStore_GetBetByReference (userID referenceID : string) : M bets_table Bet :=
  or_not_found "get bet by reference" (scan (db_stmt (select_bet_by_ref userID referenceID))).

#[export] Instance BetPGStore_BetStore : BetStore bets_table := {
  bets_CreateBet := BetPGStore_CreateBet;
  bets_GetBet := BetPGStore_GetBet;
  bets_ListBets := BetPGStore_ListBets;
  bets_ListPendingBets := BetPGStore_ListPendingBets;
  bets_UpdateBetStatus := BetPGStore_UpdateBetStatus;
  bets_UpdateBetStatusAndDebitTx := BetPGStore_UpdateBetStatusAndDebitTx;
  bets_UpdateBetStatusAndOutcome := BetPGStore_UpdateBetStatusAndOutcome;
  bets_SetCreditTransactionID := BetPGStore_SetCreditTransactionID;
  bets_GetBetByReference := BetPGStore_GetBetByReference;
}.
End PGStore.
