(* ===== verification/BetPgProps.v ===== *)
(** * BetPgProps: the Postgres store of the sportsbook against the in-memory store

    The two stores hold the same bets after the same calls, whatever statements fail, and
    answer alike while the database is reached. *)

From stdpp Require Import sorting.
From S2P Require Import Prelude GoStd GoJson Sql Demo BetStore BetStoreProps BetPg.

Section Props.
Context `{E : GoEnv, EL : !GoEnvLaws E, P : PgTypes, F : SqlFaults}.

(** The rows of the table are the bets of the map. *)
Record same_bets (db : bets_table) (s : InMemoryStore) : Prop := {
  sb_ids : NoDup (bet_ID <$> db);
  sb_rows : forall id, s !! id = first_row (has_bet_id id) db;
  sb_status : Forall (fun b => status_allowed (bet_Status b) = true) db;
}.

(** ** Arguments that PostgreSQL stores as they are *)
Definition canonical_id (id : string) : Prop := uuid_in id = Some id.
Definition canonical_time (t : Z) : Prop := timestamptz_in t = Some t.
Record canonical_bet (b : Bet) : Prop := {
  cb_some : bet_ID b <> "";
  cb_id : canonical_id (bet_ID b);
  cb_event : canonical_id (bet_EventID b);
  cb_market : canonical_id (bet_MarketID b);
  cb_outcome : canonical_id (bet_OutcomeID b);
  cb_created : canonical_time (bet_CreatedAt b);
  cb_made : IsZero (bet_CreatedAt b) = false;
  cb_settled : bet_SettledAt b = None;
}.
Definition canonical_op (op : bet_op) : Prop :=
  match op with
  | BetCreate b => canonical_bet b
  | BetStatus id _ t | BetDebitTx id _ _ t | BetOutcome id _ t =>
      canonical_id id /\ canonical_time t
  | BetCreditTx id _ => canonical_id id
  end.

Lemma canonical_row b : canonical_bet b ->
  bet_row (bet_ID b) (bet_EventID b) (bet_MarketID b) (bet_OutcomeID b) (bet_CreatedAt b) b = b.
Proof. intros [_ _ _ _ _ _ _ Hs]. destruct b. cbn in *. by subst. Qed.

Lemma canonical_created b t : canonical_bet b -> created_bet b (bet_ID b) t = b.
Proof.
  intros Hc. unfold created_bet. cbv zeta. assert (bet_set_ID (bet_ID b) b = b) as -> by (by destruct b).
  by rewrite (cb_made _ Hc).
Qed.

(** ** Rows *)

Lemma has_bet_id_spec id b : has_bet_id id b = true <-> bet_ID b = id.
Proof. apply bool_decide_eq_true. Qed.
Lemma has_bet_ref_spec u r b : has_bet_ref u r b = true <-> bet_UserID b = u /\ bet_ReferenceID b = r.
Proof. unfold has_bet_ref. by rewrite andb_true_iff, !bool_decide_eq_true. Qed.

Lemma same_row db s id b : same_bets db s -> s !! id = Some b <-> b ∈ db /\ bet_ID b = id.
Proof.
  intros [Hnd Hr _]. rewrite Hr. split.
  - intros [H1 H2%has_bet_id_spec]%first_row_Some. done.
  - intros [Hin Hid]. destruct (first_row _ db) as [x|] eqn:Hf.
    + apply first_row_Some in Hf as [Hx Hxi%has_bet_id_spec]. f_equal.
      by apply (NoDup_fmap_eq bet_ID db); [| | |congruence].
    + rewrite first_row_None in Hf. specialize (Hf b Hin). apply has_bet_id_spec in Hid. congruence.
Qed.

Lemma same_reference db s u r : same_bets db s ->
  has_reference u r s <-> exists b, b ∈ db /\ has_bet_ref u r b = true.
Proof.
  intros Hs. split.
  - intros (id & b & Hb & Hu & Hr). apply (same_row _ _ _ _ Hs) in Hb as [Hin _]. exists b.
    split; [done|]. by apply has_bet_ref_spec.
  - intros (b & Hin & [Hu Hr]%has_bet_ref_spec). exists (bet_ID b), b. split; [|done].
    by apply (same_row db).
Qed.

Lemma same_insert db s b : same_bets db s -> status_allowed (bet_Status b) = true -> (forall x, x ∈ db -> has_bet_id (bet_ID b) x = false) ->
  same_bets (db ++ [b]) (<[bet_ID b := b]> s).
Proof.
  intros [Hnd Hr Hst] Hbs Hno. constructor; [| |apply list.Forall_app; by repeat constructor].
  - apply NoDup_fmap_snoc; [done|]. intros (x & Heq & Hx)%list_elem_of_fmap.
    specialize (Hno x Hx). symmetry in Heq. apply has_bet_id_spec in Heq. congruence.
  - intros id. rewrite first_row_app, first_row_cons. destruct (decide (id = bet_ID b)) as [->|Hne].
    + rewrite lookup_insert_eq. rewrite (proj2 (first_row_None _ _) Hno).
      by rewrite (proj2 (has_bet_id_spec _ _) eq_refl).
    + rewrite lookup_insert_ne, Hr by done. destruct (first_row _ db); [done|].
      destruct (has_bet_id id b) eqn:Hb; [|done]. by apply has_bet_id_spec in Hb.
Qed.

Lemma same_update db s id b f : same_bets db s -> s !! id = Some b ->
  status_allowed (bet_Status (f b)) = true -> (forall x, bet_ID (f x) = bet_ID x) ->
  same_bets ((fun x => if has_bet_id id x then f x else x) <$> db) (<[id := f b]> s).
Proof.
  intros [Hnd Hr Hst] Hb Hfb Hf. set (g x := if has_bet_id id x then f x else x).
  assert (forall x, bet_ID (g x) = bet_ID x) as Hg by (intros x; unfold g; by destruct (has_bet_id id x)).
  constructor.
  - rewrite <- list_fmap_compose. erewrite list_fmap_ext; [exact Hnd|]. intros i x _. apply Hg.
  - intros id'. rewrite first_row_fmap by (intros x; unfold has_bet_id; by rewrite Hg).
    rewrite Hr in Hb. destruct (decide (id' = id)) as [->|Hne].
    + rewrite lookup_insert_eq, Hb. cbn. unfold g.
      apply first_row_Some in Hb as [_ ->]. done.
    + rewrite lookup_insert_ne, Hr by done.
      destruct (first_row (has_bet_id id') db) as [x|] eqn:Hx; [|done].
      apply first_row_Some in Hx as [_ Hx%has_bet_id_spec]. cbn. unfold g.
      destruct (has_bet_id id x) eqn:H; [apply has_bet_id_spec in H; congruence|done].
  - rewrite list.Forall_fmap. rewrite list.Forall_forall in *. intros x Hx. cbn. unfold g.
    destruct (has_bet_id id x) eqn:Hi; [|by apply Hst]. rewrite Hr in Hb.
    apply first_row_Some in Hb as [Hbin Hbi%has_bet_id_spec]. apply has_bet_id_spec in Hi.
    by rewrite (NoDup_fmap_eq bet_ID db x b Hnd Hx Hbin) by congruence.
Qed.

(** ** One call *)

(** The in-memory counterpart of a statement that changes the table: [m] answers and
    changes what [f] does, when [f] is done. *)
Lemma insert_simulates b now fresh db s n o db' : canonical_bet b -> same_bets db s ->
  insert_bet b now fresh db = Done (o, db') ->
  o = Some (bet_ID b) /\ exists k, InMemoryStore_CreateBet b (mkWorld n s) =
    (Ok (bet_ID b), mkWorld k (<[bet_ID b := b]> s)) /\ same_bets db' (<[bet_ID b := b]> s).
Proof.
  intros Hc Hs. unfold insert_bet.
  rewrite (cb_id _ Hc), (cb_event _ Hc), (cb_market _ Hc), (cb_outcome _ Hc), (cb_created _ Hc).
  cbn [read_in mbind answer_bind]. destruct (status_allowed _) eqn:Hst; [|done]. cbn [negb].
  destruct (existsb _ db) eqn:Hex; [done|]. intros [= <- <-]. rewrite canonical_row by done.
  rewrite existsb_false in Hex. split; [done|].
  destruct (CreateBet_cases b n s) as [[Hr _]|(_ & id & t & k & _ & Hid & Hm & _)].
  - apply (same_reference db s _ _ Hs) in Hr as (x & Hx & Hr). specialize (Hex x Hx).
    by rewrite Hr, orb_true_r in Hex.
  - specialize (Hid (cb_some _ Hc)). subst id. rewrite canonical_created in Hm by done.
    exists k. split; [done|]. apply same_insert; [done|done|]. intros x Hx.
    specialize (Hex x Hx). by apply orb_false_iff in Hex as [? _].
Qed.

Lemma update_simulates id f g now fresh db s n o db' : canonical_id id -> same_bets db s ->
  (forall x, bet_ID (f x) = bet_ID x) -> (forall x, f x = g x) ->
  update_row id f now fresh db = Done (o, db') ->
  match o with
  | Some _ => exists b, s !! id = Some b /\
      update_bet id g (mkWorld n s) = (Ok tt, mkWorld n (<[id := g b]> s)) /\
      same_bets db' (<[id := g b]> s)
  | None => db' = db /\ update_bet id g (mkWorld n s) = (Err ErrBetNotFound, mkWorld n s)
  end.
Proof.
  intros Hid Hs Hf Hg. unfold update_row. rewrite Hid. cbn [read_in mbind answer_bind].
  rewrite update_bet_eq. rewrite (sb_rows _ _ Hs id).
  destruct (first_row _ db) as [b|] eqn:Hb; [|by intros [= <- <-]].
  destruct (status_allowed _) eqn:Hst; [|done]. intros [= <- <-]. exists b.
  split; [done|]. split; [done|].
  rewrite <- Hg. apply same_update; [done| |done|done]. by rewrite (sb_rows _ _ Hs id).
Qed.

(** ** Runs *)

Definition pg_bet_call (op : bet_op) : M bets_table unit :=
  match op with
  | BetCreate b => BetPGStore_CreateBet b;; mret tt
  | BetStatus id st t => BetPGStore_UpdateBetStatus id st t
  | BetDebitTx id st tx t => BetPGStore_UpdateBetStatusAndDebitTx id st tx t
  | BetOutcome id st t => BetPGStore_UpdateBetStatusAndOutcome id st t
  | BetCreditTx id tx => BetPGStore_SetCreditTransactionID id tx
  end.
Definition pg_bet_run (ops : list bet_op) (w : World bets_table) : World bets_table :=
  foldl (fun w op => (pg_bet_call op w).2) w ops.

Lemma update_settled_row id t f : canonical_time t ->
  exists g, (forall x, g x = bet_set_SettledAt t (f x)) /\
    forall now fresh (db : bets_table),
      update_settled id t f now fresh db = update_row id g now fresh db.
Proof.
  intros Ht. unfold update_settled, bet_set_SettledAt. destruct (IsZero t); [by exists f|].
  unfold canonical_time in Ht. rewrite Ht. cbn [read_in mbind answer_bind]. by eexists.
Qed.

Lemma run_update_simulates what (f : statement bets_table (option string)) id g (w : World bets_table)
    (s : World InMemoryStore) :
  (forall now fresh o db', f now fresh (w_st w) = Done (o, db') -> match o with
   | Some _ => same_bets db' (w_st (update_bet id g s).2)
   | None => db' = w_st w end) ->
  failed (run_update what f) w /\ w_st (run_update what f w).2 = w_st w \/
  same_bets (w_st (run_update what f w).2) (w_st (update_bet id g s).2).
Proof.
  intros H. unfold failed, run_update, or_not_found, scan, attempt, mbind, M_bind.
  destruct (db_stmt_cases f w) as [[e ->]|(o & db' & Hf & Hr)].
  - left. by case_decide.
  - specialize (H _ _ _ _ Hf). destruct o as [i|].
    + right. destruct Hr as [->|[e ->]]; [done|]. by case_decide.
    + left. subst db'. destruct Hr as [->|[e ->]]; [done|]. by case_decide.
Qed.

Lemma update_row_simulates what id (f : statement bets_table (option string)) g h
    (w : World bets_table) (s : World InMemoryStore) : canonical_id id -> same_bets (w_st w) (w_st s) ->
  (forall now fresh, f now fresh (w_st w) = update_row id h now fresh (w_st w)) ->
  (forall x, h x = g x) -> (forall x, bet_ID (g x) = bet_ID x) ->
  failed (run_update what f) w /\ w_st (run_update what f w).2 = w_st w \/
  same_bets (w_st (run_update what f w).2) (w_st (ignore (update_bet id g) s).2).
Proof.
  intros Hid Hs Hf Hh Hg. rewrite ignore_snd. apply run_update_simulates.
  intros now fresh o db' H. rewrite Hf in H. destruct s as [n s].
  apply (update_simulates id h g _ _ _ s n _ _ Hid Hs) in H;
    [|intros x; by rewrite Hh|done].
  destruct o as [i|]; [|by destruct H]. by destruct H as (b & _ & -> & ?).
Qed.

Lemma set_settled_ID t b : bet_ID (bet_set_SettledAt t b) = bet_ID b.
Proof. unfold bet_set_SettledAt. by destruct (IsZero t). Qed.

Lemma settled_simulates what id t f (w : World bets_table) (s : World InMemoryStore) :
  canonical_id id /\ canonical_time t -> same_bets (w_st w) (w_st s) ->
  (forall x, bet_ID (f x) = bet_ID x) ->
  let m := run_update what (update_settled id t f) in
  failed m w /\ w_st (m w).2 = w_st w \/
  same_bets (w_st (m w).2)
    (w_st (ignore (update_bet id (fun b => bet_set_SettledAt t (f b))) s).2).
Proof.
  intros [Hid Ht] Hs Hf. destruct (update_settled_row id t f Ht) as (h & Hh & Heq).
  eapply update_row_simulates; [exact Hid|exact Hs|by intros; apply Heq|exact Hh|].
  intros x. by rewrite set_settled_ID.
Qed.

Lemma create_call_simulates b (w : World bets_table) (s : World InMemoryStore) :
  canonical_bet b -> same_bets (w_st w) (w_st s) ->
  failed (BetPGStore_CreateBet b) w /\ w_st (BetPGStore_CreateBet b w).2 = w_st w \/
  same_bets (w_st (BetPGStore_CreateBet b w).2) (w_st (InMemoryStore_CreateBet b s).2).
Proof.
  intros Hc Hs. destruct s as [n s].
  assert (bet_set_ID (bet_ID b) b = b) as Hb by (by destruct b).
  unfold failed, BetPGStore_CreateBet. rewrite decide_False by apply Hc.
  unfold mbind, M_bind, mret, M_ret. rewrite Hb, (cb_made _ Hc). unfold attempt, scan, mbind, M_bind.
  destruct (db_stmt_cases (insert_bet b) w) as [[e ->]|(o & db' & Hf & Hr)].
  - left. by destruct (isUniqueViolation e).
  - right. destruct (insert_simulates b _ _ _ s n _ _ Hc Hs Hf) as (-> & k & -> & Hs').
    destruct Hr as [->|[e ->]]; [done|]. by destruct (isUniqueViolation e).
Qed.

Lemma call_simulates op (w : World bets_table) (s : World InMemoryStore) :
  canonical_op op -> same_bets (w_st w) (w_st s) ->
  failed (pg_bet_call op) w /\ w_st (pg_bet_call op w).2 = w_st w \/
  same_bets (w_st (pg_bet_call op w).2) (w_st (run_bet_op op s).2).
Proof.
  intros Hop Hs. destruct op as [b|id st t|id st tx t|id st t|id tx]; cbn [canonical_op pg_bet_call run_bet_op] in *.
  - rewrite ignore_snd, then_snd by done. destruct (create_call_simulates b w s Hop Hs) as [[Hf Hw]|?];
      [left|by right]. split; [|done]. unfold failed, mbind, M_bind in *.
    by destruct (BetPGStore_CreateBet b w) as [[]].
  - by apply settled_simulates.
  - by apply (settled_simulates _ _ _ (fun b => bet_set_DebitTx tx (bet_set_Status st b))).
  - by apply settled_simulates.
  - by eapply update_row_simulates.
Qed.

(** The calls of a run without some that failed and left the table as it was. *)
Inductive bets_took_effect : list bet_op -> World bets_table -> list bet_op -> Prop :=
| bte_nil w : bets_took_effect [] w []
| bte_kept op ops w ops' : bets_took_effect ops (pg_bet_call op w).2 ops' ->
    bets_took_effect (op :: ops) w (op :: ops')
| bte_dropped op ops w ops' : failed (pg_bet_call op) w ->
    w_st (pg_bet_call op w).2 = w_st w ->
    bets_took_effect ops (pg_bet_call op w).2 ops' -> bets_took_effect (op :: ops) w ops'.

Lemma run_simulates ops (w : World bets_table) (s : World InMemoryStore) :
  Forall canonical_op ops -> same_bets (w_st w) (w_st s) ->
  exists ops', bets_took_effect ops w ops' /\
    same_bets (w_st (pg_bet_run ops w)) (w_st (run_bet_ops ops' s)).
Proof.
  intros Hops. revert w s. induction Hops as [|op ops Hop _ IH]; intros w s Hs.
  { exists []. split; [constructor|done]. }
  destruct (call_simulates op w s Hop Hs) as [[Hf Hw]|Hs'].
  - destruct (IH (pg_bet_call op w).2 s) as (ops' & Ht & Ha); [by rewrite Hw|].
    exists ops'. split; [by constructor|done].
  - destruct (IH (pg_bet_call op w).2 (run_bet_op op s).2 Hs') as (ops' & Ht & Ha).
    exists (op :: ops'). split; [by constructor|done].
Qed.

(** ** Answers *)

Lemma online_query {A} what (f : statement bets_table (option A)) n db : online n ->
  (or_not_found what (scan (db_stmt f)) (mkWorld n db)).1 =
  match f (time_at n) (uuid_at n) db with
  | Done (Some a, _) => Ok a
  | Done (None, _) => Err ErrBetNotFound
  | Refused code => Err (ErrWrap what (ErrPg code))
  end.
Proof.
  intros Ho. unfold or_not_found, attempt, scan, mbind, M_bind. rewrite db_stmt_online by done.
  by destruct (f _ _ _) as [[[a|] db']|code].
Qed.

Lemma online_update what (f : statement bets_table (option string)) n db : online n ->
  (run_update what f (mkWorld n db)).1 =
  match f (time_at n) (uuid_at n) db with
  | Done (Some a, _) => Ok tt
  | Done (None, _) => Err ErrBetNotFound
  | Refused code => Err (ErrWrap what (ErrPg code))
  end.
Proof.
  intros Ho. pose proof (online_query what f n db Ho) as H. unfold run_update, mbind, M_bind.
  destruct (or_not_found _ _ _) as [r w']. cbn in H. subst r.
  by destruct (f _ _ _) as [[[a|] db']|code].
Qed.

Lemma get_alike id n db k s : online n -> canonical_id id -> same_bets db s ->
  (BetPGStore_GetBet id (mkWorld n db)).1 = (InMemoryStore_GetBet id (mkWorld k s)).1.
Proof.
  intros Ho Hid Hs. unfold BetPGStore_GetBet. rewrite online_query by done.
  unfold select_bet. rewrite Hid. cbn [read_in mbind answer_bind]. unfold InMemoryStore_GetBet.
  unmonad. rewrite (sb_rows _ _ Hs). by destruct (first_row _ db).
Qed.

Lemma get_by_ref_alike u r n db k s : online n -> bets_inv s -> same_bets db s ->
  (BetPGStore_GetBetByReference u r (mkWorld n db)).1 =
  (InMemoryStore_GetBetByReference u r (mkWorld k s)).1.
Proof.
  intros Ho Hi Hs. unfold BetPGStore_GetBetByReference. rewrite online_query by done.
  unfold select_bet_by_ref, select, InMemoryStore_GetBetByReference. unmonad.
  destruct (list_find _ (range_at k s)) as [[i [id b]]|] eqn:Hf.
  - apply list_find_Some in Hf as (Hl & [Hu Hr] & _). apply list_elem_of_lookup_2, elem_of_range in Hl.
    pose proof (proj1 (same_row _ _ _ _ Hs) Hl) as [Hin Hid].
    destruct (first_row _ db) as [x|] eqn:Hx.
    + apply first_row_Some in Hx as [Hxin [Hxu Hxr]%has_bet_ref_spec]. cbn. f_equal.
      assert (s !! bet_ID x = Some x) as Hxs by (by apply (same_row db)).
      assert (bet_ID x = id) as Hxi by (eapply (bi_ref _ Hi); eauto; congruence).
      rewrite Hxi in Hxs. congruence.
    + rewrite first_row_None in Hx. specialize (Hx b Hin).
      assert (has_bet_ref u r b = true) by (by apply has_bet_ref_spec). congruence.
  - destruct (first_row _ db) as [x|] eqn:Hx; [|done].
    apply first_row_Some in Hx as [Hxin Hxr%has_bet_ref_spec].
    apply list_find_None in Hf. rewrite list.Forall_forall in Hf.
    destruct (Hf (bet_ID x, x)); [|done]. apply elem_of_range. by apply (same_row db).
Qed.

Lemma update_row_alike what id (f : statement bets_table (option string)) g h n db k s : online n ->
  canonical_id id -> same_bets db s ->
  (forall now fresh, f now fresh db = update_row id h now fresh db) ->
  (forall b, b ∈ db -> status_allowed (bet_Status (h b)) = true) ->
  (run_update what f (mkWorld n db)).1 = (update_bet id g (mkWorld k s)).1.
Proof.
  intros Ho Hid Hs Hf Hst. rewrite online_update, Hf, update_bet_eq, (sb_rows _ _ Hs) by done.
  unfold update_row. rewrite Hid. cbn [read_in mbind answer_bind].
  destruct (first_row _ db) as [b|] eqn:Hb; [|done].
  apply first_row_Some in Hb as [Hb _]. by rewrite (Hst b Hb).
Qed.

(** Both refuse a taken reference with [ErrBetNotFound], wrapped or not. *)
Definition same_answer {A} (r r' : res A) : Prop :=
  match r, r' with
  | Ok a, Ok a' => a = a'
  | Err e, Err e' => errors_Is e ErrBetNotFound = true /\ errors_Is e' ErrBetNotFound = true
  | _, _ => False
  end.

Lemma create_alike b n db k s : online n -> canonical_bet b -> same_bets db s ->
  status_allowed (bet_Status b) = true -> s !! bet_ID b = None ->
  same_answer (BetPGStore_CreateBet b (mkWorld n db)).1 (InMemoryStore_CreateBet b (mkWorld k s)).1.
Proof.
  intros Ho Hc Hs Hst Hno. assert (bet_set_ID (bet_ID b) b = b) as Hb by (by destruct b).
  assert (forall x, x ∈ db -> has_bet_id (bet_ID b) x = false) as Hids.
  { rewrite (sb_rows _ _ Hs) in Hno. by apply first_row_None. }
  unfold BetPGStore_CreateBet. rewrite decide_False by apply Hc.
  unfold mbind, M_bind, mret, M_ret. rewrite Hb, (cb_made _ Hc). unfold attempt, scan, mbind, M_bind.
  rewrite db_stmt_online by done. unfold insert_bet.
  rewrite (cb_id _ Hc), (cb_event _ Hc), (cb_market _ Hc), (cb_outcome _ Hc), (cb_created _ Hc).
  cbn [read_in mbind answer_bind]. rewrite Hst. cbn [negb].
  destruct (existsb _ db) eqn:Hex.
  - apply existsb_exists in Hex as (x & Hx%list_elem_of_In & Hxr).
    rewrite (Hids x Hx), orb_false_l in Hxr.
    destruct (CreateBet_cases b k s) as [[_ ->]|[Hr _]].
    + unfold isUniqueViolation. done.
    + destruct Hr. apply (same_reference db); [done|]. by exists x.
  - rewrite existsb_false in Hex.
    destruct (CreateBet_cases b k s) as [[Hr _]|(_ & id & t & k' & _ & Hid & -> & _)].
    + apply (same_reference db s _ _ Hs) in Hr as (x & Hx & Hr). specialize (Hex x Hx).
      by rewrite Hr, orb_true_r in Hex.
    + cbn. by rewrite (Hid (cb_some _ Hc)).
Qed.

(** *** Pages *)

Lemma same_values db s : bets_inv s -> same_bets db s -> (map_to_list s).*2 ≡ₚ db.
Proof.
  intros Hi Hs. apply NoDup_Permutation.
  - apply (NoDup_fmap_1 bet_ID). rewrite <- list_fmap_compose.
    rewrite (list_fmap_ext _ fst); [apply NoDup_fst_map_to_list|].
    intros i [id b] Hl. apply list_elem_of_lookup_2, elem_of_map_to_list in Hl. cbn.
    by apply (bi_id _ Hi).
  - apply (NoDup_fmap_1 bet_ID). apply Hs.
  - intros b. rewrite elem_of_values. split.
    + intros [id Hb]. by apply (same_row db s id b Hs) in Hb as [? _].
    + intros Hb. exists (bet_ID b). by apply (same_row db).
Qed.

Lemma StronglySorted_weaken {A} (R R' : A -> A -> Prop) l :
  (forall x y, R x y -> R' x y) -> StronglySorted R l -> StronglySorted R' l.
Proof.
  intros H. induction 1 as [|x l Hl IH Hx]; constructor; [done|].
  eapply list.Forall_impl; [exact Hx|]. auto.
Qed.

(** Bets of different times, in the order of their times: one list. *)
Lemma sorted_by_time (less : Bet -> Bet -> bool) before (l l' : list Bet) :
  StrictOrder before -> NoDup (bet_CreatedAt <$> l) -> l ≡ₚ l' ->
  (forall x y, less x y = true -> less y x = false) ->
  (forall x y z, less y x = false -> less z y = false -> less z x = false) ->
  (forall x y, less y x = false -> less x y = false -> bet_CreatedAt x = bet_CreatedAt y) ->
  (forall x y, in_order before x y -> less y x = false) ->
  sort_Slice less l = insertion_sort before l'.
Proof.
  intros Hb Hnd Hp Ha Ht Heq Hbl.
  apply StronglySorted_unique_strong with (fun x y => less y x = false).
  - intros x y Hx Hy H1 H2. rewrite sort_perm in Hx.
    rewrite (insertion_sort_perm before), <- Hp in Hy.
    apply (NoDup_fmap_eq bet_CreatedAt l); auto.
  - apply Sorted_StronglySorted; [|by apply sort_sorted]. intros x y z. by apply Ht.
  - eapply StronglySorted_weaken; [|apply (insertion_sort_sorted before)]. auto.
  - rewrite sort_perm, (insertion_sort_perm before). done.
Qed.

Lemma page_online (what : string) rows (less : Bet -> Bet -> bool) page pageSize n (db : bets_table) :
  online n -> page_arg page -> page_arg pageSize ->
  (wrapped what (db_stmt (select_page rows less (default_int 20 pageSize)
     (int64 (int64 (default_int 1 page - 1) * default_int 20 pageSize)))) (mkWorld n db)).1 =
  Ok (window page pageSize (sort_Slice less (rows db))).
Proof.
  intros Ho Hp Hs. unfold wrapped. rewrite db_stmt_online by done.
  destruct (page_args_bound _ _ Hp Hs) as [Hb1 Hb2]. unfold page_arg in *.
  unfold default_int. rewrite !(proj2 (Z.leb_gt _ 0)) by lia.
  rewrite (int64_id (page - 1)) by (unfold in_int64; lia).
  rewrite (int64_id (_ * _)) by (unfold in_int64; nia). unfold select_page.
  rewrite (proj2 (Z.ltb_ge _ 0)) by nia. rewrite (proj2 (Z.ltb_ge _ 0)) by lia. done.
Qed.

Lemma list_alike u st page pageSize n db k s : online n -> bets_inv s -> same_bets db s ->
  Z.of_nat (size s) < 2 ^ 61 -> page_arg page -> page_arg pageSize ->
  NoDup (bet_CreatedAt <$> listed u st s) ->
  (BetPGStore_ListBets u st page pageSize (mkWorld n db)).1 =
  (InMemoryStore_ListBets u st page pageSize (mkWorld k s)).1.
Proof.
  intros Ho Hi Hs Hsz Hp Hps Hnd. rewrite ListBets_eq by done. unfold BetPGStore_ListBets.
  cbv zeta. rewrite page_online by done. cbn [fst]. do 2 f_equal.
  assert ((if decide (st = "") then filter (fun b => bet_UserID b = u) db
    else filter (fun b => bet_UserID b = u /\ bet_Status b = st) db) ≡ₚ listed u st s) as Hf.
  { unfold listed. rewrite (same_values db s Hi Hs). case_decide as Hst;
      erewrite list_filter_iff; try done; intros b; naive_solver. }
  apply sorted_by_time; [apply _|by rewrite Hf|by rewrite Hf|..].
  - intros x y. rewrite Z.ltb_lt, Z.ltb_ge. lia.
  - intros x y z. rewrite !Z.ltb_ge. lia.
  - intros x y. rewrite !Z.ltb_ge. lia.
  - intros x y. unfold in_order, before_desc. rewrite orb_false_iff. by intros [? _].
Qed.

Lemma pending_alike page pageSize n db k s : online n -> bets_inv s -> same_bets db s ->
  Z.of_nat (size s) < 2 ^ 61 -> page_arg page -> page_arg pageSize ->
  NoDup (bet_CreatedAt <$> pending_bets s) ->
  (BetPGStore_ListPendingBets page pageSize (mkWorld n db)).1 =
  (InMemoryStore_ListPendingBets page pageSize (mkWorld k s)).1.
Proof.
  intros Ho Hi Hs Hsz Hp Hps Hnd. destruct (page_args_bound _ _ Hp Hps) as [Hb1 Hb2].
  rewrite ListPendingBets_eq by (try done; unfold page_arg in *; lia).
  unfold BetPGStore_ListPendingBets. cbv zeta. rewrite page_online by done. cbn [fst]. do 2 f_equal.
  unfold pending_bets, sortBetsByCreatedAsc in *. rewrite (insertion_sort_perm before_asc) in Hnd.
  apply sorted_by_time; [apply _|by rewrite <- (same_values db s Hi Hs)
    |by rewrite (same_values db s Hi Hs)|..].
  - intros x y. rewrite Z.ltb_lt, Z.ltb_ge. lia.
  - intros x y z. rewrite !Z.ltb_ge. lia.
  - intros x y. rewrite !Z.ltb_ge. lia.
  - intros x y. unfold in_order, before_asc. rewrite orb_false_iff. by intros [? _].
Qed.

(** A page or a page's size that a caller may ask for: what is not positive stands for the
    default. *)
Definition page_asked (x : Z) : Prop := x < 2 ^ 31.
Lemma page_asked_default d x : page_arg d -> page_asked x ->
  page_arg (default_int d x) /\ default_int d (default_int d x) = default_int d x.
Proof.
  unfold page_arg, page_asked, default_int. intros Hd Hx. destruct (Z.leb_spec x 0).
  - by destruct (Z.leb_spec d 0).
  - split; [lia|]. by destruct (Z.leb_spec x 0); [lia|].
Qed.

Lemma list_asked u st page pageSize n db k s : online n -> bets_inv s -> same_bets db s ->
  Z.of_nat (size s) < 2 ^ 61 -> page_asked page -> page_asked pageSize ->
  NoDup (bet_CreatedAt <$> listed u st s) ->
  (BetPGStore_ListBets u st page pageSize (mkWorld n db)).1 =
  (InMemoryStore_ListBets u st page pageSize (mkWorld k s)).1.
Proof.
  intros Ho Hi Hs Hsz Hp Hps Hnd.
  destruct (page_asked_default 1 page) as [Hp1 Hp2]; [unfold page_arg; lia|done|].
  destruct (page_asked_default 20 pageSize) as [Hs1 Hs2]; [unfold page_arg; lia|done|].
  pose proof (list_alike u st (default_int 1 page) (default_int 20 pageSize) n db k s Ho Hi Hs
    Hsz Hp1 Hs1 Hnd) as H.
  unfold BetPGStore_ListBets, InMemoryStore_ListBets in *. by rewrite Hp2, Hs2 in H.
Qed.
Lemma pending_asked page pageSize n db k s : online n -> bets_inv s -> same_bets db s ->
  Z.of_nat (size s) < 2 ^ 61 -> page_asked page -> page_asked pageSize ->
  NoDup (bet_CreatedAt <$> pending_bets s) ->
  (BetPGStore_ListPendingBets page pageSize (mkWorld n db)).1 =
  (InMemoryStore_ListPendingBets page pageSize (mkWorld k s)).1.
Proof.
  intros Ho Hi Hs Hsz Hp Hps Hnd.
  destruct (page_asked_default 1 page) as [Hp1 Hp2]; [unfold page_arg; lia|done|].
  destruct (page_asked_default 20 pageSize) as [Hs1 Hs2]; [unfold page_arg; lia|done|].
  pose proof (pending_alike (default_int 1 page) (default_int 20 pageSize) n db k s Ho Hi Hs
    Hsz Hp1 Hs1 Hnd) as H.
  unfold BetPGStore_ListPendingBets, InMemoryStore_ListPendingBets in *. by rewrite Hp2, Hs2 in H.
Qed.

(** The answers of the table at tick [n] are those of the map at tick [k]. *)
Record alike (n : nat) (db : bets_table) (k : nat) (s : InMemoryStore) : Prop := {
  al_get : forall id, canonical_id id ->
    (BetPGStore_GetBet id (mkWorld n db)).1 = (InMemoryStore_GetBet id (mkWorld k s)).1;
  al_ref : forall u r,
    (BetPGStore_GetBetByReference u r (mkWorld n db)).1 =
    (InMemoryStore_GetBetByReference u r (mkWorld k s)).1;
  al_create : forall b, canonical_bet b -> status_allowed (bet_Status b) = true ->
    s !! bet_ID b = None ->
    same_answer (BetPGStore_CreateBet b (mkWorld n db)).1
      (InMemoryStore_CreateBet b (mkWorld k s)).1;
  al_status : forall id st t, canonical_id id -> canonical_time t -> status_allowed st = true ->
    (BetPGStore_UpdateBetStatus id st t (mkWorld n db)).1 =
    (InMemoryStore_UpdateBetStatus id st t (mkWorld k s)).1;
  al_debit : forall id st tx t, canonical_id id -> canonical_time t -> status_allowed st = true ->
    (BetPGStore_UpdateBetStatusAndDebitTx id st tx t (mkWorld n db)).1 =
    (InMemoryStore_UpdateBetStatusAndDebitTx id st tx t (mkWorld k s)).1;
  al_outcome : forall id st t, canonical_id id -> canonical_time t -> status_allowed st = true ->
    (BetPGStore_UpdateBetStatusAndOutcome id st t (mkWorld n db)).1 =
    (InMemoryStore_UpdateBetStatusAndOutcome id st t (mkWorld k s)).1;
  al_credit : forall id tx, canonical_id id ->
    (BetPGStore_SetCreditTransactionID id tx (mkWorld n db)).1 =
    (InMemoryStore_SetCreditTransactionID id tx (mkWorld k s)).1;
  al_list : forall u st page pageSize, page_asked page -> page_asked pageSize ->
    Z.of_nat (size s) < 2 ^ 61 -> NoDup (bet_CreatedAt <$> listed u st s) ->
    (BetPGStore_ListBets u st page pageSize (mkWorld n db)).1 =
    (InMemoryStore_ListBets u st page pageSize (mkWorld k s)).1;
  al_pending : forall page pageSize, page_asked page -> page_asked pageSize ->
    Z.of_nat (size s) < 2 ^ 61 -> NoDup (bet_CreatedAt <$> pending_bets s) ->
    (BetPGStore_ListPendingBets page pageSize (mkWorld n db)).1 =
    (InMemoryStore_ListPendingBets page pageSize (mkWorld k s)).1;
}.

Lemma settled_status_allowed t st (f : Bet -> Bet) g : (forall x, bet_Status (f x) = st) ->
  status_allowed st = true -> (forall x, g x = bet_set_SettledAt t (f x)) ->
  forall x, status_allowed (bet_Status (g x)) = true.
Proof. intros Hf Hst Hg x. rewrite Hg. unfold bet_set_SettledAt. destruct (IsZero t); cbn; by rewrite Hf. Qed.

Lemma stores_alike n db k s : online n -> bets_inv s -> same_bets db s -> alike n db k s.
Proof.
  intros Ho Hi Hs. constructor.
  - intros. by apply get_alike.
  - intros. by apply get_by_ref_alike.
  - intros. by apply create_alike.
  - intros id st t Hid Ht Hst. destruct (update_settled_row id t (bet_set_Status st) Ht) as (g & Hg & Heq).
    eapply update_row_alike; try done. intros b _. by apply (settled_status_allowed t st (bet_set_Status st)).
  - intros id st tx t Hid Ht Hst. destruct (update_settled_row id t
      (fun b => bet_set_DebitTx tx (bet_set_Status st b)) Ht) as (g & Hg & Heq).
    eapply update_row_alike; try done. intros b _.
    by apply (settled_status_allowed t st (fun b => bet_set_DebitTx tx (bet_set_Status st b))).
  - intros id st t Hid Ht Hst. destruct (update_settled_row id t (bet_set_Status st) Ht) as (g & Hg & Heq).
    eapply update_row_alike; try done. intros b _. by apply (settled_status_allowed t st (bet_set_Status st)).
  - intros id tx Hid. eapply update_row_alike; try done. intros b Hb.
    pose proof (sb_status _ _ Hs) as Hall. rewrite list.Forall_forall in Hall. exact (Hall b Hb).
  - intros. by apply list_asked.
  - intros. by apply pending_asked.
Qed.

(** C35.  The Postgres store of the sportsbook refines the in-memory store.  After any
    sequence of calls that change bets, whatever statements fail and whatever confirmations
    get lost, the rows of the table are the bets of the in-memory store after the same calls
    without some that failed and had no effect.  From there on, once the database is
    reached, each of the nine methods answers alike in the two stores.  This is for calls
    whose ids are UUIDs in the spelling of PostgreSQL and whose times have its precision;
    the answers also take bets to be created under ids that are not in use and statuses to be
    the allowed ones (where the stores part: the table refuses both, the map overwrites and
    stores), and of lists, pages and sizes below 2^31 (0 and less for the defaults) over
    bets of different times. *)
Theorem bet_pg_refines ops n m :
  Forall canonical_op ops ->
  exists ops', bets_took_effect ops (mkWorld n []) ops' /\
    let db := w_st (pg_bet_run ops (mkWorld n [])) in
    let s := w_st (run_bet_ops ops' (mkWorld m NewBetMemory)) in
    same_bets db s /\ forall i k, online i -> alike i db k s.
Proof.
  intros Hops. destruct (run_simulates ops (mkWorld n []) (mkWorld m NewBetMemory) Hops)
    as (ops' & Ht & Hs).
  { constructor; cbn; [constructor| |constructor]. intros id. apply NewBetMemory_empty. }
  exists ops'. split; [done|]. split; [done|]. intros i k Ho. apply stores_alike; [done| |done].
  apply bets_reachable_inv, run_bet_ops_reachable, bets_init.
Qed.
End Props.

(** ** Witness *)
Module BetPgDemo.
Import Demo.

(** UUIDs are taken as they are; times have microseconds. *)
#[local] Instance bet_types : PgTypes := {
  numeric_in s := Some s;
  uuid_in s := Some s;
  jsonb_in md := Some None;
  timestamptz_in t := Some (t / 1000 * 1000);
}.
(** The first bet is created although its call fails; the second call is lost. *)
#[local] Instance bet_faults : SqlFaults := {|
  stmt_fault n := if decide (n = 1%nat) then Some "connection refused" else None;
  commit_fault n := if decide (n = 0%nat) then CommitLost "connection reset" else Committed;
|}.

Definition bet (id ref : string) (created : Z) : Bet :=
  mkBet id "u" "e" "m" "o" "1.5" "10" "15" "USDT" StatusPending ref "" "" created None.
Definition calls : list bet_op :=
  [BetCreate (bet "b1" "r1" 1000); BetCreate (bet "b2" "r2" 2000);
   BetCreate (bet "b3" "r1" 3000); BetStatus "b1" StatusWon 4000].
Lemma calls_canonical : Forall canonical_op calls.
Proof. repeat constructor; try discriminate; vm_compute; reflexivity. Qed.

Lemma bet_pg_refines_witness :
  let db := w_st (pg_bet_run calls (mkWorld 0 [])) in
  (exists b, db = [b] /\ bet_Status b = StatusWon) /\
  exists ops', bets_took_effect calls (mkWorld 0 []) ops' /\
    same_bets db (w_st (run_bet_ops ops' (mkWorld 0 NewBetMemory))).
Proof.
  intros db. split; [eexists; split; vm_compute; reflexivity|].
  destruct (bet_pg_refines calls 0 0 calls_canonical) as (ops' & Ht & Hs & _).
  exists ops'. split; [exact Ht|exact Hs].
Defined.
End BetPgDemo.
