(* ===== verification/OddsPg.v ===== *)
(** * OddsPg: the odds feed's Postgres store

    [internal/oddsfeed/pgstore.go] and the tables of [internal/oddsfeed/migrations].  Each
    table has an id, the provider's key, its own columns and two times; [table] holds what
    its CREATE TABLE says, the upserts and updates are one statement each.  The ids are
    UUIDs in their canonical text; metadata is a nullable JSONB column. *)

From S2P Require Import Prelude GoStd GoJson Sql OddsModels.

(** github.com/google/uuid's [Parse], to the canonical text of the UUID; how pgx passes a
    map to a JSONB column and the column prints it, [Some None] for NULL; the collation
    of ORDER BY over text. *)
Class OddsPgTypes : Type := {
  uuid_Parse : string -> string + goerr;
  jsonb_strings : gmap string string -> option (option string);
  text_less : string -> string -> bool;
}.
Definition uuid_Nil : string := "00000000-0000-0000-0000-000000000000".

(** ** Tables *)
Record row (A : Type) : Type := mkRow {
  row_id : string;
  row_provider : string;
  row_pid : string;
  row_cols : A;
  row_created : Z;
  row_updated : Z;
}.
Arguments mkRow {A} _ _ _ _ _ _.
Arguments row_id {A} _.
Arguments row_provider {A} _.
Arguments row_pid {A} _.
Arguments row_cols {A} _.
Arguments row_created {A} _.
Arguments row_updated {A} _.

Record sport_cols : Type := mkSportCols { sc_slug : string; sc_name : string }.
Record league_cols : Type := mkLeagueCols {
  lc_sport_id : string; lc_name : string; lc_country : string;
}.
Record event_cols : Type := mkEventCols {
  ec_league_id : string;
  ec_sport_id : string;
  ec_home_participant : string;
  ec_away_participant : string;
  ec_starts_at : Z;
  ec_status : string;
  ec_home_score : string;
  ec_away_score : string;
  ec_score_updated_at : option Z;
  ec_metadata : option string;
}.
Record market_cols : Type := mkMarketCols {
  mc_event_id : string;
  mc_type : string;
  mc_name : string;
  mc_line : string;
  mc_status : string;
  mc_metadata : option string;
}.
Record outcome_cols : Type := mkOutcomeCols {
  oc_market_id : string;
  oc_name : string;
  oc_odds : string;
  oc_status : string;
  oc_metadata : option string;
}.

Record odds_db : Type := mkOddsDb {
  od_sports : list (row sport_cols);
  od_leagues : list (row league_cols);
  od_events : list (row event_cols);
  od_markets : list (row market_cols);
  od_outcomes : list (row outcome_cols);
}.
Definition od_empty : odds_db := mkOddsDb [] [] [] [] [].

Definition has_row_id {A} (id : string) (r : row A) : bool := bool_decide (row_id r = id).
Definition has_row_key {A} (provider pid : string) (r : row A) : bool :=
  bool_decide (row_provider r = provider) && bool_decide (row_pid r = pid).

(** A CREATE TABLE: its rows in the database, CHECK and REFERENCES of a row's columns. *)
Record table (A : Type) : Type := mkTable {
  tb_rows : odds_db -> list (row A);
  tb_set : list (row A) -> odds_db -> odds_db;
  tb_check : A -> bool;
  tb_refs : A -> odds_db -> bool;
}.
Arguments mkTable {A} _ _ _ _.
Arguments tb_rows {A} _ _.
Arguments tb_set {A} _ _ _.
Arguments tb_check {A} _ _.
Arguments tb_refs {A} _ _ _.

Definition event_statuses : list string :=
  ["upcoming"; "live"; "paused"; "finished"; "cancelled"; "postponed"].
Definition market_statuses : list string := ["active"; "suspended"; "settled"; "cancelled"].
Definition outcome_statuses : list string := ["active"; "suspended"; "won"; "lost"; "cancelled"].

Definition sports_table : table sport_cols := mkTable od_sports
  (fun l d => mkOddsDb l (od_leagues d) (od_events d) (od_markets d) (od_outcomes d))
  (fun _ => true) (fun _ _ => true).
Definition leagues_table : table league_cols := mkTable od_leagues
  (fun l d => mkOddsDb (od_sports d) l (od_events d) (od_markets d) (od_outcomes d))
  (fun _ => true) (fun c d => existsb (has_row_id (lc_sport_id c)) (od_sports d)).
Definition events_table : table event_cols := mkTable od_events
  (fun l d => mkOddsDb (od_sports d) (od_leagues d) l (od_markets d) (od_outcomes d))
  (fun c => bool_decide (ec_status c ∈ event_statuses))
  (fun c d => existsb (has_row_id (ec_league_id c)) (od_leagues d) &&
              existsb (has_row_id (ec_sport_id c)) (od_sports d)).
Definition markets_table : table market_cols := mkTable od_markets
  (fun l d => mkOddsDb (od_sports d) (od_leagues d) (od_events d) l (od_outcomes d))
  (fun c => bool_decide (mc_status c ∈ market_statuses))
  (fun c d => existsb (has_row_id (mc_event_id c)) (od_events d)).
Definition outcomes_table : table outcome_cols := mkTable od_outcomes
  (fun l d => mkOddsDb (od_sports d) (od_leagues d) (od_events d) (od_markets d) l)
  (fun c => bool_decide (oc_status c ∈ outcome_statuses))
  (fun c d => existsb (has_row_id (oc_market_id c)) (od_markets d)).

(** SET ..., updated_at = now() *)
Definition row_update {A} (f : A -> A) (now : Z) (r : row A) : row A :=
  mkRow (row_id r) (row_provider r) (row_pid r) (f (row_cols r)) (row_created r) now.
Definition update_where {A} (P : row A -> bool) (f : row A -> row A) (l : list (row A)) :
    list (row A) :=
  (fun r => if P r then f r else r) <$> l.

(** ** Statements *)

(** INSERT INTO t (...) VALUES (...) ON CONFLICT (provider, provider_..._id) DO UPDATE SET
    every other column = EXCLUDED's, updated_at = now() RETURNING id *)
Definition upsert_row {A} (t : table A) (id provider pid : string) (cols : A) :
    statement odds_db string := fun now fresh db =>
  if negb (tb_check t cols) then Refused CheckViolation
  else
    let key := has_row_key provider pid in
    match first_row key (tb_rows t db) with
    | Some r =>
        if negb (tb_refs t cols db) then Refused ForeignKeyViolation
        else Done (row_id r,
          tb_set t (update_where key (row_update (fun _ => cols) now) (tb_rows t db)) db)
    | None =>
        if existsb (has_row_id id) (tb_rows t db) then Refused UniqueViolation
        else if negb (tb_refs t cols db) then Refused ForeignKeyViolation
        else Done (id, tb_set t (tb_rows t db ++ [mkRow id provider pid cols now now]) db)
    end.

(** UPDATE t SET ..., updated_at = now() WHERE provider = $1 AND provider_..._id = $2
    RETURNING ...: columns without a foreign key *)
Definition update_key {A} (t : table A) (provider pid : string) (f : A -> A) :
    statement odds_db (option (row A)) := fun now fresh db =>
  let key := has_row_key provider pid in
  match first_row key (tb_rows t db) with
  | None => Done (None, db)
  | Some r =>
      if negb (tb_check t (f (row_cols r))) then Refused CheckViolation
      else Done (Some (row_update f now r),
        tb_set t (update_where key (row_update f now) (tb_rows t db)) db)
  end.

Definition ec_set_status (status : string) (c : event_cols) : event_cols :=
  mkEventCols (ec_league_id c) (ec_sport_id c) (ec_home_participant c) (ec_away_participant c)
    (ec_starts_at c) status (ec_home_score c) (ec_away_score c) (ec_score_updated_at c)
    (ec_metadata c).
Definition mc_set_status (status : string) (c : market_cols) : market_cols :=
  mkMarketCols (mc_event_id c) (mc_type c) (mc_name c) (mc_line c) status (mc_metadata c).
Definition oc_set_status (status : string) (c : outcome_cols) : outcome_cols :=
  mkOutcomeCols (oc_market_id c) (oc_name c) (oc_odds c) status (oc_metadata c).
Definition oc_set_odds (odds : string) (c : outcome_cols) : outcome_cols :=
  mkOutcomeCols (oc_market_id c) (oc_name c) odds (oc_status c) (oc_metadata c).

(** ** Scanning *)

(** [jsonMap.Scan] *)
Definition jsonMap_Scan (value : option string) : res (gmap string string) :=
  match value with
  | None => Ok ∅
  | Some b => wrap_res "unmarshal jsonMap" (Unmarshal_strings b)
  end.

(** database/sql's wrapping of an error of [Scan] at a column. *)
Definition scan_column {A} (index name : string) (r : res A) : res A :=
  let q := String chr_quote "" in
  wrap_res ("sql: Scan error on column index " +:+ index +:+ ", name " +:+ q +:+ name +:+ q) r.

(** [if scoreUpdated.Valid { e.ScoreUpdatedAt = scoreUpdated.Time }] *)
Definition null_time (t : option Z) : Z := default time_zero t.

Definition scan_sport (r : row sport_cols) : res Sport :=
  Ok (mkSport (row_id r) (row_provider r) (row_pid r) (sc_slug (row_cols r))
        (sc_name (row_cols r)) (row_created r) (row_updated r)).
Definition scan_league (r : row league_cols) : res League :=
  let c := row_cols r in
  Ok (mkLeague (row_id r) (row_provider r) (row_pid r) (lc_sport_id c) (lc_name c)
        (lc_country c) (row_created r) (row_updated r)).
Definition scan_event (r : row event_cols) : res Event :=
  let c := row_cols r in
  metadata ← scan_column "12" "metadata" (jsonMap_Scan (ec_metadata c));
  Ok (mkEvent (row_id r) (row_provider r) (row_pid r) (ec_league_id c) (ec_sport_id c)
        (ec_home_participant c) (ec_away_participant c) (ec_starts_at c) (ec_status c)
        (ec_home_score c) (ec_away_score c) (null_time (ec_score_updated_at c)) metadata
        (row_created r) (row_updated r)).
Definition scan_market (r : row market_cols) : res Market :=
  let c := row_cols r in
  metadata ← scan_column "8" "metadata" (jsonMap_Scan (mc_metadata c));
  Ok (mkMarket (row_id r) (row_provider r) (row_pid r) (mc_event_id c) (mc_type c) (mc_name c)
        (mc_line c) (mc_status c) metadata (row_created r) (row_updated r)).
Definition scan_outcome (r : row outcome_cols) : res Outcome :=
  let c := row_cols r in
  metadata ← scan_column "7" "metadata" (jsonMap_Scan (oc_metadata c));
  Ok (mkOutcome (row_id r) (row_provider r) (row_pid r) (oc_market_id c) (oc_name c) (oc_odds c)
        (oc_status c) metadata (row_created r) (row_updated r)).

Section PGStore.
Context `{E : GoEnv, P : PgTypes, O : OddsPgTypes, F : SqlFaults}.
#[local] Abbreviation M := (Prelude.M odds_db).

Definition parseUUID (s : string) : string + goerr :=
  if decide (s = "") then inl uuid_Nil else uuid_Parse s.

(** [if err != nil { return ..., fmt.Errorf(what + ": %w", err) }] *)
Definition parsed (what : string) (x : string + goerr) : M string :=
  match x with inl u => mret u | inr e => mthrow (ErrWrap what e) end.

Definition PGStore_UpsertSport (sp : Sport) : M string :=
  sportUUID ← parsed "upsert sport: invalid id uuid" (uuid_Parse (sport_ID sp));
  wrapped "upsert sport" (db_stmt (upsert_row sports_table sportUUID (sport_Provider sp)
    (sport_ProviderSportID sp) (mkSportCols (sport_Slug sp) (sport_Name sp)))).

Definition PGStore_UpsertLeague (l : League) : M string :=
  leagueUUID ← parsed "upsert league: invalid id uuid" (uuid_Parse (league_ID l));
  sportUUID ← parsed "upsert league: invalid sport uuid" (parseUUID (league_SportID l));
  wrapped "upsert league" (db_stmt (upsert_row leagues_table leagueUUID (league_Provider l)
    (league_ProviderLeagueID l) (mkLeagueCols sportUUID (league_Name l) (league_Country l)))).

(** [sql.NullTime{Time: t, Valid: !t.IsZero()}] as its column reads it. *)
Definition null_time_in (t : Z) : answer (option Z) :=
  if IsZero t then Done None else (t ← read_in (timestamptz_in t); Done (Some t)).

(** The VALUES of an event; its ids are read already. *)
Definition event_values (leagueUUID sportUUID : string) (e : Event) : answer event_cols :=
  startsAt ← read_in (timestamptz_in (event_StartsAt e));
  scoreUpdated ← null_time_in (event_ScoreUpdatedAt e);
  metadata ← read_in (jsonb_strings (event_Metadata e));
  Done (mkEventCols leagueUUID sportUUID (event_HomeParticipant e) (event_AwayParticipant e)
    startsAt (event_Status e) (event_HomeScore e) (event_AwayScore e) scoreUpdated metadata).

Definition PGStore_UpsertEvent (e : Event) : M string :=
  eventUUID ← parsed "upsert event: invalid id uuid" (uuid_Parse (event_ID e));
  leagueUUID ← parsed "upsert event: invalid league uuid" (parseUUID (event_LeagueID e));
  sportUUID ← parsed "upsert event: invalid sport uuid" (parseUUID (event_SportID e));
  wrapped "upsert event" (db_stmt (fun now fresh db =>
    cols ← event_values leagueUUID sportUUID e;
    upsert_row events_table eventUUID (event_Provider e) (event_ProviderEventID e) cols
      now fresh db)).

Definition market_values (eventUUID : string) (m : Market) : answer market_cols :=
  metadata ← read_in (jsonb_strings (market_Metadata m));
  Done (mkMarketCols eventUUID (market_Type m) (market_Name m) (market_Line m) (market_Status m)
    metadata).

Definition PGStore_UpsertMarket (m : Market) : M string :=
  marketUUID ← parsed "upsert market: invalid id uuid" (uuid_Parse (market_ID m));
  eventUUID ← parsed "upsert market: invalid event uuid" (parseUUID (market_EventID m));
  wrapped "upsert market" (db_stmt (fun now fresh db =>
    cols ← market_values eventUUID m;
    upsert_row markets_table marketUUID (market_Provider m) (market_ProviderMarketID m) cols
      now fresh db)).

Definition outcome_values (marketUUID : string) (o : Outcome) : answer outcome_cols :=
  metadata ← read_in (jsonb_strings (outcome_Metadata o));
  Done (mkOutcomeCols marketUUID (outcome_Name o) (outcome_Odds o) (outcome_Status o) metadata).

Definition PGStore_UpsertOutcome (o : Outcome) : M string :=
  outcomeUUID ← parsed "upsert outcome: invalid id uuid" (uuid_Parse (outcome_ID o));
  marketUUID ← parsed "upsert outcome: invalid market uuid" (parseUUID (outcome_MarketID o));
  wrapped "upsert outcome" (db_stmt (fun now fresh db =>
    cols ← outcome_values marketUUID o;
    upsert_row outcomes_table outcomeUUID (outcome_Provider o) (outcome_ProviderOutcomeID o) cols
      now fresh db)).

(** [err := ....Scan(...)], [sql.ErrNoRows] as "not found", other errors wrapped. *)
Definition returning {A} (what : string) (f : statement odds_db (option A)) : M A :=
  r ← attempt (scan (db_stmt f));
  match r with
  | Ok a => mret a
  | Err e => if decide (e = ErrNoRows) then mthrow (ErrNew (what +:+ ": not found"))
             else mthrow (ErrWrap what e)
  | Panic p => panic p
  end.

Definition PGStore_UpdateOutcomeOdds (provider providerOutcomeID odds : string) :
    M (string * string) :=
  r ← returning "update outcome odds"
    (update_key outcomes_table provider providerOutcomeID (oc_set_odds odds));
  mret (oc_market_id (row_cols r), row_id r).

Definition PGStore_UpdateMarketStatus (provider providerMarketID status : string) : M string :=
  r ← returning "update market status"
    (update_key markets_table provider providerMarketID (mc_set_status status));
  mret (row_id r).

Definition PGStore_UpdateOutcomeStatus (provider providerOutcomeID status : string) :
    M (string * string) :=
  r ← returning "update outcome status"
    (update_key outcomes_table provider providerOutcomeID (oc_set_status status));
  mret (oc_market_id (row_cols r), row_id r).

(** [ExecContext]: no row is no error. *)
Definition PGStore_UpdateEventStatus (provider providerEventID status : string) : M unit :=
  r ← db_stmt (update_key events_table provider providerEventID (ec_set_status status));
  mret tt.

(** The rows, in any order. *)
Definition PGStore_GetEventStatusesByProvider (provider : string) : M (gmap string string) :=
  rows ← wrapped "get event statuses" (db_stmt (select
    (fun db => filter (fun r => row_provider r = provider) (od_events db))));
  mret (foldl (fun statuses r => <[row_pid r := ec_status (row_cols r)]> statuses) ∅ rows).

(** [QueryContext], and [rows.Scan] on each row. *)
Definition query_rows {A B} (what : string) (f : statement odds_db (list A)) (scan_row : A -> res B) :
    M (list B) :=
  rows ← wrapped what (db_stmt f);
  of_res (wrap_res (what +:+ ": scan") (mapM scan_row rows)).

(** [if id != "" { parsed, err := uuid.Parse(id); ... }]: [None] is NULL. *)
Definition parse_filter (what : string) (id : string) : M (option string) :=
  if decide (id = "") then mret None
  else (parsed_id ← parsed what (uuid_Parse id); mret (Some parsed_id)).
(** ($n::uuid IS NULL OR c = $n::uuid) *)
Definition uuid_filter (f : option string) (c : string) : Prop :=
  match f with None => True | Some u => c = u end.
#[export] Instance uuid_filter_dec f c : Decision (uuid_filter f c).
Proof. unfold uuid_filter. destruct f; apply _. Defined.
(** ($n = '' OR status = $n) *)
Definition status_filter (s status : string) : Prop := s = "" \/ status = s.
#[export] Instance status_filter_dec s c : Decision (status_filter s c).
Proof. unfold status_filter. apply _. Defined.

(** LIMIT and OFFSET of a page. *)
Definition page_query {R} (rows : odds_db -> list R) (less : R -> R -> bool) (page pageSize : Z) :
    statement odds_db (list R) :=
  let page := default_int 1 page in
  let pageSize := default_int 20 pageSize in
  let offset := int64 (int64 (page - 1) * pageSize) in
  select_page rows less pageSize offset.

(** ORDER BY name *)
Definition by_name {A} (name : A -> string) (r r' : row A) : bool :=
  text_less (name (row_cols r)) (name (row_cols r')).

Definition PGStore_ListSports (page pageSize : Z) : M (list Sport) :=
  query_rows "list sports" (page_query od_sports (by_name sc_name) page pageSize) scan_sport.

Definition PGStore_ListLeagues (sportID : string) (page pageSize : Z) : M (list League) :=
  sportUUID ← parse_filter "list leagues: invalid sport uuid" sportID;
  query_rows "list leagues"
    (page_query (fun db => filter (fun r => uuid_filter sportUUID (lc_sport_id (row_cols r)))
       (od_leagues db)) (by_name lc_name) page pageSize) scan_league.

Definition PGStore_ListEvents (sportID leagueID status : string) (page pageSize : Z) :
    M (list Event) :=
  sportUUID ← parse_filter "list events: invalid sport uuid" sportID;
  leagueUUID ← parse_filter "list events: invalid league uuid" leagueID;
  query_rows "list events"
    (page_query (fun db => filter (fun r => uuid_filter sportUUID (ec_sport_id (row_cols r)) /\
         uuid_filter leagueUUID (ec_league_id (row_cols r)) /\
         status_filter status (ec_status (row_cols r))) (od_events db))
       (fun r r' => ec_starts_at (row_cols r') <? ec_starts_at (row_cols r)) page pageSize)
    scan_event.

Definition PGStore_GetEvent (id : string) : M (option Event) :=
  eventUUID ← parsed "get event: invalid uuid" (parseUUID id);
  r ← wrapped "get event" (db_stmt (select (fun db => first_row (has_row_id eventUUID) (od_events db))));
  match r with
  | None => mret None
  | Some r => of_res (wrap_res "get event" (Some <$> scan_event r))
  end.

Definition PGStore_ListMarkets (eventID status : string) (page pageSize : Z) : M (list Market) :=
  eventUUID ← parse_filter "list markets: invalid event uuid" eventID;
  query_rows "list markets"
    (page_query (fun db => filter (fun r => uuid_filter eventUUID (mc_event_id (row_cols r)) /\
         status_filter status (mc_status (row_cols r))) (od_markets db)) (by_name mc_name)
       page pageSize) scan_market.

Definition PGStore_ListOutcomes (marketID status : string) (page pageSize : Z) : M (list Outcome) :=
  marketUUID ← parse_filter "list outcomes: invalid market uuid" marketID;
  query_rows "list outcomes"
    (page_query (fun db => filter (fun r => uuid_filter marketUUID (oc_market_id (row_cols r)) /\
         status_filter status (oc_status (row_cols r))) (od_outcomes db)) (by_name oc_name)
       page pageSize) scan_outcome.

Definition PGStore_ListLiveScores (sportID leagueID : string) (page pageSize : Z) : M (list Event) :=
  wrapped "list live scores" (PGStore_ListEvents sportID leagueID "live" page pageSize).

#[export] Instance PGStore_OddsStore : OddsStore odds_db := {
  odds_UpsertSport := PGStore_UpsertSport;
  odds_UpsertLeague := PGStore_UpsertLeague;
  odds_UpsertEvent := PGStore_UpsertEvent;
  odds_UpsertMarket := PGStore_UpsertMarket;
  odds_UpsertOutcome := PGStore_UpsertOutcome;
  odds_UpdateOutcomeOdds := PGStore_UpdateOutcomeOdds;
  odds_UpdateMarketStatus := PGStore_UpdateMarketStatus;
  odds_UpdateOutcomeStatus := PGStore_UpdateOutcomeStatus;
  odds_UpdateEventStatus := PGStore_UpdateEventStatus;
  odds_GetEventStatusesByProvider := PGStore_GetEventStatusesByProvider;
  odds_ListSports := PGStore_ListSports;
  odds_ListLeagues := PGStore_ListLeagues;
  odds_ListEvents := PGStore_ListEvents;
  odds_GetEvent := PGStore_GetEvent;
  odds_ListMarkets := PGStore_ListMarkets;
  odds_ListOutcomes := PGStore_ListOutcomes;
  odds_ListLiveScores := PGStore_ListLiveScores;
}.
End PGStore.
