(* ===== verification/OddsPgProps.v ===== *)
(** * OddsPgProps: snapshots in the odds feed's Postgres store

    The tables keep their rows named after provider and provider id and referring to
    rows that are there, whatever statements fail; and while the database is reached, a
    snapshot whose texts the columns take is stored completely. *)

From S2P Require Import Prelude GoStd GoJson Sql Demo OddsModels OddsStore Normalizer.
From S2P Require Import OddsService OddsProps OddsSteps OddsIntegrity WalletService OddsPg.

Section Props.
Context `{E : GoEnv, U : UuidSHA1, P : PgTypes, O : OddsPgTypes, F : SqlFaults}.

(** No two names have one UUID, and the UUIDs are written as the uuid package writes them. *)
Record uuid_laws : Prop := {
  ul_inj : forall x y, NewSHA1 x = NewSHA1 y -> x = y;
  ul_parse : forall x, uuid_Parse (NewSHA1 x) = inl (NewSHA1 x);
  ul_some : forall x, NewSHA1 x <> "";
}.
Context (UL : uuid_laws).

(** ** One table *)
Section Table.
Context {A : Type} (t : table A) (kind : string).

(** A row under the identifier of its key. *)
Definition named (id provider pid : string) : Prop :=
  colon_free provider /\ id = deterministicID provider (kind +:+ pid).
Definition row_named (r : row A) : Prop := named (row_id r) (row_provider r) (row_pid r).

Record table_ok (db : odds_db) : Prop := {
  to_named : forall r, r ∈ tb_rows t db -> row_named r;
  to_ids : NoDup (row_id <$> tb_rows t db);
  to_check : forall r, r ∈ tb_rows t db -> tb_check t (row_cols r) = true;
  to_refs : forall r, r ∈ tb_rows t db -> tb_refs t (row_cols r) db = true;
}.

Definition has_id (i : string) (db : odds_db) : Prop := exists r, r ∈ tb_rows t db /\ row_id r = i.

Lemma has_id_spec i db : existsb (has_row_id i) (tb_rows t db) = true <-> has_id i db.
Proof.
  unfold has_id. rewrite existsb_exists. split; intros (r & H1 & H2); exists r.
  - apply list_elem_of_In in H1. by apply bool_decide_eq_true in H2.
  - split; [by apply list_elem_of_In|by apply bool_decide_eq_true].
Qed.

Lemma has_row_key_spec p i (r : row A) : has_row_key p i r = true <-> row_provider r = p /\ row_pid r = i.
Proof. unfold has_row_key. by rewrite andb_true_iff, !bool_decide_eq_true. Qed.

Lemma named_inj i p q p' q' : named i p q -> named i p' q' -> p = p' /\ q = q'.
Proof.
  intros [Hc H] [Hc' H']. rewrite H in H'. unfold deterministicID in H'. apply (ul_inj UL) in H'.
  apply (pair_key_inj p (kind +:+ q)) in H' as [-> Hq]; [|done|done]. split; [done|].
  by apply (inj (String.append kind)) in Hq.
Qed.

Lemma key_unique db r r' : table_ok db -> r ∈ tb_rows t db -> r' ∈ tb_rows t db ->
  row_provider r = row_provider r' -> row_pid r = row_pid r' -> r = r'.
Proof.
  intros Hok Hr Hr' Hp Hq. apply (NoDup_fmap_eq row_id (tb_rows t db)); try done; [apply Hok|].
  destruct (to_named _ Hok r Hr) as [_ ->], (to_named _ Hok r' Hr') as [_ ->]. congruence.
Qed.

(** Rows that may take the place of the table's. *)
Record next_rows (db : odds_db) (l : list (row A)) : Prop := {
  nr_named : forall r, r ∈ l -> row_named r;
  nr_ids : NoDup (row_id <$> l);
  nr_check : forall r, r ∈ l -> tb_check t (row_cols r) = true;
  nr_refs : forall r, r ∈ l -> tb_refs t (row_cols r) db = true;
  nr_kept : forall r, r ∈ tb_rows t db -> row_id r ∈ row_id <$> l;
}.

Lemma update_where_next db p q f now : table_ok db ->
  (forall r, r ∈ tb_rows t db -> has_row_key p q r = true ->
     tb_check t (f (row_cols r)) = true /\ tb_refs t (f (row_cols r)) db = true) ->
  next_rows db (update_where (has_row_key p q) (row_update f now) (tb_rows t db)).
Proof.
  intros Hok Hf. set (g := fun r => if has_row_key p q r then row_update f now r else r).
  assert (forall r, row_id (g r) = row_id r /\ row_provider (g r) = row_provider r /\
    row_pid (g r) = row_pid r) as Hg by (intros r; unfold g; by destruct (has_row_key p q r)).
  assert (row_id <$> update_where (has_row_key p q) (row_update f now) (tb_rows t db) =
    row_id <$> tb_rows t db) as Hids.
  { unfold update_where. rewrite <- list_fmap_compose. apply list_fmap_ext. intros i r _. apply Hg. }
  assert (forall r', r' ∈ update_where (has_row_key p q) (row_update f now) (tb_rows t db) ->
    exists r, r' = g r /\ r ∈ tb_rows t db) as Hin by (intros r' H; by apply list_elem_of_fmap in H).
  constructor.
  - intros r' (r & -> & Hr)%Hin. destruct (to_named _ Hok r Hr) as [Hc Hi].
    destruct (Hg r) as (H1 & H2 & H3). unfold row_named, named. by rewrite H1, H2, H3.
  - rewrite Hids. apply Hok.
  - intros r' (r & -> & Hr)%Hin. unfold g. destruct (has_row_key p q r) eqn:Hk;
      [by apply Hf|by apply (to_check _ Hok)].
  - intros r' (r & -> & Hr)%Hin. unfold g. destruct (has_row_key p q r) eqn:Hk;
      [by apply Hf|by apply (to_refs _ Hok)].
  - intros r Hr. rewrite Hids. by apply list_elem_of_fmap_2.
Qed.

Lemma append_next db r : table_ok db -> row_named r -> tb_check t (row_cols r) = true ->
  tb_refs t (row_cols r) db = true -> ~ has_id (row_id r) db -> next_rows db (tb_rows t db ++ [r]).
Proof.
  intros Hok Hn Hc Hr Hno.
  assert (forall x, x ∈ tb_rows t db ++ [r] -> x ∈ tb_rows t db \/ x = r) as Hin.
  { intros x [H|H%list_elem_of_singleton]%elem_of_app; auto. }
  constructor.
  - intros x [H| ->]%Hin; [by apply Hok|done].
  - apply NoDup_fmap_snoc; [apply Hok|]. intros (x & Hx & H)%list_elem_of_fmap. apply Hno. by exists x.
  - intros x [H| ->]%Hin; [by apply (to_check _ Hok)|done].
  - intros x [H| ->]%Hin; [by apply (to_refs _ Hok)|done].
  - intros x Hx. rewrite fmap_app. apply elem_of_app. left. by apply list_elem_of_fmap_2.
Qed.

(** An upsert: done with the record's own identifier, or refused. *)
Lemma upsert_row_next id p q cols now fresh db i db' : table_ok db -> named id p q ->
  upsert_row t id p q cols now fresh db = Done (i, db') ->
  i = id /\ exists l, db' = tb_set t l db /\ next_rows db l /\ id ∈ row_id <$> l.
Proof.
  intros Hok Hn. unfold upsert_row. destruct (tb_check t cols) eqn:Hc; [|done]. cbn [negb].
  destruct (first_row _ _) as [r|] eqn:Hf.
  - destruct (tb_refs t cols db) eqn:Hr; [|done]. cbn [negb]. intros [= <- <-].
    apply first_row_Some in Hf as [Hin [Hp Hq]%has_row_key_spec].
    assert (row_id r = id) as Hid.
    { destruct (to_named _ Hok r Hin) as [_ ->]. rewrite Hp, Hq. symmetry. apply Hn. }
    assert (next_rows db (update_where (has_row_key p q) (row_update (fun _ => cols) now)
      (tb_rows t db))) as Hnext by (by apply update_where_next).
    split; [done|]. eexists. split; [done|]. split; [done|]. rewrite <- Hid. by apply Hnext.
  - destruct (existsb _ _) eqn:He; [done|]. destruct (tb_refs t cols db) eqn:Hr; [|done].
    cbn [negb]. intros [= <- <-]. split; [done|]. eexists. split; [done|]. split.
    + apply append_next; try done. intros H%has_id_spec. cbn in H. congruence.
    + rewrite fmap_app. apply elem_of_app. right. by left.
Qed.

(** The table has a row with this identifier, this key and such values. *)
Definition held (id p q : string) (values : A -> Prop) (db : odds_db) : Prop :=
  exists r, r ∈ tb_rows t db /\ row_id r = id /\ row_provider r = p /\ row_pid r = q /\
    values (row_cols r).

(** The rows after an upsert: the key's row with the new values, and those of other keys. *)
Lemma upsert_row_held id p q cols now fresh db i db' :
  (forall l db, tb_rows t (tb_set t l db) = l) -> table_ok db -> named id p q ->
  upsert_row t id p q cols now fresh db = Done (i, db') ->
  (forall values : A -> Prop, values cols -> held id p q values db') /\
  forall i' p' q' v, (p', q') <> (p, q) -> held i' p' q' v db' <-> held i' p' q' v db.
Proof.
  intros Hset Hok Hn. unfold upsert_row. destruct (tb_check t cols); [|done]. cbn [negb].
  destruct (first_row _ _) as [r|] eqn:Hf.
  - destruct (tb_refs t cols db); [|done]. cbn [negb]. intros [= <- <-]. unfold held.
    rewrite Hset. apply first_row_Some in Hf as [Hin Hk]. split.
    + intros values Hvals. exists (row_update (fun _ => cols) now r). split.
      { apply list_elem_of_fmap. exists r. by rewrite Hk. }
      apply has_row_key_spec in Hk as [Hp Hq]. split_and!; try done. cbn.
      destruct (to_named _ Hok r Hin) as [_ ->]. rewrite Hp, Hq. symmetry. apply Hn.
    + intros i' p' q' v Hne. split.
      * intros (x & (y & -> & Hy)%list_elem_of_fmap & Hi & Hp & Hq & Hv).
        destruct (has_row_key p q y) eqn:Hky; [|by exists y].
        apply has_row_key_spec in Hky as [Hyp Hyq]. cbn in Hp, Hq. congruence.
      * intros (x & Hx & Hi & Hp & Hq & Hv). exists x. split_and!; try done.
        apply list_elem_of_fmap. exists x. destruct (has_row_key p q x) eqn:Hkx; [|done].
        apply has_row_key_spec in Hkx as [? ?]. congruence.
  - destruct (existsb _ _); [done|]. destruct (tb_refs t cols db); [|done]. cbn [negb].
    intros [= <- <-]. unfold held. rewrite Hset. split.
    + intros values Hvals. eexists. split; [apply elem_of_app; right; by left|]. by split_and!.
    + intros i' p' q' v Hne. split; intros (x & Hx & Hi & Hp & Hq & Hv); exists x; split_and!; try done.
      * apply elem_of_app in Hx as [Hx|Hx%list_elem_of_singleton]; [done|].
        rewrite Hx in Hp, Hq. cbn in Hp, Hq. congruence.
      * apply elem_of_app. by left.
Qed.

(** The upsert is done whenever the columns are allowed. *)
Lemma upsert_row_done id p q cols now fresh db : table_ok db -> named id p q ->
  tb_check t cols = true -> tb_refs t cols db = true ->
  exists i db', upsert_row t id p q cols now fresh db = Done (i, db').
Proof.
  intros Hok Hn Hc Hr. unfold upsert_row. rewrite Hc, Hr. cbn [negb].
  destruct (first_row _ _) as [r|] eqn:Hf; [by do 2 eexists|].
  destruct (existsb _ _) eqn:He; [|by do 2 eexists]. exfalso.
  apply has_id_spec in He as (r & Hin & Hid). rewrite first_row_None in Hf. specialize (Hf r Hin).
  destruct (named_inj id p q (row_provider r) (row_pid r) Hn) as [-> ->].
  { rewrite <- Hid. by apply Hok. }
  apply not_true_iff_false in Hf. by destruct (Hf (proj2 (has_row_key_spec _ _ _) (conj eq_refl eq_refl))).
Qed.

Lemma update_key_next p q f now fresh db o db' : table_ok db ->
  (forall c, tb_refs t (f c) db = tb_refs t c db) ->
  update_key t p q f now fresh db = Done (o, db') ->
  db' = db \/ exists l, db' = tb_set t l db /\ next_rows db l.
Proof.
  intros Hok Hf. unfold update_key. destruct (first_row _ _) as [r|] eqn:Hr; [|intros [= <- <-]; by left].
  destruct (tb_check t (f (row_cols r))) eqn:Hc; [|done]. cbn [negb]. intros [= <- <-]. right.
  eexists. split; [done|]. apply update_where_next; [done|]. intros r' Hin' [Hp' Hq']%has_row_key_spec.
  apply first_row_Some in Hr as [Hin [Hp Hq]%has_row_key_spec].
  assert (r' = r) as -> by (apply (key_unique db); congruence).
  rewrite Hf. split; [done|]. by apply (to_refs _ Hok).
Qed.
End Table.

(** ** The five tables *)

#[export] Instance pg_records : Records odds_db := {
  has_sport := has_id sports_table;
  has_league := has_id leagues_table;
  has_event := has_id events_table;
  has_market := has_id markets_table;
}.

(** The columns that a record is stored in: texts as they are, times and metadata as Postgres
    takes them. *)
Definition sport_in (x : Sport) (c : sport_cols) : Prop :=
  sc_slug c = sport_Slug x /\ sc_name c = sport_Name x.
Definition league_in (x : League) (c : league_cols) : Prop :=
  lc_sport_id c = league_SportID x /\ lc_name c = league_Name x /\ lc_country c = league_Country x.
Definition event_in (x : Event) (c : event_cols) : Prop :=
  ec_league_id c = event_LeagueID x /\ ec_sport_id c = event_SportID x /\
  ec_home_participant c = event_HomeParticipant x /\
  ec_away_participant c = event_AwayParticipant x /\
  timestamptz_in (event_StartsAt x) = Some (ec_starts_at c) /\ ec_status c = event_Status x /\
  ec_home_score c = event_HomeScore x /\ ec_away_score c = event_AwayScore x /\
  (if IsZero (event_ScoreUpdatedAt x) then ec_score_updated_at c = None
   else exists t, timestamptz_in (event_ScoreUpdatedAt x) = Some t /\ ec_score_updated_at c = Some t) /\
  jsonb_strings (event_Metadata x) = Some (ec_metadata c).
Definition market_in (x : Market) (c : market_cols) : Prop :=
  mc_event_id c = market_EventID x /\ mc_type c = market_Type x /\ mc_name c = market_Name x /\
  mc_line c = market_Line x /\ mc_status c = market_Status x /\
  jsonb_strings (market_Metadata x) = Some (mc_metadata c).
Definition outcome_in (x : Outcome) (c : outcome_cols) : Prop :=
  oc_market_id c = outcome_MarketID x /\ oc_name c = outcome_Name x /\
  oc_odds c = outcome_Odds x /\ oc_status c = outcome_Status x /\
  jsonb_strings (outcome_Metadata x) = Some (oc_metadata c).

#[export] Instance pg_contents : Contents odds_db := {
  holds r :=
    match r with
    | RSport x =>
        held sports_table (sport_ID x) (sport_Provider x) (sport_ProviderSportID x) (sport_in x)
    | RLeague x =>
        held leagues_table (league_ID x) (league_Provider x) (league_ProviderLeagueID x) (league_in x)
    | REvent x =>
        held events_table (event_ID x) (event_Provider x) (event_ProviderEventID x) (event_in x)
    | RMarket x =>
        held markets_table (market_ID x) (market_Provider x) (market_ProviderMarketID x) (market_in x)
    | ROutcome x => held outcomes_table (outcome_ID x) (outcome_Provider x)
        (outcome_ProviderOutcomeID x) (outcome_in x)
    end
}.

Record pg_inv (db : odds_db) : Prop := {
  pi_sports : table_ok sports_table "sport:" db;
  pi_leagues : table_ok leagues_table "league:" db;
  pi_events : table_ok events_table "event:" db;
  pi_markets : table_ok markets_table "market:" db;
  pi_outcomes : table_ok outcomes_table "outcome:" db;
}.

Lemma odds_tables_empty : pg_inv od_empty.
Proof. constructor; constructor; cbn; try (intros r Hr; by apply elem_of_nil in Hr); constructor. Qed.

(** What holds of each of the five: references stay satisfied as tables grow, and the
    other tables do not depend on a table but for its identifiers. *)
Class PgTable {A} (t : table A) (kind : string) : Prop := {
  pt_rows : forall l db, tb_rows t (tb_set t l db) = l;
  pt_refs : forall c db db', grows db db' -> tb_refs t c db = true -> tb_refs t c db' = true;
  pt_grows : forall l db, (forall r, r ∈ tb_rows t db -> row_id r ∈ row_id <$> l) ->
    grows db (tb_set t l db);
  pt_inv : forall db, pg_inv db -> table_ok t kind db;
  pt_set : forall l db, pg_inv db -> table_ok t kind (tb_set t l db) -> grows db (tb_set t l db) ->
    pg_inv (tb_set t l db);
}.

Lemma table_ok_other {A} (t : table A) kind db db' :
  (forall c, tb_refs t c db = true -> tb_refs t c db' = true) -> tb_rows t db' = tb_rows t db ->
  table_ok t kind db -> table_ok t kind db'.
Proof.
  intros Hr Heq [H1 H2 H3 H4]. constructor; rewrite Heq; try done. intros r Hin. by apply Hr, H4.
Qed.

Lemma sports_refs (c : sport_cols) db db' : grows db db' ->
  tb_refs sports_table c db = true -> tb_refs sports_table c db' = true.
Proof. done. Qed.
Lemma leagues_refs (c : league_cols) db db' : grows db db' ->
  tb_refs leagues_table c db = true -> tb_refs leagues_table c db' = true.
Proof.
  intros [H _ _ _] Hr. apply (has_id_spec sports_table), H. by apply (has_id_spec sports_table).
Qed.
Lemma events_refs (c : event_cols) db db' : grows db db' ->
  tb_refs events_table c db = true -> tb_refs events_table c db' = true.
Proof.
  intros [H1 H2 _ _] [Hl Hs]%andb_true_iff. apply andb_true_iff. split.
  - apply (has_id_spec leagues_table), H2. by apply (has_id_spec leagues_table).
  - apply (has_id_spec sports_table), H1. by apply (has_id_spec sports_table).
Qed.
Lemma markets_refs (c : market_cols) db db' : grows db db' ->
  tb_refs markets_table c db = true -> tb_refs markets_table c db' = true.
Proof.
  intros [_ _ H _] Hr. apply (has_id_spec events_table), H. by apply (has_id_spec events_table).
Qed.
Lemma outcomes_refs (c : outcome_cols) db db' : grows db db' ->
  tb_refs outcomes_table c db = true -> tb_refs outcomes_table c db' = true.
Proof.
  intros [_ _ _ H] Hr. apply (has_id_spec markets_table), H. by apply (has_id_spec markets_table).
Qed.

Lemma has_id_set {A} (t : table A) l db i : (forall l db, tb_rows t (tb_set t l db) = l) ->
  (forall r, r ∈ tb_rows t db -> row_id r ∈ row_id <$> l) -> has_id t i db -> has_id t i (tb_set t l db).
Proof.
  intros Heq Hl (r & Hr & <-). apply Hl in Hr as (r' & Hid & Hr')%list_elem_of_fmap.
  exists r'. by rewrite Heq.
Qed.

#[local] Ltac pg_table :=
  constructor;
  [ done
  | first [exact sports_refs|exact leagues_refs|exact events_refs|exact markets_refs|exact outcomes_refs]
  | intros l db Hl; constructor; intros i Hi;
      first [exact Hi | by apply (has_id_set _ l db i)]
  | by intros db []
  | intros l db Hi Ht Hg; constructor;
      first [ exact Ht
            | apply (table_ok_other sports_table _ db); [|done|apply Hi]; intros c; by apply sports_refs
            | apply (table_ok_other leagues_table _ db); [|done|apply Hi]; intros c; by apply leagues_refs
            | apply (table_ok_other events_table _ db); [|done|apply Hi]; intros c; by apply events_refs
            | apply (table_ok_other markets_table _ db); [|done|apply Hi]; intros c; by apply markets_refs
            | apply (table_ok_other outcomes_table _ db); [|done|apply Hi]; intros c; by apply outcomes_refs ] ].

#[export] Instance sports_pg : PgTable sports_table "sport:".
Proof. pg_table. Qed.
#[export] Instance leagues_pg : PgTable leagues_table "league:".
Proof. pg_table. Qed.
#[export] Instance events_pg : PgTable events_table "event:".
Proof. pg_table. Qed.
#[export] Instance markets_pg : PgTable markets_table "market:".
Proof. pg_table. Qed.
#[export] Instance outcomes_pg : PgTable outcomes_table "outcome:".
Proof. pg_table. Qed.

Lemma next_rows_inv {A} (t : table A) kind `{PT : !PgTable t kind} db l : pg_inv db ->
  next_rows t kind db l -> pg_inv (tb_set t l db) /\ grows db (tb_set t l db).
Proof.
  intros Hi [Hn Hid Hc Hr Hk]. assert (grows db (tb_set t l db)) as Hg by (by apply pt_grows).
  split; [|done]. apply (pt_set (kind := kind)); [done| |done].
  constructor; rewrite pt_rows; try done. intros r Hin. eapply pt_refs; [exact Hg|by apply Hr].
Qed.

(** ** Calls, whatever fails *)

(** The call keeps the invariant and every row. *)
Definition keeps {A} (m : M odds_db A) : Prop := forall w, pg_inv (w_st w) ->
  pg_inv (w_st (m w).2) /\ grows (w_st w) (w_st (m w).2).

Lemma keeps_stmt {A} (f : statement odds_db A) :
  (forall now fresh db a db', pg_inv db -> f now fresh db = Done (a, db') ->
     pg_inv db' /\ grows db db') -> keeps (db_stmt f).
Proof.
  intros H w Hi. destruct (db_stmt_cases f w) as [[e ->]|(a & db' & Hf & [->|[e ->]])]; cbn;
    [split; [done|apply grows_refl]|by eapply H..].
Qed.
Lemma keeps_ret {A} (a : A) : keeps (mret a).
Proof. intros w Hi. split; [done|apply grows_refl]. Qed.
Lemma keeps_throw {A} (e : goerr) : keeps (mthrow e : M odds_db A).
Proof. intros w Hi. split; [done|apply grows_refl]. Qed.
Lemma keeps_bind {A B} (m : M odds_db A) (f : A -> M odds_db B) :
  keeps m -> (forall a, keeps (f a)) -> keeps (m ≫= f).
Proof.
  intros Hm Hf w Hi. destruct (Hm w Hi) as [Hi' Hg]. unfold mbind, M_bind.
  destruct (m w) as [[a|e|p] w']; cbn in *; [|done|done].
  destruct (Hf a w' Hi') as [? ?]. split; [done|by eapply grows_trans].
Qed.
Lemma keeps_wrapped {A} what (m : M odds_db A) : keeps m -> keeps (wrapped what m).
Proof. intros Hm w Hi. rewrite wrapped_snd. by apply Hm. Qed.
Lemma keeps_returning {A} what (f : statement odds_db (option A)) :
  keeps (db_stmt f) -> keeps (returning what f).
Proof.
  intros Hf. unfold returning. apply keeps_bind.
  - intros w Hi. rewrite attempt_snd, scan_snd. by apply Hf.
  - intros [a|e|p]; [apply keeps_ret|case_decide; apply keeps_throw|].
    intros w Hi. split; [done|apply grows_refl].
Qed.

Lemma keeps_upsert {A} (t : table A) kind `{PT : !PgTable t kind} id p q
    (values : answer A) : named kind id p q ->
  keeps (db_stmt (fun now fresh db => cols ← values; upsert_row t id p q cols now fresh db)).
Proof.
  intros Hn. apply keeps_stmt. intros now fresh db i db' Hi.
  destruct values as [cols|code]; [|done]. cbn [mbind answer_bind]. intros Hd.
  destruct (upsert_row_next t kind id p q cols now fresh db i db') as (_ & l & -> & Hl & _);
    [by apply pt_inv|done|done|]. by apply (next_rows_inv t kind).
Qed.
Lemma keeps_update {A} (t : table A) kind `{PT : !PgTable t kind} p q f :
  (forall c db, tb_refs t (f c) db = tb_refs t c db) -> keeps (db_stmt (update_key t p q f)).
Proof.
  intros Hf. apply keeps_stmt. intros now fresh db o db' Hi Hd.
  destruct (update_key_next t kind p q f now fresh db o db') as [->|(l & -> & Hl)];
    [by apply pt_inv|done|done| |]; [split; [done|apply grows_refl]|by apply (next_rows_inv t kind)].
Qed.

(** The writing calls of the store, and the records that carry their key's name. *)
Inductive odds_op : Type :=
| OpSport (x : Sport)
| OpLeague (x : League)
| OpEvent (x : Event)
| OpMarket (x : Market)
| OpOutcome (x : Outcome)
| OpOdds (provider pid odds : string)
| OpMarketStatus (provider pid status : string)
| OpOutcomeStatus (provider pid status : string)
| OpEventStatus (provider pid status : string).
Definition named_op (op : odds_op) : Prop :=
  match op with
  | OpSport x => named "sport:" (sport_ID x) (sport_Provider x) (sport_ProviderSportID x)
  | OpLeague x => named "league:" (league_ID x) (league_Provider x) (league_ProviderLeagueID x)
  | OpEvent x => named "event:" (event_ID x) (event_Provider x) (event_ProviderEventID x)
  | OpMarket x => named "market:" (market_ID x) (market_Provider x) (market_ProviderMarketID x)
  | OpOutcome x => named "outcome:" (outcome_ID x) (outcome_Provider x) (outcome_ProviderOutcomeID x)
  | _ => True
  end.
Definition odds_call {T} `{OddsStore T} (op : odds_op) : M T unit :=
  match op with
  | OpSport x => ignore (odds_UpsertSport x)
  | OpLeague x => ignore (odds_UpsertLeague x)
  | OpEvent x => ignore (odds_UpsertEvent x)
  | OpMarket x => ignore (odds_UpsertMarket x)
  | OpOutcome x => ignore (odds_UpsertOutcome x)
  | OpOdds p i o => ignore (odds_UpdateOutcomeOdds p i o)
  | OpMarketStatus p i st => ignore (odds_UpdateMarketStatus p i st)
  | OpOutcomeStatus p i st => ignore (odds_UpdateOutcomeStatus p i st)
  | OpEventStatus p i st => ignore (odds_UpdateEventStatus p i st)
  end.
Definition odds_run {T} `{OddsStore T} (ops : list odds_op) (w : World T) : World T :=
  foldl (fun w op => (odds_call op w).2) w ops.

Lemma parsed_named kind id p q what : named kind id p q -> parsed what (uuid_Parse id) = mret id.
Proof. intros [_ ->]. unfold deterministicID. by rewrite (ul_parse UL). Qed.
Lemma keeps_own_id {A} kind id p q what (f : string -> M odds_db A) : named kind id p q ->
  keeps (f id) -> keeps (parsed what (uuid_Parse id) ≫= f).
Proof. intros Hn Hf. by rewrite (parsed_named _ _ _ _ _ Hn). Qed.
Lemma keeps_parsed {A} what x (f : string -> M odds_db A) :
  (forall u, keeps (f u)) -> keeps (parsed what x ≫= f).
Proof. intros Hf. apply keeps_bind; [|done]. destruct x; [apply keeps_ret|apply keeps_throw]. Qed.
Lemma keeps_ignore {A} (m : M odds_db A) : keeps m -> keeps (ignore m).
Proof. intros Hm w Hi. rewrite ignore_snd. by apply Hm. Qed.

Lemma op_keeps op : named_op op -> keeps (odds_call op).
Proof.
  intros Hn. destruct op as [x|x|x|x|x|p i o|p i st|p i st|p i st]; cbn [odds_call named_op] in *;
    apply keeps_ignore.
  - apply (keeps_own_id _ _ _ _ _ _ Hn), keeps_wrapped.
    by apply (keeps_upsert sports_table "sport:" _ _ _ (Done _)).
  - apply (keeps_own_id _ _ _ _ _ _ Hn), keeps_parsed. intros u. apply keeps_wrapped.
    by apply (keeps_upsert leagues_table "league:" _ _ _ (Done _)).
  - apply (keeps_own_id _ _ _ _ _ _ Hn), keeps_parsed. intros u. apply keeps_parsed. intros v.
    apply keeps_wrapped. by apply (keeps_upsert events_table "event:").
  - apply (keeps_own_id _ _ _ _ _ _ Hn), keeps_parsed. intros u.
    apply keeps_wrapped. by apply (keeps_upsert markets_table "market:").
  - apply (keeps_own_id _ _ _ _ _ _ Hn), keeps_parsed. intros u.
    apply keeps_wrapped. by apply (keeps_upsert outcomes_table "outcome:").
  - apply keeps_bind; [|intros; apply keeps_ret]. apply keeps_returning. by apply (keeps_update outcomes_table "outcome:").
  - apply keeps_bind; [|intros; apply keeps_ret]. apply keeps_returning. by apply (keeps_update markets_table "market:").
  - apply keeps_bind; [|intros; apply keeps_ret]. apply keeps_returning. by apply (keeps_update outcomes_table "outcome:").
  - apply keeps_bind; [|intros; apply keeps_ret]. by apply (keeps_update events_table "event:").
Qed.

(** ** A database that is reached *)

(** The columns take the record's values. *)
Definition event_taken (e : Event) : Prop :=
  event_Status e ∈ event_statuses /\
  (exists t, timestamptz_in (event_StartsAt e) = Some t) /\
  (exists t, null_time_in (event_ScoreUpdatedAt e) = Done t) /\
  exists md, jsonb_strings (event_Metadata e) = Some md.
Definition market_taken (m : Market) : Prop :=
  market_Status m ∈ market_statuses /\ exists md, jsonb_strings (market_Metadata m) = Some md.
Definition outcome_taken (o : Outcome) : Prop :=
  outcome_Status o ∈ outcome_statuses /\ exists md, jsonb_strings (outcome_Metadata o) = Some md.

Section Online.
Context (reached : online 0).

(** Rows that hold [rc] next to the other keys' rows are the database after it was written. *)
Definition written_by {A} (t : table A) (rc : record) id p q (values : A -> Prop) : Prop :=
  forall db l, held t id p q values (tb_set t l db) ->
  (forall i p' q' v, (p', q') <> (p, q) -> held t i p' q' v (tb_set t l db) <-> held t i p' q' v db) ->
  writes [rc] db (tb_set t l db).
#[local] Ltac written_tac :=
  intros db l Hh Hf; apply writes_one; [exact Hh|]; intros [y|y|y|y|y] Hy; try done;
  apply Hf; cbn in Hy; congruence.
Lemma sport_written x : written_by sports_table (RSport x) (sport_ID x) (sport_Provider x)
  (sport_ProviderSportID x) (sport_in x).
Proof. written_tac. Qed.
Lemma league_written x : written_by leagues_table (RLeague x) (league_ID x) (league_Provider x)
  (league_ProviderLeagueID x) (league_in x).
Proof. written_tac. Qed.
Lemma event_written x : written_by events_table (REvent x) (event_ID x) (event_Provider x)
  (event_ProviderEventID x) (event_in x).
Proof. written_tac. Qed.
Lemma market_written x : written_by markets_table (RMarket x) (market_ID x) (market_Provider x)
  (market_ProviderMarketID x) (market_in x).
Proof. written_tac. Qed.
Lemma outcome_written x : written_by outcomes_table (ROutcome x) (outcome_ID x) (outcome_Provider x)
  (outcome_ProviderOutcomeID x) (outcome_in x).
Proof. written_tac. Qed.

Lemma upsert_online {A} (t : table A) kind `{PT : !PgTable t kind} rc what id p q (values : answer A) (V : A -> Prop) cols db :
  written_by t rc id p q V -> V cols ->
  pg_inv db -> named kind id p q -> values = Done cols -> tb_check t cols = true ->
  tb_refs t cols db = true ->
  upserts pg_inv rc (wrapped what (db_stmt (fun now fresh db =>
    cols ← values; upsert_row t id p q cols now fresh db))) db (has_id t id).
Proof.
  intros Hwr HV Hi Hn Hv Hc Hr n. unfold wrapped.
  rewrite db_stmt_online by (intros k _; apply reached; lia). rewrite Hv. cbn [mbind answer_bind].
  pose proof (pt_inv (t := t) (kind := kind) db Hi) as Ht.
  destruct (upsert_row_done t kind id p q cols (time_at n) (uuid_at n) db Ht Hn Hc Hr) as (i & db' & Hd).
  rewrite Hd. destruct (upsert_row_next t kind id p q cols _ _ db i db' Ht Hn Hd)
    as (-> & l & -> & Hl & Hin).
  destruct (next_rows_inv t kind db l Hi Hl) as [Hi' Hg].
  destruct (upsert_row_held t kind id p q cols _ _ db id _ (pt_rows (kind := kind)) Ht Hn Hd) as [Hh Hf].
  exists id, (Datatypes.S n), (tb_set t l db). split_and!; [done|lia|done|done|by apply Hwr; [apply Hh|]|].
  apply list_elem_of_fmap in Hin as (r & -> & Hr'). exists r. by rewrite (pt_rows (kind := kind)).
Qed.

(** A stored identifier is read back as it is. *)
Lemma has_id_parse {A} (t : table A) kind `{PT : !PgTable t kind} i db : pg_inv db -> has_id t i db ->
  parseUUID i = inl i.
Proof.
  intros Hi (r & Hr & <-). destruct (to_named _ _ _ (pt_inv (kind := kind) db Hi) r Hr) as [_ ->].
  unfold parseUUID, deterministicID. rewrite decide_False by apply UL. apply (ul_parse UL).
Qed.

(** A call that first reads the record's own identifier, and a reference. *)
Lemma upserts_own kind id p q what rc (f : string -> M odds_db string) db (post : odds_db -> Prop) :
  named kind id p q -> upserts pg_inv rc (f id) db post ->
  upserts pg_inv rc (parsed what (uuid_Parse id) ≫= f) db post.
Proof. intros Hn Hf. by rewrite (parsed_named _ _ _ _ _ Hn). Qed.
Lemma upserts_ref {A} (t : table A) kind `{PT : !PgTable t kind} what i rc
    (f : string -> M odds_db string) db post :
  pg_inv db -> has_id t i db -> upserts pg_inv rc (f i) db post ->
  upserts pg_inv rc (parsed what (parseUUID i) ≫= f) db post.
Proof. intros Hi Hh Hf. by rewrite (has_id_parse t kind i db Hi Hh). Qed.

Lemma upserts_weaken rc (m : M odds_db string) db (post post' : odds_db -> Prop) :
  (forall db, post db -> post' db) -> upserts pg_inv rc m db post -> upserts pg_inv rc m db post'.
Proof.
  intros Hp Hm n. destruct (Hm n) as (i & n' & s' & ? & ? & ? & ? & ? & ?). exists i, n', s'.
  split_and!; auto.
Qed.

Lemma null_time_stored x t : null_time_in x = Done t ->
  if IsZero x then t = None else exists t', timestamptz_in x = Some t' /\ t = Some t'.
Proof.
  unfold null_time_in. destruct (IsZero x); [by intros [= <-]|].
  destruct (timestamptz_in x) as [t'|]; [|done]. intros [= <-]. by exists t'.
Qed.

#[export] Instance pg_integral : IntegralStore odds_db.
Proof.
  refine {| st_inv := pg_inv;
    st_sport x := named_op (OpSport x);
    st_league x := named_op (OpLeague x);
    st_event x db := named_op (OpEvent x) /\ event_taken x /\
      has_league (event_LeagueID x) db /\ has_sport (event_SportID x) db;
    st_market x := named_op (OpMarket x) /\ market_taken x;
    st_outcome x := named_op (OpOutcome x) /\ outcome_taken x |}.
  - intros x db Hi Hn. eapply upserts_own; [exact Hn|].
    by apply (upsert_online sports_table "sport:" _ _ _ _ _ (Done _) _
      (mkSportCols (sport_Slug x) (sport_Name x)) db (sport_written x)
      (conj eq_refl eq_refl) Hi Hn eq_refl).
  - intros x db Hi Hn Hs. eapply upserts_own; [exact Hn|].
    apply (upserts_ref sports_table "sport:"); [done|done|].
    apply (upsert_online leagues_table "league:" _ _ _ _ _ (Done _) _
      (mkLeagueCols (league_SportID x) (league_Name x) (league_Country x)) db (league_written x)
      (conj eq_refl (conj eq_refl eq_refl)) Hi Hn eq_refl); [done|].
    by apply (has_id_spec sports_table).
  - intros x db Hi (Hn & (Hst & [t Ht] & [t' Ht'] & [md Hmd]) & Hl & Hs).
    eapply upserts_own; [exact Hn|].
    apply (upserts_ref leagues_table "league:"); [done|done|].
    apply (upserts_ref sports_table "sport:"); [done|done|].
    apply (upsert_online events_table "event:" _ _ _ _ _ _ (event_in x) (mkEventCols (event_LeagueID x) (event_SportID x)
      (event_HomeParticipant x) (event_AwayParticipant x) t (event_Status x) (event_HomeScore x)
      (event_AwayScore x) t' md)); [by apply event_written
      | |done|done| |by apply bool_decide_eq_true|].
    + by repeat split; [..|exact Ht|by apply null_time_stored|exact Hmd].
    + unfold event_values. by rewrite Ht, Ht', Hmd.
    + apply andb_true_iff. split; [by apply (has_id_spec leagues_table)|by apply (has_id_spec sports_table)].
  - intros x db Hi (Hn & Hst & [md Hmd]) He. eapply upserts_own; [exact Hn|].
    apply (upserts_ref events_table "event:"); [done|done|].
    apply (upsert_online markets_table "market:" _ _ _ _ _ _ (market_in x) (mkMarketCols (market_EventID x) (market_Type x)
      (market_Name x) (market_Line x) (market_Status x) md));
      [by apply market_written|by split_and!|done|done| |by apply bool_decide_eq_true|].
    + unfold market_values. by rewrite Hmd.
    + by apply (has_id_spec events_table).
  - intros x db Hi (Hn & Hst & [md Hmd]) Hm. apply (upserts_weaken _ _ _ (has_id outcomes_table (outcome_ID x)));
      [done|]. eapply upserts_own; [exact Hn|].
    apply (upserts_ref markets_table "market:"); [done|done|].
    apply (upsert_online outcomes_table "outcome:" _ _ _ _ _ _ (outcome_in x) (mkOutcomeCols (outcome_MarketID x)
      (outcome_Name x) (outcome_Odds x) (outcome_Status x) md));
      [by apply outcome_written|by split_and!|done|done| |by apply bool_decide_eq_true|].
    + unfold outcome_values. by rewrite Hmd.
    + by apply (has_id_spec markets_table).
Defined.

(** The columns take a snapshot's records; the league and the sport of every event are
    among them. *)
Record snapshot_taken (n : Normalized) : Prop := {
  tk_events : forall e, e ∈ nz_events n ->
    event_taken e /\ event_LeagueID e <> "" /\ event_SportID e <> "";
  tk_markets : forall m, m ∈ nz_markets n -> market_taken m;
  tk_outcomes : forall o, o ∈ nz_outcomes n -> outcome_taken o;
}.

Lemma taken_storable snap n : NormalizeSnapshot snap = Ok n -> colon_free (sn_Provider snap) ->
  snapshot_taken n -> storable n.
Proof.
  intros Hn Hc [He Hm Ho]. destruct (normalized_good snap n Hn Hc) as (Gs & Gl & Ge & Gm & Go).
  destruct (normalized_integral snap n Hn) as ((_ & _ & _ & Hpar) & _).
  constructor.
  - exact Gs.
  - exact Gl.
  - intros e db Hin [Hsp Hlg]. destruct (He e Hin) as (Ht & Hl & Hs).
    destruct (Hpar e Hin) as [[?|(l & Hlin & Hlid)] [?|(x & Hxin & Hxid)]]; [done|done|done|].
    split; [exact (Ge e Hin)|]. rewrite <- Hlid, <- Hxid. split_and!; [done|by apply Hlg|by apply Hsp].
  - intros m Hin. split; [exact (Gm m Hin)|by apply Hm].
  - intros o Hin. split; [exact (Go o Hin)|by apply Ho].
Qed.
End Online.

(** C36.  Whatever statements fail and whichever confirmations get lost, no sequence of the
    store's calls on records named after their provider's keys leaves the tables without
    integrity: ids are unique and are the keys' names, statuses are allowed ones, every
    league's sport, event's league and sport, market's event and outcome's market is
    there, and no row disappears. *)
Theorem pg_odds_integrity ops w : Forall named_op ops -> pg_inv (w_st w) ->
  pg_inv (w_st (odds_run ops w)) /\ grows (w_st w) (w_st (odds_run ops w)).
Proof.
  intros Hops. revert w. induction Hops as [|op ops Hop _ IH]; intros w Hi.
  { split; [done|apply grows_refl]. }
  destruct (op_keeps op Hop w Hi) as [Hi' Hg]. destruct (IH (odds_call op w).2 Hi') as [? ?].
  split; [done|by eapply grows_trans].
Qed.

(** ** The service *)
Section Service.
Context {S : Type} `{LO : Lens S odds_db, LLO : !LensLaws LO}.
Context `{RH : RedisHash S, NC : NatsConn S}.
Context (publish_outside : forall subject p, outside (L := LO) (nats_Publish subject p)).
Context (exec_outside : forall cmds, outside (L := LO) (redis_Exec cmds)).
#[local] Existing Instance lens_OddsStore.

Definition tables_of (w : World S) : odds_db := part (L := LO) w.

(** C37.  While the database is reached, a snapshot that normalizes to records the columns
    take is applied completely, whatever Redis and the event bus answer: the tables keep
    their integrity, lose nothing, and hold exactly the snapshot's sports, leagues, events,
    markets and outcomes with the values of all of their columns, odds among them (of
    records with the same key the last), and at every other key the row they held before.
    The columns take an event only with a league and a sport, and only allowed statuses. *)
Theorem pg_snapshot_applied sv snap n w : online 0 -> NormalizeSnapshot snap = Ok n ->
  colon_free (sn_Provider snap) -> snapshot_taken n -> pg_inv (tables_of w) ->
  exists w', applySnapshot sv snap w = (Ok tt, w') /\ pg_inv (tables_of w') /\
    grows (tables_of w) (tables_of w') /\ all_stored n (tables_of w') /\
    writes (snapshot_records n) (tables_of w) (tables_of w').
Proof.
  intros Ho Hn Hc Ht Hi.
  exact (apply_snapshot_ok (IS := pg_integral Ho) publish_outside exec_outside sv snap n w Hn
    (taken_storable Ho snap n Hn Hc Ht) Hi).
Qed.
End Service.
End Props.

(** ** Witnesses, and where the two stores of the odds feed differ *)
Module OddsPgDemo.
Import Demo.

#[local] Instance sha1 : UuidSHA1 := { NewSHA1 s := "id-" +:+ s }.
#[local] Instance types : PgTypes := {
  numeric_in s := Some s;
  uuid_in s := Some s;
  jsonb_in md := Some None;
  timestamptz_in t := Some (t / 1000 * 1000);
}.
#[local] Instance odds_types : OddsPgTypes := {
  uuid_Parse s := inl s;
  jsonb_strings md := Some (Some (marshal (JObj (prod_map id JStr <$> map_to_list md))));
  text_less := string_ltb;
}.
Lemma laws : uuid_laws.
Proof.
  constructor; cbn; [|done|done]. intros x y [= H]. exact H.
Qed.
Lemma no_faults_online : online (F := no_faults) 0.
Proof. done. Qed.

#[local] Instance odds_lens : Lens odds_db odds_db := { lget s := s; lset t _ := t }.
#[local] Instance odds_laws : LensLaws odds_lens.
Proof. by constructor. Qed.
#[local] Instance redis : RedisHash odds_db :=
  { redis_Exec _ := mthrow (ErrNew "down"); redis_HGetAll _ := mthrow (ErrNew "down") }.
#[local] Instance nats : NatsConn odds_db := { nats_Publish _ _ := mthrow (ErrNew "down") }.
#[local] Existing Instance lens_OddsStore.

(** The second statement is lost, the confirmation of the third too. *)
Definition faults : SqlFaults := {|
  stmt_fault n := if decide (n = 1%nat) then Some "connection refused" else None;
  commit_fault n := if decide (n = 2%nat) then CommitLost "connection reset" else Committed;
|}.
Definition football (id : string) : Sport := mkSport id "azuro" "33" "football" "Football" 0 0.
Definition league (sport : string) : League :=
  mkLeague "id-azuro:league:l" "azuro" "l" sport "League" "Country" 0 0.
Definition calls : list odds_op :=
  [OpSport (football "id-azuro:sport:33"); OpLeague (league "id-azuro:sport:33");
   OpLeague (league "id-azuro:sport:33"); OpLeague (league "id-azuro:sport:34");
   OpOdds "azuro" "c:1" "2"].

Lemma pg_odds_integrity_witness :
  let db := w_st (odds_run (H := PGStore_OddsStore (F := faults)) calls (mkWorld 0 od_empty)) in
  pg_inv db /\ (length (od_sports db), lc_sport_id <$> (row_cols <$> od_leagues db)) =
    (1%nat, ["id-azuro:sport:33"]).
Proof.
  intros db. split; [|vm_compute; reflexivity].
  apply (pg_odds_integrity (F := faults) laws calls (mkWorld 0 od_empty)); [|apply odds_tables_empty].
  repeat constructor.
Defined.

Definition snapshot : Snapshot :=
  mkSnapshot "azuro" [mkSportSnapshot "33" "football" "Football"]
    [mkLeagueSnapshot "33:a:b" "33" "League" "Country"]
    [mkEventSnapshot "g1" "33:a:b" "33" "Home" "Away" "" "upcoming" "" "" "" {["k" := "v"]}]
    [mkMarketSnapshot "c1" "g1" "1" "Winner" "" "active" ∅]
    [mkOutcomeSnapshot "c1:1" "c1" "Home" "1.5" "active" ∅].
Definition normalized : Normalized :=
  match NormalizeSnapshot snapshot with Ok n => n | _ => mkNormalized [] [] [] [] [] end.
Definition service : OddsService odds_db := mkOddsService ∅ (Some 60) true.

Lemma snapshot_normalizes : NormalizeSnapshot snapshot = Ok normalized.
Proof. vm_compute. reflexivity. Qed.
Lemma normalized_taken : snapshot_taken normalized.
Proof.
  constructor; intros x Hx; apply list_elem_of_singleton in Hx as ->;
    repeat split; try discriminate; try (by eexists); apply (bool_decide_unpack _); vm_compute; exact I.
Qed.

Definition pg_home : Outcome :=
  mkOutcome (deterministicID "azuro" "outcome:c1:1") "azuro" "c1:1"
    (deterministicID "azuro" "market:c1") "Home" "1.5" "active" ∅ 0 0.
Lemma pg_home_last : last_of (ROutcome pg_home) (snapshot_records normalized).
Proof.
  vm_compute. eexists [_; _; _; _], []. split; [reflexivity|]. intros H. by apply elem_of_nil in H.
Qed.

(** The outcome's row is there with its odds. *)
Lemma pg_snapshot_applied_witness :
  exists w', applySnapshot (OS := lens_OddsStore (OS := PGStore_OddsStore (F := no_faults)))
      service snapshot (mkWorld 0 od_empty) = (Ok tt, w') /\
    all_stored normalized (w_st w') /\ holds (ROutcome pg_home) (w_st w').
Proof.
  destruct (pg_snapshot_applied (F := no_faults) (S := odds_db) laws
    ltac:(intros; by constructor) ltac:(intros; by constructor) service snapshot normalized
    (mkWorld 0 od_empty) no_faults_online snapshot_normalizes eq_refl normalized_taken
    odds_tables_empty) as (w' & H & _ & _ & Ha & Hw & _).
  exists w'. split; [exact H|]. split; [exact Ha|]. exact (Hw _ pg_home_last).
Defined.

(** An event of an unknown league normalizes, the in-memory store takes it, and in
    Postgres it fails the whole snapshot, whose sports stay. *)
Definition orphan : Snapshot :=
  mkSnapshot "azuro" [mkSportSnapshot "33" "football" "Football"] []
    [mkEventSnapshot "g1" "unknown" "33" "Home" "Away" "" "upcoming" "" "" "" ∅] [] [].
Theorem orphan_event_refused :
  let (r, w') := applySnapshot (OS := lens_OddsStore (OS := PGStore_OddsStore (F := no_faults)))
    service orphan (mkWorld 0 od_empty) in
  r = Err (ErrWrap "upsert event" (ErrWrap "upsert event" (ErrPg ForeignKeyViolation))) /\
  length (od_sports (w_st w')) = 1%nat.
Proof. vm_compute. split; reflexivity. Qed.

(** The status of an event that is not there: nothing to say for the one store, an error
    for the other. *)
Theorem unknown_event_status :
  (odds_UpdateEventStatus (OddsStore := PGStore_OddsStore (F := no_faults)) "azuro" "g" "live"
     (mkWorld 0 od_empty)).1 = Ok tt /\
  (odds_UpdateEventStatus (OddsStore := oddsMemory_OddsStore) "azuro" "g" "live"
     (mkWorld 0 NewOddsMemory)).1 = Err (ErrNew "update event status: not found").
Proof. vm_compute. split; reflexivity. Qed.
End OddsPgDemo.
