(* ===== verification/FeedProg.v ===== *)
(** * FeedProg: synchronisations and live updates as programs of calls

    [internal/oddsfeed/service.go] call by call: the mutex [syncMu], the providers, the store
    (each method is one statement, or runs under the store's mutex), Redis, NATS and the
    iteration over a map.  In one go the programs are the operations of OddsService. *)

From S2P Require Import Prelude GoStd GoJson TxProg OddsModels Normalizer OddsService.

Inductive feed_call : Type -> Type :=
| Lock : feed_call unit
| Unlock : feed_call unit
| FetchHierarchy (provider sport : string) (params : gmap string string) : feed_call Snapshot
| FetchSnapshot (provider sport : string) (params : gmap string string) : feed_call Snapshot
| FetchConditions (provider : string) (gameIDs : list string) : feed_call Snapshot
| GetEventStatuses (provider : string) : feed_call (gmap string string)
| UpsertSport (x : Sport) : feed_call string
| UpsertLeague (x : League) : feed_call string
| UpsertEvent (x : Event) : feed_call string
| UpsertMarket (x : Market) : feed_call string
| UpsertOutcome (x : Outcome) : feed_call string
| UpdateOutcomeOdds (provider id odds : string) : feed_call (string * string)
| UpdateMarketStatus (provider id status : string) : feed_call string
| UpdateOutcomeStatus (provider id status : string) : feed_call (string * string)
| RedisExec (cmds : list redis_cmd) : feed_call unit
| NatsPublish (subject data : string) : feed_call unit
| RangeLive (m : gmap string (list string)) : feed_call (list (string * list string)).

#[local] Abbreviation P := (calls feed_call).

Section Programs.
Context {S : Type} (sv : OddsService S).
Definition f_call {A} (c : feed_call A) : P A := c_call c.

Definition emit_prog (subject entityID : string) : P unit :=
  if osv_bus sv
  then c_ignore (c_wrapped "publish event"
         (f_call (NatsPublish subject (Marshal (JStr <$> ({["id" := entityID]} : gmap string string))))))
  else mret tt.

Definition cache_prog (cmds : Z -> list redis_cmd) : P unit :=
  match osv_cache sv with
  | Some ttl => c_ignore (f_call (RedisExec (cmds ttl)))
  | None => mret tt
  end.

(** The commands of cache.go. *)
Definition odds_cmds (marketID : string) (odds : gmap string string) (ttl : Z) : list redis_cmd :=
  let key := "oddsfeed:live:odds:" +:+ marketID in
  [HSet key odds; Expire key ttl].
Definition ids_cmds (sportID : string) (ids : list string) (ttl : Z) : list redis_cmd :=
  let key := "oddsfeed:live:events:" +:+ sportID in
  Del key :: (SAdd key <$> ids) ++ [Expire key ttl].

Section WithUuid.
Context `{E : GoEnv, U : UuidSHA1}.

Fixpoint events_prog (events : list Event) (liveBySport : gmap string (list string)) :
    P (gmap string (list string)) :=
  match events with
  | [] => mret liveBySport
  | e :: events =>
      id ← c_wrapped "upsert event" (f_call (UpsertEvent e));
      emit_prog "feed.event.updated" id;;
      events_prog events
        (if decide (event_Status e = "live" /\ event_SportID e <> "")
         then <[event_SportID e := default [] (liveBySport !! event_SportID e) ++ [id]]>
                liveBySport
         else liveBySport)
  end.

Definition hierarchy_prog (sports : list Sport) (leagues : list League) (events : list Event) :
    P unit :=
  c_for_each sports (fun sp =>
    id ← c_wrapped "upsert sport" (f_call (UpsertSport sp));
    emit_prog "feed.sport.updated" id);;
  c_for_each leagues (fun l =>
    id ← c_wrapped "upsert league" (f_call (UpsertLeague l));
    emit_prog "feed.league.updated" id);;
  liveBySport ← events_prog events ∅;
  match osv_cache sv with
  | None => mret tt
  | Some ttl =>
      lives ← f_call (RangeLive liveBySport);
      c_for_each lives (fun '(sportID, ids) => c_ignore (f_call (RedisExec (ids_cmds sportID ids ttl))))
  end.

Definition markets_prog (markets : list Market) (outcomes : list Outcome) : P unit :=
  c_for_each markets (fun m =>
    id ← c_wrapped "upsert market" (f_call (UpsertMarket m));
    emit_prog "feed.market.updated" id);;
  c_for_each outcomes (fun o =>
    id ← c_wrapped "upsert outcome" (f_call (UpsertOutcome o));
    cache_prog (odds_cmds (outcome_MarketID o) {[id := outcome_Odds o]});;
    emit_prog "feed.odds.changed" id).

Definition snapshot_prog (snap : Snapshot) : P unit :=
  n ← c_wrapped "normalize snapshot" (c_res (NormalizeSnapshot snap));
  hierarchy_prog (nz_sports n) (nz_leagues n) (nz_events n);;
  markets_prog (nz_markets n) (nz_outcomes n).

(** [s.syncMu.Lock(); defer s.syncMu.Unlock()] *)
Definition locked_prog {A} (body : P A) : P A :=
  f_call Lock;;
  r ← c_attempt body;
  f_call Unlock;;
  c_res r.

Definition sync_body (providerName : string) : P unit :=
  match osv_providers sv !! providerName with
  | None => mthrow (ErrNew ("unknown provider: " +:+ providerName))
  | Some _ =>
      hier ← c_wrapped "fetch hierarchy" (f_call (FetchHierarchy providerName "" ∅));
      n ← c_wrapped "normalize hierarchy" (c_res (NormalizeSnapshot hier));
      existingStatuses ← c_wrapped "get existing event statuses"
                           (f_call (GetEventStatuses providerName));
      hierarchy_prog (nz_sports n) (nz_leagues n) (nz_events n);;
      let changedIDs := changedEventIDs (nz_events n) existingStatuses in
      if decide (changedIDs = []) then mret tt
      else
        conds ← c_wrapped "fetch conditions" (f_call (FetchConditions providerName changedIDs));
        c ← c_wrapped "normalize conditions" (c_res (NormalizeSnapshot conds));
        markets_prog (nz_markets c) (nz_outcomes c)
  end.

Definition sync_live_body (providerName : string) : P unit :=
  match osv_providers sv !! providerName with
  | None => mthrow (ErrNew ("unknown provider: " +:+ providerName))
  | Some _ =>
      snap ← c_wrapped "fetch live snapshot"
        (f_call (FetchSnapshot providerName "" {["game_state" := "Live"]}));
      snapshot_prog snap
  end.

Definition update_prog (u : Update) : P unit :=
  if decide (up_Type u = "odds") then
    '(marketID, outcomeID) ← c_wrapped "apply odds update"
      (f_call (UpdateOutcomeOdds (up_Provider u) (up_EntityID u) (payload u "odds")));
    cache_prog (odds_cmds marketID {[outcomeID := payload u "odds"]});;
    emit_prog "feed.odds.changed" outcomeID
  else if decide (up_Type u = "status") then
    r ← c_attempt (f_call (UpdateMarketStatus (up_Provider u) (up_EntityID u) (payload u "status")));
    match r with
    | Ok marketID => emit_prog "feed.market.updated" marketID
    | _ =>
        '(marketID, outcomeID) ← c_wrapped "apply status update"
          (f_call (UpdateOutcomeStatus (up_Provider u) (up_EntityID u) (payload u "status")));
        emit_prog "feed.odds.changed" outcomeID
    end
  else mthrow (ErrNew ("unknown update type: " +:+ up_Type u)).

(** What the goroutines of the service do: the scheduler's and the first synchronisations,
    and the updates of the live workers. *)
Inductive feed_op : Type :=
| OpSync (provider : string)
| OpSyncLive (provider : string)
| OpUpdate (u : Update).
Definition feed_prog (op : feed_op) : P unit :=
  match op with
  | OpSync p => locked_prog (sync_body p)
  | OpSyncLive p => locked_prog (sync_live_body p)
  | OpUpdate u => update_prog u
  end.
End WithUuid.
End Programs.

(** ** In one go *)
Section Equal.
Context {S : Type} `{E : GoEnv, U : UuidSHA1, OS : OddsStore S, RH : RedisHash S, NC : NatsConn S}.
Context (sv : OddsService S).

(** A provider of the service. *)
Definition of_provider {A} (name : string) (f : FeedProvider S -> M S A) : M S A :=
  match osv_providers sv !! name with
  | Some p => f p
  | None => mthrow (ErrNew ("unknown provider: " +:+ name))
  end.

(** What a call does; a mutex that is free is taken and given back without a trace. *)
Definition feed_does B (c : feed_call B) : M S B :=
  match c with
  | Lock => mret tt
  | Unlock => mret tt
  | FetchHierarchy p sport params => of_provider p (fun p => fp_FetchHierarchy p sport params)
  | FetchSnapshot p sport params => of_provider p (fun p => fp_FetchSnapshot p sport params)
  | FetchConditions p ids => of_provider p (fun p => fp_FetchConditions p ids)
  | GetEventStatuses p => odds_GetEventStatusesByProvider p
  | UpsertSport x => odds_UpsertSport x
  | UpsertLeague x => odds_UpsertLeague x
  | UpsertEvent x => odds_UpsertEvent x
  | UpsertMarket x => odds_UpsertMarket x
  | UpsertOutcome x => odds_UpsertOutcome x
  | UpdateOutcomeOdds p i o => odds_UpdateOutcomeOdds p i o
  | UpdateMarketStatus p i st => odds_UpdateMarketStatus p i st
  | UpdateOutcomeStatus p i st => odds_UpdateOutcomeStatus p i st
  | RedisExec cmds => redis_Exec cmds
  | NatsPublish subject data => nats_Publish subject data
  | RangeLive m => range m
  end.

#[local] Abbreviation equals p m := (meq (perform feed_does p) m).
Create HintDb same_feed.
(** Both sides are built from the same calls, in the same order. *)
#[local] Ltac same_feed :=
  repeat first
    [ solve [auto 1 with same_feed nocore]
    | apply perform_attempt | apply perform_wrapped | apply perform_ignore
    | match goal with |- meq (perform _ (f_call ?c)) _ => exact (perform_call feed_does c) end
    | apply perform_bind; [|intros ?] | apply perform_for_each; intros ?
    | case_match | intros ?w; reflexivity ].

Lemma emit_same subject i : equals (emit_prog sv subject i) (maybeEmit sv subject i).
Proof. unfold emit_prog, maybeEmit, EventBus_Publish. same_feed. Qed.
Lemma cache_same m odds : equals (cache_prog sv (odds_cmds m odds))
  (maybeCache sv (fun ttl => Cache_SetLiveOdds ttl m odds)).
Proof. unfold cache_prog, maybeCache, Cache_SetLiveOdds. same_feed. Qed.
#[local] Hint Resolve emit_same cache_same : same_feed.
Lemma events_same es live : equals (events_prog sv es live) (apply_events sv es live).
Proof. revert live. induction es; intros live; cbn [events_prog apply_events]; same_feed. Qed.
#[local] Hint Resolve events_same : same_feed.
Lemma hierarchy_same sp ls es : equals (hierarchy_prog sv sp ls es) (applyHierarchy sv sp ls es).
Proof. unfold hierarchy_prog, applyHierarchy, Cache_SetLiveEventIDs. same_feed. Qed.
Lemma markets_same ms os : equals (markets_prog sv ms os) (applyMarkets sv ms os).
Proof. unfold markets_prog, applyMarkets. same_feed. Qed.
#[local] Hint Resolve hierarchy_same markets_same : same_feed.
Lemma snapshot_same snap : equals (snapshot_prog sv snap) (applySnapshot sv snap).
Proof. unfold snapshot_prog, applySnapshot. same_feed. Qed.
#[local] Hint Resolve snapshot_same : same_feed.
Lemma update_same u : equals (update_prog sv u) (ApplyUpdate sv u).
Proof. unfold update_prog, ApplyUpdate. same_feed. Qed.

Lemma fetched_same {A} p name (c : feed_call A) f : osv_providers sv !! name = Some p ->
  feed_does A c = of_provider name f -> equals (f_call c) (f p).
Proof.
  intros Hp Hc. etrans; [exact (perform_call feed_does c)|]. rewrite Hc. unfold of_provider.
  by rewrite Hp.
Qed.
Lemma locked_same {A} (p : P A) m : equals p m -> equals (locked_prog p) m.
Proof.
  intros H. transitivity (mret tt;; r ← attempt m; mret tt;; of_res r).
  - apply perform_bind; [exact (perform_call feed_does Lock)|]. intros _.
    apply perform_bind; [by apply perform_attempt|]. intros r.
    by apply perform_bind; [exact (perform_call feed_does Unlock)|].
  - intros w. unfold mbind, M_bind, mret, M_ret, attempt. by destruct (m w) as [[a|e|q] w'].
Qed.
Lemma sync_same name : equals (sync_body sv name) (SyncProvider sv name).
Proof.
  unfold sync_body, SyncProvider. destruct (osv_providers sv !! name) as [p|] eqn:Hp; [|same_feed].
  pose proof (fun ids => fetched_same p name (FetchConditions name ids)
    (fun p => fp_FetchConditions p ids) Hp eq_refl) as Hc.
  apply perform_bind; [|intros hier; same_feed; apply Hc].
  by apply perform_wrapped, (fetched_same p name _ (fun p => fp_FetchHierarchy p "" ∅)).
Qed.
Lemma sync_live_same name : equals (sync_live_body sv name) (SyncLiveProvider sv name).
Proof.
  unfold sync_live_body, SyncLiveProvider. destruct (osv_providers sv !! name) as [p|] eqn:Hp; [|same_feed].
  apply perform_bind; [|intros snap; same_feed].
  by apply perform_wrapped, (fetched_same p name _
    (fun p => fp_FetchSnapshot p "" {["game_state" := "Live"]})).
Qed.

(** The programs are the operations of the service: performed in one go each answers and
    leaves the same, over every store, provider, cache and bus. *)
Lemma feed_programs op : equals (feed_prog sv op)
  (match op with
   | OpSync name => SyncProvider sv name
   | OpSyncLive name => SyncLiveProvider sv name
   | OpUpdate u => ApplyUpdate sv u
   end).
Proof.
  destruct op as [name|name|u]; cbn [feed_prog].
  - apply locked_same, sync_same.
  - apply locked_same, sync_live_same.
  - apply update_same.
Qed.
End Equal.
