(* ===== verification/FeedConc.v ===== *)
(** * FeedConc: synchronisations and live updates side by side

    Any number of synchronisations and of live updates, interleaved call by call.  The mutex
    of the service lets one synchronisation in at a time; updates do not ask for it.  A call
    can fail without effect, or have its effect and lose its answer.  The history tells which
    goroutine made which call with which answer, and so who holds the mutex.

    The method: a program is safe if each of its calls keeps the store's invariant, loses no
    record and respects the mutex, whatever records the others add in between; safe programs
    keep the invariant together. *)

From S2P Require Import Prelude GoStd TxProg OddsModels OddsStore Normalizer OddsProps OddsService OddsSteps OddsIntegrity FeedProg.

(** ** Histories and the mutex *)
Inductive feed_event : Type :=
| Did {B : Type} (c : feed_call B) (r : res B).
#[local] Abbreviation history := (list (nat * feed_event)).
#[local] Abbreviation trace := (list feed_event).

Definition next_holder (o : option nat) (ev : nat * feed_event) : option nat :=
  let '(i, Did c _) := ev in
  match c with Lock => Some i | Unlock => None | _ => o end.
(** Who holds the mutex after a history. *)
Definition holder (h : history) : option nat := foldl next_holder None h.
(** What one goroutine did. *)
Definition own (i : nat) (h : history) : trace := (filter (fun ev => ev.1 = i) h).*2.

(** The calls that are made under the mutex. *)
Definition guarded {B} (c : feed_call B) : bool :=
  match c with
  | Lock | UpdateOutcomeOdds _ _ _ | UpdateMarketStatus _ _ _ | UpdateOutcomeStatus _ _ _
  | RedisExec _ | NatsPublish _ _ | RangeLive _ => false
  | _ => true
  end.
(** Whether goroutine [i] may make the call after the history [h]. *)
Definition allowed {B} (c : feed_call B) (i : nat) (h : history) : Prop :=
  match c with
  | Lock => holder h = None
  | c => guarded c = true -> holder h = Some i
  end.
Inductive lawful : history -> Prop :=
| lawful_nil : lawful []
| lawful_snoc h i B (c : feed_call B) r : lawful h -> allowed c i h -> lawful (h ++ [(i, Did c r)]).

Lemma holder_snoc h ev : holder (h ++ [ev]) = next_holder (holder h) ev.
Proof. unfold holder. by rewrite foldl_app. Qed.
Lemma own_snoc i h ev : own i (h ++ [(i, ev)]) = own i h ++ [ev].
Proof. unfold own. rewrite list.filter_app, filter_cons_True by done. by rewrite filter_nil, fmap_app. Qed.
Lemma own_other i j h ev : i <> j -> own i (h ++ [(j, ev)]) = own i h.
Proof.
  intros Hne. unfold own. rewrite list.filter_app, filter_cons_False by (cbn; congruence).
  by rewrite filter_nil, app_nil_r.
Qed.
Lemma own_elem i h ev : ev ∈ own i h -> (i, ev) ∈ h.
Proof.
  unfold own. intros ([j ev'] & -> & [Hj Hin]%list_elem_of_filter)%list_elem_of_fmap. cbn in *. by subst.
Qed.

Lemma lawful_allowed h1 i B (c : feed_call B) r h2 : lawful (h1 ++ (i, Did c r) :: h2) -> allowed c i h1.
Proof.
  remember (h1 ++ (i, Did c r) :: h2) as h eqn:Hh. intros Hl. revert h2 Hh.
  induction Hl as [|h j D d q Hl IH Ha]; intros h2 Hh; [by destruct h1|].
  destruct h2 as [|ev h2 _] using rev_ind.
  - apply app_inj_tail in Hh as [<- Hev].
    apply (f_equal (fun ev : nat * feed_event => let '(k, Did e _) := ev in allowed e k h)) in Hev.
    cbn in Hev. by rewrite <- Hev.
  - rewrite app_comm_cons, app_assoc in Hh. apply app_inj_tail in Hh as [Hh _]. by eapply IH.
Qed.

(** ** The machine *)
Record Feed (S : Type) : Type := mkFeed {
  fd_world : World S;
  fd_history : list (nat * feed_event);
  fd_threads : gmap nat (feed_op * calls feed_call unit);
}.
Arguments mkFeed {S} _ _ _.
Arguments fd_world {S} _.
Arguments fd_history {S} _.
Arguments fd_threads {S} _.

(** The mutex and the runtime always answer. *)
Definition may_fail {B} (c : feed_call B) : bool :=
  match c with Lock | Unlock | RangeLive _ => false | _ => true end.

#[export] Instance allowed_dec {B} (c : feed_call B) i h : Decision (allowed c i h).
Proof. destruct c; cbn; apply _. Defined.

Section Machine.
Context {S T : Type} `{LO : Lens S T, OT : OddsStore T}.
Context `{E : GoEnv, U : UuidSHA1, RH : RedisHash S, NC : NatsConn S}.
Context (sv : OddsService S).
#[local] Existing Instance lens_OddsStore.

Definition carried {B} (c : feed_call B) (f : fate) (w : World S) : res B * World S :=
  match if may_fail c then f else Answered with
  | Answered => feed_does sv B c w
  | AnswerLost e => (Err e, (feed_does sv B c w).2)
  | NotDone e => (Err e, w)
  end.

(** A goroutine waits at a [Lock] while the mutex is taken. *)
Definition waits {B} (c : feed_call B) (h : history) : bool :=
  match c with Lock => bool_decide (holder h <> None) | _ => false end.

(** The next call of a goroutine. *)
Definition advance (i : nat) (f : fate) (s : Feed S) : Feed S :=
  match fd_threads s !! i with
  | Some (op, Call c k) =>
      if waits c (fd_history s) then s
      else
        let (r, w) := carried c f (fd_world s) in
        mkFeed w (fd_history s ++ [(i, Did c r)]) (<[i := (op, k r)]> (fd_threads s))
  | _ => s
  end.
Definition start (i : nat) (op : feed_op) (s : Feed S) : Feed S :=
  mkFeed (fd_world s) (fd_history s) (<[i := (op, feed_prog sv op)]> (fd_threads s)).

Inductive fd_step (s : Feed S) : Feed S -> Prop :=
| fd_starts i op : fd_threads s !! i = None -> fd_step s (start i op s)
| fd_advances i f : fd_step s (advance i f s)
| fd_other w : part (L := LO) w = part (L := LO) (fd_world s) ->
    fd_step s (mkFeed w (fd_history s) (fd_threads s)).
End Machine.

(** ** What a store promises to goroutines that share it *)

(** Whatever is answered, the call keeps the invariant and every record. *)
Definition shared {T A} `{Records T} (inv : T -> Prop) (m : M T A) (s : T) (post : A -> T -> Prop) : Prop :=
  forall n, let (r, w) := m (mkWorld n s) in
    inv (w_st w) /\ grows s (w_st w) /\ forall a, r = Ok a -> post a (w_st w).
#[local] Abbreviation anything := (fun _ _ => True).

Class SharedStore (T : Type) `{E : GoEnv, U : UuidSHA1} {OS : OddsStore T} {RS : Records T} : Type := {
  sh_inv : T -> Prop;
  sh_upsert_sport : forall x s, sh_inv s -> good_sport x ->
    shared sh_inv (odds_UpsertSport x) s (fun _ => has_sport (sport_ID x));
  sh_upsert_league : forall x s, sh_inv s -> good_league x -> has_sport (league_SportID x) s ->
    shared sh_inv (odds_UpsertLeague x) s (fun _ => has_league (league_ID x));
  sh_upsert_event : forall x s, sh_inv s -> good_event x ->
    shared sh_inv (odds_UpsertEvent x) s (fun _ => has_event (event_ID x));
  sh_upsert_market : forall x s, sh_inv s -> good_market x -> has_event (market_EventID x) s ->
    shared sh_inv (odds_UpsertMarket x) s (fun _ => has_market (market_ID x));
  sh_upsert_outcome : forall x s, sh_inv s -> good_outcome x -> has_market (outcome_MarketID x) s ->
    shared sh_inv (odds_UpsertOutcome x) s anything;
  sh_outcome_odds : forall p i o s, sh_inv s -> shared sh_inv (odds_UpdateOutcomeOdds p i o) s anything;
  sh_market_status : forall p i st s, sh_inv s -> shared sh_inv (odds_UpdateMarketStatus p i st) s anything;
  sh_outcome_status : forall p i st s, sh_inv s -> shared sh_inv (odds_UpdateOutcomeStatus p i st) s anything;
  sh_statuses : forall p s, sh_inv s -> shared sh_inv (odds_GetEventStatusesByProvider p) s anything;
}.

Section Safety.
Context {S T : Type} `{LO : Lens S T, LLO : !LensLaws LO, OT : OddsStore T, RT : !Records T}.
Context `{E : GoEnv, U : UuidSHA1, SH : !SharedStore T, RH : RedisHash S, NC : NatsConn S}.
Context (sv : OddsService S).
#[local] Existing Instance lens_OddsStore.
#[local] Abbreviation store_of := (part (L := LO)).
Implicit Types (w : World S) (tr : trace) (s : T).

(** ** Safe programs: [l] says whether the goroutine holds the mutex. *)
Definition lock_after {B} (c : feed_call B) (l : bool) : bool :=
  match c with Lock => true | Unlock => false | _ => l end.
Definition respects {B} (c : feed_call B) (l : bool) : Prop :=
  match c with Lock => l = false | c => guarded c = true -> l = true end.

Fixpoint safe {A} (p : calls feed_call A) (Q : res A -> bool -> trace -> T -> Prop)
    (l : bool) (tr : trace) (s : T) : Prop :=
  match p with
  | Return r => Q r l tr s
  | Call c k => respects c l /\ forall w f, sh_inv (store_of w) -> grows s (store_of w) ->
      let (r, w') := carried sv c f w in
      sh_inv (store_of w') /\ grows (store_of w) (store_of w') /\
      safe (k r) Q (lock_after c l) (tr ++ [Did c r]) (store_of w')
  end.

Lemma feed_safe_weaken {A} (p : calls feed_call A) (Q Q' : res A -> bool -> trace -> T -> Prop) l tr s :
  safe p Q l tr s -> (forall r l tr s, Q r l tr s -> Q' r l tr s) -> safe p Q' l tr s.
Proof.
  intros Hp HQ. revert l tr s Hp. induction p as [r|B c k IH]; intros l tr s; cbn; [apply HQ|].
  intros [Hr H]. split; [done|]. intros w f Hi Hg. specialize (H w f Hi Hg).
  destruct (carried sv c f w) as [r w']. destruct H as (? & ? & ?). split_and!; [done|done|eauto].
Qed.
Lemma feed_safe_bind {A B} (p : calls feed_call A) (g : A -> calls feed_call B) Q l tr s :
  safe p (fun r l tr s => match r with
    | Ok a => safe (g a) Q l tr s | Err e => Q (Err e) l tr s | Panic m => Q (Panic m) l tr s end) l tr s ->
  safe (p ≫= g) Q l tr s.
Proof.
  revert l tr s. induction p as [[a|e|m]|C c k IH]; intros l tr s; cbn; try done.
  intros [Hr H]. split; [done|]. intros w f Hi Hg. specialize (H w f Hi Hg).
  destruct (carried sv c f w) as [r w']. destruct H as (? & ? & ?). split_and!; [done|done|by apply IH].
Qed.
Lemma feed_safe_end {A B} (g : res A -> res B) (p : calls feed_call A) Q l tr s :
  safe p (fun r => Q (g r)) l tr s -> safe (c_end g p) Q l tr s.
Proof.
  revert l tr s. induction p as [r|C c k IH]; intros l tr s; cbn; [done|].
  intros [Hr H]. split; [done|]. intros w f Hi Hg. specialize (H w f Hi Hg).
  destruct (carried sv c f w) as [r w']. destruct H as (? & ? & ?). split_and!; [done|done|by apply IH].
Qed.

(** ** Assertions that hold on as the trace and the store grow *)
#[local] Abbreviation assertion := (trace -> T -> Prop).
Definition stable (P : assertion) : Prop := forall tr tr' s s',
  tr `prefix_of` tr' -> grows s s' -> P tr s -> P tr' s'.
Lemma asserted_and P Q : stable P -> stable Q -> stable (fun tr s => P tr s /\ Q tr s).
Proof. intros HP HQ tr tr' s s' Ht Hs [? ?]. split; eauto. Qed.
Lemma stable_done ev : stable (fun tr _ => ev ∈ tr).
Proof. intros tr tr' s s' Ht _ H. by eapply elem_of_prefix. Qed.
Lemma stable_store (P : T -> Prop) : (forall s s', grows s s' -> P s -> P s') -> stable (fun _ => P).
Proof. intros HP tr tr' s s' _. apply HP. Qed.
Lemma asserted_all {A} (xs : list A) (P : A -> assertion) : (forall x, stable (P x)) ->
  stable (fun tr s => forall x, x ∈ xs -> P x tr s).
Proof. intros HP tr tr' s s' Ht Hs H x Hx. eapply HP; eauto. Qed.

(** From [P] the program is safe, leaves the mutex as it is, and answers only with [Q]. *)
Definition triple {A} (l : bool) (P : assertion) (p : calls feed_call A) (Q : A -> assertion) : Prop :=
  forall tr s, P tr s ->
  safe p (fun r l' tr' s' => l' = l /\ match r with Ok a => Q a tr' s' | _ => True end) l tr s.
(** The same for a program whose answer does not matter: it keeps [P]. *)
Definition quiet {A} (l : bool) (P : assertion) (p : calls feed_call A) : Prop :=
  forall tr s, P tr s -> safe p (fun _ l' tr' s' => l' = l /\ P tr' s') l tr s.

Lemma triple_ret {A} l P (a : A) : triple l P (mret a) (fun _ => P).
Proof. intros tr s HP. by split. Qed.
Lemma triple_res {A} l P (r : res A) : triple l P (c_res r) (fun a tr s => r = Ok a /\ P tr s).
Proof. intros tr s HP. split; [done|]. by destruct r. Qed.
Lemma triple_throw {A} l P (e : goerr) Q : triple l P (mthrow e : calls feed_call A) Q.
Proof. intros tr s HP. by split. Qed.
Lemma triple_weaken {A} l (P P' : assertion) (p : calls feed_call A) (Q Q' : A -> assertion) :
  triple l P p Q -> (forall tr s, P' tr s -> P tr s) -> (forall a tr s, Q a tr s -> Q' a tr s) ->
  triple l P' p Q'.
Proof.
  intros Hp H1 H2 tr s HP. eapply feed_safe_weaken; [by apply Hp, H1|].
  intros [a|e|m] l' tr' s' [-> HQ]; auto.
Qed.
Lemma triple_bind {A B} l P Q R (p : calls feed_call A) (g : A -> calls feed_call B) :
  triple l P p Q -> (forall a, triple l (Q a) (g a) R) -> triple l P (p ≫= g) R.
Proof.
  intros Hp Hg tr s HP. apply feed_safe_bind. eapply feed_safe_weaken; [by apply Hp|].
  intros [a|e|m] l' tr' s' [-> HQ]; [by apply Hg|done..].
Qed.
Lemma triple_wrapped {A} l P (p : calls feed_call A) Q what :
  triple l P p Q -> triple l P (c_wrapped what p) Q.
Proof.
  intros Hp tr s HP. apply feed_safe_end. eapply feed_safe_weaken; [by apply Hp|].
  intros [a|e|m] l' tr' s' [-> HQ]; by split.
Qed.
Lemma quiet_triple {A} l P (p : calls feed_call A) : quiet l P p -> triple l P p (fun _ => P).
Proof.
  intros Hp tr s HP. eapply feed_safe_weaken; [by apply Hp|]. intros [a|e|m] l' tr' s' [-> HQ]; by split.
Qed.
Lemma quiet_attempt {A} l P (p : calls feed_call A) : quiet l P p -> quiet l P (c_attempt p).
Proof. intros Hp tr s HP. apply feed_safe_end. by apply Hp. Qed.
Lemma quiet_wrapped {A} l P (p : calls feed_call A) what : quiet l P p -> quiet l P (c_wrapped what p).
Proof. intros Hp tr s HP. apply feed_safe_end. by apply Hp. Qed.
Lemma quiet_ignore {A} l P (p : calls feed_call A) : quiet l P p -> quiet l P (c_ignore p).
Proof.
  intros Hp tr s HP. apply feed_safe_bind. eapply feed_safe_weaken; [by apply quiet_attempt, HP|].
  by intros [a|e|m] l' tr' s' [-> HQ].
Qed.
(** What holds on through growth holds after a program too. *)
Lemma safe_frame {A} (p : calls feed_call A) Q (R : assertion) l tr s : stable R -> R tr s ->
  safe p Q l tr s -> safe p (fun r l' tr' s' => Q r l' tr' s' /\ R tr' s') l tr s.
Proof.
  intros HR. revert l tr s. induction p as [r|B c k IH]; intros l tr s H; cbn; [by split|].
  intros [Hr Hc]. split; [done|]. intros w f Hi Hg. specialize (Hc w f Hi Hg).
  destruct (carried sv c f w) as [r w']. destruct Hc as (Hi' & Hg' & Hc). split_and!; [done..|].
  apply IH; [|done]. eapply HR; [by eexists|by eapply grows_trans|done].
Qed.
Lemma triple_frame {A} l P (p : calls feed_call A) Q R : stable R -> triple l P p Q ->
  triple l (fun tr s => P tr s /\ R tr s) p (fun a tr s => Q a tr s /\ R tr s).
Proof.
  intros HR Hp tr s [HP H]. eapply feed_safe_weaken; [eapply (safe_frame _ _ R _ _ _ HR H), Hp, HP|].
  cbn. intros [a|e|m] l' tr' s' [[-> HQ] H']; by split.
Qed.
Lemma triple_keep {A} l P (p : calls feed_call A) Q : stable P -> triple l P p Q ->
  triple l P p (fun a tr s => Q a tr s /\ P tr s).
Proof. intros HP Hp. eapply triple_weaken; [exact (triple_frame _ _ _ _ P HP Hp)|by split|done]. Qed.
Lemma triple_for_each {A} l (xs : list A) (body : A -> calls feed_call unit) P Q :
  stable P -> (forall x, stable (Q x)) -> (forall x, x ∈ xs -> triple l P (body x) (fun _ => Q x)) ->
  triple l P (c_for_each xs body) (fun _ tr s => P tr s /\ forall x, x ∈ xs -> Q x tr s).
Proof.
  intros HP HQ. induction xs as [|x xs IH]; intros Hb; cbn [c_for_each].
  - intros tr s H. split_and!; [done|done|]. by intros x Hx%elem_of_nil.
  - eapply triple_bind; [by apply triple_keep; [|apply Hb; left]|]. intros [].
    eapply triple_weaken; [eapply (triple_frame _ P _ _ (Q x) (HQ x)), IH|..].
    + intros y Hy. apply Hb. by right.
    + by intros tr s [? ?].
    + intros _ tr s [[H1 H2] H3]. split; [done|]. by intros y [->|Hy]%elem_of_cons; [|apply H2].
Qed.

(** ** The calls *)

(** One call, whatever becomes of it. *)
Lemma triple_call {B} l P (c : feed_call B) (post : B -> T -> Prop) :
  stable P -> respects c l -> lock_after c l = l ->
  (forall w tr, sh_inv (store_of w) -> P tr (store_of w) -> let (r, w') := feed_does sv B c w in
     sh_inv (store_of w') /\ grows (store_of w) (store_of w') /\
     forall a, r = Ok a -> post a (store_of w')) ->
  triple l P (f_call c) (fun a tr s => (P tr s /\ Did c (Ok a) ∈ tr) /\ post a s).
Proof.
  intros HP Hr Hl Hc tr s H. split; [done|]. intros w f Hi Hg. rewrite Hl.
  assert (P tr (store_of w)) as Hw by (by eapply HP; [reflexivity|..]).
  specialize (Hc w tr Hi Hw). unfold carried. destruct (feed_does sv B c w) as [r w'].
  destruct Hc as (Hi' & Hg' & Hpost).
  destruct (if may_fail c then f else Answered) as [|e|e]; cbn [snd safe].
  - split_and!; [done..|]. destruct r as [a|e|m]; try done. split_and!; [| |by apply Hpost].
    + eapply HP; [by eexists|done|done].
    + rewrite elem_of_app, list_elem_of_singleton. by right.
  - by split_and!.
  - split_and!; [done|apply grows_refl|done|done].
Qed.

(** A call that does not touch the store. *)
Lemma quiet_call {B} l P (c : feed_call B) : stable P -> respects c l -> lock_after c l = l ->
  outside (L := LO) (feed_does sv B c) -> quiet l P (f_call c).
Proof.
  intros HP Hr Hl Ho tr s H. split; [done|]. intros w f Hi Hg. rewrite Hl.
  assert (store_of (carried sv c f w).2 = store_of w) as Hw.
  { unfold carried. destruct (if may_fail c then f else Answered); cbn; [by apply Ho..|done]. }
  destruct (carried sv c f w) as [r w']. cbn [snd safe] in *. rewrite Hw.
  split_and!; [done|apply grows_refl|done|]. eapply HP; [by eexists|done|done].
Qed.

(** A call of the store. *)
Lemma zoom_shared {A} (m : M T A) s post w : shared sh_inv m s post -> store_of w = s ->
  let (r, w') := zoom m w in
  sh_inv (store_of w') /\ grows (store_of w) (store_of w') /\ forall a, r = Ok a -> post a (store_of w').
Proof.
  intros Hm Hs. unfold zoom. change (lget (w_st w)) with (store_of w). rewrite Hs.
  specialize (Hm (w_tick w)). destruct (m _) as [r w']. unfold part. cbn [w_st].
  by rewrite !lget_lset.
Qed.
Lemma triple_store {B} l P (c : feed_call B) (m : M T B) (post : B -> T -> Prop) :
  stable P -> respects c l -> lock_after c l = l -> feed_does sv B c = zoom m ->
  (forall tr s, sh_inv s -> P tr s -> shared sh_inv m s post) ->
  triple l P (f_call c) (fun a tr s => (P tr s /\ Did c (Ok a) ∈ tr) /\ post a s).
Proof.
  intros HP Hr Hl Hc Hm. apply triple_call; [done..|]. intros w tr Hi H. rewrite Hc.
  apply (zoom_shared m (store_of w)); [by eapply Hm|done].
Qed.
End Safety.
