(* ===== verification/FeedConcSafe.v ===== *)
(** * FeedConcSafe: every synchronisation and update is safe

    The programs of FeedProg respect the mutex and keep the store's invariant, whatever the
    others do between their calls, and a synchronisation that answers has stored what it
    fetched. *)

From S2P Require Import Prelude GoStd TxProg OddsModels OddsStore Normalizer OddsProps OddsService WalletService OddsSteps OddsIntegrity FeedProg FeedConc.

#[local] Abbreviation trace := (list feed_event).

Section Programs.
Context {S T : Type} `{LO : Lens S T, LLO : !LensLaws LO, OT : OddsStore T, RT : !Records T}.
Context `{E : GoEnv, U : UuidSHA1, SH : !SharedStore T, RH : RedisHash S, NC : NatsConn S}.
#[local] Existing Instance lens_OddsStore.
#[local] Abbreviation store_of := (part (L := LO)).
#[local] Abbreviation assertion := (trace -> T -> Prop).

(** A call that leaves the store alone. *)
Definition untouched {A} (m : M S A) : Prop := forall w, store_of (m w).2 = store_of w.

(** ** What a provider promises

    It leaves the store alone, puts its name on what it fetches, and asked for the conditions
    of events of its hierarchy it answers markets of such events. *)
Record honest (name : string) (p : FeedProvider S) : Prop := {
  ho_colon : colon_free name;
  ho_hierarchy_outside : untouched (fp_FetchHierarchy p "" ∅);
  ho_snapshot_outside : untouched (fp_FetchSnapshot p "" {["game_state" := "Live"]});
  ho_conditions_outside : forall ids, untouched (fp_FetchConditions p ids);
  ho_hierarchy : forall w hier, (fp_FetchHierarchy p "" ∅ w).1 = Ok hier -> sn_Provider hier = name;
  ho_snapshot : forall w snap, (fp_FetchSnapshot p "" {["game_state" := "Live"]} w).1 = Ok snap ->
    sn_Provider snap = name;
  ho_conditions : forall w hier ids w' conds, (fp_FetchHierarchy p "" ∅ w).1 = Ok hier ->
    ids <> [] -> (forall id, id ∈ ids -> id ∈ es_ProviderID <$> sn_Events hier) ->
    (fp_FetchConditions p ids w').1 = Ok conds ->
    sn_Provider conds = name /\
    forall m, m ∈ sn_Markets conds -> mks_EventID m ∈ es_ProviderID <$> sn_Events hier;
}.

Context (sv : OddsService S).
Context (publish_outside : forall subject p, outside (L := LO) (nats_Publish subject p)).
Context (exec_outside : forall cmds, outside (L := LO) (redis_Exec cmds)).
Context (all_honest : forall name p, osv_providers sv !! name = Some p -> honest name p).
#[local] Abbreviation triple := (triple (LO := LO) sv).
#[local] Abbreviation quiet := (quiet (LO := LO) sv).
#[local] Abbreviation safe := (safe (LO := LO) sv).

(** ** Notifications *)
Lemma quiet_ret {A} l P (a : A) : quiet l P (mret a).
Proof. intros tr s HP. by split. Qed.
Lemma emit_quiet l P subject i : stable P -> quiet l P (emit_prog sv subject i).
Proof.
  intros HP. unfold emit_prog. destruct (osv_bus sv); [|apply quiet_ret].
  apply quiet_ignore, quiet_wrapped, quiet_call; [done..|]. apply publish_outside.
Qed.
Lemma cache_quiet l P cmds : stable P -> quiet l P (cache_prog sv cmds).
Proof.
  intros HP. unfold cache_prog. destruct (osv_cache sv); [|apply quiet_ret].
  apply quiet_ignore, quiet_call; [done..|]. apply exec_outside.
Qed.

(** ** Upserts *)
Lemma upsert_emit (c : feed_call string) m (post : T -> Prop) subject what P :
  stable P -> (forall s s', grows s s' -> post s -> post s') ->
  respects c true -> lock_after c true = true -> feed_does sv _ c = zoom m ->
  (forall tr s, sh_inv s -> P tr s -> shared sh_inv m s (fun _ => post)) ->
  triple true P (id ← c_wrapped what (f_call c); emit_prog sv subject id) (fun _ _ => post).
Proof.
  intros HP Hpost Hr Hl Hc Hm. eapply triple_bind.
  - apply triple_wrapped. eapply triple_weaken; [by apply (triple_store sv true P c m (fun _ => post))|done|].
    intros a tr s H. exact (proj2 H).
  - intros id. by apply quiet_triple, emit_quiet, stable_store.
Qed.

Lemma has_event_grows i (s s' : T) : grows s s' -> has_event i s -> has_event i s'.
Proof. intros []. auto. Qed.
Lemma has_market_grows i (s s' : T) : grows s s' -> has_market i s -> has_market i s'.
Proof. intros []. auto. Qed.
Lemma has_league_grows i (s s' : T) : grows s s' -> has_league i s -> has_league i s'.
Proof. intros []. auto. Qed.
Lemma has_sport_grows i (s s' : T) : grows s s' -> has_sport i s -> has_sport i s'.
Proof. intros []. auto. Qed.
#[local] Hint Resolve has_event_grows has_market_grows has_league_grows has_sport_grows : core.

Definition events_stored (es : list Event) (s : T) : Prop := forall e, e ∈ es -> has_event (event_ID e) s.
Definition markets_stored (ms : list Market) (s : T) : Prop := forall m, m ∈ ms -> has_market (market_ID m) s.

Lemma events_triple (P : assertion) es live : stable P -> (forall e, e ∈ es -> good_event e) ->
  triple true P (events_prog sv es live) (fun _ tr s => P tr s /\ events_stored es s).
Proof.
  revert live P. induction es as [|e es IH]; intros live P HP Hg; cbn [events_prog].
  - intros tr s H. split_and!; [done|done|]. by intros x Hx%elem_of_nil.
  - eapply triple_bind.
    + apply triple_keep; [done|]. apply triple_wrapped.
      eapply triple_weaken; [eapply (triple_store sv true P (UpsertEvent e) (odds_UpsertEvent e)
        (fun _ => has_event (event_ID e))); try done|done|intros a tr s H; exact (proj2 H)].
      intros tr s Hi _. apply sh_upsert_event; [done|]. apply Hg. by left.
    + intros id. eapply triple_bind with (Q := fun _ tr s => P tr s /\ has_event (event_ID e) s).
      { apply (triple_weaken sv true (fun tr s => P tr s /\ has_event (event_ID e) s) _ _
          (fun _ tr s => P tr s /\ has_event (event_ID e) s)); [|intros tr s [H1 H2]; by split|done].
        apply quiet_triple, emit_quiet, asserted_and; [done|apply stable_store, has_event_grows]. }
      intros _. eapply triple_weaken; [apply (IH _ (fun tr s => P tr s /\ has_event (event_ID e) s))|..].
      * apply asserted_and; [done|apply stable_store, has_event_grows].
      * intros x Hx. apply Hg. by right.
      * done.
      * intros a tr s [[H1 H2] H3]. split; [done|]. by intros x [->|Hx]%elem_of_cons; [|apply H3].
Qed.

(** A loop of upserts. *)
Lemma upserts_triple {A} (xs : list A) (c : A -> feed_call string) (m : A -> M T string)
    (post : A -> T -> Prop) subject what P :
  stable P -> (forall x s s', grows s s' -> post x s -> post x s') ->
  (forall x, respects (c x) true /\ lock_after (c x) true = true /\ feed_does sv _ (c x) = zoom (m x)) ->
  (forall x tr s, x ∈ xs -> sh_inv s -> P tr s -> shared sh_inv (m x) s (fun _ => post x)) ->
  triple true P (c_for_each xs (fun x =>
      id ← c_wrapped what (f_call (c x)); emit_prog sv subject id))
    (fun _ tr s => P tr s /\ forall x, x ∈ xs -> post x s).
Proof.
  intros HP Hpost Hc Hm. apply (triple_for_each sv true xs _ P (fun x _ => post x)); [done| |].
  - intros x. apply stable_store, Hpost.
  - intros x Hx. destruct (Hc x) as (? & ? & ?).
    apply (upsert_emit (c x) (m x)); [done|apply Hpost|done..|]. intros tr s. by apply Hm.
Qed.

Record good_records (n : Normalized) : Prop := {
  gd_sports : forall x, x ∈ nz_sports n -> good_sport x;
  gd_leagues : forall x, x ∈ nz_leagues n -> good_league x;
  gd_events : forall x, x ∈ nz_events n -> good_event x;
  gd_markets : forall x, x ∈ nz_markets n -> good_market x;
  gd_outcomes : forall x, x ∈ nz_outcomes n -> good_outcome x;
}.
Lemma normalized_records snap n : NormalizeSnapshot snap = Ok n -> colon_free (sn_Provider snap) ->
  good_records n.
Proof. intros Hn Hc. by destruct (normalized_good snap n Hn Hc) as (? & ? & ? & ? & ?). Qed.

Definition hierarchy_stored (n : Normalized) (s : T) : Prop :=
  parents_stored n s /\ events_stored (nz_events n) s.
Lemma hierarchy_stored_grows n s s' : grows s s' -> hierarchy_stored n s -> hierarchy_stored n s'.
Proof. intros Hg [[H1 H2] H3]. split; [split|]; intros x Hx; eauto. Qed.
Lemma markets_stored_grows ms s s' : grows s s' -> markets_stored ms s -> markets_stored ms s'.
Proof. intros Hg H x Hx. eauto. Qed.

Lemma hierarchy_triple P n : stable P -> integral n -> good_records n ->
  triple true P (hierarchy_prog sv (nz_sports n) (nz_leagues n) (nz_events n))
    (fun _ tr s => P tr s /\ hierarchy_stored n s).
Proof.
  intros HP (Il & _) Hn. unfold hierarchy_prog.
  set (P1 := fun tr s => P tr s /\ forall x, x ∈ nz_sports n -> has_sport (sport_ID x) s).
  assert (stable P1) as HP1.
  { apply asserted_and; [done|]. apply asserted_all. intros x. apply stable_store, has_sport_grows. }
  set (P2 := fun tr s => P1 tr s /\ forall x, x ∈ nz_leagues n -> has_league (league_ID x) s).
  assert (stable P2) as HP2.
  { apply asserted_and; [done|]. apply asserted_all. intros x. apply stable_store, has_league_grows. }
  eapply triple_bind with (Q := fun _ => P1).
  { apply (upserts_triple _ UpsertSport odds_UpsertSport (fun x => has_sport (sport_ID x)));
      [done|by eauto|done|]. intros x tr s Hx Hi _. by apply sh_upsert_sport, (gd_sports _ Hn). }
  intros _. eapply triple_bind with (Q := fun _ => P2).
  { apply (upserts_triple _ UpsertLeague odds_UpsertLeague (fun x => has_league (league_ID x)));
      [done|by eauto|done|]. intros x tr s Hx Hi [_ Hs]. apply sh_upsert_league; [done|by apply (gd_leagues _ Hn)|].
    destruct (Il x Hx) as (sp & Hsp & <-). by apply Hs. }
  intros _. eapply triple_bind with (Q := fun _ tr s => P2 tr s /\ events_stored (nz_events n) s).
  { apply events_triple; [done|apply Hn]. }
  set (P3 := fun tr s => P tr s /\ hierarchy_stored n s).
  assert (stable P3) as HP3.
  { apply asserted_and; [done|]. apply stable_store, hierarchy_stored_grows. }
  intros live. apply (triple_weaken sv true P3 _ _ (fun _ => P3)); [|by intros tr s [[[? ?] ?] ?]|done].
  destruct (osv_cache sv) as [ttl|]; [|apply triple_ret]. eapply triple_bind.
  { apply quiet_triple, quiet_call; [done..|]. cbn [feed_does]. unfold range. apply outside_tick_op. }
  intros lives. apply (triple_weaken sv true P3 _ _ (fun _ tr s => P3 tr s /\ forall x, x ∈ lives -> True)
    (fun _ => P3)); [|done|by intros a tr s [? _]].
  apply (triple_for_each sv true lives _ P3 (fun _ _ _ => True)); [done..|]. intros [sportID ids] _.
  apply (triple_weaken sv true P3 P3 _ (fun _ => P3)); [|done..].
  apply quiet_triple, quiet_ignore, quiet_call; [done..|]. apply exec_outside.
Qed.

Lemma markets_triple P ms os : stable P -> (forall m, m ∈ ms -> good_market m) ->
  (forall o, o ∈ os -> good_outcome o /\ exists m, m ∈ ms /\ market_ID m = outcome_MarketID o) ->
  (forall tr s m, P tr s -> m ∈ ms -> has_event (market_EventID m) s) ->
  triple true P (markets_prog sv ms os) (fun _ tr s => P tr s /\ markets_stored ms s).
Proof.
  intros HP Hg Ho He. unfold markets_prog.
  set (P1 := fun tr s => P tr s /\ markets_stored ms s).
  assert (stable P1) as HP1.
  { apply asserted_and; [done|]. apply stable_store, markets_stored_grows. }
  eapply triple_bind with (Q := fun _ => P1).
  { apply (upserts_triple _ UpsertMarket odds_UpsertMarket (fun x => has_market (market_ID x)));
      [done|by eauto|done|]. intros x tr s Hx Hi H. apply sh_upsert_market; [done|by apply Hg|by eapply He]. }
  intros _. apply (triple_weaken sv true P1 _ _ (fun _ tr s => P1 tr s /\ forall x, x ∈ os -> True)
    (fun _ => P1)); [|done|by intros a tr s [? _]].
  apply (triple_for_each sv true os _ P1 (fun _ _ _ => True)); [done..|]. intros o Hin.
  destruct (Ho o Hin) as (Hgo & m & Hm & Hid).
  apply (triple_weaken sv true P1 P1 _ (fun _ => P1)); [|done..].
  eapply triple_bind with (Q := fun _ => P1).
  { apply triple_wrapped. eapply triple_weaken;
      [apply (triple_store sv true P1 (UpsertOutcome o) (odds_UpsertOutcome o) (fun _ _ => True)); try done
      |done|intros a tr s H; exact (proj1 (proj1 H))].
    intros tr s Hi [_ Hms]. apply sh_upsert_outcome; [done..|]. rewrite <- Hid. by apply Hms. }
  intros id. eapply triple_bind with (Q := fun _ => P1); [by apply quiet_triple, cache_quiet|].
  intros _. by apply quiet_triple, emit_quiet.
Qed.

(** ** Synchronisations *)

(** A fetch: what is known of every answer. *)
Lemma fetch_triple {B} P (c : feed_call B) (Φ : B -> Prop) what : stable P ->
  respects c true -> lock_after c true = true -> untouched (feed_does sv B c) ->
  (forall w a, (feed_does sv B c w).1 = Ok a -> Φ a) ->
  triple true P (c_wrapped what (f_call c)) (fun a tr s => (P tr s /\ Did c (Ok a) ∈ tr) /\ Φ a).
Proof.
  intros HP Hr Hl Ho Ha. apply triple_wrapped.
  apply (triple_call sv true P c (fun a _ => Φ a)); [done..|]. intros w tr Hi _.
  pose proof (Ho w) as Hp. specialize (Ha w).
  destruct (feed_does sv B c w) as [r w']. cbn [fst snd] in *. rewrite Hp.
  split_and!; [done|apply grows_refl|]. intros a ->. by apply Ha.
Qed.
Lemma normalize_triple P snap what : triple true P (c_wrapped what (c_res (NormalizeSnapshot snap)))
  (fun n tr s => NormalizeSnapshot snap = Ok n /\ P tr s).
Proof. apply triple_wrapped, triple_res. Qed.

(** What a synchronisation has done when it answers. *)
Definition live_done (name : string) (tr : trace) (s : T) : Prop :=
  exists snap n, Did (FetchSnapshot name "" {["game_state" := "Live"]}) (Ok snap) ∈ tr /\
    NormalizeSnapshot snap = Ok n /\ hierarchy_stored n s /\ markets_stored (nz_markets n) s.
Definition conditions_done (name : string) (ids : list string) (tr : trace) (s : T) : Prop :=
  ids = [] \/ exists conds c, Did (FetchConditions name ids) (Ok conds) ∈ tr /\
    NormalizeSnapshot conds = Ok c /\ markets_stored (nz_markets c) s.
Definition sync_done (name : string) (tr : trace) (s : T) : Prop :=
  exists hier n existing, Did (FetchHierarchy name "" ∅) (Ok hier) ∈ tr /\
    NormalizeSnapshot hier = Ok n /\ Did (GetEventStatuses name) (Ok existing) ∈ tr /\
    hierarchy_stored n s /\ conditions_done name (changedEventIDs (nz_events n) existing) tr s.

Lemma stable_pure (P : Prop) : stable (fun _ _ => P).
Proof. by intros tr tr' s s' _ _. Qed.
Lemma live_done_stable name : stable (live_done name).
Proof.
  intros tr tr' s s' Ht Hg (snap & n & H1 & H2 & H3 & H4). exists snap, n.
  split_and!; [by eapply elem_of_prefix|done|by eapply hierarchy_stored_grows|by eapply markets_stored_grows].
Qed.
Lemma sync_done_stable name : stable (sync_done name).
Proof.
  intros tr tr' s s' Ht Hg (hier & n & ex & H1 & H2 & H3 & H4 & H5). exists hier, n, ex.
  split_and!; [by eapply elem_of_prefix|done|by eapply elem_of_prefix|by eapply hierarchy_stored_grows|].
  destruct H5 as [?|(conds & c & ? & ? & ?)]; [by left|right]. exists conds, c.
  split_and!; [by eapply elem_of_prefix|done|by eapply markets_stored_grows].
Qed.

(** A market of a normalized snapshot refers to an event of another with the same name that
    has an event of its provider's identifier. *)
Lemma market_event_of snap n hier nh m : NormalizeSnapshot snap = Ok n -> NormalizeSnapshot hier = Ok nh ->
  sn_Provider snap = sn_Provider hier ->
  (forall x, x ∈ sn_Markets snap -> mks_EventID x ∈ es_ProviderID <$> sn_Events hier) ->
  m ∈ nz_markets n -> exists e, e ∈ nz_events nh /\ event_ID e = market_EventID m.
Proof.
  intros Hn Hh Hp Hin Hm.
  apply NormalizeSnapshot_inv in Hn as (_ & _ & _ & Hms & _).
  apply NormalizeSnapshot_inv in Hh as (_ & _ & Hes & _).
  destruct (Forall2_In_r _ _ _ _ Hms Hm) as (x & Hx & Hnm).
  apply Hin, list_elem_of_fmap in Hx as (es & Hid & Hes').
  destruct (Forall2_In_l _ _ _ _ Hes Hes') as (e & He & Hne).
  exists e. split; [done|]. apply normalize_event_inv in Hne as [-> _].
  apply normalize_market_inv in Hnm as [(y & _ & Hy & ->)%assigned _]. by rewrite Hy, Hid, Hp.
Qed.
Lemma changed_of_hierarchy hier n existing id : NormalizeSnapshot hier = Ok n ->
  id ∈ changedEventIDs (nz_events n) existing -> id ∈ es_ProviderID <$> sn_Events hier.
Proof.
  intros Hn (e & -> & [_ He]%list_elem_of_filter)%list_elem_of_fmap.
  apply NormalizeSnapshot_inv in Hn as (_ & _ & Hes & _).
  destruct (Forall2_In_r _ _ _ _ Hes He) as (x & Hx & Hxe).
  apply list_elem_of_fmap. exists x. split; [|done]. unfold normalize_event in Hxe.
  destruct (parse_time "starts_at" _); cbn in Hxe; [|done|done].
  destruct (parse_time "score_updated_at" _); cbn in Hxe; [|done|done]. by injection Hxe as <-.
Qed.

Lemma triple_given {A} l (φ : Prop) (P P' : assertion) (p : calls feed_call A) Q :
  (forall tr s, P' tr s -> φ /\ P tr s) -> (φ -> triple l P p Q) -> triple l P' p Q.
Proof. intros HP Hp tr s H. destruct (HP tr s H) as [Hφ H']. by apply (Hp Hφ). Qed.

Section Provider.
Context (name : string) (p : FeedProvider S) (Hp : osv_providers sv !! name = Some p).

Lemma conditions_triple P hier n ids w0 : stable P -> (fp_FetchHierarchy p "" ∅ w0).1 = Ok hier ->
  NormalizeSnapshot hier = Ok n -> (forall id, id ∈ ids -> id ∈ es_ProviderID <$> sn_Events hier) ->
  (forall tr s, P tr s -> hierarchy_stored n s) ->
  triple true P
    (if decide (ids = []) then mret tt
     else
       conds ← c_wrapped "fetch conditions" (f_call (FetchConditions name ids));
       c ← c_wrapped "normalize conditions" (c_res (NormalizeSnapshot conds));
       markets_prog sv (nz_markets c) (nz_outcomes c))
    (fun _ tr s => P tr s /\ conditions_done name ids tr s).
Proof.
  intros HP Hw Hn Hids Hst. pose proof (all_honest name p Hp) as Hh.
  destruct (decide (ids = [])) as [Hnil|Hne].
  { intros tr s H. split_and!; [done|done|by left]. }
  assert (feed_does sv _ (FetchConditions name ids) = fp_FetchConditions p ids) as Hd
    by (cbn [feed_does]; unfold of_provider; by rewrite Hp).
  eapply triple_bind.
  { apply (fetch_triple P (FetchConditions name ids) (fun conds => sn_Provider conds = name /\
      forall m, m ∈ sn_Markets conds -> mks_EventID m ∈ es_ProviderID <$> sn_Events hier)); try done.
    - rewrite Hd. apply Hh.
    - intros w conds. rewrite Hd. by apply (ho_conditions _ _ Hh w0). }
  intros conds. eapply (triple_given _ _ (fun tr s => P tr s /\ Did (FetchConditions name ids) (Ok conds) ∈ tr)).
  { intros tr s H. exact (conj (proj2 H) (proj1 H)). }
  intros [Htag Hms]. eapply triple_bind; [apply normalize_triple|]. intros c.
  eapply triple_given; [intros tr s H; exact H|]. intros Hc.
  destruct (normalized_integral conds c Hc) as ((_ & _ & Io & _) & _).
  assert (good_records c) as Hg by (apply (normalized_records conds c Hc); rewrite Htag; apply Hh).
  eapply triple_weaken; [apply markets_triple|intros tr s H; exact H|].
  - apply asserted_and; [done|apply stable_done].
  - apply Hg.
  - intros o Ho. split; [by apply (gd_outcomes _ Hg)|]. by apply Io.
  - intros tr s m [H _] Hm. destruct (market_event_of conds c hier n m) as (e & He & <-); try done.
    + by rewrite Htag, (ho_hierarchy _ _ Hh w0 hier Hw).
    + by apply (proj2 (Hst tr s H)).
  - intros _ tr s [[H1 H2] H3]. split; [done|]. right. by exists conds, c.
Qed.

Lemma sync_triple : triple true (fun _ _ => True) (sync_body sv name) (fun _ => sync_done name).
Proof.
  pose proof (all_honest name p Hp) as Hh. unfold sync_body. rewrite Hp.
  assert (feed_does sv _ (FetchHierarchy name "" ∅) = fp_FetchHierarchy p "" ∅) as Hd
    by (cbn [feed_does]; unfold of_provider; by rewrite Hp).
  eapply triple_bind.
  { apply (fetch_triple _ (FetchHierarchy name "" ∅)
      (fun hier => exists w0, (fp_FetchHierarchy p "" ∅ w0).1 = Ok hier)); try done.
    - rewrite Hd. apply Hh.
    - intros w hier. rewrite Hd. by exists w. }
  intros hier. eapply (triple_given _ _ (fun tr s => True /\ Did (FetchHierarchy name "" ∅) (Ok hier) ∈ tr)).
  { intros tr s H. exact (conj (proj2 H) (proj1 H)). }
  intros [w0 Hw0]. pose proof (ho_hierarchy _ _ Hh w0 hier Hw0) as Htag.
  eapply triple_bind; [apply normalize_triple|]. intros n.
  eapply triple_given; [intros tr s H; exact H|]. intros Hn.
  destruct (normalized_integral hier n Hn) as [Hint _].
  assert (good_records n) as Hg by (apply (normalized_records hier n Hn); rewrite Htag; apply Hh).
  eapply triple_bind.
  { apply triple_wrapped, (triple_store sv true _ (GetEventStatuses name)
      (odds_GetEventStatusesByProvider name) (fun _ _ => True)); try done.
    - apply asserted_and; [done|apply stable_done].
    - intros tr s Hi _. by apply sh_statuses. }
  intros existing. set (P := fun (tr : trace) (s : T) => Did (FetchHierarchy name "" ∅) (Ok hier) ∈ tr /\
    Did (GetEventStatuses name) (Ok existing) ∈ tr).
  assert (stable P) as HP by (apply asserted_and; apply stable_done).
  apply (triple_weaken sv true P _ _ (fun _ => sync_done name)); [|by intros tr s [[[_ ?] ?] _]|done].
  eapply triple_bind; [by apply hierarchy_triple|]. intros [].
  set (P' := fun tr s => P tr s /\ hierarchy_stored n s).
  assert (stable P') as HP' by (apply asserted_and; [done|apply stable_store, hierarchy_stored_grows]).
  eapply triple_weaken; [apply (conditions_triple P' hier n _ w0); try done|intros tr s H; exact H|].
  - intros id. by apply changed_of_hierarchy.
  - by intros tr s [_ H].
  - intros _ tr s [[[H1 H2] H3] H4]. by exists hier, n, existing.
Qed.

Lemma sync_live_triple : triple true (fun _ _ => True) (sync_live_body sv name) (fun _ => live_done name).
Proof.
  pose proof (all_honest name p Hp) as Hh. unfold sync_live_body. rewrite Hp.
  set (c := FetchSnapshot name "" {["game_state" := "Live"]}).
  assert (feed_does sv _ c = fp_FetchSnapshot p "" {["game_state" := "Live"]}) as Hd
    by (cbn [feed_does c]; unfold of_provider; by rewrite Hp).
  eapply triple_bind.
  { apply (fetch_triple _ c (fun snap => sn_Provider snap = name)); try done.
    - rewrite Hd. apply Hh.
    - intros w snap. rewrite Hd. apply Hh. }
  intros snap. eapply (triple_given _ _ (fun tr s => True /\ Did c (Ok snap) ∈ tr)).
  { intros tr s H. exact (conj (proj2 H) (proj1 H)). }
  intros Htag. unfold snapshot_prog. eapply triple_bind; [apply normalize_triple|]. intros n.
  eapply triple_given; [intros tr s H; exact H|]. intros Hn.
  destruct (normalized_integral snap n Hn) as [Hint _].
  assert (good_records n) as Hg by (apply (normalized_records snap n Hn); rewrite Htag; apply Hh).
  eapply triple_bind; [apply hierarchy_triple; [|done..]|].
  { apply asserted_and; [done|apply stable_done]. }
  intros []. destruct Hint as (_ & Im & Io & _).
  eapply triple_weaken; [apply markets_triple|intros tr s H; exact H|].
  - apply asserted_and; [apply asserted_and; [done|apply stable_done]|apply stable_store, hierarchy_stored_grows].
  - apply Hg.
  - intros o Ho. split; [by apply (gd_outcomes _ Hg)|]. by apply Io.
  - intros tr s m [_ [_ He]] Hm. destruct (Im m Hm) as (e & Hin & <-). by apply He.
  - intros _ tr s [[[_ H1] H2] H3]. by exists snap, n.
Qed.
End Provider.

(** ** Updates, which ask nothing of the trace or the store *)
#[local] Abbreviation top := (fun (_ : trace) (_ : T) => True).
Lemma feed_safe_quiet {A} l (p : calls feed_call A) Q : triple l top p Q -> quiet l top p.
Proof. intros Hp tr s _. eapply feed_safe_weaken; [by apply Hp|]. by intros r l' tr' s' [-> _]. Qed.
Lemma quiet_bind {A B} l (p : calls feed_call A) (g : A -> calls feed_call B) :
  quiet l top p -> (forall a, quiet l top (g a)) -> quiet l top (p ≫= g).
Proof.
  intros Hp Hg tr s _. apply feed_safe_bind. eapply feed_safe_weaken; [by apply Hp|].
  intros [a|e|m] l' tr' s' [-> _]; [by apply Hg|done..].
Qed.
Lemma quiet_store {B} (c : feed_call B) (m : M T B) : respects c false -> lock_after c false = false ->
  feed_does sv B c = zoom m -> (forall s, sh_inv s -> shared sh_inv m s (fun _ _ => True)) ->
  quiet false top (f_call c).
Proof.
  intros Hr Hl Hc Hm. eapply feed_safe_quiet, (triple_store sv false top c m (fun _ _ => True)); try done.
  intros tr s Hi _. by apply Hm.
Qed.

Lemma update_quiet u : quiet false top (update_prog sv u).
Proof.
  unfold update_prog. case_decide; [|case_decide; [|by intros tr s _]].
  - apply quiet_bind.
    { apply quiet_wrapped, (quiet_store _ (odds_UpdateOutcomeOdds (up_Provider u) (up_EntityID u)
        (payload u "odds"))); try done. intros s. apply sh_outcome_odds. }
    intros [m o]. apply quiet_bind; [by apply cache_quiet|]. intros _. by apply emit_quiet.
  - apply quiet_bind.
    { apply quiet_attempt, (quiet_store _ (odds_UpdateMarketStatus (up_Provider u) (up_EntityID u)
        (payload u "status"))); try done. intros s. apply sh_market_status. }
    intros [m|e|q]; [by apply emit_quiet|..]; apply quiet_bind.
    all: try (intros [m o]; by apply emit_quiet).
    all: apply quiet_wrapped, (quiet_store _ (odds_UpdateOutcomeStatus (up_Provider u) (up_EntityID u)
        (payload u "status"))); try done; intros s; apply sh_outcome_status.
Qed.

(** ** Whole operations *)

(** What holds when an operation has ended: the mutex is not held, and an answer was earned. *)
Definition op_done (op : feed_op) : assertion :=
  match op with
  | OpSync name => sync_done name
  | OpSyncLive name => live_done name
  | OpUpdate _ => top
  end.
Lemma op_done_stable op : stable (op_done op).
Proof. destruct op; [apply sync_done_stable|apply live_done_stable|done]. Qed.
Definition answers (op : feed_op) (r : res unit) (l : bool) (tr : trace) (s : T) : Prop :=
  match r with
  | Ok _ => l = false /\ op_done op tr s
  | Err _ => l = false
  | Panic _ => True
  end.

Lemma safe_call_lock {A} (c : feed_call unit) (k : res unit -> calls feed_call A) Q l tr s :
  feed_does sv _ c = mret tt -> may_fail c = false -> respects c l ->
  (forall s', grows s s' -> safe (k (Ok tt)) Q (lock_after c l) (tr ++ [Did c (Ok tt)]) s') ->
  safe (Call c k) Q l tr s.
Proof.
  intros Hd Hf Hr Hk. split; [done|]. intros w f Hi Hg. unfold carried. rewrite Hf, Hd.
  split_and!; [done|apply grows_refl|]. by apply Hk.
Qed.

Lemma locked_safe {A} (body : calls feed_call A) (Q : A -> assertion) tr s :
  (forall a, stable (Q a)) -> triple true top body Q ->
  safe (locked_prog body) (fun r l tr s => match r with
    | Ok a => l = false /\ Q a tr s | Err _ => l = false | Panic _ => True end) false tr s.
Proof.
  intros HQ Hb. apply safe_call_lock; [done..|]. intros s1 _. cbn [calls_then].
  apply feed_safe_bind, feed_safe_end. eapply feed_safe_weaken; [by apply Hb|].
  intros r l tr' s' [-> Hr]. destruct r as [a|e|m]; cbn [tried]; [..|done].
  all: apply safe_call_lock; [done..|]; intros s2 Hg; cbn; try done.
  split; [done|]. eapply HQ; [by eexists|done|done].
Qed.

Lemma feed_op_safe op tr s : safe (feed_prog sv op) (answers op) false tr s.
Proof.
  destruct op as [name|name|u]; cbn [feed_prog].
  - eapply feed_safe_weaken; [eapply (locked_safe _ (fun _ => sync_done name)); [intros _; apply sync_done_stable|]|done].
    destruct (osv_providers sv !! name) as [p|] eqn:Hp; [by eapply sync_triple|].
    unfold sync_body. rewrite Hp. apply triple_throw.
  - eapply feed_safe_weaken; [eapply (locked_safe _ (fun _ => live_done name)); [intros _; apply live_done_stable|]|done].
    destruct (osv_providers sv !! name) as [p|] eqn:Hp; [by eapply sync_live_triple|].
    unfold sync_live_body. rewrite Hp. apply triple_throw.
  - eapply feed_safe_weaken; [by apply update_quiet|]. by intros [a|e|m] l' tr' s' [-> _].
Qed.
End Programs.
