(* ===== verification/FeedConcProps.v ===== *)
(** * FeedConcProps: the odds feed under any interleaving

    The safe programs of FeedConcSafe together: the store's integrity, what a synchronisation
    that answered has stored, and the mutex.  Then the two stores and the providers as
    instances of what is promised, and two runs in which the feed goes wrong. *)

From S2P Require Import Prelude GoStd GoJson Demo TxProg OddsModels OddsStore Normalizer OddsProps OddsService WalletService OddsSteps OddsIntegrity FeedProg FeedConc FeedConcSafe.
From S2P Require Import Sql OddsPg OddsPgProps Xcash Azuro AzuroProps MockProvider.

Section Together.
Context {S T : Type} `{LO : Lens S T, LLO : !LensLaws LO, OT : OddsStore T, RT : !Records T}.
Context `{E : GoEnv, U : UuidSHA1, SH : !SharedStore T, RH : RedisHash S, NC : NatsConn S}.
#[local] Existing Instance lens_OddsStore.
#[local] Abbreviation store_of := (part (L := LO)).
Context (sv : OddsService S).
Context (publish_outside : forall subject p, outside (L := LO) (nats_Publish subject p)).
Context (exec_outside : forall cmds, outside (L := LO) (redis_Exec cmds)).
Context (all_honest : forall name p, osv_providers sv !! name = Some p -> honest (LO := LO) name p).
Implicit Types (s : Feed S) (h : list (nat * feed_event)).

(** From a store with its invariant, before any goroutine. *)
Definition fd_init s : Prop :=
  fd_history s = [] /\ fd_threads s = ∅ /\ sh_inv (store_of (fd_world s)).
Definition feed_of s : T := store_of (fd_world s).
Definition holds (i : nat) h : bool := bool_decide (holder h = Some i).

Record fd_inv s : Prop := {
  fi_store : sh_inv (feed_of s);
  fi_lawful : lawful (fd_history s);
  fi_threads : forall i op p, fd_threads s !! i = Some (op, p) -> exists t, grows t (feed_of s) /\
    safe (LO := LO) sv p (answers op) (holds i (fd_history s)) (own i (fd_history s)) t;
  fi_fresh : forall i, fd_threads s !! i = None ->
    own i (fd_history s) = [] /\ holds i (fd_history s) = false;
}.

Lemma respects_allowed {B} (c : feed_call B) i h : respects c (holds i h) -> waits c h = false ->
  allowed c i h.
Proof.
  unfold holds. destruct c; cbn; try (intros H _ Hg; exact (proj1 (bool_decide_eq_true _) (H Hg))).
  intros _ H. apply bool_decide_eq_false in H. by destruct (holder h) as [j|]; [destruct H|].
Qed.

(** What a call does to who holds the mutex. *)
Lemma holds_own {B} (c : feed_call B) r i h :
  holds i (h ++ [(i, Did c r)]) = lock_after c (holds i h).
Proof. unfold holds. rewrite holder_snoc. destruct c; cbn; try done. by rewrite bool_decide_true. Qed.
Lemma holds_other {B} (c : feed_call B) r i j h : i <> j -> allowed c i h ->
  holds j (h ++ [(i, Did c r)]) = holds j h.
Proof.
  unfold holds. rewrite holder_snoc. intros Hne Ha. destruct c; cbn in *; try done.
  - rewrite Ha. rewrite !bool_decide_false by congruence. done.
  - rewrite (Ha eq_refl), !bool_decide_false by congruence. done.
Qed.

Lemma fd_step_inv s s' : fd_step (LO := LO) sv s s' -> fd_inv s ->
  fd_inv s' /\ grows (feed_of s) (feed_of s').
Proof.
  intros Hst [Hi Hl Ht Hf]. destruct Hst as [i op Hn|i f|w Hw].
  - split; [|apply grows_refl]. constructor; [done|done|..].
    + intros j op' p. cbn [start fd_threads fd_history]. intros [[<- [= <- <-]]|[_ Hj]]%lookup_insert_Some; [|by apply Ht].
      exists (feed_of s). split; [apply grows_refl|]. destruct (Hf i Hn) as [-> ->].
      by apply feed_op_safe.
    + intros j. cbn [start fd_threads fd_history]. rewrite lookup_insert_None. intros [Hj _]. by apply Hf.
  - unfold advance. destruct (fd_threads s !! i) as [[op [r|B c k]]|] eqn:Hp.
    1,3: by split; [constructor|apply grows_refl].
    destruct (waits c (fd_history s)) eqn:Hw; [by split; [constructor|apply grows_refl]|].
    destruct (Ht i op _ Hp) as (t & Hg & Hr & Hs). specialize (Hs (fd_world s) f Hi Hg).
    destruct (carried sv c f (fd_world s)) as [r w]. destruct Hs as (Hi' & Hg' & Hs).
    pose proof (respects_allowed c i _ Hr Hw) as Ha. split; [|done].
    constructor; [done|by constructor|..].
    + intros j op' p. cbn [start fd_threads fd_history]. intros [[<- [= <- <-]]|[Hne Hj]]%lookup_insert_Some.
      * exists (store_of w). split; [apply grows_refl|]. by rewrite holds_own, own_snoc.
      * destruct (Ht j op' p Hj) as (t' & Hg1 & Hs1). exists t'.
        rewrite holds_other, own_other by done. split; [by eapply grows_trans|done].
    + intros j. cbn [start fd_threads fd_history]. rewrite lookup_insert_None. intros [Hj Hne].
      rewrite holds_other, own_other by done. by apply Hf.
  - assert (feed_of (mkFeed w (fd_history s) (fd_threads s)) = feed_of s) as Heq by exact Hw.
    split; [|rewrite Heq; apply grows_refl]. constructor; rewrite ?Heq; done.
Qed.

Lemma fd_steps_inv s s' : rtc (fd_step (LO := LO) sv) s s' -> fd_inv s ->
  fd_inv s' /\ grows (feed_of s) (feed_of s').
Proof.
  induction 1 as [s|s s1 s2 H1 _ IH]; intros Hi; [by split; [|apply grows_refl]|].
  destruct (fd_step_inv _ _ H1 Hi) as [Hi1 Hg1]. destruct (IH Hi1) as [Hi2 Hg2].
  split; [done|by eapply grows_trans].
Qed.
Lemma fd_init_inv s : fd_init s -> fd_inv s.
Proof.
  intros (Hh & Ht & Hi). constructor; [done|rewrite Hh; constructor|..].
  - intros i op p. by rewrite Ht, lookup_empty.
  - intros i _. by rewrite Hh.
Qed.

(** C27.  However synchronisations and live updates interleave, whatever fails and whatever answers
    get lost: the store keeps its integrity, no record it ever had disappears, and when a
    synchronisation has answered without error all it fetched is stored: the hierarchy,
    and the markets of the conditions it asked for. *)
Theorem conc_feed_integrity s0 s : fd_init s0 -> rtc (fd_step (LO := LO) sv) s0 s ->
  sh_inv (feed_of s) /\ grows (feed_of s0) (feed_of s) /\
  forall i op, fd_threads s !! i = Some (op, Return (Ok tt)) ->
    op_done op (own i (fd_history s)) (feed_of s).
Proof.
  intros Hi%fd_init_inv Hs. destruct (fd_steps_inv _ _ Hs Hi) as [[Hst _ Ht _] Hg].
  split_and!; [done|done|]. intros i op Hp. destruct (Ht i op _ Hp) as (t & Hgt & _ & Hd).
  by eapply op_done_stable.
Qed.

(** ** The mutex *)
Lemma feed_lawful_prefix h h' : lawful (h ++ h') -> lawful h.
Proof.
  induction h' as [|ev h' IH] using rev_ind; [by rewrite app_nil_r|]. rewrite app_assoc.
  intros Hl. apply IH. inversion Hl as [Hn|h0 i B c r Hl' _ Heq]; [by destruct (h ++ h')|].
  by apply app_inj_tail in Heq as [<- _].
Qed.

(** A goroutine that has locked the mutex holds it until it unlocks it. *)
Lemma lock_kept h1 i l h2 : lawful (h1 ++ (i, Did Lock l) :: h2) ->
  (exists u, (i, Did Unlock u) ∈ h2) \/ holder (h1 ++ (i, Did Lock l) :: h2) = Some i.
Proof.
  induction h2 as [|[j [B c r]] h2 IH] using rev_ind; intros Hl; [right; by rewrite holder_snoc|].
  rewrite app_comm_cons, app_assoc in Hl |- *.
  destruct (IH (feed_lawful_prefix _ _ Hl)) as [[u Hu]|Hh]; [left; exists u; rewrite elem_of_app; by left|].
  apply lawful_allowed in Hl. rewrite holder_snoc.
  destruct c; cbn in Hl |- *; try (by right).
  - congruence.
  - left. exists r. rewrite elem_of_app, list_elem_of_singleton. right.
    specialize (Hl eq_refl). congruence.
Qed.

(** C28.  The mutex.  From the moment a goroutine locks it until it unlocks it, every provider that
    is asked, every status that is read and every record that is upserted is its own doing:
    synchronisations never overlap.  A goroutine that has ended without panic has given it
    back, and while a call is under way some goroutine can go on, unless one panicked. *)
Theorem conc_sync_alone s0 s : fd_init s0 -> rtc (fd_step (LO := LO) sv) s0 s ->
  (forall h1 h2 h3 i j B (c : feed_call B) r l,
     fd_history s = h1 ++ (i, Did Lock l) :: h2 ++ (j, Did c r) :: h3 -> guarded c = true ->
     (exists u, (i, Did Unlock u) ∈ h2) \/ j = i) /\
  (forall i op r, fd_threads s !! i = Some (op, Return r) -> (forall m, r <> Panic m) ->
     holder (fd_history s) <> Some i) /\
  (forall i op B (c : feed_call B) (k : res B -> calls feed_call unit),
     fd_threads s !! i = Some (op, Call c k) ->
     (exists j op' D (d : feed_call D) (k' : res D -> calls feed_call unit),
        fd_threads s !! j = Some (op', Call d k') /\ waits d (fd_history s) = false) \/
     exists j op' m, fd_threads s !! j = Some (op', Return (Panic m))).
Proof.
  intros Hi%fd_init_inv Hs. destruct (fd_steps_inv _ _ Hs Hi) as [[_ Hl Ht Hf] _]. split_and!.
  - intros h1 h2 h3 i j B c r l Hh Hg. rewrite Hh, app_comm_cons, app_assoc in Hl.
    destruct (lock_kept h1 i l h2 (feed_lawful_prefix _ _ Hl)) as [Hu|Hk]; [by left|right].
    apply lawful_allowed in Hl. destruct c; try done; specialize (Hl Hg); congruence.
  - intros i op r Hp Hr Hh. destruct (Ht i op _ Hp) as (t & _ & Ha).
    unfold holds in Ha. rewrite bool_decide_true in Ha by done.
    destruct r as [a|e|m]; [by destruct Ha|done|by destruct (Hr m)].
  - intros i op B c k Hp. destruct (waits c (fd_history s)) eqn:Hw; [|left; by exists i, op, B, c, k].
    assert (exists j, holder (fd_history s) = Some j) as [j Hj].
    { destruct c; try done. apply bool_decide_eq_true in Hw.
      destruct (holder (fd_history s)) as [j|]; [by exists j|done]. }
    assert (holds j (fd_history s) = true) as Hh by (by apply bool_decide_eq_true).
    destruct (fd_threads s !! j) as [[op' [r|D d k']]|] eqn:Hq.
    + right. destruct (Ht j op' _ Hq) as (t & _ & Ha). rewrite Hh in Ha.
      destruct r as [a|e|m]; [by destruct Ha|done|]. by exists j, op', m.
    + left. exists j, op', D, d, k'. split; [done|]. destruct (Ht j op' _ Hq) as (t & _ & Hr & _).
      rewrite Hh in Hr. by destruct d.
    + destruct (Hf j Hq) as [_ Hn]. congruence.
Qed.
(** Some calls of one goroutine. *)
Definition drive (i : nat) (f : fate) (n : nat) s : Feed S := Nat.iter n (advance (LO := LO) sv i f) s.
Lemma drive_steps i f n s s' : rtc (fd_step (LO := LO) sv) s s' ->
  rtc (fd_step (LO := LO) sv) s (drive i f n s').
Proof.
  intros Hs. induction n as [|n IH]; [done|]. eapply rtc_r; [exact IH|]. apply fd_advances.
Qed.
Lemma start_steps i op s s' : rtc (fd_step (LO := LO) sv) s s' -> fd_threads s' !! i = None ->
  rtc (fd_step (LO := LO) sv) s (start sv i op s').
Proof. intros Hs Hn. eapply rtc_r; [exact Hs|by apply fd_starts]. Qed.
End Together.

(** ** The in-memory store *)
Section Memory.
Context `{E : GoEnv, U : UuidSHA1} (sha1_nonempty : forall x, NewSHA1 x <> "").

Lemma upserts_shared {T} `{Records T, Contents T} inv rc m s post : upserts inv rc m s post ->
  shared inv m s (fun _ => post).
Proof. intros Hm n. destruct (Hm n) as (i & n' & s' & -> & _ & ? & ? & _ & ?). by split_and!. Qed.
Lemma shared_weaken {T A} `{Records T} inv (m : M T A) s (post post' : A -> T -> Prop) :
  (forall a s, post a s -> post' a s) -> shared inv m s post -> shared inv m s post'.
Proof.
  intros Hp Hm n. specialize (Hm n). destruct (m _) as [r w]. destruct Hm as (? & ? & ?). split_and!; auto.
Qed.

(** A record replaced by one of the same key and identifier. *)
Lemma keyed_replace {R} (prov pid id mkid : R -> string) (m : gmap string R) k r r' :
  keyed prov pid id mkid m -> m !! k = Some r -> prov r' = prov r -> pid r' = pid r ->
  id r' = id r -> mkid r' = mkid r ->
  keyed prov pid id mkid (<[k := r']> m) /\ forall i, has id i m -> has id i (<[k := r']> m).
Proof.
  intros Hm Hr Hp Hq Hi Hk. split.
  - intros k' x [[<- <-]|[_ Hx]]%lookup_insert_Some; [|by apply Hm].
    destruct (Hm k r Hr) as (-> & Hc & Hid). unfold key_of, good. rewrite Hp, Hq, Hi, Hk. done.
  - intros i (k' & x & Hx & <-). destruct (decide (k' = k)) as [->|Hne].
    + exists k, r'. rewrite lookup_insert_eq. split; [done|]. congruence.
    + exists k', x. by rewrite lookup_insert_ne.
Qed.

Lemma replace_outcome s k o o' : odds_inv s -> om_outcomes s !! k = Some o ->
  outcome_Provider o' = outcome_Provider o -> outcome_ProviderOutcomeID o' = outcome_ProviderOutcomeID o ->
  outcome_ID o' = outcome_ID o -> outcome_MarketID o' = outcome_MarketID o ->
  odds_inv (om_set_outcome k o' s) /\ grows s (om_set_outcome k o' s).
Proof.
  intros Hi Ho Hp Hq Hid Hm. destruct (keyed_replace _ _ _ _ _ k o o' (oi_outcomes _ Hi) Ho) as [Hk _];
    [done..|unfold outcome_mkid; congruence|].
  split; [|by constructor]. destruct Hi. constructor; try done.
  intros k' x. cbn [om_outcomes om_set_outcome]. intros [[<- <-]|[_ Hx]]%lookup_insert_Some; [rewrite Hm|]; by eapply oi_outcome_market.
Qed.
Lemma replace_market s k m m' : odds_inv s -> om_markets s !! k = Some m ->
  market_Provider m' = market_Provider m -> market_ProviderMarketID m' = market_ProviderMarketID m ->
  market_ID m' = market_ID m -> market_EventID m' = market_EventID m ->
  odds_inv (om_set_market k m' s) /\ grows s (om_set_market k m' s).
Proof.
  intros Hi Hm Hp Hq Hid He. destruct (keyed_replace _ _ _ _ _ k m m' (oi_markets _ Hi) Hm) as [Hk Hh];
    [done..|unfold market_mkid; congruence|].
  split; [|by constructor]. destruct Hi. constructor; try done.
  - intros k' x. cbn [om_markets om_set_market]. intros [[<- <-]|[_ Hx]]%lookup_insert_Some; [rewrite He|]; by eapply oi_market_event.
  - intros k' o Ho. by apply Hh, (oi_outcome_market k').
Qed.

Definition memory_shared : SharedStore oddsMemory.
Proof.
  refine {| sh_inv := odds_inv |}.
  - intros x s Hi Hg. by eapply upserts_shared, upsert_sport.
  - intros x s Hi Hg Hs. by eapply upserts_shared, upsert_league.
  - intros x s Hi Hg. by eapply upserts_shared, upsert_event.
  - intros x s Hi Hg He. by eapply upserts_shared, upsert_market.
  - intros x s Hi Hg Hm. by eapply shared_weaken; [|eapply upserts_shared, upsert_outcome].
  - intros p i o s Hi n. cbn [odds_UpdateOutcomeOdds oddsMemory_OddsStore].
    unfold oddsMemory_UpdateOutcomeOdds. unmonad.
    destruct (om_outcomes s !! outcomeKey p i) as [x|] eqn:Hx; cbn [w_st]; [|by pose proof (grows_refl s)].
    destruct (replace_outcome s _ x (outcome_set_Odds o (time_at n) x) Hi Hx); [done..|]. by split_and!.
  - intros p i st s Hi n. cbn [odds_UpdateMarketStatus oddsMemory_OddsStore].
    unfold oddsMemory_UpdateMarketStatus. unmonad.
    destruct (om_markets s !! marketKey p i) as [x|] eqn:Hx; cbn [w_st]; [|by pose proof (grows_refl s)].
    destruct (replace_market s _ x (market_set_Status st (time_at n) x) Hi Hx); [done..|]. by split_and!.
  - intros p i st s Hi n. cbn [odds_UpdateOutcomeStatus oddsMemory_OddsStore].
    unfold oddsMemory_UpdateOutcomeStatus. unmonad.
    destruct (om_outcomes s !! outcomeKey p i) as [x|] eqn:Hx; cbn [w_st]; [|by pose proof (grows_refl s)].
    destruct (replace_outcome s _ x (outcome_set_Status st (time_at n) x) Hi Hx); [done..|]. by split_and!.
  - intros p s Hi n. cbn [odds_GetEventStatusesByProvider oddsMemory_OddsStore].
    unfold oddsMemory_GetEventStatusesByProvider. unmonad. by pose proof (grows_refl s).
Defined.
End Memory.

(** ** The Postgres store, whatever statements fail *)
Section Postgres.
Context `{E : GoEnv, U : UuidSHA1, P : PgTypes, O : OddsPgTypes, F : SqlFaults} (UL : uuid_laws).

Lemma keeps_shared {A} (m : M odds_db A) s : keeps m -> pg_inv s -> shared pg_inv m s (fun _ _ => True).
Proof.
  intros Hm Hi n. specialize (Hm (mkWorld n s) Hi). destruct (m _) as [r w]. by destruct Hm.
Qed.

(** The row of an upsert that answers is there. *)
Lemma upsert_shared {A} (t : table A) kind `{PT : !PgTable t kind} what id p q (values : answer A) db :
  pg_inv db -> named kind id p q ->
  shared pg_inv (wrapped what (db_stmt (fun now fresh db =>
    cols ← values; upsert_row t id p q cols now fresh db))) db (fun _ => has_id t id).
Proof.
  intros Hi Hn n. unfold wrapped.
  destruct (db_stmt_cases (fun now fresh db => cols ← values; upsert_row t id p q cols now fresh db)
    (mkWorld n db)) as [[e ->]|(a & db' & Hf & Hd)]; cbn [w_tick w_st] in *; [by pose proof (grows_refl db)|].
  destruct values as [cols|code]; [|done]. cbn [mbind answer_bind] in Hf.
  pose proof (pt_inv (t := t) (kind := kind) db Hi) as Ht.
  destruct (upsert_row_next t kind id p q cols _ _ db a db' Ht Hn Hf) as (-> & l & -> & Hl & Hin).
  destruct (next_rows_inv t kind db l Hi Hl) as [Hi' Hg].
  destruct Hd as [->|[e ->]]; cbn; split_and!; try done. intros _ _.
  apply list_elem_of_fmap in Hin as (r & -> & Hr'). exists r. by rewrite (pt_rows (kind := kind)).
Qed.

Lemma shared_own kind id p q what (f : string -> M odds_db string) db post :
  named kind id p q -> shared pg_inv (f id) db post ->
  shared pg_inv (parsed what (uuid_Parse id) ≫= f) db post.
Proof. intros Hn Hf. by rewrite (parsed_named UL _ _ _ _ _ Hn). Qed.
Lemma shared_parsed what x (f : string -> M odds_db string) db post : pg_inv db ->
  (forall u, shared pg_inv (f u) db post) -> shared pg_inv (parsed what x ≫= f) db post.
Proof. intros Hi Hf. destruct x as [u|e]; [apply Hf|]. intros n. cbn. by pose proof (grows_refl db). Qed.

Definition pg_shared : SharedStore odds_db.
Proof.
  refine {| sh_inv := pg_inv |}.
  - intros x db Hi Hn. eapply shared_own; [exact Hn|].
    by apply (upsert_shared sports_table "sport:" _ _ _ _ (Done _)).
  - intros x db Hi Hn Hs. eapply shared_own; [exact Hn|]. apply shared_parsed; [done|]. intros u.
    by apply (upsert_shared leagues_table "league:" _ _ _ _ (Done _)).
  - intros x db Hi Hn. eapply shared_own; [exact Hn|]. apply shared_parsed; [done|]. intros u.
    apply shared_parsed; [done|]. intros v. by apply (upsert_shared events_table "event:").
  - intros x db Hi Hn He. eapply shared_own; [exact Hn|]. apply shared_parsed; [done|]. intros u.
    by apply (upsert_shared markets_table "market:").
  - intros x db Hi Hn Hm. eapply shared_own; [exact Hn|]. apply shared_parsed; [done|]. intros u.
    eapply shared_weaken; [|by apply (upsert_shared outcomes_table "outcome:")]. done.
  - intros p i o db Hi. apply keeps_shared; [|done]. apply keeps_bind; [|intros; apply keeps_ret].
    apply keeps_returning. by apply (keeps_update outcomes_table "outcome:").
  - intros p i st db Hi. apply keeps_shared; [|done]. apply keeps_bind; [|intros; apply keeps_ret].
    apply keeps_returning. by apply (keeps_update markets_table "market:").
  - intros p i st db Hi. apply keeps_shared; [|done]. apply keeps_bind; [|intros; apply keeps_ret].
    apply keeps_returning. by apply (keeps_update outcomes_table "outcome:").
  - intros p db Hi. apply keeps_shared; [|done]. apply keeps_bind; [|intros; apply keeps_ret].
    apply keeps_wrapped, keeps_stmt. intros now fresh s a s' Hs [= <- <-]. split; [done|apply grows_refl].
Defined.
End Postgres.

(** ** The two providers *)
Section Providers.
Context {S T : Type} `{LO : Lens S T, E : GoEnv, EL : !GoEnvLaws E, HT : HttpTransport S}.

Lemma mock_honest : honest (LO := LO) mock_ProviderName mock_FeedProvider.
Proof.
  constructor; cbn.
  - done.
  - done.
  - done.
  - done.
  - by intros w hier [= <-].
  - by intros w snap [= <-].
  - intros w hier ids w' conds [= <-] Hne Hids [= <-]. split; [done|].
    intros m Hm. apply list_elem_of_singleton in Hm as ->. by left.
Qed.

Context (do_untouched : forall req, untouched (LO := LO) (http_Do req)).

Lemma untouched_bind {A B} (m : M S A) (f : A -> M S B) :
  untouched (LO := LO) m -> (forall a, untouched (LO := LO) (f a)) -> untouched (LO := LO) (m ≫= f).
Proof.
  intros Hm Hf w. specialize (Hm w). unfold mbind, M_bind.
  destruct (m w) as [[a|e|q] w']; cbn in *; [by rewrite Hf|done..].
Qed.
Lemma untouched_wrapped {A} what (m : M S A) : untouched (LO := LO) m -> untouched (LO := LO) (wrapped what m).
Proof. intros Hm w. rewrite wrapped_snd. apply Hm. Qed.
Lemma untouched_request what req : untouched (LO := LO) (az_request what req).
Proof.
  unfold az_request. apply untouched_bind; [by apply untouched_wrapped|]. intros resp.
  destruct (_ || _); [done|]. by apply untouched_wrapped.
Qed.
Lemma untouched_sports p slug state : untouched (LO := LO) (fetchSports p slug state).
Proof.
  unfold fetchSports. apply untouched_bind; [apply untouched_request|]. intros top. by apply untouched_wrapped.
Qed.
Lemma untouched_conditions p ids : untouched (LO := LO) (Azuro_FetchConditions p ids).
Proof.
  unfold Azuro_FetchConditions. case_decide; [done|]. case_decide; [done|].
  apply untouched_bind; [|by intros conds w]. unfold fetchConditions.
  apply untouched_bind; [apply untouched_request|]. intros top. by apply untouched_wrapped.
Qed.
Lemma untouched_hierarchy p sport params : untouched (LO := LO) (Azuro_FetchHierarchy p sport params).
Proof.
  unfold Azuro_FetchHierarchy. case_decide; [done|].
  apply untouched_bind; [apply untouched_sports|by intros sports w].
Qed.

(** Azuro's endpoint conditions-by-game-ids answers conditions of the games it is asked for. *)
Context (p : AzProvider).
Context (asked_only : forall ids w conds w', fetchConditions p ids w = (Ok conds, w') ->
  forall c, c ∈ conds -> cd_GameID c ∈ ids).

Lemma hierarchy_tag sport params w hier : (Azuro_FetchHierarchy p sport params w).1 = Ok hier ->
  sn_Provider hier = ProviderName.
Proof.
  destruct (Azuro_FetchHierarchy p sport params w) as [r w'] eqn:Hr. cbn. intros ->.
  apply FetchHierarchy_built in Hr as (sports & w0 & Hb). rewrite buildSnapshot_eq in Hb.
  by injection Hb as <- _.
Qed.
Lemma azuro_honest : honest (LO := LO) ProviderName (azuro_FeedProvider p).
Proof.
  constructor; cbn.
  - done.
  - apply untouched_hierarchy.
  - unfold Azuro_FetchSnapshot. apply untouched_bind; [apply untouched_hierarchy|]. intros hier.
    case_decide; [done|]. apply untouched_bind; [apply untouched_conditions|done].
  - apply untouched_conditions.
  - intros w hier. apply hierarchy_tag.
  - intros w snap. unfold Azuro_FetchSnapshot, mbind, M_bind.
    pose proof (fun hier => hierarchy_tag "" {["game_state" := "Live"]} w hier) as Htag.
    destruct (Azuro_FetchHierarchy p _ _ w) as [[hier|e|q] w1]; [|done..].
    specialize (Htag hier eq_refl). case_decide; [by intros [= <-]|].
    destruct (Azuro_FetchConditions p _ w1) as [[conds|e|q] w2]; [|done..]. by intros [= <-].
  - intros w hier ids w' conds Hh Hne Hids. unfold Azuro_FetchConditions.
    case_decide; [done|]. case_decide; [done|]. unfold mbind, M_bind.
    destruct (fetchConditions p ids w') as [[cs|e|q] w1] eqn:Hc; [|done..].
    rewrite buildSnapshot_eq. cbn [fst]. intros [= <-]. split; [done|]. cbn [sn_Markets].
    intros m (c & -> & Hin)%list_elem_of_fmap. by eapply Hids, asked_only.
Qed.
End Providers.

(** ** Runs with the mock provider and the in-memory store *)
Module FeedConcDemo.
Import Demo IntegrityDemo.

Definition feed : OddsService oddsMemory := NewOddsService [mock_FeedProvider] (Some 60) true.
Definition empty_feed : Feed oddsMemory := mkFeed (mkWorld 0 NewOddsMemory) [] ∅.
#[local] Abbreviation begin := (start feed).
#[local] Abbreviation calls_of i n := (drive (LO := odds_lens) feed i Answered n).

(** The answer of a goroutine that has ended. *)
Definition answer_of (i : nat) (s : Feed oddsMemory) : option (res unit) :=
  match fd_threads s !! i with Some (_, Return r) => Some r | _ => None end.

Definition odds_in (s : Feed oddsMemory) : option string :=
  outcome_Odds <$> om_outcomes (w_st (fd_world s)) !! "mock:mock-oc-1".

Lemma feed_honest name p : osv_providers feed !! name = Some p -> honest (LO := odds_lens) name p.
Proof.
  change (osv_providers feed) with (<["mock" := mock_FeedProvider (S := oddsMemory)]> ∅ : gmap string _).
  intros [[<- <-]|[_ H]]%lookup_insert_Some; [apply mock_honest|by rewrite lookup_empty in H].
Qed.
Lemma empty_init : fd_init (LO := odds_lens) (SH := memory_shared sha1_ne) empty_feed.
Proof. split_and!; [done|done|]. apply odds_inv_empty. Qed.

(** One synchronisation, and what it stores. *)
Definition started : Feed oddsMemory := begin 1%nat (OpSync "mock") empty_feed.
Definition synced : Feed oddsMemory := calls_of 1%nat 23%nat started.
Lemma synced_answer : fd_threads synced !! 1%nat = Some (OpSync "mock", Return (Ok tt)).
Proof. vm_compute. reflexivity. Qed.
Lemma synced_steps : rtc (fd_step (LO := odds_lens) feed) empty_feed synced.
Proof. by apply drive_steps, start_steps. Qed.
Lemma conc_feed_integrity_witness :
  odds_inv (w_st (fd_world synced)) /\
  sync_done "mock" (own 1 (fd_history synced)) (w_st (fd_world synced)).
Proof.
  assert (forall s, rtc (fd_step (LO := odds_lens) feed) empty_feed s -> odds_inv (w_st (fd_world s)) /\
    forall i op, fd_threads s !! i = Some (op, Return (Ok tt)) ->
      op_done op (own i (fd_history s)) (w_st (fd_world s))) as H.
  { intros s Hs. destruct (conc_feed_integrity (SH := memory_shared sha1_ne) feed
      ltac:(intros; by constructor) ltac:(intros; by constructor) feed_honest empty_feed s empty_init Hs)
      as (Hi & _ & Hd). split; [exact Hi|exact Hd]. }
  destruct (H synced synced_steps) as [Hi Hd].
  exact (conj Hi (Hd 1%nat (OpSync "mock") synced_answer)).
Defined.

(** A second synchronisation waits while the first is under way. *)
Definition waiting : Feed oddsMemory :=
  calls_of 2%nat 5%nat (begin 2%nat (OpSyncLive "mock") (calls_of 1%nat 5%nat started)).
Lemma waiting_steps : rtc (fd_step (LO := odds_lens) feed) empty_feed waiting.
Proof.
  apply drive_steps, start_steps; [by apply drive_steps, start_steps|]. vm_compute. reflexivity.
Qed.
Lemma conc_sync_alone_witness : holder (fd_history waiting) = Some 1%nat /\
  own 2 (fd_history waiting) = [] /\
  forall h1 h2 h3 j B (c : feed_call B) r l,
    fd_history waiting = h1 ++ (1%nat, Did Lock l) :: h2 ++ (j, Did c r) :: h3 -> guarded c = true ->
    (exists u, (1%nat, Did Unlock u) ∈ h2) \/ j = 1%nat.
Proof.
  split; [vm_compute; reflexivity|]. split; [vm_compute; reflexivity|].
  intros h1 h2 h3 j B c r l.
  exact (proj1 (conc_sync_alone (SH := memory_shared sha1_ne) feed ltac:(intros; by constructor)
    ltac:(intros; by constructor) feed_honest empty_feed waiting empty_init waiting_steps)
    h1 h2 h3 1%nat j B c r l).
Defined.

(** The mutex does not keep updates out: one that arrives after the snapshot was fetched and
    before it is stored is answered without error and then overwritten by the older odds. *)
Definition fetched : Feed oddsMemory := calls_of 2%nat 2%nat (begin 2%nat (OpSyncLive "mock") synced).
Definition updated : Feed oddsMemory := calls_of 3%nat 3%nat (begin 3%nat (OpUpdate mock_live_update) fetched).
Definition overwritten : Feed oddsMemory := calls_of 2%nat 20%nat updated.
Lemma update_overwritten :
  odds_in fetched = Some "2.10" /\
  odds_in updated = Some "2.15" /\ answer_of 3%nat updated = Some (Ok tt) /\
  odds_in overwritten = Some "2.10" /\ answer_of 2%nat overwritten = Some (Ok tt).
Proof. vm_compute. done. Qed.

(** The hierarchy is stored before the conditions are asked for.  When that request fails the
    events are on record with their statuses, so the next synchronisation finds nothing
    changed, asks for no conditions and answers without error: no market is stored. *)
Definition failed : Feed oddsMemory :=
  calls_of 1%nat 1%nat (drive (LO := odds_lens) feed 1%nat (NotDone (ErrNew "timeout")) 1 (calls_of 1%nat 10%nat started)).
Definition tried_again : Feed oddsMemory := calls_of 2%nat 20%nat (begin 2%nat (OpSync "mock") failed).
Lemma conditions_never_asked :
  answer_of 1%nat failed = Some (Err (ErrWrap "fetch conditions" (ErrNew "timeout"))) /\
  answer_of 2%nat tried_again = Some (Ok tt) /\
  map_to_list (om_markets (w_st (fd_world tried_again))) = [] /\
  event_Status <$> om_events (w_st (fd_world tried_again)) !! "mock:mock-ev-1" = Some "upcoming".
Proof. vm_compute. done. Qed.
End FeedConcDemo.
