(* ===== verification/Auth.v ===== *)
(** * Auth: who sent a request

    [internal/auth/jwks.go]: the client that keeps the signing keys of the identity
    provider, and the user of a request's token.  Fetching a key set and parsing and
    verifying a token are the jwx library's, the class [JwtLib]; a token has an optional
    subject and optional string claims.  The read-write lock makes each reading and each
    writing of the client one step. *)

From S2P Require Import Prelude GoStd RateLimit Gateway.

Class JwtLib (S : Type) : Type := {
  KeySet : Type;
  Token : Type;
  jwk_Fetch : string -> M S KeySet;
  jwt_ParseRequest : HttpReq -> KeySet -> M S Token;
  token_Subject : Token -> option string;
  token_Get : string -> Token -> option string;
}.
Arguments KeySet S {_}.
Arguments Token S {_}.

Definition ErrMissingUserID : goerr := ErrVar "auth.ErrMissingUserID" "missing user id".
(** 15 minutes *)
Definition jwksRefreshInterval : Z := 900000000000.

Record JWKSClient (K : Type) : Type := mkJWKSClient {
  jc_jwksURL : string;
  jc_keyset : option K;
  jc_fetched : Z;
}.
Arguments mkJWKSClient {K} _ _ _.
Arguments jc_jwksURL {K} _.
Arguments jc_keyset {K} _.
Arguments jc_fetched {K} _.

Section Auth.
Context {S : Type} `{E : GoEnv, JL : JwtLib S, LJ : Lens S (JWKSClient (KeySet S))}.

Definition client : M S (JWKSClient (KeySet S)) := s ← get; mret (lget s).
Definition set_client (c : JWKSClient (KeySet S)) : M S unit := modify (lset c).

Definition refresh : M S unit :=
  c ← client;
  keyset ← wrapped "fetch jwks" (jwk_Fetch (jc_jwksURL c));
  now ← time_now;
  c ← client;
  set_client (mkJWKSClient (jc_jwksURL c) (Some keyset) now).

(** A failed first fetch is left to the first request. *)
Definition NewJWKSClient (jwksURL : string) : M S unit :=
  set_client (mkJWKSClient jwksURL None time_zero);;
  ignore refresh.

(** The cached key set, when it is not too old. *)
Definition fresh_keyset : M S (option (KeySet S)) :=
  c ← client;
  match jc_keyset c with
  | None => mret None
  | Some keyset =>
      now ← time_now;
      mret (if now - jc_fetched c <? jwksRefreshInterval then Some keyset else None)
  end.

(** [return c.keyset]: not nil where it is used. *)
Definition cached_keyset (otherwise : M S (KeySet S)) : M S (KeySet S) :=
  c ← client;
  match jc_keyset c with Some keyset => mret keyset | None => otherwise end.

(** [if err := c.refresh(ctx); err != nil { ... }; return c.keyset, nil] *)
Definition refreshed_keyset : M S (KeySet S) :=
  r ← attempt refresh;
  match r with
  | Ok _ => cached_keyset (panic "nil key set")
  | Err err => cached_keyset (mthrow err)
  | Panic p => panic p
  end.

Definition currentKeyset : M S (KeySet S) :=
  fresh ← fresh_keyset;
  match fresh with Some keyset => mret keyset | None => refreshed_keyset end.

(** The user of a verified token: its subject must be present, email and name are empty
    when they are missing or no strings. *)
Definition user_of_token (token : Token S) : res User :=
  match token_Subject token with
  | None => Err ErrMissingUserID
  | Some userID =>
      Ok (mkUser userID (default "" (token_Get "email" token)) (default "" (token_Get "name" token)))
  end.

Definition JWKSClient_UserFromRequest (r : HttpReq) : M S User :=
  keyset ← wrapped "fetch jwks" currentKeyset;
  token ← wrapped "parse request" (jwt_ParseRequest r keyset);
  of_res (user_of_token token).

(** The older function: a fetch for every request. *)
Definition UserFromRequest (r : HttpReq) : M S User :=
  let jwksURL := Getenv "JWKS_URL" in
  let jwksURL := if decide (jwksURL = "") then "http://localhost:3000/api/auth/jwks" else jwksURL in
  keyset ← wrapped "fetch jwks" (jwk_Fetch jwksURL);
  token ← wrapped "parse request" (jwt_ParseRequest r keyset);
  of_res (user_of_token token).

#[export] Instance JWKSClient_Jwks : Jwks S := {
  jwks_UserFromRequest := JWKSClient_UserFromRequest;
}.
End Auth.
