(* ===== verification/AuthProps.v ===== *)
(** * AuthProps: whose requests the gateway believes

    Every user the gateway acts for is the subject of a token that verified under keys
    the identity provider served; how old those keys can be, and what happens while the
    provider is down. *)

From S2P Require Import Prelude GoStd RateLimit Gateway Auth Demo.

Section Props.
Context {S : Type} `{E : GoEnv, JL : JwtLib S, LJ : Lens S (JWKSClient (KeySet S)), LL : !LensLaws LJ}.
Context (fetch_outside : forall url, outside (L := LJ) (jwk_Fetch url)).
Context (parse_outside : forall r keys, outside (L := LJ) (jwt_ParseRequest r keys)).
Implicit Types w : World S.

(** The client in a world. *)
Definition keys_in w : JWKSClient (KeySet S) := part (L := LJ) w.

(** The endpoint of the client has served the key set. *)
Definition served_by (c : JWKSClient (KeySet S)) (keys : KeySet S) : Prop :=
  exists w0, (jwk_Fetch (jc_jwksURL c) w0).1 = Ok keys.
Definition genuine (c : JWKSClient (KeySet S)) : Prop :=
  forall keys, jc_keyset c = Some keys -> served_by c keys.

(** A reading of the clock, and the world after the client has kept [keys]. *)
Definition ticked w : World S := mkWorld (Datatypes.S (w_tick w)) (w_st w).
Definition kept (keys : KeySet S) w : World S :=
  mkWorld (Datatypes.S (w_tick w))
    (lset (mkJWKSClient (jc_jwksURL (keys_in w)) (Some keys) (time_at (w_tick w))) (w_st w)).
Definition looked_up w : World S :=
  match jc_keyset (keys_in w) with Some _ => ticked w | None => w end.
Definition recent w : Prop := time_at (w_tick w) - jc_fetched (keys_in w) < jwksRefreshInterval.

(** Where the keys for a request come from: those kept, for fifteen minutes; then the
    endpoint; the kept ones again, however old, when it does not answer. *)
Inductive obtains w : res (KeySet S) -> World S -> Prop :=
| ob_cached keys : jc_keyset (keys_in w) = Some keys -> recent w -> obtains w (Ok keys) (ticked w)
| ob_fetched keys w1 : (is_Some (jc_keyset (keys_in w)) -> ~ recent w) ->
    jwk_Fetch (jc_jwksURL (keys_in w)) (looked_up w) = (Ok keys, w1) ->
    obtains w (Ok keys) (kept keys w1)
| ob_old keys e w1 : jc_keyset (keys_in w) = Some keys -> ~ recent w ->
    jwk_Fetch (jc_jwksURL (keys_in w)) (looked_up w) = (Err e, w1) -> obtains w (Ok keys) w1
| ob_none e w1 : jc_keyset (keys_in w) = None ->
    jwk_Fetch (jc_jwksURL (keys_in w)) (looked_up w) = (Err e, w1) ->
    obtains w (Err (ErrWrap "fetch jwks" e)) w1.

Lemma refresh_eq w : refresh w =
  match jwk_Fetch (jc_jwksURL (keys_in w)) w with
  | (Ok keys, w1) => (Ok tt, kept keys w1)
  | (Err e, w1) => (Err (ErrWrap "fetch jwks" e), w1)
  | (Panic p, w1) => (Panic p, w1)
  end.
Proof.
  unfold refresh, client, wrapped, time_now. unmonad.
  change (lget (w_st w)) with (keys_in w).
  destruct (jwk_Fetch (jc_jwksURL (keys_in w)) w) as [[keys|e|p] w1]; done.
Qed.

Lemma keys_fetch url w : keys_in (jwk_Fetch url w).2 = keys_in w.
Proof. apply fetch_outside. Qed.
Lemma keys_ticked w : keys_in (ticked w) = keys_in w.
Proof. done. Qed.
Lemma keys_looked_up w : keys_in (looked_up w) = keys_in w.
Proof. unfold looked_up. by destruct (jc_keyset (keys_in w)). Qed.
Lemma keys_kept keys w :
  keys_in (kept keys w) = mkJWKSClient (jc_jwksURL (keys_in w)) (Some keys) (time_at (w_tick w)).
Proof. unfold keys_in, part, kept. cbn. apply lget_lset. Qed.

Lemma fresh_keyset_eq w : fresh_keyset w =
  (Ok (match jc_keyset (keys_in w) with
       | Some keys => if time_at (w_tick w) - jc_fetched (keys_in w) <? jwksRefreshInterval
                      then Some keys else None
       | None => None end), looked_up w).
Proof.
  unfold fresh_keyset, client, time_now, looked_up. unmonad. change (lget (w_st w)) with (keys_in w).
  by destruct (jc_keyset (keys_in w)).
Qed.

Lemma cached_keyset_eq m w : cached_keyset m w =
  match jc_keyset (keys_in w) with Some keys => (Ok keys, w) | None => m w end.
Proof.
  unfold cached_keyset, client. unmonad. change (lget (w_st w)) with (keys_in w).
  by destruct (jc_keyset (keys_in w)).
Qed.

Lemma refreshed_obtains w : (is_Some (jc_keyset (keys_in w)) -> ~ recent w) ->
  obtains w (refreshed_keyset (looked_up w)).1 (refreshed_keyset (looked_up w)).2.
Proof.
  intros Hold. pose proof (keys_fetch (jc_jwksURL (keys_in w)) (looked_up w)) as Hk.
  rewrite keys_looked_up in Hk. unfold refreshed_keyset, attempt, mbind, M_bind.
  rewrite refresh_eq, keys_looked_up.
  destruct (jwk_Fetch _ (looked_up w)) as [[keys|e|p] w1] eqn:Hf; cbn [fst snd] in *.
  - rewrite cached_keyset_eq, keys_kept. by apply ob_fetched.
  - rewrite cached_keyset_eq, Hk. destruct (jc_keyset (keys_in w)) as [keys|] eqn:Hc.
    + apply (ob_old _ _ e); [done|by apply Hold|done].
    + by apply ob_none.
  - exfalso. apply (outside_runs _ (fetch_outside (jc_jwksURL (keys_in w))) (looked_up w) p).
    by rewrite Hf.
Qed.

Lemma currentKeyset_obtains w : obtains w (currentKeyset w).1 (currentKeyset w).2.
Proof.
  assert (currentKeyset w = match (fresh_keyset w).1 with
    | Ok (Some keys) => (Ok keys, looked_up w) | _ => refreshed_keyset (looked_up w) end) as ->.
  { unfold currentKeyset, mbind, M_bind. rewrite fresh_keyset_eq. by destruct (jc_keyset _); [destruct (_ <? _)|]. }
  rewrite fresh_keyset_eq. cbn [fst].
  destruct (jc_keyset (keys_in w)) as [keys|] eqn:Hc; [|apply refreshed_obtains; rewrite Hc; by intros []].
  destruct (_ <? _) eqn:Hr; [|apply refreshed_obtains; intros _; unfold recent; lia].
  assert (looked_up w = ticked w) as -> by (unfold looked_up; by rewrite Hc).
  apply ob_cached; [done|]. unfold recent. lia.
Qed.

(** The keys obtained are the endpoint's, and so are those kept then. *)
Lemma obtains_genuine w r w' : genuine (keys_in w) -> obtains w r w' ->
  genuine (keys_in w') /\ jc_jwksURL (keys_in w') = jc_jwksURL (keys_in w) /\
  forall keys, r = Ok keys -> served_by (keys_in w) keys.
Proof.
  intros Hg. destruct 1 as [keys Hc Hr|keys w1 Ho Hf|keys e w1 Hc Ho Hf|e w1 Hc Hf].
  - split_and!; [done|done|]. intros ? [= <-]. by apply Hg.
  - assert (served_by (keys_in w) keys) as Hs by (exists (looked_up w); by rewrite Hf).
    pose proof (keys_fetch (jc_jwksURL (keys_in w)) (looked_up w)) as Hk.
    rewrite Hf, keys_looked_up in Hk. cbn in Hk. unfold genuine. rewrite keys_kept, Hk. cbn.
    split_and!; [by intros ? [= <-]|done|by intros ? [= <-]].
  - pose proof (keys_fetch (jc_jwksURL (keys_in w)) (looked_up w)) as Hk.
    rewrite Hf, keys_looked_up in Hk. cbn in Hk. rewrite Hk.
    split_and!; [done|done|]. intros ? [= <-]. by apply Hg.
  - pose proof (keys_fetch (jc_jwksURL (keys_in w)) (looked_up w)) as Hk.
    rewrite Hf, keys_looked_up in Hk. cbn in Hk. rewrite Hk. by split_and!.
Qed.

(** C39.  The user of a request, on every path: the keys are those kept for less than
    fifteen minutes, or the endpoint is asked; while it does not answer, the kept ones are
    used again, and without any the request fails.  The user is the subject of the token
    that verifies under these keys, which the client's endpoint has served; a request
    whose token does not verify, or has no subject, has no user. *)
Theorem UserFromRequest_verified r w : genuine (keys_in w) ->
  let (u, w') := JWKSClient_UserFromRequest r w in
  exists keys w1, obtains w keys w1 /\
    (genuine (keys_in w') /\ jc_jwksURL (keys_in w') = jc_jwksURL (keys_in w)) /\
    match keys with
    | Ok keys => served_by (keys_in w) keys /\
        match jwt_ParseRequest r keys w1 with
        | (Ok token, w2) => w' = w2 /\ u = match token_Subject token with
            | Some id => Ok (mkUser id (default "" (token_Get "email" token))
                               (default "" (token_Get "name" token)))
            | None => Err ErrMissingUserID end
        | (Err e, w2) => w' = w2 /\ u = Err (ErrWrap "parse request" e)
        | (Panic p, _) => False
        end
    | Err e => w' = w1 /\ u = Err (ErrWrap "fetch jwks" e)
    | Panic p => False
    end.
Proof.
  intros Hg. pose proof (currentKeyset_obtains w) as Ho.
  destruct (obtains_genuine _ _ _ Hg Ho) as (Hg1 & Hu & Hs).
  unfold JWKSClient_UserFromRequest, mbind, M_bind, wrapped.
  destruct (currentKeyset w) as [[keys|e|p] w1]; cbn [fst snd wrap_res] in *.
  - pose proof (outside_part _ (parse_outside r keys) w1) as Hp.
    pose proof (outside_runs _ (parse_outside r keys) w1) as Hn.
    destruct (jwt_ParseRequest r keys w1) as [[token|e|p] w2] eqn:Ht; cbn [fst snd wrap_res] in *.
    + exists (Ok keys), w1. split; [done|]. unfold keys_in in *. rewrite Hp. split; [done|].
      split; [by apply Hs|]. rewrite Ht. split; [done|]. unfold of_res, user_of_token.
      by destruct (token_Subject token).
    + exists (Ok keys), w1. split; [done|]. unfold keys_in in *. rewrite Hp. split; [done|].
      split; [by apply Hs|]. by rewrite Ht.
    + by destruct (Hn p).
  - by exists (Err e), w1.
  - inversion Ho.
Qed.

(** A new client is genuine, whether its first fetch answered or not. *)
Lemma NewJWKSClient_genuine url w : genuine (keys_in (NewJWKSClient url w).2) /\
  jc_jwksURL (keys_in (NewJWKSClient url w).2) = url.
Proof.
  unfold NewJWKSClient, set_client. set (w0 := mkWorld (w_tick w) (lset (mkJWKSClient url None time_zero) (w_st w))).
  change (genuine (keys_in (ignore refresh w0).2) /\ jc_jwksURL (keys_in (ignore refresh w0).2) = url).
  assert (keys_in w0 = mkJWKSClient url None time_zero) as H0 by (unfold keys_in, part; cbn; apply lget_lset).
  rewrite ignore_snd, refresh_eq, H0. cbn [jc_jwksURL].
  pose proof (keys_fetch url w0) as Hk. rewrite H0 in Hk.
  destruct (jwk_Fetch url w0) as [[keys|e|p] w1] eqn:Hf; cbn [snd] in *.
  - unfold genuine. rewrite keys_kept, Hk. cbn. split; [|done]. intros ? [= <-]. exists w0. cbn.
    by rewrite Hf.
  - rewrite Hk. by split.
  - rewrite Hk. by split.
Qed.
End Props.

(** ** Keys that are accepted after they were withdrawn *)
Module AuthDemo.
Import Demo.

(** Key sets and tokens are texts; a token verifies under the key set it names.  The
    endpoint answers once, before the third tick, and is down from then on; the clock
    moves ten minutes a tick. *)
#[local] Instance slow_clock : GoEnv := {
  uuid_at := uuid_at; time_at n := Z.of_nat n * 600000000000; range_at := @range_at env;
  Getenv := Getenv; FormatRFC3339 := FormatRFC3339; ParseRFC3339 := ParseRFC3339;
  sort_Slice := @sort_Slice env;
}.
#[local] Instance jwt_lib : JwtLib (JWKSClient string) := {
  KeySet := string;
  Token := string;
  jwk_Fetch url w :=
    (if decide (w_tick w < 3)%nat then Ok "k1" else Err (ErrNew "down"), w);
  jwt_ParseRequest r keys w :=
    (if decide (Header_Get r "Authorization" = keys) then Ok keys else Err (ErrNew "no match"), w);
  token_Subject t := Some ("user of " +:+ t);
  token_Get claim t := None;
}.
#[local] Instance client_lens : Lens (JWKSClient string) (JWKSClient (KeySet (JWKSClient string))) :=
  { lget s := s; lset t _ := t }.
#[local] Instance client_laws : LensLaws client_lens.
Proof. by constructor. Qed.

Definition request (token : string) : HttpReq :=
  mkHttpReq "GET" "/" {["Authorization" := token]} "" ∅ ∅ "" None None None.
Definition started : World (JWKSClient string) :=
  (NewJWKSClient "http://issuer" (mkWorld 0 (mkJWKSClient "" None 0))).2.
(** The client after [n] requests. *)
Fixpoint after (n : nat) : World (JWKSClient string) :=
  match n with
  | O => started
  | Datatypes.S n => (JWKSClient_UserFromRequest (request "k2") (after n)).2
  end.

Lemma fetch_outside url : outside (L := client_lens) (jwk_Fetch url).
Proof.
  constructor; [done| |].
  - intros w. cbn. lia.
  - intros w p. cbn. by case_decide.
Qed.
Lemma parse_outside r keys : outside (L := client_lens) (jwt_ParseRequest r keys).
Proof.
  constructor; [done| |].
  - intros w. cbn. lia.
  - intros w p. cbn. by case_decide.
Qed.

Lemma UserFromRequest_verified_witness :
  genuine (keys_in (after 0)) /\
  JWKSClient_UserFromRequest (request "k1") (after 0) = (Ok (mkUser "user of k1" "" ""), ticked (after 0)) /\
  exists keys, served_by (keys_in (after 0)) keys.
Proof.
  assert (genuine (keys_in (after 0))) as Hg by (apply (NewJWKSClient_genuine fetch_outside)).
  split; [exact Hg|]. split; [vm_compute; reflexivity|].
  pose proof (UserFromRequest_verified fetch_outside parse_outside (request "k1") (after 0) Hg) as H.
  destruct (JWKSClient_UserFromRequest (request "k1") (after 0)) as [u w'] eqn:Heq.
  destruct H as (keys & w1 & _ & _ & H). destruct keys as [keys|e|p].
  - exists keys. apply H.
  - destruct H as [_ ->]. vm_compute in Heq. discriminate Heq.
  - destruct H.
Defined.

(** While the endpoint is down the first key set is accepted, however old it is. *)
Theorem old_keys_accepted :
  (JWKSClient_UserFromRequest (request "k1") (after 1000)).1 = Ok (mkUser "user of k1" "" "") /\
  w_tick (after 1000) = 1001%nat.
Proof. vm_compute. split; reflexivity. Qed.
End AuthDemo.
