(* ===== verification/Startup.v ===== *)
(** * Startup: how the programs start

    The [main] functions of [cmd/], as sequences of calls of the operating system and the
    libraries, each of which can fail ([Os]).  The calls made so far and their answers are
    the process's trace; [os.Exit(1)] is an error, which carries the logged message.  [Go] is
    a [go] statement.  What the programs build is Config's. *)

From S2P Require Import Prelude GoStd GoJson Decimal OddsModels OddsStore Normalizer OddsService OddsServer.
From S2P Require Import Xcash Rates RateProviders WalletModels WalletService WalletServer BetStore BetService.
From S2P Require Import Azuro MockProvider RateLimit Gateway Auth Config.

Inductive routine : Type :=
| HealthServer (port : string)
| SettleScheduler (interval : Z)
| SyncScheduler (providers : list string) (interval : Z)
| LiveUpdates (maxReconnect : Z).

Inductive sys : Type :=
| SqlOpen (driver databaseURL : string)
| DBPing
| DBClose
| PgxWithInstance
| MigrateNew (source : string)
| MigrateUp
| RedisPing (addr : string)
| NatsConnect (url : string)
| NatsClose
| GrpcNewClient (addr : string)
| Go (r : routine)
| Listen (addr : string)
| GrpcServe (addr : string)
| HttpListenAndServe (addr : string).

#[export] Instance routine_dec : EqDecision routine.
Proof. solve_decision. Defined.
#[export] Instance sys_dec : EqDecision sys.
Proof. solve_decision. Defined.

(** The error that a call returns at its moment, if any. *)
Class Os : Type := { os_answer : nat -> sys -> option goerr }.
Definition of_error (e : option goerr) : res unit :=
  match e with Some e => Err e | None => Ok tt end.

Record Process (T : Type) : Type := mkProcess {
  pr_app : T;
  pr_trace : list (sys * option goerr);
}.
Arguments mkProcess {T} _ _.
Arguments pr_app {T} _.
Arguments pr_trace {T} _.

(** [migrate.ErrNoChange] *)
Definition ErrNoChange : goerr := ErrVar "migrate.ErrNoChange" "no change".

Section Startup.
Context {T : Type} `{O : Os, E : GoEnv}.
#[local] Abbreviation MP := (M (Process T)).

Definition note (a : sys) (r : option goerr) : MP unit :=
  modify (fun p => mkProcess (pr_app p) (pr_trace p ++ [(a, r)])).
Definition call (a : sys) : MP unit :=
  t ← tick;
  note a (os_answer t a);;
  of_res (of_error (os_answer t a)).
Definition spawn (r : routine) : MP unit := note (Go r) None.
Definition on_services {A} (m : M T A) : MP A := fun x =>
  let (r, y) := m (mkWorld (w_tick x) (pr_app (w_st x))) in
  (r, mkWorld (w_tick y) (mkProcess (w_st y) (pr_trace (w_st x)))).

(** [if err := call; err != nil { logger.Error(msg, err); os.Exit(1) }] *)
Definition or_exit {A} (msg : string) (m : MP A) : MP A := wrapped msg m.

(** [runMigrations], which the services have each with their own source. *)
Definition migrate_up (source databaseURL : string) : MP unit :=
  call (SqlOpen "pgx" databaseURL);;
  r ← attempt
    (call PgxWithInstance;;
     call (MigrateNew source);;
     up ← attempt (call MigrateUp);
     match up with
     | Err e => if decide (e = ErrNoChange) then mret tt else mthrow e
     | Panic p => panic p
     | Ok _ => mret tt
     end);
  ignore (call DBClose);;
  of_res r.

Definition wallet_runMigrations : string -> MP unit := migrate_up "file://wallet/migrations".
Definition sportsbook_runMigrations : string -> MP unit :=
  migrate_up "file://internal/sportsbook/migrations".
Definition oddsfeed_runMigrations : string -> MP unit :=
  migrate_up "file://internal/oddsfeed/migrations".

(** The first steps of the three services. *)
Definition open_database (runMigrations : string -> MP unit) (databaseURL : string) : MP unit :=
  or_exit "failed to open database" (call (SqlOpen "pgx" databaseURL));;
  or_exit "failed to ping database" (call DBPing);;
  or_exit "failed to run migrations" (runMigrations databaseURL).

(** The last ones. *)
Definition serve (name addr : string) : MP unit :=
  or_exit "failed to listen" (call (Listen addr));;
  or_exit (name +:+ " gRPC stopped") (call (GrpcServe addr)).

(** A client constructor's pointer: nil when it failed. *)
Definition new_client (addr : string) : MP bool :=
  r ← attempt (call (GrpcNewClient addr));
  match r with Ok _ => mret true | Err _ => mret false | Panic p => panic p end.

(** cmd/wallet: the server that is then served. *)
Context `{D : Decimal, HT : HttpTransport T}.
Definition wallet_start (cfg : WalletConfig) : MP (GRPCServer (S := T)) :=
  open_database wallet_runMigrations (cw_DatabaseURL cfg);;
  or_exit "failed to ping redis" (call (RedisPing (cw_RedisAddr cfg)));;
  aggregator ← on_services wallet_aggregator;
  spawn (HealthServer (cw_Port cfg));;
  mret (mkGRPCServer (wallet_service cfg) (Some aggregator)).
Definition wallet_main : MP unit :=
  wallet_start LoadWallet;;
  serve "wallet" ":50051".

(** cmd/sportsbook.  The odds feed's client may be nil; the service takes the pointer for a
    client all the same. *)
Definition sportsbook_start (cfg : SportsbookConfig) : MP bool :=
  open_database sportsbook_runMigrations (cs_DatabaseURL cfg);;
  or_exit "failed to connect wallet service" (call (GrpcNewClient (cs_WalletServiceAddr cfg)));;
  oddsfeed ← new_client (cs_OddsFeedServiceAddr cfg);
  spawn (HealthServer (cs_Port cfg));;
  spawn (SettleScheduler (settle_interval (seconds (cs_SettleIntervalSeconds cfg))));;
  mret oddsfeed.
Definition sportsbook_main : MP unit :=
  sportsbook_start LoadSportsbook;;
  serve "sportsbook" (":" +:+ cs_GRPCPort LoadSportsbook).

(** A call on a nil pointer. *)
Definition nil_odds_client : OddsFeedClient T := {|
  ofc_GetEvent _ := panic "invalid memory address or nil pointer dereference";
  ofc_ListMarkets _ _ _ _ := panic "invalid memory address or nil pointer dereference";
  ofc_ListOutcomes _ _ _ _ := panic "invalid memory address or nil pointer dereference";
  ofc_ListEvents _ _ _ _ _ := panic "invalid memory address or nil pointer dereference";
|}.
Definition sportsbook_service (WC : WalletClient T) (OF : OddsFeedClient T) (dialed : bool) :
    WalletClient T * OddsFeedClient T :=
  NewBetService (Some WC) (Some (if dialed then OF else nil_odds_client)).

(** cmd/oddsfeed. *)
Context `{U : UuidSHA1, OS : OddsStore T, RH : RedisHash T, NC : NatsConn T}.
Definition oddsfeed_start (cfg : OddsFeedConfig) : MP (OddsService T) :=
  open_database oddsfeed_runMigrations (co_DatabaseURL cfg);;
  or_exit "failed to connect to nats" (wrapped "nats connect" (call (NatsConnect (co_NATSURL cfg))));;
  match oddsfeed_service cfg with
  | None => mthrow (ErrNew "no providers configured")
  | Some svc =>
      spawn (HealthServer (co_Port cfg));;
      on_services (initial_sync cfg svc);;
      spawn (SyncScheduler (main_splitTrim (co_Providers cfg))
               (default_interval (seconds (co_SyncIntervalSeconds cfg))));;
      spawn (LiveUpdates (seconds (co_WSReconnectMaxSeconds cfg)));;
      mret svc
  end.
Definition oddsfeed_main : MP unit :=
  oddsfeed_start LoadOddsFeed;;
  serve "oddsfeed" (":" +:+ co_GRPCPort LoadOddsFeed);;
  ignore (call NatsClose).

(** cmd/gateway: the server, its limiter, and which of the two clients are not nil. *)
Context `{JL : JwtLib T, LJ : Lens T (JWKSClient (KeySet T))}.
Definition RateLimiter_Ping (rl : RateLimiter) (redisAddr : string) : MP unit :=
  if decide (rl_backend rl = "redis")
  then call (RedisPing (if decide (redisAddr = "") then "redis:6379" else redisAddr))
  else mret tt.
Definition gateway_start (cfg : GatewayConfig) : MP (Server * RateLimiter * bool * bool) :=
  or_exit "failed to initialize jwks" (on_services (NewJWKSClient (cg_JWKSURL cfg)));;
  or_exit "failed to connect wallet service"
    (wrapped "dial wallet service" (call (GrpcNewClient (cg_WalletServiceAddr cfg))));;
  oddsfeed ← new_client (cg_OddsFeedServiceAddr cfg);
  sportsbook ← new_client (cg_SportsbookServiceAddr cfg);
  let limiter := gateway_limiter cfg in
  (if decide (cg_RateLimitBackend cfg = "redis")
   then or_exit "failed to connect to redis" (RateLimiter_Ping limiter (cg_RedisAddr cfg))
   else mret tt);;
  server ← on_services (gateway_server cfg);
  mret (server, limiter, oddsfeed, sportsbook).
Definition gateway_main : MP unit :=
  gateway_start LoadGateway;;
  or_exit "gateway stopped" (call (HttpListenAndServe (":" +:+ cg_Port LoadGateway))).
End Startup.

(** [startHealthServer]'s mux, in the three services. *)
Definition health_mux {S P} (service : string) : Handler S P := fun r =>
  if decide (rq_Path r = "/health")
  then mret (mkHttpReply 200 ∅
         (BodyText (marshal (JObj [("status", JStr "healthy"); ("service", JStr service)]))))
  else mret (http_Error "404 page not found" 404).
Definition wallet_health {S P} : Handler S P := health_mux "wallet".
Definition sportsbook_health {S P} : Handler S P := health_mux "sportsbook".
Definition oddsfeed_health {S P} : Handler S P := health_mux "oddsfeed".

(** ** cmd/verify_oddsfeed: the lines it prints, and the error it stops with *)
Section Verify.
Context {S : Type} `{OCn : OddsFeedConn S}.
#[local] Abbreviation Printed := (list string * option goerr)%type.

Definition heading (title : string) (n : nat) : string :=
  title +:+ " (" +:+ Itoa (Z.of_nat n) +:+ "):".
Definition verify_list {A} (out : list string) (what title : string) (m : M S (list A))
    (line : A -> string) (next : list string -> M S Printed) : M S Printed :=
  r ← attempt m;
  match r with
  | Ok l => next (out ++ heading title (length l) :: (line <$> l))
  | Err e => mret (out, Some (ErrWrap what e))
  | Panic p => panic p
  end.

Definition verify_oddsfeed : M S Printed :=
  verify_list [] "list sports" "Sports" (conn_ListSports 1 10)
    (fun s => "  - " +:+ psp_Name s +:+ " (" +:+ psp_Id s +:+ ", slug=" +:+ psp_Slug s +:+ ")") (fun out =>
  verify_list (out ++ [""]) "list leagues" "Leagues" (conn_ListLeagues "" 1 10)
    (fun l => "  - " +:+ plg_Name l +:+ " (" +:+ plg_Id l +:+ ", sport=" +:+ plg_SportId l +:+
       ", country=" +:+ plg_Country l +:+ ")") (fun out =>
  verify_list (out ++ [""]) "list events" "Events" (conn_ListEvents "" "" "" 1 10)
    (fun e => "  - " +:+ pev_HomeParticipant e +:+ " vs " +:+ pev_AwayParticipant e +:+ " (" +:+
       pev_Id e +:+ ", status=" +:+ pev_Status e +:+ ", starts=" +:+ pev_StartsAt e +:+ ")") (fun out =>
  verify_list (out ++ [""]) "list markets" "Markets" (conn_ListMarkets "" "" 1 10)
    (fun m => "  - " +:+ pmk_Name m +:+ " (" +:+ pmk_Id m +:+ ", event=" +:+ pmk_EventId m +:+
       ", type=" +:+ pmk_Type m +:+ ", status=" +:+ pmk_Status m +:+ ")") (fun out =>
  verify_list (out ++ [""]) "list outcomes" "Outcomes" (conn_ListOutcomes "" "" 1 10)
    (fun o => "  - " +:+ poc_Name o +:+ " (" +:+ poc_Id o +:+ ", market=" +:+ poc_MarketId o +:+
       ", odds=" +:+ poc_Odds o +:+ ", status=" +:+ poc_Status o +:+ ")") (fun out =>
  mret (out, None)))))).
End Verify.
