(* ===== verification/StartupProps.v ===== *)
(** * StartupProps: no service serves before its database is ready *)

From S2P Require Import Prelude GoStd GoJson Decimal OddsModels OddsStore Normalizer OddsService OddsServer.
From S2P Require Import Xcash Rates RateProviders WalletModels WalletService WalletServer BetStore BetStoreProps BetService.
From S2P Require Import BetLifecycle BetServiceProps Azuro MockProvider RateLimit Gateway Auth Config Startup Demo.

Section Trace.
Context {T : Type} `{O : Os, E : GoEnv}.
#[local] Abbreviation MP := (M (Process T)).
Implicit Types (x : World (Process T)) (t : list (sys * option goerr)).

Definition trace x : list (sys * option goerr) := pr_trace (w_st x).

(** [m] adds to the trace; the added part has [Q], given how [m] ends. *)
Definition emits {A} (Q : res A -> list (sys * option goerr) -> Prop) (m : MP A) : Prop :=
  forall x, exists t, trace (m x).2 = trace x ++ t /\ Q (m x).1 t.
Definition anything {A} : res A -> list (sys * option goerr) -> Prop := fun _ _ => True.

Lemma emits_weaken {A} (Q Q' : res A -> _ -> Prop) m :
  (forall r t, Q r t -> Q' r t) -> emits Q m -> emits Q' m.
Proof. intros H Hm x. destruct (Hm x) as (t & Ht & Hq). exists t. auto. Qed.

Lemma emits_ret {A} (a : A) : emits (fun r t => r = Ok a /\ t = []) (mret a).
Proof. intros x. exists []. by rewrite app_nil_r. Qed.
Lemma emits_of_res {A} (r : res A) : emits (fun r' t => r' = r /\ t = []) (of_res r).
Proof. intros x. exists []. by rewrite app_nil_r. Qed.
Lemma emits_throw {A} e : emits (fun r t => r = Err e /\ t = []) (mthrow e : MP A).
Proof. intros x. exists []. by rewrite app_nil_r. Qed.
Lemma emits_panic {A} p : emits (fun r t => r = Panic p /\ t = []) (panic p : MP A).
Proof. intros x. exists []. by rewrite app_nil_r. Qed.
Lemma emits_call a : emits (fun r t => exists e, r = of_error e /\ t = [(a, e)]) (call a).
Proof. intros x. exists [(a, os_answer (w_tick x) a)]. unfold call, note. unmonad.
  destruct (os_answer (w_tick x) a) as [e|]; (split; [done|]); by eexists. Qed.
Lemma emits_spawn r : emits (fun r' t => r' = Ok tt /\ t = [(Go r, None)]) (spawn r).
Proof. intros x. by exists [(Go r, None)]. Qed.
Lemma emits_services {A} (m : M T A) : emits (fun _ t => t = []) (on_services m).
Proof. intros x. exists []. unfold on_services, trace. destruct (m _). cbn. by rewrite app_nil_r. Qed.

Lemma emits_bind {A B} (Q : res A -> _ -> Prop) (Q' : A -> res B -> _ -> Prop) (m : MP A) (f : A -> MP B) :
  emits Q m -> (forall a, emits (Q' a) (f a)) ->
  emits (fun r t => exists r0 t0, Q r0 t0 /\
    match r0 with
    | Ok a => exists t1, t = t0 ++ t1 /\ Q' a r t1
    | Err e => t = t0 /\ r = Err e
    | Panic p => t = t0 /\ r = Panic p
    end) (m ≫= f).
Proof.
  intros Hm Hf x. destruct (Hm x) as (t0 & Ht0 & Hq). unfold mbind, M_bind.
  destruct (m x) as [[a|e|p] y]; cbn [fst snd] in *.
  - destruct (Hf a y) as (t1 & Ht1 & Hq'). exists (t0 ++ t1). rewrite Ht1, Ht0, app_assoc.
    split; [done|]. exists (Ok a), t0. split; [done|]. by exists t1.
  - exists t0. split; [done|]. by exists (Err e), t0.
  - exists t0. split; [done|]. by exists (Panic p), t0.
Qed.

Lemma emits_wrapped {A} (Q : res A -> _ -> Prop) msg (m : MP A) : emits Q m ->
  emits (fun r t => exists r0, r = wrap_res msg r0 /\ Q r0 t) (wrapped msg m).
Proof.
  intros Hm x. destruct (Hm x) as (t & Ht & Hq). exists t. unfold wrapped.
  destruct (m x) as [r y]. cbn in *. split; [done|]. by exists r.
Qed.
Lemma emits_attempt {A} (Q : res A -> _ -> Prop) (m : MP A) : emits Q m ->
  emits (fun r t => exists r0, Q r0 t /\ match r0 with Panic p => r = Panic p | _ => r = Ok r0 end) (attempt m).
Proof.
  intros Hm x. destruct (Hm x) as (t & Ht & Hq). exists t. unfold attempt.
  destruct (m x) as [[a|e|p] y]; cbn in *; (split; [done|]); by eexists.
Qed.

(** ** Scripts: the calls a program makes in order, each with the answers it goes on after *)
#[local] Abbreviation script := (list (sys * (option goerr -> bool))).
Definition succeeds (e : option goerr) : bool := bool_decide (e = None).
Definition whatever (e : option goerr) : bool := true.
Definition migrated (e : option goerr) : bool := succeeds e || bool_decide (e = Some ErrNoChange).

(** The whole script was carried out. *)
Definition completes (p : script) t : Prop :=
  Forall2 (fun (s : sys * (option goerr -> bool)) (e : sys * option goerr) =>
    e.1 = s.1 /\ s.2 e.2 = true) p t.
(** It was carried out up to some point, or to a call that failed. *)
Fixpoint follows (p : script) t {struct t} : Prop :=
  match t, p with
  | [], _ => True
  | _ :: _, [] => False
  | (a, e) :: t, (b, ok) :: p => a = b /\ if ok e then follows p t else t = []
  end.

Lemma completes_app p1 p2 t1 t2 : completes p1 t1 -> completes p2 t2 -> completes (p1 ++ p2) (t1 ++ t2).
Proof. apply Forall2_app. Qed.
Lemma completes_follows p t : completes p t -> follows p t.
Proof.
  induction 1 as [|[b ok] [a e] p t [Ha He] _ IH]; cbn in *; [done|]. by rewrite He, Ha.
Qed.
Lemma follows_app p1 p2 t1 t2 : completes p1 t1 -> follows p2 t2 -> follows (p1 ++ p2) (t1 ++ t2).
Proof.
  induction 1 as [|[b ok] [a e] p t [Ha He] _ IH]; cbn in *; [done|]. rewrite He, Ha. auto.
Qed.
Lemma follows_more p1 p2 t : follows p1 t -> follows (p1 ++ p2) t.
Proof.
  revert p1. induction t as [|[a e] t IH]; intros [|[b ok] p1]; cbn; try done.
  intros [-> H]. split; [done|]. destruct (ok e); auto.
Qed.

Definition performs {A} (p : script) (m : MP A) : Prop :=
  emits (fun r t => follows p t /\ (forall a, r = Ok a -> completes p t)) m.

Lemma performs_bind {A B} p1 p2 (m : MP A) (f : A -> MP B) :
  performs p1 m -> (forall a, performs p2 (f a)) -> performs (p1 ++ p2) (m ≫= f).
Proof.
  intros Hm Hf. eapply emits_weaken; [|exact (emits_bind _ (fun _ => _) m f Hm Hf)].
  cbn. intros r t (r0 & t0 & [Hp Hc] & H). destruct r0 as [a|e|q].
  - destruct H as (t1 & -> & Hp1 & Hc1). split.
    + apply follows_app; [by apply (Hc a)|done].
    + intros b ->. apply completes_app; [by apply (Hc a)|by apply (Hc1 b)].
  - destruct H as [-> ->]. split; [by apply follows_more|done].
  - destruct H as [-> ->]. split; [by apply follows_more|done].
Qed.
Lemma performs_ret {A} (a : A) : performs [] (mret a).
Proof. eapply emits_weaken; [|apply emits_ret]. cbn. intros r t [_ ->]. split; [done|constructor]. Qed.
Lemma performs_throw {A} p (e : goerr) : performs p (mthrow e : MP A).
Proof. eapply emits_weaken; [|apply emits_throw]. cbn. by intros r t [-> ->]. Qed.
Lemma performs_services {A} (m : M T A) : performs [] (on_services m).
Proof. eapply emits_weaken; [|apply emits_services]. cbn. intros r t ->. split; [done|constructor]. Qed.
Lemma performs_call a : performs [(a, succeeds)] (call a).
Proof.
  eapply emits_weaken; [|apply emits_call]. cbn. intros r t (e & -> & ->). split; [split; [done|by destruct (succeeds e)]|].
  intros []. destruct e; [done|]. intros _. by repeat constructor.
Qed.
Lemma performs_spawn r : performs [(Go r, whatever)] (spawn r).
Proof.
  eapply emits_weaken; [|apply emits_spawn]. cbn. intros r' t [-> ->]. split; [done|]. by repeat constructor.
Qed.
Lemma performs_wrapped {A} p msg (m : MP A) : performs p m -> performs p (wrapped msg m).
Proof.
  intros Hm. eapply emits_weaken; [|apply emits_wrapped, Hm]. cbn.
  intros r t (r0 & -> & Hf & Hc). split; [done|]. by destruct r0 as [a| |]; [intros b _; apply (Hc a)|..].
Qed.
Lemma performs_attempt_call a : performs [(a, whatever)] (attempt (call a)).
Proof.
  eapply emits_weaken; [|apply emits_attempt, emits_call]. cbn.
  intros r t (r0 & (e & -> & ->) & H). split; [done|]. by repeat constructor.
Qed.

(** ** Opening the database *)
Definition opens (source url : string) : script :=
  [(SqlOpen "pgx" url, succeeds); (DBPing, succeeds); (SqlOpen "pgx" url, succeeds);
   (PgxWithInstance, succeeds); (MigrateNew source, succeeds); (MigrateUp, migrated);
   (DBClose, whatever)].

(** What is done before anything is offered to others. *)
Definition of_database (a : sys) : Prop :=
  match a with
  | SqlOpen _ _ | DBPing | DBClose | PgxWithInstance | MigrateNew _ | MigrateUp => True
  | _ => False
  end.
Definition gives_up {A} (r : res A) t : Prop :=
  (exists e, r = Err e) /\ Forall (fun c => of_database c.1) t.

(** [m] has carried out [p], or it stops with an error before it has. *)
Definition requires (p : script) (m : MP unit) : Prop :=
  emits (fun r t => (r = Ok tt /\ completes p t) \/ gives_up r t) m.

Lemma requires_call a : of_database a -> requires [(a, succeeds)] (call a).
Proof.
  intros Ha. eapply emits_weaken; [|apply emits_call]. cbn. intros r t ([e|] & -> & ->); [right|left].
  - split; [by eexists|]. by repeat constructor.
  - split; [done|]. by repeat constructor.
Qed.
Lemma requires_bind p1 p2 m1 m2 : Forall (fun s => of_database s.1) p1 ->
  requires p1 m1 -> requires p2 m2 -> requires (p1 ++ p2) (m1;; m2).
Proof.
  intros Hp H1 H2. eapply emits_weaken; [|exact (emits_bind _ (fun _ => _) m1 (fun _ => m2) H1 (fun _ => H2))].
  cbn. intros r t (r0 & t0 & [[-> Hc]|[[e ->] Hs]] & H).
  - destruct H as (t1 & -> & [[-> Hc1]|[He Hs]]); [left|right]; (split; [done|]).
    + by apply completes_app.
    + apply Forall_app. split; [|done]. clear - Hc Hp.
      induction Hc as [|s c p t [Hsc _] _ IH]; [constructor|]. inversion Hp; subst.
      constructor; [by rewrite Hsc|auto].
  - destruct H as [-> ->]. right. split; [by eexists|done].
Qed.
Lemma requires_wrapped p msg m : requires p m -> requires p (wrapped msg m).
Proof.
  intros Hm. eapply emits_weaken; [|apply emits_wrapped, Hm]. cbn.
  intros r t (r0 & -> & [[-> Hc]|[[e ->] Hs]]); [by left|right]. split; [by eexists|done].
Qed.

Definition up : MP unit :=
  up ← attempt (call MigrateUp);
  match up with
  | Err e => if decide (e = ErrNoChange) then mret tt else mthrow e
  | Panic p => panic p
  | Ok _ => mret tt
  end.
Lemma requires_up : requires [(MigrateUp, migrated)] up.
Proof.
  intros x. unfold up, call, note. unmonad. exists [(MigrateUp, os_answer (w_tick x) MigrateUp)].
  destruct (os_answer (w_tick x) MigrateUp) as [e|]; cbn.
  - case_decide as He; (split; [done|]); [left|right].
    + split; [done|]. repeat constructor. cbn. unfold migrated. subst. by rewrite bool_decide_true.
    + split; [by eexists|by repeat constructor].
  - split; [done|]. left. split; [done|]. by repeat constructor.
Qed.

(** [defer db.Close()]: whatever [m] ends with, and whatever Close answers. *)
Lemma closing_run (m : MP unit) x r y : m x = (r, y) -> (forall p, r <> Panic p) ->
  (r ← attempt m; ignore (call DBClose);; of_res r) x =
  (r, mkWorld (S (w_tick y)) (mkProcess (pr_app (w_st y))
    (trace y ++ [(DBClose, os_answer (w_tick y) DBClose)]))).
Proof.
  intros Hm Hp. unfold attempt, ignore, call, note. unmonad. rewrite Hm.
  destruct r as [[]|e|p]; [| |by destruct (Hp p)]; by destruct (os_answer (w_tick y) DBClose).
Qed.
Lemma requires_closing p m : requires p m ->
  requires (p ++ [(DBClose, whatever)]) (r ← attempt m; ignore (call DBClose);; of_res r).
Proof.
  intros Hm x. destruct (Hm x) as (t & Ht & H). destruct (m x) as [r y] eqn:Hr. cbn [fst snd] in *.
  rewrite (closing_run m x r y Hr) by (intros q ->; destruct H as [[? _]|[[? ?] _]]; discriminate).
  exists (t ++ [(DBClose, os_answer (w_tick y) DBClose)]). cbn. rewrite Ht, app_assoc. split; [done|].
  destruct H as [[-> Hc]|[He Hs]]; [left|right]; (split; [done|]).
  - apply completes_app; [done|]. by repeat constructor.
  - apply Forall_app. split; [done|]. by repeat constructor.
Qed.

Lemma open_database_requires source url : requires (opens source url) (open_database (migrate_up source) url).
Proof.
  unfold open_database, or_exit.
  apply (requires_bind [_]); [by repeat constructor|by apply requires_wrapped, requires_call|].
  apply (requires_bind [_]); [by repeat constructor|by apply requires_wrapped, requires_call|].
  apply requires_wrapped. unfold migrate_up.
  apply (requires_bind [_]); [by repeat constructor|by apply requires_call|].
  apply (requires_closing [_; _; _]).
  apply (requires_bind [_]); [by repeat constructor|by apply requires_call|].
  apply (requires_bind [_]); [by repeat constructor|by apply requires_call|].
  exact requires_up.
Qed.

(** ** The programs *)
(** [m] first does what [p] says; it gives up, or goes on as [q] says. *)
Definition starts {A} (p q : script) (m : MP A) : Prop :=
  emits (fun r t => gives_up r t \/ exists t0 rest, t = t0 ++ rest /\ completes p t0 /\
    follows q rest /\ (forall a, r = Ok a -> completes q rest)) m.

Lemma starts_bind {A B} p q1 q2 (m : MP A) (f : A -> MP B) :
  starts p q1 m -> (forall a, performs q2 (f a)) -> starts p (q1 ++ q2) (m ≫= f).
Proof.
  intros Hm Hf. eapply emits_weaken; [|exact (emits_bind _ (fun _ => _) m f Hm Hf)].
  cbn. intros r t (r0 & t0 & [[[e ->] Hs]|(t1 & t2 & -> & Hp & Hq & Hc)] & H).
  - destruct H as [-> ->]. left. split; [by eexists|done].
  - right. exists t1. destruct r0 as [a|e|x].
    + destruct H as (t3 & -> & Hf1 & Hc1). exists (t2 ++ t3). rewrite app_assoc.
      repeat split; [done|by apply follows_app; [apply (Hc a)|]|].
      intros b ->. apply completes_app; [by apply (Hc a)|by apply (Hc1 b)].
    + destruct H as [-> ->]. exists t2. repeat split; [done|by apply follows_more|done].
    + destruct H as [-> ->]. exists t2. repeat split; [done|by apply follows_more|done].
Qed.
Lemma starts_requires p m : requires p m -> starts p [] m.
Proof.
  intros Hm. eapply emits_weaken; [|exact Hm]. cbn. intros r t [[-> Hc]|Hs]; [right|by left].
  exists t, []. rewrite app_nil_r. repeat split; [done|]. intros; constructor.
Qed.
Lemma starts_opens {B} source url q (f : unit -> MP B) :
  (forall a, performs q (f a)) -> starts (opens source url) q (open_database (migrate_up source) url ≫= f).
Proof. intros. by apply (starts_bind _ []); [apply starts_requires, open_database_requires|]. Qed.

Lemma performs_serve name addr :
  performs [(Listen addr, succeeds); (GrpcServe addr, succeeds)] (serve name addr).
Proof. apply (performs_bind [_]); [|intros _]; apply performs_wrapped, performs_call. Qed.
Lemma performs_new_client addr : performs [(GrpcNewClient addr, whatever)] (new_client addr).
Proof.
  apply (performs_bind [_] []); [apply performs_attempt_call|].
  intros []; [apply performs_ret..|]. eapply emits_weaken; [|apply emits_panic]. cbn. by intros r t [-> ->].
Qed.
End Trace.

Section Programs.
Context {T : Type} `{O : Os, E : GoEnv, D : Decimal, HT : HttpTransport T}.
#[local] Abbreviation script := (list (sys * (option goerr -> bool))).

(** What each program does once its database is ready. *)
Definition wallet_script (cfg : WalletConfig) : script :=
  [(RedisPing (cw_RedisAddr cfg), succeeds); (Go (HealthServer (cw_Port cfg)), whatever);
   (Listen ":50051", succeeds); (GrpcServe ":50051", succeeds)].

Definition sportsbook_script (cfg : SportsbookConfig) : script :=
  let addr := ":" +:+ cs_GRPCPort cfg in
  [(GrpcNewClient (cs_WalletServiceAddr cfg), succeeds);
   (GrpcNewClient (cs_OddsFeedServiceAddr cfg), whatever);
   (Go (HealthServer (cs_Port cfg)), whatever);
   (Go (SettleScheduler (settle_interval (seconds (cs_SettleIntervalSeconds cfg)))), whatever);
   (Listen addr, succeeds); (GrpcServe addr, succeeds)].

Definition oddsfeed_script (cfg : OddsFeedConfig) : script :=
  let addr := ":" +:+ co_GRPCPort cfg in
  [(NatsConnect (co_NATSURL cfg), succeeds); (Go (HealthServer (co_Port cfg)), whatever);
   (Go (SyncScheduler (main_splitTrim (co_Providers cfg))
          (default_interval (seconds (co_SyncIntervalSeconds cfg)))), whatever);
   (Go (LiveUpdates (seconds (co_WSReconnectMaxSeconds cfg))), whatever);
   (Listen addr, succeeds); (GrpcServe addr, succeeds); (NatsClose, whatever)].

Definition gateway_script (cfg : GatewayConfig) : script :=
  [(GrpcNewClient (cg_WalletServiceAddr cfg), succeeds);
   (GrpcNewClient (cg_OddsFeedServiceAddr cfg), whatever);
   (GrpcNewClient (cg_SportsbookServiceAddr cfg), whatever)] ++
  (if decide (cg_RateLimitBackend cfg = "redis")
   then [(RedisPing (if decide (cg_RedisAddr cfg = "") then "redis:6379" else cg_RedisAddr cfg), succeeds)]
   else []) ++
  [(HttpListenAndServe (":" +:+ cg_Port cfg), succeeds)].

Lemma wallet_starts :
  starts (opens "file://wallet/migrations" (cw_DatabaseURL LoadWallet)) (wallet_script LoadWallet)
    (wallet_main (T := T)).
Proof.
  apply (starts_bind _ [_; _] [_; _]); [|intros _; apply performs_serve].
  apply starts_opens. intros _.
  apply (performs_bind [_]); [apply performs_wrapped, performs_call|intros _].
  apply (performs_bind []); [apply performs_services|intros a].
  apply (performs_bind [_] []); [apply performs_spawn|intros _; apply performs_ret].
Qed.

Lemma sportsbook_starts :
  starts (opens "file://internal/sportsbook/migrations" (cs_DatabaseURL LoadSportsbook))
    (sportsbook_script LoadSportsbook) (sportsbook_main (T := T)).
Proof.
  apply (starts_bind _ [_; _; _; _] [_; _]); [|intros _; apply performs_serve].
  apply starts_opens. intros _.
  apply (performs_bind [_]); [apply performs_wrapped, performs_call|intros _].
  apply (performs_bind [_]); [apply performs_new_client|intros dialed].
  apply (performs_bind [_]); [apply performs_spawn|intros _].
  apply (performs_bind [_] []); [apply performs_spawn|intros _; apply performs_ret].
Qed.

Context `{U : UuidSHA1, OS : OddsStore T, RH : RedisHash T, NC : NatsConn T}.
Lemma oddsfeed_starts :
  starts (opens "file://internal/oddsfeed/migrations" (co_DatabaseURL LoadOddsFeed))
    (oddsfeed_script LoadOddsFeed) (oddsfeed_main (T := T)).
Proof.
  apply (starts_bind _ [_; _; _; _] [_; _; _]).
  - apply starts_opens. intros _.
    apply (performs_bind [_]); [apply performs_wrapped, performs_wrapped, performs_call|intros _].
    destruct (oddsfeed_service LoadOddsFeed) as [svc|]; [|apply performs_throw].
    apply (performs_bind [_]); [apply performs_spawn|intros _].
    apply (performs_bind []); [apply performs_services|intros _].
    apply (performs_bind [_]); [apply performs_spawn|intros _].
    apply (performs_bind [_] []); [apply performs_spawn|intros _; apply performs_ret].
  - intros _. apply (performs_bind [_; _]); [apply performs_serve|intros _].
    apply (performs_bind [_] []); [apply performs_attempt_call|intros r; apply performs_ret].
Qed.

Context `{JL : JwtLib T, LJ : Lens T (JWKSClient (KeySet T))}.
Lemma gateway_performs : performs (gateway_script LoadGateway) (gateway_main (T := T)).
Proof.
  unfold gateway_script. rewrite (app_assoc [_; _; _]).
  apply performs_bind; [|intros _; apply performs_wrapped, performs_call].
  apply (performs_bind []); [apply performs_wrapped, performs_services|intros _].
  apply (performs_bind [_]); [apply performs_wrapped, performs_wrapped, performs_call|intros _].
  apply (performs_bind [_]); [apply performs_new_client|intros oddsfeed].
  apply (performs_bind [_]); [apply performs_new_client|intros sportsbook].
  match goal with |- performs ?p _ => rewrite <- (app_nil_r p) end.
  apply performs_bind; [|intros _; apply (performs_bind [] []); [apply performs_services|intros; apply performs_ret]].
  unfold RateLimiter_Ping. cbn [rl_backend gateway_limiter NewRateLimiter].
  case_decide; [apply performs_wrapped, performs_call|apply performs_ret].
Qed.

(** C38.  How the programs start, whatever the operating system, the databases, Redis, NATS
    and the other services answer, and whatever environment they are given.  Each of the
    three services first opens and pings its database and brings its schema up to date
    (closing the connection it used for that, whatever happens); when one of these calls
    fails (a schema that is up to date already is no failure) it exits with an error and has
    done nothing else.  Only then it connects to its peers, starts its background tasks,
    listens and serves, in that order, and stops at the first call that fails, except that it
    goes on without a client of the odds feed.  The gateway calls in turn the wallet service,
    the odds feed and the sportsbook, of which it can lack the last two, and Redis when that
    is the limiter's backend, and then serves. *)
Theorem services_start_in_order :
  starts (opens "file://wallet/migrations" (cw_DatabaseURL LoadWallet)) (wallet_script LoadWallet)
    (wallet_main (T := T)) /\
  starts (opens "file://internal/sportsbook/migrations" (cs_DatabaseURL LoadSportsbook))
    (sportsbook_script LoadSportsbook) (sportsbook_main (T := T)) /\
  starts (opens "file://internal/oddsfeed/migrations" (co_DatabaseURL LoadOddsFeed))
    (oddsfeed_script LoadOddsFeed) (oddsfeed_main (T := T)) /\
  performs (gateway_script LoadGateway) (gateway_main (T := T)).
Proof.
  split_and!; [apply wallet_starts|apply sportsbook_starts|apply oddsfeed_starts|apply gateway_performs].
Qed.
End Programs.

(** ** The sportsbook without its odds feed *)
Section NoFeed.
Context {S : Type} `{E : GoEnv, D : Decimal}.

(** Without a client of the odds feed a new bet is no error for its user: the call panics. *)
Lemma no_odds_client_panics eventID marketID outcomeID (w : World S) :
  current_odds (OF := nil_odds_client) eventID marketID outcomeID w =
  (Panic "invalid memory address or nil pointer dereference", w).
Proof. reflexivity. Qed.
End NoFeed.

Module StartupDemo.
Import Demo BetDemo.

(** A machine where the calls [refused] names fail. *)
Definition machine (refused : sys -> bool) : Os :=
  {| os_answer _ a := if refused a then Some (ErrNew "refused") else None |}.
Definition fresh : World (Process State) := mkWorld 0 (mkProcess (NewBetMemory, 0%nat) []).
Definition sportsbook_on (refused : sys -> bool) : res unit * list sys :=
  let (r, x) := sportsbook_main (O := machine refused) fresh in (r, (trace x).*1).

Definition opening (source : string) : list sys :=
  [SqlOpen "pgx" (cs_DatabaseURL LoadSportsbook); DBPing; SqlOpen "pgx" (cs_DatabaseURL LoadSportsbook);
   PgxWithInstance; MigrateNew source; MigrateUp; DBClose].

Example sportsbook_serves :
  sportsbook_on (fun _ => false) =
  (Ok tt, opening "file://internal/sportsbook/migrations" ++
    [GrpcNewClient (cs_WalletServiceAddr LoadSportsbook);
     GrpcNewClient (cs_OddsFeedServiceAddr LoadSportsbook);
     Go (HealthServer (cs_Port LoadSportsbook)); Go (SettleScheduler (60 * 1000000000));
     Listen ":50053"; GrpcServe ":50053"]).
Proof. vm_compute. reflexivity. Qed.

Example sportsbook_not_migrated :
  sportsbook_on (fun a => bool_decide (a = MigrateUp)) =
  (Err (ErrWrap "failed to run migrations" (ErrNew "refused")),
   opening "file://internal/sportsbook/migrations").
Proof. vm_compute. reflexivity. Qed.
End StartupDemo.
