(* ===== verification/BetProg.v ===== *)
(** * BetProg: the sportsbook's handlers as programs of calls

    [internal/sportsbook/service.go] and [scheduler.go] call by call: the clock, the store
    (each method is one statement, or runs under the store's mutex), the wallet and the odds
    feed.  In one go the programs are the operations of BetService. *)

From S2P Require Import Prelude GoStd GoJson Decimal OddsModels TxProg BetStore BetStoreProps BetService BetLifecycle.

Inductive bet_call : Type -> Type :=
| TimeNow : bet_call Z
| CreateBet (b : Bet) : bet_call string
| GetBet (id : string) : bet_call Bet
| GetBetByReference (userID referenceID : string) : bet_call Bet
| ListPendingBets (page pageSize : Z) : bet_call (list Bet)
| UpdateBetStatus (id status : string) (settledAt : Z) : bet_call unit
| UpdateBetStatusAndDebitTx (id status debitTxID : string) (settledAt : Z) : bet_call unit
| UpdateBetStatusAndOutcome (id status : string) (settledAt : Z) : bet_call unit
| SetCreditTransactionID (id creditTxID : string) : bet_call unit
| DebitWallet (userID currency amount referenceID : string) (md : Metadata) : bet_call string
| CreditWallet (userID currency amount referenceID : string) (md : Metadata) : bet_call string
| GetEvent (id : string) : bet_call (option pbEvent)
| ListMarkets (eventID status : string) (page pageSize : Z) : bet_call (list pbMarket)
| ListOutcomes (marketID status : string) (page pageSize : Z) : bet_call (list pbOutcome).

(** What a call does. *)
Definition does {S} `{E : GoEnv, BS : BetStore S, WC : WalletClient S, OF : OddsFeedClient S}
    B (c : bet_call B) : M S B :=
  match c with
  | TimeNow => time_now
  | CreateBet b => bets_CreateBet b
  | GetBet id => bets_GetBet id
  | GetBetByReference u ref => bets_GetBetByReference u ref
  | ListPendingBets page n => bets_ListPendingBets page n
  | UpdateBetStatus id st t => bets_UpdateBetStatus id st t
  | UpdateBetStatusAndDebitTx id st tx t => bets_UpdateBetStatusAndDebitTx id st tx t
  | UpdateBetStatusAndOutcome id st t => bets_UpdateBetStatusAndOutcome id st t
  | SetCreditTransactionID id tx => bets_SetCreditTransactionID id tx
  | DebitWallet u c a ref md => wc_DebitWallet u c a ref md
  | CreditWallet u c a ref md => wc_CreditWallet u c a ref md
  | GetEvent id => ofc_GetEvent id
  | ListMarkets e st page n => ofc_ListMarkets e st page n
  | ListOutcomes m st page n => ofc_ListOutcomes m st page n
  end.

#[local] Abbreviation P := (calls bet_call).
Definition p_call {A} (c : bet_call A) : P A := c_call c.

Section Programs.
Context `{D : Decimal, GT : GrpcText}.

Definition existing_bet_prog (userID referenceID : string) : P (option Bet) :=
  r ← c_attempt (p_call (GetBetByReference userID referenceID));
  match r with
  | Ok existing => mret (Some existing)
  | Err err =>
      if errors_Is err ErrBetNotFound then mret None
      else mthrow (ErrWrap "check existing bet" err)
  | Panic p => c_res (Panic p)
  end.

Definition current_odds_prog (eventID marketID outcomeID : string) : P string :=
  event ← c_wrapped "validate event" (p_call (GetEvent eventID));
  match event with
  | None => mthrow (ErrNew "event not found")
  | Some ev =>
      if decide (pev_Id ev = "") then mthrow (ErrNew "event not found")
      else
        markets ← c_wrapped "list markets" (p_call (ListMarkets eventID "active" 1 100));
        match list_find (fun m => pmk_Id m = marketID) markets with
        | None => mthrow (ErrNew "market not found or not active for event")
        | Some _ =>
            outcomes ← c_wrapped "list outcomes" (p_call (ListOutcomes marketID "active" 1 100));
            match list_find (fun o => poc_Id o = outcomeID) outcomes with
            | None => mthrow (ErrNew "outcome not found or not active for market")
            | Some (_, outcome) =>
                c_wrapped "invalid outcome odds" (c_res (parseDecimal (poc_Odds outcome)));;
                mret (poc_Odds outcome)
            end
        end
  end.

Definition debit_stake_prog (bet : Bet) : P Bet :=
  r ← c_attempt (p_call (DebitWallet (bet_UserID bet) (bet_Currency bet) (bet_Stake bet)
                 (bet_ReferenceID bet)
                 (stake_metadata (bet_EventID bet) (bet_MarketID bet) (bet_OutcomeID bet)
                    (bet_Odds bet) (bet_ReferenceID bet))));
  match r with
  | Ok debitTxID =>
      let bet := bet_set_DebitTx debitTxID bet in
      c_wrapped "finalize bet after debit"
        (p_call (UpdateBetStatusAndDebitTx (bet_ID bet) StatusPending debitTxID time_zero));;
      mret (bet_set_Status StatusPending bet)
  | Err err =>
      now ← p_call TimeNow;
      c_ignore (p_call (UpdateBetStatus (bet_ID bet) StatusCancelled now));;
      mthrow (ErrWrap "debit stake" err)
  | Panic p => c_res (Panic p)
  end.

Definition place_prog (userID eventID marketID outcomeID stake currency referenceID : string) : P Bet :=
  if decide (userID = "" \/ eventID = "" \/ marketID = "" \/ outcomeID = "" \/
             stake = "" \/ currency = "" \/ referenceID = "")
  then mthrow (ErrNew "missing required bet field")
  else
    gt ← c_wrapped "invalid stake" (c_res (decimalGreaterThanZero stake));
    if negb gt then mthrow (ErrNew "stake must be greater than zero")
    else
      existing ← existing_bet_prog userID referenceID;
      match existing with
      | Some b => mret b
      | None =>
          odds ← current_odds_prog eventID marketID outcomeID;
          potentialPayout ← c_wrapped "calculate payout" (c_res (multiplyDecimal stake odds));
          created ← p_call TimeNow;
          let bet := mkBet "" userID eventID marketID outcomeID odds stake potentialPayout
                       currency StatusDebitPending referenceID "" "" created None in
          r ← c_attempt (p_call (CreateBet bet));
          match r with
          | Ok id => debit_stake_prog (bet_set_ID id bet)
          | Err err =>
              if errors_Is err ErrBetNotFound
              then c_wrapped "create bet conflict" (p_call (GetBetByReference userID referenceID))
              else mthrow (ErrWrap "create bet" err)
          | Panic p => c_res (Panic p)
          end
      end.

Definition must_get_prog (id : string) : P Bet :=
  r ← c_attempt (p_call (GetBet id));
  match r with
  | Ok b => mret b
  | _ => mret (mkBet id "" "" "" "" "" "" "" "" "" "" "" "" time_zero None)
  end.

Definition settle_credit_prog (bet : Bet) (outcome markErr creditErr recordErr prefix key : string)
    (amount : string) (now : Z) : P unit :=
  c_wrapped markErr (p_call (UpdateBetStatusAndOutcome (bet_ID bet) outcome now));;
  creditTxID ← c_wrapped creditErr
    (p_call (CreditWallet (bet_UserID bet) (bet_Currency bet) amount (prefix +:+ bet_ReferenceID bet)
       (settle_metadata (bet_ID bet) outcome key amount)));
  c_wrapped recordErr (p_call (SetCreditTransactionID (bet_ID bet) creditTxID)).

Definition settle_prog (betID outcome : string) : P Bet :=
  if decide (betID = "") then mthrow (ErrNew "bet id required")
  else if decide (outcome <> StatusWon /\ outcome <> StatusLost /\ outcome <> StatusCancelled)
  then mthrow (ErrNew ("invalid settlement outcome: " +:+ outcome))
  else
    bet ← c_wrapped "get bet" (p_call (GetBet betID));
    if decide (bet_Status bet <> StatusPending)
    then mthrow (ErrNew ("bet cannot be settled: status=" +:+ bet_Status bet))
    else
      now ← p_call TimeNow;
      (if decide (outcome = StatusWon)
       then settle_credit_prog bet StatusWon "mark bet won" "credit winnings"
              "record credit tx" "settle-" "payout" (bet_PotentialPayout bet) now
       else if decide (outcome = StatusLost)
       then c_wrapped "mark bet lost" (p_call (UpdateBetStatusAndOutcome (bet_ID bet) StatusLost now))
       else settle_credit_prog bet StatusCancelled "mark bet cancelled" "credit refund"
              "record refund tx" "cancel-" "refund" (bet_Stake bet) now);;
      must_get_prog (bet_ID bet).

Definition resolve_prog (eventID marketID outcomeID : string) : P string :=
  event ← p_call (GetEvent eventID);
  match event with
  | None => mthrow (ErrNew "event not found")
  | Some _ =>
      markets ← p_call (ListMarkets eventID "" 1 100);
      if negb (existsb (fun m => bool_decide (pmk_Id m = marketID)) markets)
      then mthrow (ErrNew "market not found")
      else
        outcomes ← p_call (ListOutcomes marketID "" 1 100);
        match list_find (fun o => poc_Id o = outcomeID) outcomes with
        | Some (_, o) =>
            if decide (poc_Status o = StatusWon \/ poc_Status o = StatusLost \/
                       poc_Status o = StatusCancelled)
            then mret (poc_Status o) else mret ""
        | None => mthrow (ErrNew "outcome not found")
        end
  end.

Definition auto_one_prog (bet : Bet) : P unit :=
  r ← c_attempt (resolve_prog (bet_EventID bet) (bet_MarketID bet) (bet_OutcomeID bet));
  match r with
  | Ok outcome =>
      if decide (outcome = "") then mret tt else c_ignore (settle_prog (bet_ID bet) outcome)
  | _ => mret tt
  end.

Fixpoint auto_pages_prog (fuel : nat) (page : Z) : P unit :=
  match fuel with
  | O => c_res (Panic out_of_fuel)
  | S fuel =>
      pending ← c_wrapped "list pending bets" (p_call (ListPendingBets page settlePageSize));
      if decide (pending = []) then mret tt
      else
        c_for_each pending auto_one_prog;;
        if Z.of_nat (length pending) <? settlePageSize then mret tt
        else auto_pages_prog fuel (int64 (page + 1))
  end.

Fixpoint run_bets_prog (bets : list Bet) : P (list log_line) :=
  match bets with
  | [] => mret []
  | bet :: bets =>
      r ← c_attempt (resolve_prog (bet_EventID bet) (bet_MarketID bet) (bet_OutcomeID bet));
      l ← match r with
          | Ok outcome =>
              if decide (outcome = "") then mret []
              else
                r ← c_attempt (settle_prog (bet_ID bet) outcome);
                match r with
                | Err err => mret [("auto settle bet",
                    [("bet_id", bet_ID bet); ("outcome", outcome); ("error", Error err)])]
                | _ => mret []
                end
          | Err err => mret [("resolve outcome status",
              [("bet_id", bet_ID bet); ("event_id", bet_EventID bet); ("error", Error err)])]
          | Panic p => c_res (Panic p)
          end;
      ls ← run_bets_prog bets;
      mret (l ++ ls)
  end.

Fixpoint run_pages_prog (fuel : nat) (page : Z) : P (list log_line) :=
  match fuel with
  | O => c_res (Panic out_of_fuel)
  | S fuel =>
      r ← c_attempt (p_call (ListPendingBets page schedulerPageSize));
      match r with
      | Err err => mret [("list pending bets", [("error", Error err)])]
      | Panic p => c_res (Panic p)
      | Ok bets =>
          if decide (bets = []) then mret []
          else
            l ← run_bets_prog bets;
            if Z.of_nat (length bets) <? schedulerPageSize then mret l
            else ls ← run_pages_prog fuel (int64 (page + 1)); mret (l ++ ls)
      end
  end.

(** One request to the service, or one tick of its scheduler. *)
Definition svc_prog (op : svc_op) : P unit :=
  match op with
  | SvcPlace u e m o stake c ref => c_ignore (place_prog u e m o stake c ref)
  | SvcSettle id o => c_ignore (settle_prog id o)
  | SvcAuto fuel => auto_pages_prog fuel 1
  | SvcRunOnce fuel => c_ignore (run_pages_prog fuel 1)
  end.
End Programs.

(** ** In one go *)
Section Equal.
Context {S : Type} `{E : GoEnv, BS : BetStore S, WC : WalletClient S, OF : OddsFeedClient S}.
Context `{D : Decimal, GT : GrpcText}.
#[local] Abbreviation equals p m := (meq (perform does p) m).

Create HintDb same_calls.
(** Both sides are built from the same calls, in the same order. *)
#[local] Ltac same_calls :=
  repeat first
    [ solve [auto 1 with same_calls nocore]
    | apply perform_attempt | apply perform_wrapped | apply perform_ignore
    | match goal with |- meq (perform _ (p_call ?c)) _ => exact (perform_call does c) end
    | apply perform_bind; [|intros ?] | apply perform_for_each; intros ?
    | case_match | intros ?w; reflexivity ].

Lemma existing_bet_same u ref : equals (existing_bet_prog u ref) (existing_bet u ref).
Proof. unfold existing_bet_prog, existing_bet. same_calls. Qed.
Lemma current_odds_same e m o : equals (current_odds_prog e m o) (current_odds e m o).
Proof. unfold current_odds_prog, current_odds. same_calls. Qed.
Lemma debit_stake_same b : equals (debit_stake_prog b) (debit_stake b).
Proof. unfold debit_stake_prog, debit_stake. same_calls. Qed.
#[local] Hint Resolve existing_bet_same current_odds_same debit_stake_same : same_calls.
Lemma place_same u e m o stake c ref :
  equals (place_prog u e m o stake c ref) (PlaceBet u e m o stake c ref).
Proof. unfold place_prog, PlaceBet. same_calls. Qed.

Lemma must_get_same id : equals (must_get_prog id) (mustGetBet id).
Proof. unfold must_get_prog, mustGetBet. same_calls. Qed.
Lemma settle_credit_same b o e1 e2 e3 pre key amount now :
  equals (settle_credit_prog b o e1 e2 e3 pre key amount now)
    (settle_with_credit b o e1 e2 e3 pre key amount now).
Proof. unfold settle_credit_prog, settle_with_credit. same_calls. Qed.
#[local] Hint Resolve must_get_same settle_credit_same : same_calls.
Lemma settle_same id o : equals (settle_prog id o) (SettleBet id o).
Proof. unfold settle_prog, SettleBet. same_calls. Qed.
Lemma resolve_same e m o : equals (resolve_prog e m o) (resolveOutcomeStatus e m o).
Proof. unfold resolve_prog, resolveOutcomeStatus. same_calls. Qed.
#[local] Hint Resolve settle_same resolve_same : same_calls.
Lemma auto_one_same b : equals (auto_one_prog b) (auto_settle_one b).
Proof. unfold auto_one_prog, auto_settle_one. same_calls. Qed.
Lemma run_bets_same bets : equals (run_bets_prog bets) (run_bets bets).
Proof. induction bets; cbn [run_bets_prog run_bets]; same_calls. Qed.
#[local] Hint Resolve auto_one_same run_bets_same : same_calls.
Lemma auto_pages_same fuel page : equals (auto_pages_prog fuel page) (auto_settle_pages fuel page).
Proof. revert page. induction fuel; intros page; cbn [auto_pages_prog auto_settle_pages]; same_calls. Qed.
Lemma run_pages_same fuel page : equals (run_pages_prog fuel page) (runOnce_pages fuel page).
Proof. revert page. induction fuel; intros page; cbn [run_pages_prog runOnce_pages]; same_calls. Qed.
Lemma svc_same op : equals (svc_prog op)
  (match op with
   | SvcPlace u e m o stake c ref => ignore (PlaceBet u e m o stake c ref)
   | SvcSettle id o => ignore (SettleBet id o)
   | SvcAuto fuel => AutoSettleFromEvents fuel
   | SvcRunOnce fuel => ignore (runOnce fuel)
   end).
Proof.
  destruct op; cbn [svc_prog]; unfold AutoSettleFromEvents, runOnce;
    try apply perform_ignore; auto using place_same, settle_same, auto_pages_same, run_pages_same.
Qed.
End Equal.

(** The programs that run side by side are the operations of the service: performed in one
    go each answers and leaves the same, over every wallet and odds feed. *)
Theorem bet_programs {S} `{LB : Lens S InMemoryStore, E : GoEnv, D : Decimal, GT : GrpcText}
    {WC : WalletClient S} {OF : OddsFeedClient S} op :
  meq (perform (does (BS := lens_BetStore)) (svc_prog op)) (run_svc op).
Proof. exact (svc_same (BS := lens_BetStore) op). Qed.
