(* ===== verification/BetConc.v ===== *)
(** * BetConc: the sportsbook's requests side by side

    Any number of requests and scheduler runs, interleaved call by call; between two calls
    of one everything may happen to the others and to the other services.  A call of the
    store or of another service can fail without effect, or have its effect and lose its
    answer; a request can break off anywhere (the process dies).  What happened is the
    history: bets created, stakes debited, bets confirmed, refused and marked with an
    outcome, and credits.

    The method: a program is safe if its own calls keep the invariant, whatever the others do
    between them that leaves alone the one bet it owns, the bet it is about to take the
    stake for. *)

From S2P Require Import Prelude GoStd GoJson Decimal OddsModels TxProg BetStore BetStoreProps BetService BetLifecycle BetProg.

(** ** Histories *)
Inductive bet_event : Type :=
| Created (b : Bet)
| Debited (userID currency amount referenceID : string) (answer : res string)
| Confirmed (id : string)
| Refused (id : string)
| Marked (id outcome : string)
| Credited (userID currency amount referenceID : string) (answer : res string).
#[local] Abbreviation history := (list bet_event).

(** What a call leaves in the history, given its effect. *)
Definition event_of {B} (c : bet_call B) : res B -> option bet_event :=
  match c with
  | CreateBet b => fun r => match r with Ok id => Some (Created (bet_set_ID id b)) | _ => None end
  | UpdateBetStatus id _ _ => fun r => match r with Ok _ => Some (Refused id) | _ => None end
  | UpdateBetStatusAndDebitTx id _ _ _ =>
      fun r => match r with Ok _ => Some (Confirmed id) | _ => None end
  | UpdateBetStatusAndOutcome id st _ =>
      fun r => match r with Ok _ => Some (Marked id st) | _ => None end
  | DebitWallet u c a ref _ => fun r => Some (Debited u c a ref r)
  | CreditWallet u c a ref _ => fun r => Some (Credited u c a ref r)
  | _ => fun _ => None
  end.

(** The clock always answers. *)
Definition fallible {B} (c : bet_call B) : bool :=
  match c with TimeNow => false | _ => true end.

(** ** The machine *)
Record Sportsbook (S : Type) : Type := mkSportsbook {
  sb_world : World S;
  sb_history : list bet_event;
  sb_requests : gmap nat (calls bet_call unit);
}.
Arguments mkSportsbook {S} _ _ _.
Arguments sb_world {S} _.
Arguments sb_history {S} _.
Arguments sb_requests {S} _.

Section Machine.
Context {S : Type} `{LB : Lens S InMemoryStore}.
Context `{E : GoEnv, D : Decimal, GT : GrpcText, WC : WalletClient S, OF : OddsFeedClient S}.
#[local] Existing Instance lens_BetStore.
#[local] Abbreviation Sportsbook := (Sportsbook S).

(** The effect of a call on the world and the history. *)
Definition effect {B} (c : bet_call B) (w : World S) (h : history) : res B * (World S * history) :=
  let (r, w') := does B c w in (r, (w', h ++ option_list (event_of c r))).

Definition outcome_of {B} (c : bet_call B) (f : fate) (w : World S) (h : history) :
    res B * (World S * history) :=
  let f := if fallible c then f else Answered in
  match f with
  | Answered => effect c w h
  | AnswerLost e => (Err e, (effect c w h).2)
  | NotDone e => (Err e, (w, h))
  end.

(** The next call of a request. *)
Definition advance (i : nat) (f : fate) (s : Sportsbook) : Sportsbook :=
  match sb_requests s !! i with
  | Some (Call c k) =>
      let '(r, (w, h)) := outcome_of c f (sb_world s) (sb_history s) in
      mkSportsbook w h (<[i := k r]> (sb_requests s))
  | _ => s
  end.

Definition arrive (i : nat) (op : svc_op) (s : Sportsbook) : Sportsbook :=
  mkSportsbook (sb_world s) (sb_history s) (<[i := svc_prog op]> (sb_requests s)).

Inductive sb_step (s : Sportsbook) : Sportsbook -> Prop :=
| sb_arrives i op : sb_requests s !! i = None -> sb_step s (arrive i op s)
| sb_advances i f : sb_step s (advance i f s)
| sb_ends i : sb_step s (mkSportsbook (sb_world s) (sb_history s) (delete i (sb_requests s)))
| sb_other w : bets_of w = bets_of (sb_world s) -> (w_tick (sb_world s) <= w_tick w)%nat ->
    sb_step s (mkSportsbook w (sb_history s) (sb_requests s)).

(** From an empty store, with the other services in any state. *)
Definition sb_init (s : Sportsbook) : Prop :=
  bets_of (sb_world s) = NewBetMemory /\ sb_history s = [] /\ sb_requests s = ∅.
Definition sb_reachable (s : Sportsbook) : Prop := exists s0, sb_init s0 /\ rtc sb_step s0 s.
End Machine.

(** ** Lawful histories *)

(** A bet was created and still has these terms. *)
Definition placed_as (h : history) (id : string) (b : Bet) : Prop :=
  exists b0, Created b0 ∈ h /\ bet_ID b0 = id /\ bet_terms b = bet_terms b0.

(** The status of a bet by its history. *)
Definition next_status (id : string) (st : option string) (ev : bet_event) : option string :=
  match ev with
  | Created b => if decide (bet_ID b = id) then Some StatusDebitPending else st
  | Confirmed i => if decide (i = id) then Some StatusPending else st
  | Refused i => if decide (i = id) then Some StatusCancelled else st
  | Marked i o => if decide (i = id) then Some o else st
  | _ => st
  end.
Definition status_in (h : history) (id : string) : option string := foldl (next_status id) None h.

(** When an event may follow a history. *)
Definition justified (h : history) (ev : bet_event) : Prop :=
  match ev with
  | Created b =>
      status_in h (bet_ID b) = None /\
      forall b0, Created b0 ∈ h -> bet_UserID b0 = bet_UserID b -> bet_ReferenceID b0 <> bet_ReferenceID b
  | Debited u c a ref _ =>
      (exists b, Created b ∈ h /\ status_in h (bet_ID b) = Some StatusDebitPending /\
         u = bet_UserID b /\ c = bet_Currency b /\ a = bet_Stake b /\ ref = bet_ReferenceID b) /\
      forall c' a' r', Debited u c' a' ref r' ∉ h
  | Confirmed id =>
      status_in h id = Some StatusDebitPending /\
      exists b tx, Created b ∈ h /\ bet_ID b = id /\
        Debited (bet_UserID b) (bet_Currency b) (bet_Stake b) (bet_ReferenceID b) (Ok tx) ∈ h
  | Refused id => status_in h id = Some StatusDebitPending
  | Marked id o => final o /\ Confirmed id ∈ h
  | Credited u c a ref _ =>
      exists b o, Created b ∈ h /\ Marked (bet_ID b) o ∈ h /\ o <> StatusLost /\
        u = bet_UserID b /\ c = bet_Currency b /\ a = settle_amount o b /\
        ref = settle_prefix o +:+ bet_ReferenceID b
  end.

Inductive lawful : history -> Prop :=
| lawful_nil : lawful []
| lawful_snoc h ev : lawful h -> justified h ev -> lawful (h ++ [ev]).

Implicit Types (h : history) (id : string).

(** ** What a lawful history says *)
Lemma status_in_snoc h ev id : status_in (h ++ [ev]) id = next_status id (status_in h id) ev.
Proof. unfold status_in. by rewrite foldl_app. Qed.
Lemma next_status_Some id st ev : is_Some st -> is_Some (next_status id st ev).
Proof. destruct ev; cbn; repeat case_decide; eauto. Qed.
Lemma elem_of_snoc {A} (x y : A) l : x ∈ l ++ [y] <-> x ∈ l \/ x = y.
Proof. by rewrite elem_of_app, list_elem_of_singleton. Qed.
Lemma not_elem_of_snoc {A} (x y : A) l : x ∉ l -> x <> y -> x ∉ l ++ [y].
Proof. rewrite elem_of_snoc. tauto. Qed.

Lemma created_status h b : lawful h -> Created b ∈ h -> is_Some (status_in h (bet_ID b)).
Proof.
  intros Hl. revert b. induction Hl as [|h ev Hl IH Hj]; intros b; [by intros ?%elem_of_nil|].
  rewrite status_in_snoc. intros [Hb| <-]%elem_of_snoc; [by apply next_status_Some, IH|].
  cbn. rewrite decide_True by done. eauto.
Qed.

Lemma final_statuses o : final o -> o <> StatusDebitPending /\ o <> StatusPending.
Proof. by intros [->|[->| ->]]. Qed.

(** A bet once confirmed is never waiting for its stake again. *)
Lemma confirmed_status h id : lawful h -> Confirmed id ∈ h ->
  exists st, status_in h id = Some st /\ st <> StatusDebitPending.
Proof.
  induction 1 as [|h ev Hl IH Hj]; [by intros ?%elem_of_nil|].
  rewrite status_in_snoc. intros [Hc| <-]%elem_of_snoc.
  - destruct (IH Hc) as (st & Hst & Hne). rewrite Hst.
    destruct ev as [b|u c a r x|i|i|i o|u c a r x]; cbn in *; try (by exists st);
      (case_decide as He; [subst|by exists st]).
    + destruct Hj as [Hn _]. congruence.
    + by exists StatusPending.
    + by exists StatusCancelled.
    + exists o. split; [done|]. apply final_statuses, Hj.
  - cbn. rewrite decide_True by done. by exists StatusPending.
Qed.

Lemma pending_confirmed h id : lawful h -> status_in h id = Some StatusPending -> Confirmed id ∈ h.
Proof.
  induction 1 as [|h ev Hl IH Hj]; [done|]. rewrite status_in_snoc, elem_of_snoc.
  destruct ev as [b|u c a r x|i|i|i o|u c a r x]; cbn; try (left; by apply IH);
    (case_decide as He; [subst|left; by apply IH]).
  - done.
  - by right.
  - done.
  - intros [= ->]. by destruct (proj2 (final_statuses _ (proj1 Hj))).
Qed.

(** Events are justified by what came before them, and so by the whole history. *)
Lemma confirmed_stake h id : lawful h -> Confirmed id ∈ h ->
  exists b tx, Created b ∈ h /\ bet_ID b = id /\
    Debited (bet_UserID b) (bet_Currency b) (bet_Stake b) (bet_ReferenceID b) (Ok tx) ∈ h.
Proof.
  induction 1 as [|h ev Hl IH Hj]; [by intros ?%elem_of_nil|].
  intros [Hc| <-]%elem_of_snoc.
  - destruct (IH Hc) as (b & tx & H1 & H2 & H3). exists b, tx. rewrite !elem_of_snoc. auto.
  - destruct Hj as [_ (b & tx & H1 & H2 & H3)]. exists b, tx. rewrite !elem_of_snoc. auto.
Qed.
Lemma debited_created h u c a ref r : lawful h -> Debited u c a ref r ∈ h ->
  exists b, Created b ∈ h /\ u = bet_UserID b /\ c = bet_Currency b /\ a = bet_Stake b /\
    ref = bet_ReferenceID b.
Proof.
  induction 1 as [|h ev Hl IH Hj]; [by intros ?%elem_of_nil|].
  intros [Hc| <-]%elem_of_snoc.
  - destruct (IH Hc) as (b & H1 & H2). exists b. rewrite elem_of_snoc. auto.
  - destruct Hj as [(b & H1 & _ & H2) _]. exists b. rewrite elem_of_snoc. auto.
Qed.
Lemma marked_confirmed h id o : lawful h -> Marked id o ∈ h -> final o /\ Confirmed id ∈ h.
Proof.
  induction 1 as [|h ev Hl IH Hj]; [by intros ?%elem_of_nil|].
  rewrite (elem_of_snoc (Confirmed id)). intros [Hc| <-]%elem_of_snoc.
  - destruct (IH Hc). auto.
  - destruct Hj. auto.
Qed.

Lemma created_inj h b b' : lawful h -> Created b ∈ h -> Created b' ∈ h ->
  bet_ID b = bet_ID b' \/ (bet_UserID b = bet_UserID b' /\ bet_ReferenceID b = bet_ReferenceID b') ->
  b = b'.
Proof.
  intros Hl. revert b b'. induction Hl as [|h ev Hl IH Hj]; intros b b'; [by intros ?%elem_of_nil|].
  assert (forall c, Created c ∈ h -> ev = Created b' ->
    bet_ID c = bet_ID b' \/ (bet_UserID c = bet_UserID b' /\ bet_ReferenceID c = bet_ReferenceID b') ->
    False) as Hnew.
  { intros c Hc -> [He|[Hu Hr]]; destruct Hj as [Hn Hf].
    - destruct (created_status h c Hl Hc) as [st Hst]. congruence.
    - by apply (Hf c). }
  intros [Hb|Hb]%elem_of_snoc [Hb'|Hb']%elem_of_snoc He.
  - by apply IH.
  - by destruct (Hnew b).
  - subst ev. destruct Hj as [Hn Hf]. destruct He as [He|[Hu Hr]].
    + destruct (created_status h b' Hl Hb') as [st Hst]. congruence.
    + by destruct (Hf b' Hb').
  - congruence.
Qed.

(** ** What stands in a lawful history *)
Lemma lawful_prefix h1 h2 : lawful (h1 ++ h2) -> lawful h1.
Proof.
  induction h2 as [|ev h2 IH] using rev_ind; [by rewrite app_nil_r|]. rewrite app_assoc.
  intros Hl. inversion Hl as [Hn|h ev' Hl' Hj Heq]; [by destruct (h1 ++ h2)|].
  apply app_inj_tail in Heq as [-> _]. auto.
Qed.
Lemma lawful_justified h1 ev h2 : lawful (h1 ++ ev :: h2) -> justified h1 ev.
Proof.
  rewrite cons_middle, app_assoc. intros Hl%lawful_prefix.
  inversion Hl as [Hn|h ev' Hl' Hj Heq]; [by destruct h1|].
  by apply app_inj_tail in Heq as [-> ->].
Qed.

(** Debits under one reference of one user happen once. *)
Lemma debited_once h1 h2 u c a ref r c' a' r' : lawful (h1 ++ Debited u c a ref r :: h2) ->
  Debited u c' a' ref r' ∉ h1 ++ h2.
Proof.
  intros Hl [Hin|Hin]%elem_of_app.
  - by apply (proj2 (lawful_justified _ _ _ Hl) c' a' r').
  - apply list_elem_of_split in Hin as (h3 & h4 & ->).
    rewrite app_comm_cons, app_assoc in Hl. apply (proj2 (lawful_justified _ _ _ Hl) c a r).
    apply elem_of_app. right. left.
Qed.

Lemma settle_prefix_inj o o' r r' : settle_prefix o +:+ r = settle_prefix o' +:+ r' ->
  settle_prefix o = settle_prefix o' /\ r = r'.
Proof.
  unfold settle_prefix. intros H. repeat case_decide; try discriminate H;
    injection H as H; (split; [done|exact H]).
Qed.

(** ** The bet a request owns *)

(** A request owns the bet it created until the bet is confirmed or refused: before its
    stake was asked for, and after. *)
Inductive own : Type :=
| Nothing
| Fresh (b : Bet)
| Asked (b : Bet).

Definition owned (o : own) : option string :=
  match o with Nothing => None | Fresh b | Asked b => Some (bet_ID b) end.
Definition holds (o : own) h : Prop :=
  match o with
  | Nothing => True
  | Fresh b => Created b ∈ h /\ status_in h (bet_ID b) = Some StatusDebitPending /\
      forall c a r, Debited (bet_UserID b) c a (bet_ReferenceID b) r ∉ h
  | Asked b => Created b ∈ h /\ status_in h (bet_ID b) = Some StatusDebitPending
  end.
Definition other (x o : own) : Prop := forall id, owned x = Some id -> owned o <> Some id.

(** An event that is none of the bet's business. *)
Definition foreign (b : Bet) (ev : bet_event) : Prop :=
  match ev with
  | Created b' => bet_ID b' <> bet_ID b
  | Debited u _ _ ref _ => u <> bet_UserID b \/ ref <> bet_ReferenceID b
  | Confirmed id | Refused id | Marked id _ => id <> bet_ID b
  | Credited _ _ _ _ _ => True
  end.
Lemma foreign_status b st ev : foreign b ev -> next_status (bet_ID b) st ev = st.
Proof. destruct ev; cbn; intros H; try done; by rewrite decide_False. Qed.
Lemma holds_snoc x h ev : holds x h ->
  (forall b, owned x = Some (bet_ID b) -> Created b ∈ h -> foreign b ev) -> holds x (h ++ [ev]).
Proof.
  destruct x as [|b|b]; [done|..]; cbn [holds owned]; intros H Hf.
  - destruct H as (Hc & Hs & Hd). specialize (Hf b eq_refl Hc).
    rewrite status_in_snoc, foreign_status, elem_of_snoc by done. split_and!; [by left|done|].
    intros c a r. apply not_elem_of_snoc; [apply Hd|]. intros <-. by destruct Hf.
  - destruct H as [Hc Hs]. specialize (Hf b eq_refl Hc).
    rewrite status_in_snoc, foreign_status, elem_of_snoc by done. split; [by left|done].
Qed.
Lemma holds_status x h id : holds x h -> owned x = Some id -> status_in h id = Some StatusDebitPending.
Proof. by destruct x as [|b|b]; cbn; [|intros (_ & H & _) [= <-]|intros (_ & H) [= <-]]. Qed.
