(* ===== verification/BetConcSafe.v ===== *)
(** * BetConcSafe: every request of the sportsbook is safe

    The invariant of the store and the history, the steps that keep it and leave alone what
    other requests own, and that the programs of BetProg only take such steps, whatever the
    others do between them. *)

From S2P Require Import Prelude GoStd GoJson Decimal Demo OddsModels TxProg BetStore BetStoreProps BetService BetLifecycle BetProg BetConc.

#[local] Abbreviation history := (list bet_event).
Implicit Types (h : history) (id : string).

Create HintDb bet_calls.

(** ** The invariant of the store and the history *)
Section Safety.
Context {S : Type} `{LB : Lens S InMemoryStore, LL : !LensLaws LB}.
Context `{E : GoEnv, EL : !GoEnvLaws E, L : DecimalLaws, GT : GrpcText}.
Context {WC : WalletClient S} {OF : OddsFeedClient S} `{CO : !ClientsOutside WC OF}.
#[local] Existing Instance lens_BetStore.
Implicit Types (w : World S).

Record sb_inv w h : Prop := {
  si_svc : svc_inv w;
  si_lawful : lawful h;
  si_status : forall id, bet_Status <$> bets_of w !! id = status_in h id;
  si_created : forall b0, Created b0 ∈ h ->
    exists b, bets_of w !! bet_ID b0 = Some b /\ bet_terms b = bet_terms b0;
  si_placed : forall id b, bets_of w !! id = Some b -> placed_as h id b;
}.

Lemma sb_inv_same w w' h : sb_inv w h -> bets_of w' = bets_of w -> (w_tick w <= w_tick w')%nat -> sb_inv w' h.
Proof.
  intros [H1 H2 H3 H4 H5] Hb Ht. constructor; rewrite ?Hb; try done.
  exact (proj1 (evolves_same w w' Hb Ht) H1).
Qed.

Lemma placed_snoc h ev id b : placed_as h id b -> placed_as (h ++ [ev]) id b.
Proof. intros (b0 & H & ?). exists b0. rewrite elem_of_snoc. auto. Qed.

(** An event that no bet's status tells of: money was asked for or paid. *)
Lemma sb_inv_money w h ev : sb_inv w h -> justified h ev ->
  (forall id st, next_status id st ev = st) -> (forall b, ev <> Created b) -> sb_inv w (h ++ [ev]).
Proof.
  intros [H1 H2 H3 H4 H5] Hj Hs Hc. constructor; [done|by constructor|..].
  - intros id. by rewrite status_in_snoc, Hs.
  - intros b0 [Hb|Hb]%elem_of_snoc; [by apply H4|]. by destruct (Hc b0).
  - intros id b Hb. by apply placed_snoc, H5.
Qed.

(** One record was updated; its terms stay. *)
Lemma sb_inv_update w h evs id b b' : sb_inv w h -> bets_of w !! id = Some b ->
  bet_terms b' = bet_terms b -> lawful (h ++ evs) -> (forall c, Created c ∈ evs -> False) ->
  status_in (h ++ evs) id = Some (bet_Status b') ->
  (forall i, i <> id -> status_in (h ++ evs) i = status_in h i) ->
  sb_inv (with_bets (<[id := b']> (bets_of w)) w) (h ++ evs).
Proof.
  intros [[Hi Hd] H2 H3 H4 H5] Hb Ht Hl Hn Hs Ho. constructor.
  - split; rewrite bets_with.
    + eapply inv_update; [done|done|]. by apply terms_same_key.
    + intros i Hi'. cbn. apply Hd. destruct (decide (i = id)) as [->|]; [by exists b|].
      by rewrite lookup_insert_ne in Hi'.
  - done.
  - intros i. rewrite bets_with. destruct (decide (i = id)) as [->|Hne].
    + by rewrite lookup_insert_eq.
    + rewrite lookup_insert_ne, Ho by done. apply H3.
  - intros b0 [Hb0|Hb0]%elem_of_app; [|by destruct (Hn b0)].
    destruct (H4 b0 Hb0) as (c & Hc & Hct). rewrite bets_with.
    destruct (decide (bet_ID b0 = id)) as [He|Hne].
    + rewrite He, lookup_insert_eq. exists b'. split; [done|]. rewrite He in Hc. congruence.
    + rewrite lookup_insert_ne by done. by exists c.
  - intros i c. rewrite bets_with. intros [[<- <-]|[_ Hc]]%lookup_insert_Some.
    + destruct (H5 _ _ Hb) as (b0 & H0 & Hid & H0t). exists b0. rewrite elem_of_app.
      split_and!; [by left|done|congruence].
    + destruct (H5 _ _ Hc) as (b0 & H0 & Hid & H0t). exists b0. rewrite elem_of_app. auto.
Qed.

Lemma sb_inv_event w h ev id b b' : sb_inv w h -> bets_of w !! id = Some b ->
  bet_terms b' = bet_terms b -> justified h ev ->
  (forall st, next_status id st ev = Some (bet_Status b')) ->
  (forall i st, i <> id -> next_status i st ev = st) -> (forall b, ev <> Created b) ->
  sb_inv (with_bets (<[id := b']> (bets_of w)) w) (h ++ [ev]).
Proof.
  intros Hi Hb Ht Hj Hs Ho Hc. apply (sb_inv_update w h [ev] id b); try done.
  - constructor; [apply Hi|done].
  - intros c Hev%list_elem_of_singleton. by destruct (Hc c).
  - by rewrite status_in_snoc, Hs.
  - intros i Hne. by rewrite status_in_snoc, Ho.
Qed.

Lemma sb_inv_create w w' h id k b t : sb_inv w h -> id = uuid_at k ->
  (w_tick w <= k < w_tick w')%nat -> ~ has_reference (bet_UserID b) (bet_ReferenceID b) (bets_of w) ->
  bets_of w' = <[id := created_bet b id t]> (bets_of w) -> bet_Status b = StatusDebitPending ->
  status_in h id = None /\ sb_inv w' (h ++ [Created (bet_set_ID id b)]).
Proof.
  intros Hi Hid Hk Hno Hw Hst.
  assert (bets_of w !! id = None) as Hfresh.
  { destruct (bets_of w !! id) as [c|] eqn:Hc; [|done]. destruct (si_svc _ _ Hi) as [_ Hd].
    destruct (Hd id ltac:(by exists c)) as (j & Hj & Heq). rewrite Hid in Heq. apply uuid_inj in Heq. lia. }
  pose proof (evolves_create w w' id k b t (si_svc _ _ Hi) Hid Hk Hno Hw) as (Hinv & _ & _).
  destruct Hi as [H1 H2 H3 H4 H5].
  assert (status_in h id = None) as Hsn by by rewrite <- H3, Hfresh.
  assert (bet_terms (created_bet b id t) = bet_terms (bet_set_ID id b)) as Ht.
  { unfold created_bet. cbv zeta. by destruct (IsZero _). }
  split; [done|]. constructor.
  - by apply Hinv.
  - constructor; [done|]. split; [done|]. cbn. intros b0 Hb0 Hu Hr.
    destruct (H4 b0 Hb0) as (c & Hc & Hct). apply Hno. exists (bet_ID b0), c.
    apply terms_same_key in Hct as (_ & Hcu & Hcr). split_and!; [done|congruence|congruence].
  - intros i. rewrite Hw, status_in_snoc. cbn. case_decide as He.
    + subst i. rewrite lookup_insert_eq. cbn. f_equal.
      by rewrite (proj2 (proj2 (proj2 (created_same_key b id t)))).
    + rewrite lookup_insert_ne by done. apply H3.
  - intros b0 [Hb0|[= ->]]%elem_of_snoc; rewrite Hw; cbn.
    + destruct (H4 b0 Hb0) as (c & Hc & Hct). exists c. rewrite lookup_insert_ne; [done|]. congruence.
    + rewrite lookup_insert_eq. by exists (created_bet b id t).
  - intros i c. rewrite Hw. intros [[<- <-]|[_ Hc]]%lookup_insert_Some.
    + exists (bet_set_ID id b). rewrite elem_of_snoc. auto.
    + by apply placed_snoc, H5.
Qed.

(** ** Safe programs *)

(** A step of a request that owns [o] and then owns [o']. *)
Record ok_step (o : own) h (o' : own) w' h' : Prop := {
  os_inv : sb_inv w' h';
  os_grows : h `prefix_of` h';
  os_holds : holds o' h';
  os_others : forall x, other x o -> holds x h -> holds x h';
  os_owned : owned o' = owned o \/ owned o' = None \/
    exists id, owned o' = Some id /\ status_in h id = None;
}.

Fixpoint safe {A} (p : calls bet_call A) (Q : res A -> own -> history -> Prop) (o : own) h : Prop :=
  match p with
  | Return r => Q r o h
  | Call c k => forall w h1 f, h `prefix_of` h1 -> holds o h1 -> sb_inv w h1 ->
      let '(r, (w2, h2)) := outcome_of c f w h1 in
      exists o', ok_step o h1 o' w2 h2 /\ safe (k r) Q o' h2
  end.

Lemma safe_weaken {A} (p : calls bet_call A) (Q Q' : res A -> own -> history -> Prop) o h :
  safe p Q o h -> (forall r o h, Q r o h -> Q' r o h) -> safe p Q' o h.
Proof.
  intros Hp HQ. revert o h Hp. induction p as [r|B c k IH]; intros o h; cbn; [apply HQ|].
  intros H w h1 f Hh Ho Hi. specialize (H w h1 f Hh Ho Hi).
  destruct (outcome_of c f w h1) as [r [w2 h2]]. destruct H as (o' & Hs & H). eauto.
Qed.

(** What the rest of the program has to do with its result. *)
Definition then_safe {A B} (f : A -> calls bet_call B) (Q : res B -> own -> history -> Prop)
    (r : res A) (o : own) h : Prop :=
  match r with Ok a => safe (f a) Q o h | Err e => Q (Err e) o h | Panic m => Q (Panic m) o h end.
Lemma safe_bind {A B} (p : calls bet_call A) (f : A -> calls bet_call B) Q o h :
  safe p (then_safe f Q) o h -> safe (p ≫= f) Q o h.
Proof.
  revert o h. induction p as [[a|e|m]|C c k IH]; intros o h; cbn; try done.
  intros H w h1 fa Hh Ho Hi. specialize (H w h1 fa Hh Ho Hi).
  destruct (outcome_of c fa w h1) as [r [w2 h2]]. destruct H as (o' & Hs & H). eauto.
Qed.
Lemma safe_end {A B} (g : res A -> res B) (p : calls bet_call A) Q o h :
  safe p (fun r => Q (g r)) o h -> safe (c_end g p) Q o h.
Proof.
  revert o h. induction p as [r|C c k IH]; intros o h; cbn; [done|].
  intros H w h1 fa Hh Ho Hi. specialize (H w h1 fa Hh Ho Hi).
  destruct (outcome_of c fa w h1) as [r [w2 h2]]. destruct H as (o' & Hs & H). eauto.
Qed.

(** Only that the program is safe. *)
Definition safely {A} : res A -> own -> history -> Prop := fun _ _ _ => True.
Lemma safely_later {A} (p : calls bet_call A) o h h' :
  safe p safely o h -> h `prefix_of` h' -> safe p safely o h'.
Proof.
  destruct p as [r|B c k]; [done|]. cbn. intros H Hh w h1 f Hh1. apply H. by etrans.
Qed.

(** ** The calls one by one *)

(** A call that leaves the bets and the history alone. *)
Definition quiet {B} (c : bet_call B) : Prop :=
  (forall r, event_of c r = None) /\
  forall w, bets_of (does B c w).2 = bets_of w /\ (w_tick w <= w_tick (does B c w).2)%nat.

Lemma ok_step_same o h w : sb_inv w h -> holds o h -> ok_step o h o w h.
Proof. intros. constructor; auto. Qed.
Lemma ok_step_drop o h w : sb_inv w h -> ok_step o h Nothing w h.
Proof. intros. constructor; cbn; auto. Qed.

Lemma quiet_outcome {B} (c : bet_call B) f w h : quiet c -> sb_inv w h ->
  exists r w2, outcome_of c f w h = (r, (w2, h)) /\ sb_inv w2 h /\
    (forall b, r = Ok b -> (does B c w).1 = Ok b).
Proof.
  intros [He Hq] Hi. destruct (Hq w) as [Hb Ht].
  assert (effect c w h = ((does B c w).1, ((does B c w).2, h))) as Hef.
  { unfold effect. destruct (does B c w) as [r w']. by rewrite He, app_nil_r. }
  assert (sb_inv (does B c w).2 h) as Hi' by by eapply sb_inv_same.
  unfold outcome_of. rewrite Hef. destruct (fallible c); [destruct f|]; eexists _, _; split_and!; try done.
Qed.

Lemma safe_quiet {B} (c : bet_call B) Q o h : quiet c ->
  (forall r h1, h `prefix_of` h1 -> holds o h1 -> Q r o h1) -> safe (p_call c) Q o h.
Proof.
  intros Hq HQ w h1 f Hh Ho Hi. destruct (quiet_outcome c f w h1 Hq Hi) as (r & w2 & -> & Hi2 & _).
  exists o. split; [by apply ok_step_same|]. by apply HQ.
Qed.

Lemma quiet_outside {B} (c : bet_call B) : (forall r, event_of c r = None) -> outside (does B c) -> quiet c.
Proof. intros He Ho. split; [done|]. intros w. split; [by apply outside_bets|by apply Ho]. Qed.
Lemma quiet_zoom {B} (c : bet_call B) (m : M InMemoryStore B) : (forall r, event_of c r = None) ->
  does B c = zoom m -> (forall n s, exists r k, m (mkWorld n s) = (r, mkWorld k s) /\ (n <= k)%nat) -> quiet c.
Proof.
  intros He Hd Hm. split; [done|]. intros w. rewrite Hd, zoom_with.
  destruct (Hm (w_tick w) (bets_of w)) as (r & k & -> & Hk). cbn. split; [|done].
  unfold bets_of, part. cbn. apply lget_lset.
Qed.

Lemma quiet_time : quiet TimeNow.
Proof. split; [done|]. intros w. cbn [does]. unmonad. cbn. split; [done|lia]. Qed.
Lemma quiet_get id : quiet (GetBet id).
Proof.
  apply (quiet_zoom _ (InMemoryStore_GetBet id)); [done|done|]. intros n s.
  unfold InMemoryStore_GetBet. unmonad. destruct (s !! id); by eexists _, n.
Qed.
Lemma quiet_ref u ref : quiet (GetBetByReference u ref).
Proof.
  apply (quiet_zoom _ (InMemoryStore_GetBetByReference u ref)); [done|done|]. intros n s.
  unfold InMemoryStore_GetBetByReference. unmonad.
  destruct (list_find _ _) as [[? [? ?]]|]; eexists _, (Datatypes.S n); (split; [done|lia]).
Qed.
Lemma quiet_list p n : quiet (ListPendingBets p n).
Proof.
  apply (quiet_zoom _ (InMemoryStore_ListPendingBets p n)); [done|done|]. intros t s.
  unfold InMemoryStore_ListPendingBets. unmonad. eexists _, (Datatypes.S t). split; [done|lia].
Qed.
Lemma quiet_event e : quiet (GetEvent e).
Proof. apply quiet_outside; [done|]. apply event_outside. Qed.
Lemma quiet_markets e st p n : quiet (ListMarkets e st p n).
Proof. apply quiet_outside; [done|]. apply markets_outside. Qed.
Lemma quiet_outcomes m st p n : quiet (ListOutcomes m st p n).
Proof. apply quiet_outside; [done|]. apply outcomes_outside. Qed.

(** A call with an effect: answered, or with its answer lost, or not carried out. *)
Lemma safe_call {B} (c : bet_call B) Q o h :
  (forall w h1, h `prefix_of` h1 -> holds o h1 -> sb_inv w h1 ->
    let '(r, (w2, h2)) := effect c w h1 in
    (exists o', ok_step o h1 o' w2 h2 /\ Q r o' h2) /\
    (forall e, exists o', ok_step o h1 o' w2 h2 /\ Q (Err e) o' h2) /\
    (forall e, exists o', ok_step o h1 o' w h1 /\ Q (Err e) o' h1)) ->
  safe (p_call c) Q o h.
Proof.
  intros H w h1 f Hh Ho Hi. specialize (H w h1 Hh Ho Hi). cbn. unfold outcome_of.
  destruct (effect c w h1) as [r [w2 h2]] eqn:He. destruct H as (H1 & H2 & H3).
  destruct (fallible c); [destruct f|]; cbn; rewrite ?He; auto.
Qed.

Lemma ok_step_event o h o' w ev : sb_inv w (h ++ [ev]) -> holds o' (h ++ [ev]) ->
  (forall x b, other x o -> holds x h -> owned x = Some (bet_ID b) -> Created b ∈ h -> foreign b ev) ->
  (owned o' = owned o \/ owned o' = None \/ exists id, owned o' = Some id /\ status_in h id = None) ->
  ok_step o h o' w (h ++ [ev]).
Proof.
  intros Hi Hh Hf Ho. constructor; [done|by apply prefix_app_r|done| |done].
  intros x Hx Hhx. apply holds_snoc; [done|]. intros b Hb Hc. by apply (Hf x).
Qed.

(** Events about a bet that is not waiting for its stake concern no owner. *)
Lemma foreign_settled x h b id : holds x h -> owned x = Some (bet_ID b) ->
  status_in h id <> Some StatusDebitPending -> id <> bet_ID b.
Proof. intros Hx Ho Hs ->. by apply Hs, (holds_status x). Qed.

Lemma effect_update (c : bet_call unit) id f w h b : does unit c = zoom (update_bet id f) ->
  bets_of w !! id = Some b ->
  effect c w h = (Ok tt, (with_bets (<[id := f b]> (bets_of w)) w, h ++ option_list (event_of c (Ok tt)))).
Proof. intros Hd Hb. unfold effect. by rewrite Hd, (zoom_update _ _ _ _ Hb). Qed.

Lemma safe_create b Q h : bet_ID b = "" -> bet_Status b = StatusDebitPending ->
  (forall id h1, let o' := Fresh (bet_set_ID id b) in holds o' h1 -> Q (Ok id) o' h1) ->
  (forall r h1, (forall id, r <> Ok id) -> Q r Nothing h1) -> safe (p_call (CreateBet b)) Q Nothing h.
Proof.
  intros Hid Hst HOk HErr. apply safe_call. intros w h1 Hh _ Hi. unfold effect. cbn [does].
  change (bets_CreateBet b) with (zoom (InMemoryStore_CreateBet b)). rewrite zoom_with.
  assert (forall e, exists o', ok_step Nothing h1 o' w h1 /\ Q (Err e) o' h1) as Hnot.
  { intros e. exists Nothing. split; [by apply ok_step_drop|]. by apply HErr. }
  destruct (CreateBet_cases b (w_tick w) (bets_of w)) as [[_ ->]|(Hno & id & t & n' & Hk & _ & -> & Hn)].
  - cbn. rewrite app_nil_r. set (w2 := mkWorld _ _).
    assert (sb_inv w2 h1) as Hi2.
    { apply (sb_inv_same w); [done| |cbn; lia]. unfold bets_of, part. cbn. apply lget_lset. }
    split_and!; [|intros e|done]; exists Nothing; (split; [by apply ok_step_drop|]); by apply HErr.
  - cbn. set (w2 := mkWorld _ _). specialize (Hk Hid). specialize (Hn Hid).
    destruct (sb_inv_create w w2 h1 id (Datatypes.S (w_tick w)) b t Hi Hk ltac:(cbn; lia) Hno) as [Hsn Hi2].
    { unfold bets_of, part. cbn. apply lget_lset. }
    { done. }
    assert (forall o', holds o' (h1 ++ [Created (bet_set_ID id b)]) -> owned o' = None \/ owned o' = Some id ->
      ok_step Nothing h1 o' w2 (h1 ++ [Created (bet_set_ID id b)])) as Hstep.
    { intros o' Ho' Hown. apply ok_step_event; [done|done| |].
      - intros x b' _ Hx Ho Hc. cbn. intros He. pose proof (holds_status _ _ _ Hx Ho) as Hs. congruence.
      - destruct Hown as [->| ->]; [by left|right; right; by exists id]. }
    assert (holds (Fresh (bet_set_ID id b)) (h1 ++ [Created (bet_set_ID id b)])) as Hf.
    { split_and!; [by apply elem_of_snoc; right| |].
      - rewrite status_in_snoc. cbn. by rewrite decide_True.
      - cbn. intros c a r Hd. apply elem_of_snoc in Hd as [Hd|Hd]; [|done]. apply Hno.
        destruct (debited_created _ _ _ _ _ _ (si_lawful _ _ Hi) Hd) as (b0 & Hc0 & Hu0 & _ & _ & Hr0).
        destruct (si_created _ _ Hi b0 Hc0) as (b1 & Hb1 & Ht1).
        apply terms_same_key in Ht1 as (_ & Hu1 & Hr1). exists (bet_ID b0), b1.
        split_and!; [done|congruence|congruence]. }
    split_and!; [|intros e|done].
    + exists (Fresh (bet_set_ID id b)). split; [apply Hstep; [done|by right]|]. by apply HOk.
    + exists Nothing. split; [apply Hstep; [done|by left]|]. by apply HErr.
Qed.

(** The stake is asked for; whatever the wallet answers, it is the owner's only call. *)
Lemma safe_debit b md Q h :
  (forall tx h1, holds (Asked b) h1 ->
    Debited (bet_UserID b) (bet_Currency b) (bet_Stake b) (bet_ReferenceID b) (Ok tx) ∈ h1 ->
    Q (Ok tx) (Asked b) h1) ->
  (forall r h1, (forall tx, r <> Ok tx) -> holds (Asked b) h1 -> Q r (Asked b) h1) ->
  safe (p_call (DebitWallet (bet_UserID b) (bet_Currency b) (bet_Stake b) (bet_ReferenceID b) md)) Q
    (Fresh b) h.
Proof.
  intros HOk HErr. apply safe_call. intros w h1 Hh Ho Hi. unfold effect. cbn [does].
  pose proof (debit_outside (bet_UserID b) (bet_Currency b) (bet_Stake b) (bet_ReferenceID b) md) as [Hb Ht _].
  specialize (Hb w). specialize (Ht w). destruct (wc_DebitWallet _ _ _ _ _ w) as [r w2]. cbn [fst snd] in *.
  destruct Ho as (Hc & Hs & Hd). cbn [option_list event_of].
  set (ev := Debited _ _ _ _ r).
  assert (sb_inv w2 (h1 ++ [ev])) as Hi2.
  { apply (sb_inv_same w); [|done|done]. apply sb_inv_money; [done| |done|done].
    split; [by exists b|exact Hd]. }
  assert (holds (Asked b) (h1 ++ [ev])) as Ha.
  { split; [by apply elem_of_snoc; left|]. by rewrite status_in_snoc. }
  assert (ok_step (Fresh b) h1 (Asked b) w2 (h1 ++ [ev])) as Hstep.
  { apply ok_step_event; [done|done| |by left]. intros x b' Hx Hhx Ho' Hc'. cbn.
    destruct (decide (bet_UserID b = bet_UserID b')) as [Hu|]; [|by left].
    destruct (decide (bet_ReferenceID b = bet_ReferenceID b')) as [Hr|]; [|by right].
    exfalso. apply (Hx _ Ho'). cbn. f_equal. f_equal.
    apply (created_inj h1); [apply Hi|done|done|]. right. by split. }
  assert (forall e, exists o', ok_step (Fresh b) h1 o' w h1 /\ Q (Err e) o' h1) as Hnot.
  { intros e. exists (Asked b). split; [constructor; [done|done|done|done|by left]|]. by apply HErr. }
  split_and!; [|intros e|done]; exists (Asked b); (split; [done|]).
  - destruct r as [tx|e|m]; [apply HOk; [done|]; apply elem_of_snoc; by right|by apply HErr..].
  - by apply HErr.
Qed.

(** The owner's last call: the bet is confirmed, or refused. *)
Lemma safe_release b (c : bet_call unit) f ev Q h :
  does unit c = zoom (update_bet (bet_ID b) f) -> event_of c (Ok tt) = Some ev ->
  (forall b', bet_terms (f b') = bet_terms b') ->
  (forall h1, h `prefix_of` h1 -> holds (Asked b) h1 -> justified h1 ev) ->
  (forall b' st, next_status (bet_ID b) st ev = Some (bet_Status (f b'))) ->
  (forall i st, i <> bet_ID b -> next_status i st ev = st) ->
  (forall b', bet_ID b <> bet_ID b' -> foreign b' ev) -> (forall b', ev <> Created b') ->
  (forall r h1, Q r Nothing h1) -> safe (p_call c) Q (Asked b) h.
Proof.
  intros Hd He Ht Hj Hs Ho Hf Hc HQ. apply safe_call. intros w h1 Hh Hown Hi.
  destruct (si_created _ _ Hi b (proj1 Hown)) as (b1 & Hb1 & _).
  rewrite (effect_update c (bet_ID b) f w h1 b1 Hd Hb1), He. cbn [option_list].
  assert (ok_step (Asked b) h1 Nothing (with_bets (<[bet_ID b := f b1]> (bets_of w)) w) (h1 ++ [ev])) as Hstep.
  { apply ok_step_event; [|done| |by right; left].
    - apply (sb_inv_event _ _ _ _ b1); auto.
    - intros x b' Hx Hhx Ho' Hc'. apply Hf. intros Heq. apply (Hx _ Ho'). cbn. by rewrite Heq. }
  split_and!; [|intros e|intros e]; exists Nothing; (split; [|by apply HQ]); [done..|by apply ok_step_drop].
Qed.

(** The calls of a settlement, which owns nothing. *)
Lemma safe_get id Q h :
  (forall b h1, h `prefix_of` h1 -> lawful h1 -> bet_ID b = id -> placed_as h1 id b ->
    (bet_Status b = StatusPending -> Confirmed id ∈ h1) -> Q (Ok b) Nothing h1) ->
  (forall r h1, (forall b, r <> Ok b) -> Q r Nothing h1) -> safe (p_call (GetBet id)) Q Nothing h.
Proof.
  intros HOk HErr w h1 f Hh _ Hi.
  destruct (quiet_outcome (GetBet id) f w h1 (quiet_get id) Hi) as (r & w2 & -> & Hi2 & Hr).
  exists Nothing. split; [by apply ok_step_drop|]. cbn. destruct r as [b|e|m]; [|by apply HErr..].
  specialize (Hr b eq_refl). cbn [does] in Hr.
  change (bets_GetBet id) with (zoom (InMemoryStore_GetBet id)) in Hr. rewrite get_bet_eq in Hr.
  destruct (bets_of w !! id) as [b'|] eqn:Hb; [|done]. cbn in Hr. injection Hr as ->.
  apply HOk; [done|apply Hi| |by apply Hi|].
  - destruct (si_svc _ _ Hi) as [Hinv _]. by apply (bi_id _ Hinv).
  - intros Hs. apply pending_confirmed; [apply Hi|]. rewrite <- (si_status _ _ Hi), Hb. cbn. by rewrite Hs.
Qed.

Lemma confirmed_placed w h id : sb_inv w h -> Confirmed id ∈ h -> is_Some (bets_of w !! id).
Proof.
  intros Hi Hc. destruct (confirmed_status h id (si_lawful _ _ Hi) Hc) as (st & Hs & _).
  rewrite <- (si_status _ _ Hi) in Hs. destruct (bets_of w !! id); [by eexists|done].
Qed.

Lemma safe_mark id o t Q h : final o -> Confirmed id ∈ h ->
  (forall h1, h `prefix_of` h1 -> Marked id o ∈ h1 -> Q (Ok tt) Nothing h1) ->
  (forall r h1, r <> Ok tt -> Q r Nothing h1) ->
  safe (p_call (UpdateBetStatusAndOutcome id o t)) Q Nothing h.
Proof.
  intros Ho Hc HOk HErr. apply safe_call. intros w h1 Hh _ Hi.
  assert (Confirmed id ∈ h1) as Hc1 by by eapply elem_of_prefix.
  destruct (confirmed_placed w h1 id Hi Hc1) as [b Hb].
  destruct (confirmed_status h1 id (si_lawful _ _ Hi) Hc1) as (st & Hst & Hne).
  rewrite (effect_update (UpdateBetStatusAndOutcome id o t) id (fun b => bet_set_SettledAt t (bet_set_Status o b)) w h1 b eq_refl Hb).
  cbn [option_list event_of]. set (w2 := with_bets _ w).
  assert (ok_step Nothing h1 Nothing w2 (h1 ++ [Marked id o])) as Hstep.
  { apply ok_step_event; [|done| |by left].
    - apply (sb_inv_event _ _ _ _ b); [done|done|by rewrite bet_terms_settled|done|..|done].
      + intros st'. cbn. by rewrite decide_True, bet_status_settled by done.
      + intros i st' Hi'. cbn. by rewrite decide_False by done.
    - intros x b' _ Hx Ho' _. cbn. apply (foreign_settled x h1); [done|done|congruence]. }
  split_and!; [|intros e|intros e]; exists Nothing; (split; [done || by apply ok_step_drop|]).
  - apply HOk; [etrans; [done|by apply prefix_app_r]|]. apply elem_of_snoc. by right.
  - by apply HErr.
  - by apply HErr.
Qed.

Lemma safe_credit b b0 o md Q h : Created b0 ∈ h -> Marked (bet_ID b0) o ∈ h -> o <> StatusLost ->
  bet_terms b = bet_terms b0 -> (forall r h1, h `prefix_of` h1 -> Q r Nothing h1) ->
  safe (p_call (CreditWallet (bet_UserID b) (bet_Currency b) (settle_amount o b)
    (settle_prefix o +:+ bet_ReferenceID b) md)) Q Nothing h.
Proof.
  intros Hc Hm Hlost Ht HQ. apply safe_call. intros w h1 Hh _ Hi. unfold effect. cbn [does].
  match goal with |- context [wc_CreditWallet ?u ?c ?a ?r ?m w] =>
    pose proof (credit_outside u c a r m) as [Hb Htk _]; specialize (Hb w); specialize (Htk w);
    destruct (wc_CreditWallet u c a r m w) as [r' w2] end. cbn [fst snd option_list event_of] in *.
  set (ev := Credited _ _ _ _ r').
  assert (ok_step Nothing h1 Nothing w2 (h1 ++ [ev])) as Hstep.
  { apply ok_step_event; [|done|done|by left]. apply (sb_inv_same w); [|done|done].
    apply sb_inv_money; [done| |done|done]. exists b0, o.
    unfold bet_terms in Ht. injection Ht as _ Hu _ _ _ _ Hst Hp Hcu Hr.
    split_and!; [by eapply elem_of_prefix|by eapply elem_of_prefix|done|done|done| |congruence].
    unfold settle_amount. by case_decide. }
  split_and!; [|intros e|intros e]; exists Nothing;
    (split; [done || by apply ok_step_drop|apply HQ; first [done|etrans; [done|by apply prefix_app_r]]]).
Qed.

Lemma safe_record id tx Q h : Confirmed id ∈ h -> (forall r h1, Q r Nothing h1) ->
  safe (p_call (SetCreditTransactionID id tx)) Q Nothing h.
Proof.
  intros Hc HQ. apply safe_call. intros w h1 Hh _ Hi.
  assert (Confirmed id ∈ h1) as Hc1 by by eapply elem_of_prefix.
  destruct (confirmed_placed w h1 id Hi Hc1) as [b Hb].
  rewrite (effect_update (SetCreditTransactionID id tx) id (bet_set_CreditTx tx) w h1 b eq_refl Hb). cbn [option_list event_of].
  rewrite app_nil_r. pose proof (si_status _ _ Hi id) as Hs. rewrite Hb in Hs.
  assert (sb_inv (with_bets (<[id := bet_set_CreditTx tx b]> (bets_of w)) w) h1) as Hi2.
  { pose proof (sb_inv_update w h1 [] id b (bet_set_CreditTx tx b)) as H. rewrite app_nil_r in H.
    apply H; try done; [apply Hi|by intros c ?%elem_of_nil]. }
  split_and!; [|intros e|intros e]; exists Nothing; (split; [by apply ok_step_drop|apply HQ]).
Qed.

(** ** Programs that own nothing *)
Definition idle {A} : res A -> own -> history -> Prop := fun _ o _ => o = Nothing.
Definition sound {A} (p : calls bet_call A) : Prop := forall h, safe p idle Nothing h.

Lemma sound_res {A} (r : res A) : sound (c_res r).
Proof. done. Qed.
Lemma sound_ret {A} (a : A) : sound (mret a).
Proof. done. Qed.
Lemma sound_throw {A} (e : goerr) : sound (mthrow e : calls bet_call A).
Proof. done. Qed.
Lemma sound_quiet {B} (c : bet_call B) : quiet c -> sound (p_call c).
Proof. intros Hq h. by apply safe_quiet. Qed.
Lemma sound_bind {A B} (p : calls bet_call A) (f : A -> calls bet_call B) :
  sound p -> (forall a, sound (f a)) -> sound (p ≫= f).
Proof.
  intros Hp Hf h. apply safe_bind. eapply safe_weaken; [apply Hp|].
  intros [a|e|m] o h' ->; [apply Hf|done..].
Qed.
Lemma sound_end {A B} (g : res A -> res B) (p : calls bet_call A) : sound p -> sound (c_end g p).
Proof. intros Hp h. apply safe_end. eapply safe_weaken; [apply Hp|done]. Qed.
Lemma sound_ignore {A} (p : calls bet_call A) : sound p -> sound (c_ignore p).
Proof. intros Hp. apply sound_bind; [by apply sound_end|done]. Qed.
Lemma sound_for_each {A} (xs : list A) body : (forall x, sound (body x)) -> sound (c_for_each xs body).
Proof. intros Hb. induction xs; cbn; [apply sound_ret|]. by apply sound_bind. Qed.
Lemma sound_safe {A} (p : calls bet_call A) h : sound p -> safe p safely Nothing h.
Proof. intros Hp. eapply safe_weaken; [apply Hp|done]. Qed.
End Safety.

#[export] Hint Resolve quiet_time quiet_get quiet_ref quiet_list quiet_event quiet_markets
  quiet_outcomes sound_res sound_ret sound_throw sound_quiet sound_ignore : bet_calls.

Section Requests.
Context {S : Type} `{LB : Lens S InMemoryStore, LL : !LensLaws LB}.
Context `{E : GoEnv, EL : !GoEnvLaws E, L : DecimalLaws, GT : GrpcText}.
Context {WC : WalletClient S} {OF : OddsFeedClient S} `{CO : !ClientsOutside WC OF}.
#[local] Existing Instance lens_BetStore.

#[local] Ltac sound_calls :=
  repeat first
    [ solve [eauto 3 with bet_calls nocore]
    | apply sound_bind; [|intros ?] | apply sound_end | apply sound_ignore
    | apply sound_for_each; intros ? | case_match ].

Lemma existing_sound u ref : sound (existing_bet_prog u ref).
Proof. unfold existing_bet_prog, c_attempt. sound_calls. Qed.
Lemma current_odds_sound e m o : sound (current_odds_prog e m o).
Proof. unfold current_odds_prog, c_wrapped. sound_calls. Qed.
Lemma resolve_sound e m o : sound (resolve_prog e m o).
Proof. unfold resolve_prog. sound_calls. Qed.
Lemma must_get_sound id : sound (must_get_prog id).
Proof. unfold must_get_prog, c_attempt. sound_calls. Qed.

(** Mark, credit, record, for a bet that was read while it was pending. *)
Lemma mark_safe id o t err h : final o -> Confirmed id ∈ h ->
  safe (c_wrapped err (p_call (UpdateBetStatusAndOutcome id o t)))
    (fun r o' h' => o' = Nothing /\ (forall u, r = Ok u -> h `prefix_of` h' /\ Marked id o ∈ h')) Nothing h.
Proof.
  intros Ho Hc. apply safe_end, safe_mark; [done|done|by intros|].
  intros r h1 Hne. split; [done|]. intros u. by destruct r as [[]| |].
Qed.

Lemma settle_credit_safe b b0 o e1 e2 e3 t h : Created b0 ∈ h -> bet_terms b = bet_terms b0 ->
  Confirmed (bet_ID b) ∈ h -> final o -> o <> StatusLost ->
  safe (settle_credit_prog b o e1 e2 e3 (settle_prefix o) (settle_key o) (settle_amount o b) t)
    idle Nothing h.
Proof.
  intros Hc Ht Hcf Ho Hl. unfold settle_credit_prog. apply safe_bind.
  eapply safe_weaken; [by apply mark_safe|].
  intros [u|e|m] o' h1 [-> H]; [|done..]. destruct (H u eq_refl) as [Hh Hm].
  cbn [then_safe tried wrap_res]. apply safe_bind, safe_end.
  assert (bet_ID b = bet_ID b0) as Hid by by apply terms_same_key in Ht as (-> & _).
  apply (safe_credit b b0 o); [by eapply elem_of_prefix|by rewrite <- Hid|done|done|].
  intros r h2 Hh2. destruct r as [tx|e|m]; [|done..]. cbn [then_safe tried wrap_res]. apply safe_end, safe_record; [|done].
  eapply elem_of_prefix; [|done]. by eapply elem_of_prefix.
Qed.

Lemma settle_sound id o : sound (settle_prog id o).
Proof.
  intros h. unfold settle_prog. case_decide; [done|]. case_decide as Hout; [done|].
  assert (final o) as Ho.
  { unfold final. destruct (decide (o = StatusWon)), (decide (o = StatusLost)),
      (decide (o = StatusCancelled)); tauto. }
  apply safe_bind, safe_end, safe_get; [|intros [b|e|m] h1 Hne; [by destruct (Hne b)|done..]].
  intros b h1 Hh Hl Hid (b0 & Hc & Hid0 & Ht) Hp. cbn [then_safe tried wrap_res]. case_decide as Hst; [done|].
  destruct (decide (bet_Status b = StatusPending)) as [Hs|]; [|by destruct Hst].
  specialize (Hp Hs). rewrite <- Hid in Hp. apply safe_bind, safe_quiet; [by apply quiet_time|].
  intros [now|e|m] h2 Hh2 _; [|done..]. cbn [then_safe tried wrap_res].
  assert (Created b0 ∈ h2 /\ Confirmed (bet_ID b) ∈ h2) as [Hc2 Hp2]
    by (split; by eapply elem_of_prefix).
  apply safe_bind.
  eapply (safe_weaken _ idle); [|intros [u|e|m] o' h' ->; [apply must_get_sound|done..]].
  case_decide as Hw; [|case_decide as Hlo].
  - apply (settle_credit_safe b b0 StatusWon); try done. by left.
  - eapply safe_weaken; [apply mark_safe; [by right; left|done]|]. by intros r o' h' [-> _].
  - apply (settle_credit_safe b b0 StatusCancelled); try done. by right; right.
Qed.

#[local] Hint Resolve existing_sound current_odds_sound resolve_sound must_get_sound settle_sound : bet_calls.
Lemma auto_one_sound b : sound (auto_one_prog b).
Proof. unfold auto_one_prog, c_attempt. sound_calls. Qed.
Lemma run_bets_sound bets : sound (run_bets_prog bets).
Proof. induction bets; cbn [run_bets_prog]; unfold c_attempt; sound_calls. Qed.
#[local] Hint Resolve auto_one_sound run_bets_sound : bet_calls.
Lemma auto_pages_sound fuel page : sound (auto_pages_prog fuel page).
Proof. revert page. induction fuel; intros page; cbn [auto_pages_prog]; unfold c_wrapped; sound_calls. Qed.
Lemma run_pages_sound fuel page : sound (run_pages_prog fuel page).
Proof. revert page. induction fuel; intros page; cbn [run_pages_prog]; unfold c_attempt; sound_calls. Qed.

(** ** Placing a bet *)
Lemma debit_stake_safe b h : safe (debit_stake_prog b) safely (Fresh b) h.
Proof.
  unfold debit_stake_prog. apply safe_bind, safe_end, safe_debit.
  - intros tx h1 Hh Hd. cbn [then_safe tried wrap_res]. apply safe_bind, safe_end.
    apply (safe_release b _ (fun c => bet_set_SettledAt time_zero
      (bet_set_DebitTx tx (bet_set_Status StatusPending c))) (Confirmed (bet_ID b))); try done.
    + intros h2 Hh2 [Hc Hs]. split; [done|]. exists b, tx. split_and!; [done|done|].
      by eapply elem_of_prefix.
    + intros b' st. cbn. by rewrite decide_True.
    + intros i st Hne. cbn. by rewrite decide_False.
    + by intros [u|e|m] h2.
  - intros r h1 Hne Hh. destruct r as [tx|e|m]; [by destruct (Hne tx)| |done]. cbn [then_safe tried wrap_res].
    apply safe_bind, safe_quiet; [by apply quiet_time|]. intros [now|e'|m] h2 _ _; [|done..]. cbn [then_safe tried wrap_res].
    apply safe_bind, safe_bind, safe_end.
    apply (safe_release b _ (fun c => bet_set_SettledAt now (bet_set_Status StatusCancelled c))
      (Refused (bet_ID b))); try done.
    + intros b'. by rewrite bet_terms_settled.
    + by intros h3 Hh3 [Hc Hs].
    + intros b' st. cbn. by rewrite decide_True, bet_status_settled.
    + intros i st Hi. cbn. by rewrite decide_False.
    + by intros [u|e'|m] h3.
Qed.

Lemma place_safe u e m o stake c ref h : safe (place_prog u e m o stake c ref) safely Nothing h.
Proof.
  unfold place_prog. case_decide; [done|]. apply safe_bind, safe_end. unfold c_res. cbn [safe].
  destruct (decimalGreaterThanZero stake) as [[]|er|q]; cbn [then_safe wrap_res negb]; [|done..].
  apply safe_bind. eapply safe_weaken; [apply existing_sound|].
  intros [[b|]|er|q] o' h1 ->; [done| |done..]. cbn [then_safe tried wrap_res].
  apply safe_bind. eapply safe_weaken; [apply current_odds_sound|].
  intros [odds|er|q] o' h2 ->; [|done..]. cbn [then_safe]. apply safe_bind, safe_end. cbn [safe].
  destruct (multiplyDecimal stake odds) as [payout|er|q]; cbn [then_safe wrap_res]; [|done..].
  apply safe_bind, safe_quiet; [by apply quiet_time|]. intros [now|er|q] h3 _ _; [|done..]. cbn [then_safe tried wrap_res].
  apply safe_bind, safe_end, safe_create; [done|done| |].
  - intros id h4 o' Ho'. cbn [then_safe tried wrap_res]. apply debit_stake_safe.
  - intros [id|er|q] h4 Hne; [by destruct (Hne id)| |done]. cbn [then_safe tried wrap_res].
    case_match; [|done]. apply sound_safe, sound_end, sound_quiet, quiet_ref.
Qed.

Lemma svc_safe op h : safe (svc_prog op) safely Nothing h.
Proof.
  destruct op as [u e m o stake c ref|id o|fuel|fuel]; cbn [svc_prog].
  - apply safe_bind, safe_end. eapply safe_weaken; [apply place_safe|]. by intros [b|er|q].
  - apply sound_safe, sound_ignore, settle_sound.
  - apply sound_safe, auto_pages_sound.
  - apply sound_safe, sound_ignore, run_pages_sound.
Qed.
End Requests.
