(* ===== verification/BetConcProps.v ===== *)
(** * BetConcProps: what holds of the sportsbook's requests side by side *)

From S2P Require Import Prelude GoStd GoJson Decimal Demo OddsModels TxProg BetStore BetStoreProps BetService BetLifecycle BetServiceProps BetProg BetConc BetConcSafe.

#[local] Abbreviation history := (list bet_event).
Implicit Types (h : history) (id : string).

Section Requests.
Context {S : Type} `{LB : Lens S InMemoryStore, LL : !LensLaws LB}.
Context `{E : GoEnv, EL : !GoEnvLaws E, L : DecimalLaws, GT : GrpcText}.
Context {WC : WalletClient S} {OF : OddsFeedClient S} `{CO : !ClientsOutside WC OF}.
#[local] Existing Instance lens_BetStore.

(** ** The machine *)

(** Every request is safe, and no two own the same bet. *)
Definition requests_ok (rs : gmap nat (calls bet_call unit)) (owners : nat -> own) h : Prop :=
  (forall i p, rs !! i = Some p -> safe p safely (owners i) h /\ holds (owners i) h) /\
  (forall i j, i <> j -> is_Some (rs !! i) -> is_Some (rs !! j) -> other (owners i) (owners j)).
Definition machine_inv (s : Sportsbook S) : Prop :=
  sb_inv (sb_world s) (sb_history s) /\
  exists owners, requests_ok (sb_requests s) owners (sb_history s).

Lemma requests_step rs owners h i p o' w' h' : requests_ok rs owners h -> is_Some (rs !! i) ->
  ok_step (owners i) h o' w' h' -> safe p safely o' h' ->
  requests_ok (<[i := p]> rs) (fun j => if decide (j = i) then o' else owners j) h'.
Proof.
  intros [Hr Hd] Hsi [Hinv Hg Hh Hot How] Hsafe.
  assert (forall j, j <> i -> is_Some (rs !! j) -> other (owners j) o') as Hsep.
  { intros j Hne [q Hq] id Hj Ho'. destruct (Hr j q Hq) as [_ Hhj].
    destruct How as [How|[How|(id' & How & Hn)]]; rewrite How in Ho'.
    - by apply (Hd j i Hne (ex_intro _ q Hq) Hsi id).
    - done.
    - injection Ho' as ->. pose proof (holds_status _ _ _ Hhj Hj). congruence. }
  split.
  - intros j q. case_decide as Hj; [subst j; rewrite lookup_insert_eq; by intros [= ->]|].
    rewrite lookup_insert_ne by done. intros Hq. destruct (Hr j q Hq) as [Hs Hhj]. split.
    + by eapply safely_later.
    + apply Hot; [|done]. by apply Hd.
  - intros j k Hne Hj Hk.
    assert (forall x, x <> i -> is_Some (<[i := p]> rs !! x) -> is_Some (rs !! x)) as Hx
      by (intros x Hx; by rewrite lookup_insert_ne).
    case_decide as Hji; case_decide as Hki; [congruence|..].
    + intros id Hj' Hk'. by apply (Hsep k Hki (Hx k Hki Hk) id).
    + apply Hsep; auto.
    + apply Hd; auto.
Qed.

Lemma requests_arrive rs owners h i op : requests_ok rs owners h -> rs !! i = None ->
  requests_ok (<[i := svc_prog op]> rs) (fun j => if decide (j = i) then Nothing else owners j) h.
Proof.
  intros [Hr Hd] Hi. split.
  - intros j q. case_decide as Hj; [subst j; rewrite lookup_insert_eq; intros [= <-]|].
    + split; [apply svc_safe|done].
    + rewrite lookup_insert_ne by done. apply Hr.
  - intros j k Hne Hj Hk. case_decide; [by intros id [=]|]. case_decide; [by intros id _ [=]|].
    rewrite lookup_insert_ne in Hj, Hk by done. by apply Hd.
Qed.

Lemma sb_step_inv s s' : sb_step s s' -> machine_inv s -> machine_inv s'.
Proof.
  intros [i op Hn|i f|i|w Hb Ht] [Hi (owners & Hr)].
  - split; [done|]. eexists. by apply requests_arrive.
  - unfold advance. destruct (sb_requests s !! i) as [[r|B c k]|] eqn:Hp;
      [split; [done|by exists owners]| |split; [done|by exists owners]].
    destruct (proj1 Hr i _ Hp) as [Hs Hh]. specialize (Hs _ _ f (reflexivity _) Hh Hi).
    destruct (outcome_of c f (sb_world s) (sb_history s)) as [r [w2 h2]].
    destruct Hs as (o' & Hstep & Hsafe). split; [apply Hstep|]. eexists. cbn.
    eapply requests_step; [done|by eexists|done|done].
  - split; [done|]. exists owners. destruct Hr as [Hr Hd]. unfold requests_ok.
    cbn [sb_requests sb_history]. split.
    + intros j p [_ Hj]%lookup_delete_Some. by apply Hr.
    + intros j k Hne [p [_ Hj]%lookup_delete_Some] [q [_ Hk]%lookup_delete_Some]. apply Hd; eauto.
  - split; [by eapply sb_inv_same|by exists owners].
Qed.

Lemma sb_reachable_inv s : sb_reachable s -> machine_inv s.
Proof.
  intros (s0 & (Hb & Hh & Hr) & Hs). assert (machine_inv s0) as Hi.
  { split.
    - rewrite Hh. constructor.
      + split; rewrite Hb; [constructor; intros *; by rewrite NewBetMemory_empty|].
        intros id. rewrite NewBetMemory_empty. by intros [].
      + constructor.
      + intros id. by rewrite Hb, NewBetMemory_empty.
      + by intros b0 ?%elem_of_nil.
      + intros id b. by rewrite Hb, NewBetMemory_empty.
    - exists (fun _ => Nothing). rewrite Hr. split; [intros i p; by rewrite lookup_empty|].
      intros i j _ [p Hp]. by rewrite lookup_empty in Hp. }
  clear -Hs Hi EL L LL CO. induction Hs as [s|s s1 s2 H1 _ IH]; [done|]. by apply IH, (sb_step_inv s).
Qed.

(** C15.  The sportsbook under any interleaving of any number of bets being placed, settlements
    by hand, settlement runs and scheduler runs, call by call, whatever the other services do
    in between, whichever calls fail or lose their answers, and wherever requests break off:
    the history of bets is lawful (a bet is created once per user and reference; its stake is
    asked for once, while it waits for it; it is confirmed only after its stake was taken, or
    refused; it is marked with an outcome only after it was confirmed; it is credited only
    after it was marked, with what that mark says), and the table is what the history says:
    every bet's status is that of its last event, and its terms are those it was created
    with. *)
Theorem conc_bet_history (s : Sportsbook S) : sb_reachable s ->
  lawful (sb_history s) /\
  (forall id, bet_Status <$> bets_of (sb_world s) !! id = status_in (sb_history s) id) /\
  (forall id b, bets_of (sb_world s) !! id = Some b -> placed_as (sb_history s) id b).
Proof. intros [[H1 H2 H3 H4 H5] _]%sb_reachable_inv. by split_and!. Qed.

(** A bet of the table, by the record of its creation. *)
Lemma placed_by w h id b : sb_inv w h -> bets_of w !! id = Some b ->
  exists b0, Created b0 ∈ h /\ bet_ID b0 = id /\ bet_UserID b0 = bet_UserID b /\
    bet_Currency b0 = bet_Currency b /\ bet_Stake b0 = bet_Stake b /\
    bet_PotentialPayout b0 = bet_PotentialPayout b /\ bet_ReferenceID b0 = bet_ReferenceID b.
Proof.
  intros Hi Hb. destruct (si_placed _ _ Hi id b Hb) as (b0 & Hc & Hid & Ht). exists b0.
  unfold bet_terms in Ht. by injection Ht.
Qed.

(** C16.  The money of bets under any interleaving, failures and lost answers.  A bet's stake is
    asked for at most once; a bet that is pending, or was and has been settled, had its stake
    taken.  Every credit is the payout of a bet that was marked won before, or the stake of a
    bet that was marked cancelled before, under the bet's own reference; and when all marks of
    a bet name the same outcome, all credits under its references are one and the same
    call, which the wallet carries out once. *)
Theorem conc_bet_money (s : Sportsbook S) : sb_reachable s ->
  let bets := bets_of (sb_world s) in
  (forall h1 h2 u c a ref r, sb_history s = h1 ++ Debited u c a ref r :: h2 ->
     (exists id b, bets !! id = Some b /\ u = bet_UserID b /\ c = bet_Currency b /\
        a = bet_Stake b /\ ref = bet_ReferenceID b) /\
     forall c' a' r', Debited u c' a' ref r' ∉ h1 ++ h2) /\
  (forall id b, bets !! id = Some b ->
     bet_Status b = StatusPending \/ (exists o, Marked id o ∈ sb_history s) ->
     exists tx, Debited (bet_UserID b) (bet_Currency b) (bet_Stake b) (bet_ReferenceID b) (Ok tx)
       ∈ sb_history s) /\
  (forall h1 h2 u c a ref r, sb_history s = h1 ++ Credited u c a ref r :: h2 ->
     exists id b o, bets !! id = Some b /\ Marked id o ∈ h1 /\ (o = StatusWon \/ o = StatusCancelled) /\
       u = bet_UserID b /\ c = bet_Currency b /\ a = settle_amount o b /\
       ref = settle_prefix o +:+ bet_ReferenceID b) /\
  (forall id b o, bets !! id = Some b -> (forall o', Marked id o' ∈ sb_history s -> o' = o) ->
     forall o' c a r, Credited (bet_UserID b) c a (settle_prefix o' +:+ bet_ReferenceID b) r ∈ sb_history s ->
       c = bet_Currency b /\ a = settle_amount o b /\ settle_prefix o' = settle_prefix o).
Proof.
  intros [Hi _]%sb_reachable_inv. pose proof (si_lawful _ _ Hi) as Hl. cbn zeta. split_and!.
  - intros h1 h2 u c a ref r He. rewrite He in Hl. split; [|intros; by eapply debited_once].
    destruct (lawful_justified _ _ _ Hl) as [(b0 & Hc & _ & -> & -> & -> & ->) _].
    destruct (si_created _ _ Hi b0) as (b & Hb & Ht); [rewrite He; by apply elem_of_app; left|].
    exists (bet_ID b0), b. unfold bet_terms in Ht. by injection Ht.
  - intros id b Hb Hs. assert (Confirmed id ∈ sb_history s) as Hc.
    { destruct Hs as [Hs|[o Ho]]; [|by eapply marked_confirmed].
      apply pending_confirmed; [done|]. rewrite <- (si_status _ _ Hi), Hb. cbn. by rewrite Hs. }
    destruct (confirmed_stake _ _ Hl Hc) as (b1 & tx & H1 & Hid & Hd). exists tx.
    destruct (placed_by _ _ _ _ Hi Hb) as (b0 & H0 & Hid0 & <- & <- & <- & _ & <-).
    by rewrite (created_inj _ b0 b1 Hl H0 H1) by (left; congruence).
  - intros h1 h2 u c a ref r He. rewrite He in Hl.
    destruct (lawful_justified _ _ _ Hl) as (b0 & o & Hc & Hm & Hlost & -> & -> & -> & ->).
    destruct (si_created _ _ Hi b0) as (b & Hb & Ht); [rewrite He; by apply elem_of_app; left|].
    exists (bet_ID b0), b, o. unfold bet_terms in Ht. injection Ht as _ Hu _ _ _ _ Hst Hp Hcu Hr.
    split_and!; [done|done| |done|done| |congruence].
    + destruct (marked_confirmed _ _ _ (lawful_prefix _ _ Hl) Hm) as [[->|[->| ->]] _]; [by left|done|by right].
    + unfold settle_amount. case_decide; congruence.
  - intros id b o Hb Hall o' c a r Hc. apply list_elem_of_split in Hc as (h1 & h2 & He).
    pose proof Hl as Hl'. rewrite He in Hl'.
    destruct (lawful_justified _ _ _ Hl') as (b1 & o1 & Hc1 & Hm1 & _ & Hu & -> & -> & Hr).
    destruct (placed_by _ _ _ _ Hi Hb) as (b0 & H0 & Hid0 & Hu0 & Hcu0 & Hs0 & Hp0 & Hr0).
    apply settle_prefix_inj in Hr as [Hpre Hr].
    assert (b0 = b1) as <-.
    { apply (created_inj (sb_history s)); [done|done|rewrite He; by apply elem_of_app; left|].
      right. split; congruence. }
    assert (o1 = o) as -> by (apply Hall; rewrite He, <- Hid0; by apply elem_of_app; left).
    split_and!; [congruence| |done]. unfold settle_amount. by case_decide.
Qed.
End Requests.

(** ** Witnesses, and what concurrency can do *)
Module BetConcDemo.
Import Demo BetDemo.
#[local] Existing Instance generous.

(** What happens next: a request arrives, or one makes its next call. *)
Inductive act : Type :=
| Arrives (i : nat) (op : svc_op)
| Calls (i : nat) (f : fate).
Definition perform_act (s : Sportsbook State) (a : act) : Sportsbook State :=
  match a with
  | Arrives i op => match sb_requests s !! i with None => arrive i op s | Some _ => s end
  | Calls i f => advance i f s
  end.
Definition start : Sportsbook State := mkSportsbook empty [] ∅.
Definition run_acts (l : list act) : Sportsbook State := foldl perform_act start l.

Lemma run_acts_reachable l : sb_reachable (run_acts l).
Proof.
  exists start. split; [done|]. unfold run_acts.
  assert (forall s, rtc sb_step s (foldl perform_act s l)) as H; [|apply H].
  induction l as [|a l IH]; intros s; cbn; [reflexivity|]. etrans; [|apply IH].
  destruct a as [i op|i f]; cbn; [|apply rtc_once; constructor].
  destruct (sb_requests s !! i) eqn:Hi; [reflexivity|]. by apply rtc_once, sb_arrives.
Qed.

Definition answered (i n : nat) : list act := replicate n (Calls i Answered).
Definition bet_request : svc_op := SvcPlace "u" "e" "m" "o" "10" "USDT" "r1".

(** One bet of ten at odds of 1.5; two settlements read it while it is pending. *)
Definition race : list act :=
  Arrives 0 bet_request :: answered 0 8 ++
  [Arrives 1 (SvcSettle (tally 3) StatusWon); Arrives 2 (SvcSettle (tally 3) StatusCancelled);
   Calls 1 Answered; Calls 2 Answered] ++ answered 1 5 ++ answered 2 5.

Lemma conc_bet_history_witness :
  lawful (sb_history (run_acts race)) /\
  bet_Status <$> bets_of (sb_world (run_acts race)) !! tally 3 = Some StatusCancelled.
Proof.
  destruct (conc_bet_history (run_acts race) (run_acts_reachable race)) as (Hl & Hs & _).
  split; [exact Hl|]. rewrite Hs. vm_compute. reflexivity.
Defined.

(** A settlement in one go pays once; a race between two that name different outcomes pays
    both the winnings and the stake. *)
Example race_pays_twice :
  sb_history (run_acts race) =
  [Created (mkBet (tally 3) "u" "e" "m" "o" "1.5" "10" "15" "USDT" StatusDebitPending "r1" "" ""
      1000000000 None);
   Debited "u" "USDT" "10" "r1" (Ok "tx"); Confirmed (tally 3);
   Marked (tally 3) StatusWon; Credited "u" "USDT" "15" "settle-r1" (Ok "tx");
   Marked (tally 3) StatusCancelled; Credited "u" "USDT" "10" "cancel-r1" (Ok "tx")].
Proof. vm_compute. reflexivity. Qed.

(** The bet after the race. *)
Definition raced_bet : Bet :=
  mkBet (tally 3) "u" "e" "m" "o" "1.5" "10" "15" "USDT" StatusCancelled "r1" "tx" "tx"
    1000000000 (Some 5000000000).
Lemma conc_bet_money_witness :
  (exists tx, Debited "u" "USDT" "10" "r1" (Ok tx) ∈ sb_history (run_acts race)) /\
  exists id b o, bets_of (sb_world (run_acts race)) !! id = Some b /\
    Marked id o ∈ take 4 (sb_history (run_acts race)) /\ (o = StatusWon \/ o = StatusCancelled) /\
    "15" = settle_amount o b.
Proof.
  destruct (conc_bet_money (run_acts race) (run_acts_reachable race)) as (_ & Hs & Hc & _).
  split.
  - apply (Hs (tally 3) raced_bet); [vm_compute; reflexivity|]. right. exists StatusWon.
    apply (list_elem_of_lookup_2 _ 3%nat). vm_compute. reflexivity.
  - destruct (Hc (take 4 (sb_history (run_acts race))) (drop 5 (sb_history (run_acts race)))
      "u" "USDT" "15" "settle-r1" (Ok "tx")) as (id & b & o & H1 & H2 & H3 & _ & _ & H4 & _).
    + vm_compute. reflexivity.
    + exists id, b, o. split; [exact H1|]. split; [exact H2|split; [exact H3|exact H4]].
Defined.

(** The wallet takes the stake and its answer is lost: the bet is refused, and nothing gives
    the stake back. *)
Definition lost_answer : list act :=
  Arrives 0 bet_request :: answered 0 6 ++ Calls 0 (AnswerLost (ErrNew "deadline exceeded")) :: answered 0 2.
Example stake_kept :
  sb_history (run_acts lost_answer) =
  [Created (mkBet (tally 3) "u" "e" "m" "o" "1.5" "10" "15" "USDT" StatusDebitPending "r1" "" ""
      1000000000 None);
   Debited "u" "USDT" "10" "r1" (Ok "tx"); Refused (tally 3)] /\
  sb_requests (run_acts lost_answer) !! 0%nat = Some (Return (Ok tt)).
Proof. split; vm_compute; reflexivity. Qed.
End BetConcDemo.
