(* ===== verification/Privacy.v ===== *)
(** * Privacy: whose data the gateway shows

    The gateway in front of the wallet's and the sportsbook's servers, over any stores that
    answer a user's query with that user's records: the interfaces [OwnBets] and
    [OwnLedger], which the in-memory and the Postgres stores implement. *)

From S2P Require Import Prelude GoStd GoJson Decimal OddsModels Xcash Rates WalletModels WalletStore WalletService WalletServer.
From S2P Require Import OddsServer BetStore BetStoreProps BetService BetServer RateLimit Middleware Gateway GatewayProps Sql WalletPg BetPg Demo.

(** ** What a computation answers when it does *)
Section Yields.
Context {S : Type}.

Definition yields {A} (m : M S A) (P : A -> Prop) : Prop := forall w a w', m w = (Ok a, w') -> P a.

Lemma yields_any {A} (m : M S A) : yields m (fun _ => True).
Proof. done. Qed.
Lemma yields_ret {A} (a : A) (P : A -> Prop) : P a -> yields (mret a) P.
Proof. by intros H w a' w' [= <- _]. Qed.
Lemma yields_throw {A} (e : goerr) (P : A -> Prop) : yields (mthrow e : M S A) P.
Proof. by intros w a w' [=]. Qed.
Lemma yields_panic {A} p (P : A -> Prop) : yields (panic p : M S A) P.
Proof. by intros w a w' [=]. Qed.
Lemma yields_bind {A B} (m : M S A) (f : A -> M S B) (Q : A -> Prop) (P : B -> Prop) :
  yields m Q -> (forall a, Q a -> yields (f a) P) -> yields (m ≫= f) P.
Proof.
  intros Hm Hf w b w'. unfold mbind, M_bind. destruct (m w) as [[a|e|p] w1] eqn:He; [|done..].
  apply Hf. by eapply Hm.
Qed.
Lemma yields_then {A B} (m : M S A) (f : A -> M S B) (P : B -> Prop) :
  (forall a, yields (f a) P) -> yields (m ≫= f) P.
Proof. intros Hf. by apply (yields_bind _ _ (fun _ => True)). Qed.
Lemma yields_wrapped {A} s (m : M S A) P : yields m P -> yields (wrapped s m) P.
Proof.
  intros Hm w a w'. unfold wrapped. destruct (m w) as [[b|e|p] w1] eqn:He; [|done..].
  intros [= <- _]. by eapply Hm.
Qed.
Lemma yields_map_err {A} f (m : M S A) P : yields m P -> yields (map_err f m) P.
Proof.
  intros Hm w a w'. unfold map_err. destruct (m w) as [[b|e|p] w1] eqn:He; [|done..].
  intros [= <- _]. by eapply Hm.
Qed.
Lemma yields_attempt {A} (m : M S A) (P : A -> Prop) : yields m P ->
  yields (attempt m) (fun r => forall a, r = Ok a -> P a).
Proof.
  intros Hm w r w'. unfold attempt. destruct (m w) as [[b|e|p] w1] eqn:He; [| |done].
  - intros [= <- _] a [= <-]. by eapply Hm.
  - by intros [= <- _].
Qed.
Lemma yields_if {A} {C : Prop} (d : {C} + {~ C}) (m m' : M S A) P :
  yields m P -> yields m' P -> yields (if d then m else m') P.
Proof. by destruct d. Qed.
End Yields.
Lemma yields_zoom {S T A} `{LT : Lens S T} (m : M T A) P : yields m P -> yields (zoom m : M S A) P.
Proof. intros Hm w a w'. unfold zoom. destruct (m _) as [r v] eqn:He. intros [= -> _]. by eapply Hm. Qed.
Lemma yields_stmt {T A} `{F : SqlFaults, E : GoEnv} (f : statement T A) P :
  (forall t id (db : T) a db', f t id db = Done (a, db') -> P a) -> yields (db_stmt f : M T A) P.
Proof.
  intros Hf w a w'. unfold db_stmt. destruct (stmt_fault _); [done|].
  destruct (f _ _ _) as [[b db]|c] eqn:He; [|done].
  destruct (commit_fault _) as [| |]; try done; intros [= <- _]; by eapply Hf.
Qed.

Lemma elem_of_window {A} (x : A) n m l : x ∈ take n (drop m l) -> x ∈ l.
Proof.
  intros (i & Hi & _)%elem_of_take. rewrite lookup_drop in Hi. by eapply list_elem_of_lookup_2.
Qed.

(** ** Stores that answer a user's query with that user's records *)
Class OwnBets {S} (BS : BetStore S) : Prop := {
  own_list : forall u st p n, yields (bets_ListBets u st p n) (Forall (fun b => bet_UserID b = u));
  own_by_reference : forall u ref, yields (bets_GetBetByReference u ref) (fun b => bet_UserID b = u);
}.
Class OwnLedger {S} (ST : Store S) : Prop := {
  own_entries : forall u p n, yields (store_ListTransactions u p n) (Forall (fun t => tx_UserID t = u));
}.

#[export] Instance lens_own_bets {S T} `{LT : Lens S T, BT : BetStore T, !OwnBets BT} :
  OwnBets (lens_BetStore (S := S)).
Proof. constructor; intros; apply yields_zoom; apply own_list || apply own_by_reference. Qed.
#[export] Instance lens_own_ledger {S T} `{LT : Lens S T, ST : Store T, !OwnLedger ST} :
  OwnLedger (lens_Store (S := S)).
Proof. constructor; intros; apply yields_zoom, own_entries. Qed.

Section InMemory.
Context `{E : GoEnv, EL : !GoEnvLaws E}.

Lemma slice_sub {A} (xs : list A) i j ys : slice xs i j = Ok ys -> forall x, x ∈ ys -> x ∈ xs.
Proof.
  unfold slice. case_decide; [|done]. intros [= <-] x. apply elem_of_window.
Qed.
#[export] Instance memory_own_bets : OwnBets InMemoryStore_BetStore.
Proof.
  constructor.
  - intros u st p n w l w'. cbn [bets_ListBets InMemoryStore_BetStore]. unfold InMemoryStore_ListBets.
    unmonad. intros [= Hl _]. rewrite list.Forall_forall. intros b Hb.
    apply (slice_sub _ _ _ _ Hl) in Hb. unfold sortBetsByCreatedDesc in Hb.
    rewrite (insertion_sort_perm before_desc) in Hb. by apply list_elem_of_filter in Hb as [[Hu _] _].
  - intros u ref w b w'. cbn [bets_GetBetByReference InMemoryStore_BetStore].
    unfold InMemoryStore_GetBetByReference. unmonad.
    destruct (list_find _ _) as [[i [id c]]|] eqn:Hf; [|done]. intros [= <- _].
    by apply list_find_Some in Hf as (_ & [Hu _] & _).
Qed.
#[export] Instance memory_own_ledger `{D : Decimal} : OwnLedger memoryStore_Store.
Proof.
  constructor. intros u p n w l w'. cbn [store_ListTransactions memoryStore_Store].
  unfold memoryStore_ListTransactions. unmonad. intros [= <- _]. rewrite list.Forall_forall.
  intros t Ht. by apply list_elem_of_filter in Ht as [Hu _].
Qed.
End InMemory.

Section Postgres.
Context `{E : GoEnv, EL : !GoEnvLaws E, F : SqlFaults, PT : PgTypes}.

Lemma select_page_sub {T R} (rows : T -> list R) less limit offset t id db l db' :
  select_page rows less limit offset t id db = Done (l, db') -> forall x, x ∈ l -> x ∈ rows db.
Proof.
  unfold select_page. repeat case_match; try done. intros [= <- _] x Hx%elem_of_window.
  by rewrite sort_perm in Hx.
Qed.

#[export] Instance pg_own_bets : OwnBets BetPGStore_BetStore.
Proof.
  constructor.
  - intros u st p n. apply yields_wrapped, yields_stmt. intros t id db l db' Hl.
    rewrite list.Forall_forall. intros b Hb. pose proof (select_page_sub _ _ _ _ _ _ _ _ _ Hl _ Hb) as Hin.
    cbn in Hin. case_decide; apply list_elem_of_filter in Hin; tauto.
  - intros u ref. cbn [bets_GetBetByReference BetPGStore_BetStore].
    unfold BetPGStore_GetBetByReference, or_not_found, scan.
    assert (yields (db_stmt (select_bet_by_ref u ref)) (fun o => forall b, o = Some b -> bet_UserID b = u)) as Hs.
    { apply yields_stmt. intros t id db o db' [= <- _] b Hf. apply first_row_Some in Hf as [_ Hr].
      unfold has_bet_ref in Hr. by apply andb_prop in Hr as [Hu%bool_decide_eq_true _]. }
    eapply yields_bind.
    + apply yields_attempt. eapply yields_bind; [exact Hs|].
      intros [b|] Hb; [by apply (yields_ret b (fun b => bet_UserID b = u)), Hb|apply yields_throw].
    + intros [b|e|q] Hb; [by apply yields_ret, Hb| |apply yields_panic].
      case_decide; apply yields_throw.
Qed.
#[export] Instance pg_own_ledger `{D : Decimal} : OwnLedger PGStore_Store.
Proof.
  constructor. intros u p n. cbn [store_ListTransactions PGStore_Store]. unfold PGStore_ListTransactions.
  eapply (yields_bind _ _ (Forall (fun r => tr_UserID r = u))).
  - apply yields_wrapped, yields_stmt. intros t id db l db' Hl. rewrite list.Forall_forall. intros r Hr.
    pose proof (select_page_sub _ _ _ _ _ _ _ _ _ Hl _ Hr) as Hin.
    by apply list_elem_of_filter in Hin as [Hu _].
  - intros rows Hr. apply yields_ret. rewrite list.Forall_fmap. eapply list.Forall_impl; [exact Hr|done].
Qed.
End Postgres.

(** ** The servers *)
Section Servers.
Context {S : Type} `{E : GoEnv, GT : GrpcText, D : Decimal}.
Context {BS : BetStore S} `{OB : !OwnBets BS} {WC : WalletClient S} {OF : OddsFeedClient S}.

Lemma existing_yields u ref :
  yields (existing_bet u ref) (fun o => forall b, o = Some b -> bet_UserID b = u).
Proof.
  eapply yields_bind; [apply yields_attempt, own_by_reference|].
  intros [b|e|p] Hb; [|case_match|]; [|by apply yields_ret|apply yields_throw|apply yields_panic].
  apply yields_ret. intros b' [= <-]. by apply Hb.
Qed.
Lemma debit_stake_yields b : yields (debit_stake b) (fun b' => bet_UserID b' = bet_UserID b).
Proof.
  apply yields_then. intros [tx|e|p]; [|apply yields_then; intros now; apply yields_then; intros; apply yields_throw|apply yields_panic].
  apply yields_then. intros _. by apply yields_ret.
Qed.
Lemma PlaceBet_yields u e m o stake c ref :
  yields (PlaceBet u e m o stake c ref) (fun b => bet_UserID b = u).
Proof.
  unfold PlaceBet. apply yields_if; [apply yields_throw|]. apply yields_then. intros gt.
  destruct (negb gt); [apply yields_throw|].
  eapply yields_bind; [apply existing_yields|]. intros [b|] Hb; [by apply yields_ret, Hb|].
  do 3 (apply yields_then; intros ?). cbn zeta. apply yields_then. intros [id|err|p].
  - apply debit_stake_yields.
  - case_match; [apply yields_wrapped, own_by_reference|apply yields_throw].
  - apply yields_panic.
Qed.

Lemma served_yields {A} md method (handler : M S A) P : yields handler P ->
  yields (sportsbook_served md method handler) P.
Proof. intros H. apply yields_map_err, yields_then. by intros _. Qed.
Lemma conn_place_yields md req :
  yields (conn_PlaceBet (SportsbookConn := sportsbook_server_conn) md req)
    (fun b => pbet_UserId b = pbr_UserId req).
Proof.
  apply served_yields. eapply yields_bind; [apply yields_map_err, PlaceBet_yields|].
  intros b Hb. by apply yields_ret.
Qed.
Lemma conn_bets_yields md u st p n :
  yields (conn_ListBets (SportsbookConn := sportsbook_server_conn) md u st p n)
    (Forall (fun b => pbet_UserId b = u)).
Proof.
  apply served_yields. eapply (yields_bind _ _ (Forall (fun b => bet_UserID b = u))).
  - apply yields_map_err. unfold Service_ListBets. apply yields_if; [apply yields_throw|apply own_list].
  - intros l Hl. apply yields_ret. by rewrite list.Forall_fmap.
Qed.
End Servers.

Section WalletServer.
Context {S : Type} `{E : GoEnv, GT : GrpcText, Hm : Hmac, D : Decimal, R : Redis S, HT : HttpTransport S,
  LC : Lens S Cache}.
Context {ST : Store S} `{OL : !OwnLedger ST} (gs : GRPCServer (S := S)).

Lemma for_map_yields {A B} (f : A -> M S B) (P : A -> Prop) (Q : B -> Prop) xs :
  Forall P xs -> (forall x, P x -> yields (f x) Q) -> yields (for_map f xs) (Forall Q).
Proof.
  intros Hxs Hf. induction Hxs as [|x xs Hx _ IH]; cbn; [apply yields_ret; constructor|].
  eapply yields_bind; [by apply Hf|]. intros y Hy. eapply yields_bind; [exact IH|].
  intros ys Hys. apply yields_ret. by constructor.
Qed.
Lemma conn_transactions_yields md u p n fiat :
  yields (conn_ListTransactions (WalletConn := wallet_server_conn gs) md u p n fiat)
    (Forall (fun t => ptx_UserId t = u)).
Proof.
  apply yields_map_err, yields_then. intros _. cbn zeta.
  eapply (yields_bind _ _ (Forall (fun t => tx_UserID t = u))); [apply own_entries|].
  intros txns Ht. cbn zeta. eapply for_map_yields; [exact Ht|]. intros t Hu.
  apply yields_then. intros v. by apply yields_ret.
Qed.
End WalletServer.

(** ** The gateway *)

(** The users whose bets, entries or withdrawals a reply shows. *)
Definition owners (reply : Reply) : list string :=
  match rp_Body reply with
  | BodyProto (PbBet b) => [pbet_UserId b]
  | BodyProto (PbBets l) => pbet_UserId <$> l
  | BodyProto (PbTransactions l) => ptx_UserId <$> l
  | BodyProto (PbPendingWithdrawals l) => pwr_UserId <$> l
  | _ => []
  end.

Section Gateway.
Context {S : Type} `{E : GoEnv, GT : GrpcText, D : Decimal, Lim : Limiter, HM : Hmac, R : Redis S,
  HT : HttpTransport S, LC : Lens S Cache, LS : Lens S LimiterState, RL : RedisLink S, JW : Jwks S,
  OCn : OddsFeedConn S, Pm : Prometheus}.
Context {BS : BetStore S} `{OB : !OwnBets BS} {WC : WalletClient S} {OF : OddsFeedClient S}.
Context {ST : Store S} `{OL : !OwnLedger ST} (gs : GRPCServer (S := S)).
#[local] Instance bets_conn : SportsbookConn S := sportsbook_server_conn.
#[local] Instance money_conn : WalletConn S := wallet_server_conn gs.
Context (s : Server) (rl : RateLimiter).
Implicit Types (r : HttpReq) (o : option User) (w : World S).

(** Everything shown is the caller's, or the caller is an administrator. *)
Definition may_see o (reply : Reply) : Prop :=
  forall x, x ∈ owners reply -> exists u, o = Some u /\ (x = user_ID u \/ is_admin s u).
Definition shows o (h : Handler S gw_message) : Prop := forall r, rq_User r = o -> yields (h r) (may_see o).

Lemma may_see_none o reply : owners reply = [] -> may_see o reply.
Proof. intros H x. rewrite H. by intros ?%elem_of_nil. Qed.
Lemma may_see_own u reply : Forall (fun x => x = user_ID u) (owners reply) -> may_see (Some u) reply.
Proof. rewrite list.Forall_forall. intros H x Hx. exists u. auto. Qed.
Lemma may_see_admin u reply : is_admin s u -> may_see (Some u) reply.
Proof. intros H x _. exists u. auto. Qed.

Lemma reply_yields {A} st (m : M S A) k (P : A -> Prop) o : yields m P ->
  (forall a, P a -> may_see o (k a)) -> yields (reply_or st m k) (may_see o).
Proof.
  intros Hm Hk. eapply yields_bind; [by apply yields_attempt|].
  intros [a|e|p] H; [by apply yields_ret, Hk, H|by apply yields_ret, may_see_none|apply yields_panic].
Qed.
Lemma reply_public {A} st (m : M S A) k o : (forall a, owners (k a) = []) ->
  yields (reply_or st m k) (may_see o).
Proof. intros Hk. eapply reply_yields; [apply yields_any|]. intros a _. by apply may_see_none. Qed.
Lemma user_yields r o (k : User -> M S Reply) : rq_User r = o ->
  (forall u, o = Some u -> yields (k u) (may_see o)) -> yields (userFromContext r k) (may_see o).
Proof.
  intros <- H. unfold userFromContext. destruct (rq_User r); [by apply H|by apply yields_ret, may_see_none].
Qed.
Lemma decoding_yields {A} (d : res A) (k : A -> M S Reply) P : (forall reply, owners reply = [] -> P reply) ->
  (forall a, d = Ok a -> yields (k a) P) -> yields (decoding d k) P.
Proof. intros HP Hk. destruct d; cbn; [by apply Hk|by apply yields_ret, HP|apply yields_panic]. Qed.
Lemma shows_auth o h : (forall u, shows (Some u) h) -> forall r, rq_User r = o ->
  yields (auth h r) (fun reply => forall x, x ∈ owners reply ->
    exists w u w1, jwks_UserFromRequest r w = (Ok u, w1) /\ (x = user_ID u \/ is_admin s u)).
Proof.
  intros Hh r Hr w reply w'. unfold auth, attempt, mbind, M_bind.
  destruct (jwks_UserFromRequest r w) as [[u|e|p] w1] eqn:Hj; [| |done].
  - intros Hrep x Hx. destruct (Hh u (with_user u r) eq_refl _ _ _ Hrep x Hx) as (u' & [= <-] & Hu). eauto 6.
  - intros [= <- _] x Hx. by apply elem_of_nil in Hx.
Qed.

(** Steps through a handler: its guards, then its one call. *)
#[local] Ltac see := repeat first
  [ apply user_yields; [eassumption|]; intros ? [= <-]
  | apply decoding_yields; [intros; by apply may_see_none|]; intros ? ?
  | apply reply_public; intros; by repeat case_match
  | apply yields_ret, may_see_none; done
  | case_match ].

Lemma shows_public o : Forall (shows o)
  [handleHealth; handleSupported s; handleRates; handleXcashWebhook s; handleListSports;
   handleListLeagues; handleListEvents; handleGetEvent; handleListMarkets;
   handleListOutcomes; handleListLiveEvents; MetricsHandler].
Proof.
  each; intros r Hr;
    unfold handleHealth, handleSupported, handleRates, handleXcashWebhook, handleListSports,
      handleListLeagues, handleListEvents, handleGetEvent, handleListMarkets,
      handleListOutcomes, handleListLiveEvents, pagination; see.
  - apply yields_then. intros pairs. by apply yields_ret, may_see_none.
  - apply yields_then. intros t. by apply yields_ret, may_see_none.
Qed.

Lemma shows_user u : Forall (shows (Some u))
  [handleBalance s; handleTransactions; handleDepositAddress s; handleWithdraw s; handleBets; handleGetBet].
Proof.
  assert (forall xs, Forall (fun x => x = user_ID u) xs -> forall reply, owners reply = xs ->
    may_see (Some u) reply) as Hown by (intros xs Hxs reply <-; by apply may_see_own).
  assert (shows (Some u) handlePlaceBet) as Hp.
  { intros r Hr. unfold handlePlaceBet. see. rename H into Hreq.
    eapply reply_yields; [apply conn_place_yields|]. intros b Hb.
    apply (Hown [pbet_UserId b]); [|done]. repeat constructor. rewrite Hb. unfold decode_place_bet in Hreq. unmonad.
    by repeat (case_match; simplify_eq/=). }
  assert (shows (Some u) handleListBets) as Hl.
  { intros r Hr. unfold handleListBets. see. eapply reply_yields; [apply conn_bets_yields|].
    intros l Hb.
    apply (Hown (pbet_UserId <$> l)); [by rewrite list.Forall_fmap|done]. }
  assert (shows (Some u) handleBets) as Hb.
  { intros r Hr. unfold handleBets. repeat case_decide; [by apply Hp|by apply Hl|].
    by apply yields_ret, may_see_none. }
  each; [..|exact Hb|]; intros r Hr;
    unfold handleBalance, handleTransactions, handleDepositAddress, handleWithdraw, handleGetBet; see.
  - eapply reply_yields; [apply conn_transactions_yields|]. intros l Ht.
    apply (Hown (ptx_UserId <$> l)); [by rewrite list.Forall_fmap|done].
  - eapply reply_yields; [apply yields_any|]. intros b _. case_decide as Hne; [by apply may_see_none|].
    apply (Hown [pbet_UserId b]); [|done]. by repeat constructor.
Qed.

Lemma shows_admin u : is_admin s u -> Forall (shows (Some u))
  [handleListPendingWithdrawals; handleReviewWithdrawal; handleSettleBet].
Proof. intros Ha. each; intros r Hr w reply w' _; by apply may_see_admin. Qed.
Lemma shows_guard u h : (is_admin s u -> shows (Some u) h) -> shows (Some u) (admin s h).
Proof.
  intros H r Hr. unfold admin. rewrite Hr. case_decide as Ha; [by apply H|by apply yields_ret, may_see_none].
Qed.

(** ** Routes *)

(** Everything shown is a token's owner's, or its owner is an administrator. *)
Definition disclosed r (reply : Reply) : Prop :=
  forall x, x ∈ owners reply -> exists w u w1,
    jwks_UserFromRequest r w = (Ok u, w1) /\ (x = user_ID u \/ is_admin s u).
Definition discreet (h : Handler S gw_message) : Prop :=
  forall r, rq_User r = None -> yields (h r) (disclosed r).

Lemma discreet_public h : shows None h -> discreet h.
Proof. intros H r Hr w reply w' Hh x Hx. by destruct (H r Hr w reply w' Hh x Hx) as (u & [=] & _). Qed.
Lemma discreet_auth h : (forall u, shows (Some u) h) -> discreet (auth h).
Proof. intros H r Hr. by eapply shows_auth. Qed.

Definition route_discreet (p : list segment * Handler S gw_message) : Prop :=
  exists pattern h, p.2 = WithRoutePattern pattern h /\ discreet h.
Lemma routes_discreet : Forall route_discreet (routes s).
Proof.
  pose proof (shows_public None) as Hp. rewrite !list.Forall_cons in Hp.
  assert (forall pattern h, shows None h -> route_discreet (route pattern h)) as Ho
    by (intros pattern h H; exists pattern, h; split; [done|by apply discreet_public]).
  assert (forall pattern h, (forall u, shows (Some u) h) -> route_discreet (route pattern (auth h))) as Hu
    by (intros pattern h H; exists pattern, (auth h); split; [done|by apply discreet_auth]).
  assert (forall pattern h, (forall u, is_admin s u -> shows (Some u) h) ->
    route_discreet (route pattern (auth (admin s h)))) as Ha
    by (intros pattern h H; apply Hu; intros u; apply shows_guard, H).
  unfold routes. each;
    try (apply Ho; tauto);
    try (apply Ha; intros u Hadm; pose proof (shows_admin u Hadm) as HF;
         rewrite !list.Forall_cons in HF; tauto);
    try (apply Hu; intros u; pose proof (shows_user u) as HF; rewrite !list.Forall_cons in HF; tauto).
Qed.

Lemma dispatch_discreet table path r : Forall route_discreet table -> rq_User r = None ->
  yields (dispatch table path r) (fun reply => exists r', reaches r r' /\ disclosed r' reply).
Proof.
  induction 1 as [|[pattern h] table (p & h' & Hh & Hs) _ IH]; intros Hr; cbn [dispatch].
  - apply yields_ret. exists r. split; [by left|]. by intros x ?%elem_of_nil.
  - destruct (match_segments pattern path ∅) as [values|]; [|by apply IH].
    cbn in Hh. subst h. intros w reply w' Hrep.
    exists (with_RoutePattern p (with_path_values values r)). split; [right; by exists p, values|].
    by apply (Hs (with_RoutePattern p (with_path_values values r)) Hr w reply w').
Qed.

(** C30.  Privacy, through gateway, wallet and sportsbook, over every pair of stores that answer a
    user's query with that user's records (both in-memory and both Postgres stores do): every
    bet, ledger entry and withdrawal request that a reply of the gateway shows, whatever the
    request asks for, belongs to the owner of the token that the request carried and that
    was verified, unless that owner is a configured administrator.  Without a valid token
    nothing of anyone is shown. *)
Theorem gateway_privacy r w reply w' : rq_User r = None -> Router_mux s rl r w = (Ok reply, w') ->
  forall x, x ∈ owners reply -> exists r' v u v', reaches r r' /\
    jwks_UserFromRequest r' v = (Ok u, v') /\ (x = user_ID u \/ is_admin s u).
Proof.
  intros Hr Hrep x Hx.
  assert (yields (Router_mux s rl r) (fun reply => exists r', reaches r r' /\ disclosed r' reply)) as H.
  { assert (forall reply, owners reply = [] -> exists r', reaches r r' /\ disclosed r' reply) as Hnone.
    { intros reply0 H0. exists r. split; [by left|]. intros y. rewrite H0. by intros ?%elem_of_nil. }
    unfold Router_mux, RateLimiter_Middleware. apply yields_then.
    intros [[]|e|p]; [|by apply yields_ret, Hnone|by apply yields_ret, Hnone|apply yields_panic].
    unfold cors. apply yields_if; [by apply yields_ret, Hnone|].
    eapply (yields_bind _ _ (fun reply => exists r', reaches r r' /\ disclosed r' reply)).
    - unfold mux. destruct (Split (rq_Path r) "/"%char) as [|[|c y] path];
        [by apply yields_ret, Hnone|by apply dispatch_discreet; [apply routes_discreet|]|by apply yields_ret, Hnone].
    - intros reply0 H0. by apply yields_ret. }
  destruct (H w reply w' Hrep) as (r' & Hr' & Hd). destruct (Hd x Hx) as (v & u & v' & Hj & Hu).
  by exists r', v, u, v'.
Qed.
End Gateway.

(** ** Alice's bets, and Bob's *)
Module PrivacyDemo.
Import Demo.

#[export] Instance bucket : Limiter := {
  limiter := Z;
  NewLimiter rate burst := burst;
  limiter_Allow now tokens := if 1 <=? tokens then (true, tokens - 1) else (false, tokens);
}.
Record State : Type := mkState {
  st_bets : InMemoryStore; st_money : memoryStore; st_cache : Cache; st_limits : LimiterState }.
#[export] Instance bets_lens : Lens State InMemoryStore :=
  { lget := st_bets; lset b s := mkState b (st_money s) (st_cache s) (st_limits s) }.
#[export] Instance money_lens : Lens State memoryStore :=
  { lget := st_money; lset m s := mkState (st_bets s) m (st_cache s) (st_limits s) }.
#[export] Instance cache_lens : Lens State Cache :=
  { lget := st_cache; lset c s := mkState (st_bets s) (st_money s) c (st_limits s) }.
#[export] Instance limits_lens : Lens State LimiterState :=
  { lget := st_limits; lset l s := mkState (st_bets s) (st_money s) (st_cache s) l }.
#[export] Instance hmac : Hmac := { Sign m k := k +:+ m }.
#[export] Instance no_redis : Redis State :=
  { redis_SetNX _ _ _ := mthrow (ErrNew "no redis"); redis_expiry _ _ := 0 }.
#[export] Instance no_link : RedisLink State := { redis_reach := mthrow (ErrNew "no redis") }.
#[export] Instance no_http : HttpTransport State := { http_Do _ := mthrow (ErrNew "no network") }.
#[export] Instance prometheus : Prometheus :=
  { valid_label := fun _ => true; exposition := fun _ _ => (∅, "") }.
Definition down {A} : M State A := mthrow (ErrStatus Unknown "down").
#[export] Instance no_odds : OddsFeedConn State := {
  conn_ListSports _ _ := down; conn_ListLeagues _ _ _ := down;
  conn_ListEvents _ _ _ _ _ := down; conn_GetEvent _ := down;
  conn_ListMarkets _ _ _ _ := down; conn_ListOutcomes _ _ _ _ := down;
  conn_ListLiveScores _ _ _ _ := down;
}.
#[export] Instance jwks : Jwks State := {
  jwks_UserFromRequest r :=
    if decide (Header_Get r "Authorization" = "Bearer alice") then mret (mkUser "alice" "" "")
    else mthrow (ErrNew "bad token");
}.

Definition bet_of (id user : string) : Bet :=
  mkBet id user "e" "m" "o" "1.5" "10" "15" "USDT" StatusPending id "tx" "" 1 None.
Definition two_bets : World State :=
  mkWorld 0 (mkState {["b1" := bet_of "b1" "alice"; "b2" := bet_of "b2" "bob"]} NewInMemoryStore
    (NewCache 0) (mkLimiterState ∅ ∅)).
Definition server : GRPCServer (S := State) :=
  mkGRPCServer (NewService (NewClient "" "" "") (NewWebhookValidator "key") ["USDT:tron"]) None.
Definition gateway : Server := mkServer ∅ ∅ true ["USDT"] ["tron"] ∅ (mkLimits "" "" "" "" "" "").
Definition asks (path : string) : HttpReq :=
  mkHttpReq "GET" path {["Authorization" := "Bearer alice"]} "10.0.0.1:80" ∅ ∅ "" None None None.
Definition shown (path : string) : res Reply * World State :=
  Router_mux (WCn := wallet_server_conn (ST := lens_Store) server)
    (SCn := sportsbook_server_conn (BS := lens_BetStore) (WC := noopWalletClient) (OF := noopOddsFeedClient))
    gateway (NewRateLimiter "memory" 5 10) (asks path) two_bets.

(** Bob's bet is there, but not for Alice. *)
Example bobs_bet : rp_Status <$> (shown "/api/bets/b2").1 = Ok 404 /\ rp_Status <$> (shown "/api/bets/b1").1 = Ok 200.
Proof. split; vm_compute; reflexivity. Qed.

Lemma gateway_privacy_witness : exists reply w', shown "/api/bets" = (Ok reply, w') /\
  owners reply = ["alice"] /\
  exists r' v u v', reaches (asks "/api/bets") r' /\ jwks_UserFromRequest r' v = (Ok u, v') /\
    ("alice" = user_ID u \/ is_admin gateway u).
Proof.
  destruct (shown "/api/bets") as [res w'] eqn:Hs.
  assert (exists reply, res = Ok reply /\ owners reply = ["alice"]) as (reply & -> & Ho).
  { apply (f_equal fst) in Hs. vm_compute in Hs. cbn [fst] in Hs. rewrite <- Hs.
    eexists. split; reflexivity. }
  exists reply, w'. split; [reflexivity|]. split; [exact Ho|].
  apply (gateway_privacy (BS := lens_BetStore) (ST := lens_Store) (WC := noopWalletClient)
    (OF := noopOddsFeedClient) server gateway (NewRateLimiter "memory" 5 10) (asks "/api/bets")
    two_bets reply w' eq_refl Hs "alice").
  rewrite Ho. left.
Defined.
End PrivacyDemo.
